(** * quark: grading pipeline, verdict algebra and dispatch queue

    A shallow embedding of the parts of the quark grader/runner that the
    specification talks about:

    - [Module Runner]: the runner package ([worseVerdict], [sliceIndex],
      [parseOutputOnlyFile], [Grade]);
    - [Module Grader]: the grader package ([RunContext], [Close], [Requeue],
      [Queue], [InflightMonitor]);
    - [Module QueueManager]: the queue manager of the grader package;
    - [Module Main]: [v1CompatInjectRuns] of the grader command;
    - [Module Handlers]: the request checks of its HTTP handlers;
    - [Module RunnerMain]: the retry loop and the [blockingReader] of the
      runner command.

    Conventions.  A Go [int]/[int64] is a [Z] (with the wrap-around written
    out where arithmetic can overflow), a Go [string] is a [string] (a
    sequence of bytes), a [float64] quantity (scores, times, weights) is an
    exact rational [Qc], a Go map is a [gmap] (or an association list where
    the iteration order matters), a nil-able pointer is an [option].  A
    run-time panic is an explicit outcome.  Everything that lives outside the
    repository (sandbox backend, file system, zip and data-URL decoders, the
    database) is an oracle collected in a record that the functions take as
    an argument. *)

From Stdlib Require Import ZArith QArith Qcanon Ascii String List Lia Bool.
From Stdlib Require Import DecimalString.
From stdpp Require Import base option list gmap strings.

Import ListNotations.
Open Scope Z_scope.
Open Scope list_scope.

(** ** Go primitives shared by the packages *)

Module Go.

(** [l[i]]: indexing a slice with a Go [int]; [None] is the
    index-out-of-range panic. *)
Definition index {A} (l : list A) (i : Z) : option A :=
  if i <? 0 then None else nth_error l (Z.to_nat i).

(** [len(l)] as a Go [int]. *)
Definition len {A} (l : list A) : Z := Z.of_nat (List.length l).

(** Two's-complement wrap-around of an [int64] result. *)
Definition wrap64 (z : Z) : Z := (z + 2 ^ 63) mod 2 ^ 64 - 2 ^ 63.

(** [uint64(x)] for an [int64] [x]. *)
Definition uint64_of_int64 (z : Z) : Z := z mod 2 ^ 64.

(** [strings.HasSuffix(s, suffix)]:
    [len(s) >= len(suffix) && s[len(s)-len(suffix):] == suffix]. *)
Definition HasSuffix (s suffix : string) : bool :=
  (String.length suffix <=? String.length s)%nat &&
  String.eqb
    (substring (String.length s - String.length suffix)
               (String.length suffix) s)
    suffix.

(** [strings.LastIndex(s, sep)] for a one-byte separator: the index of the
    last occurrence of [c] in [s], or [-1]. *)
Fixpoint LastIndexByte (s : string) (c : ascii) : Z :=
  match s with
  | EmptyString => -1
  | String a s' =>
      let r := LastIndexByte s' c in
      if 0 <=? r then r + 1
      else if Ascii.eqb a c then 0 else -1
  end.

(** [s[n:]] for [0 <= n <= len(s)]. *)
Fixpoint slice_from (n : nat) (s : string) : string :=
  match n, s with
  | O, _ => s
  | S n', String _ s' => slice_from n' s'
  | S _, EmptyString => EmptyString
  end.

(** [path.Join(elems...)]: the non-empty elements separated by a slash.
    (The lexical cleaning [path.Join] performs afterwards is not modelled;
    no property below looks inside a joined path.) *)
Fixpoint path_Join (elems : list string) : string :=
  match elems with
  | [] => ""
  | e :: rest =>
      if String.eqb e "" then path_Join rest
      else
        let r := path_Join rest in
        if String.eqb r "" then e else e +:+ "/" +:+ r
  end.

(** [path.Base(p)] for a non-empty path without a trailing slash: the text
    after its last slash. *)
Definition path_Base (p : string) : string :=
  let idx := LastIndexByte p "/"%char in
  if idx <? 0 then p else slice_from (Z.to_nat (idx + 1)) p.

(** The one-byte string written ["\n"] in Go. *)
Definition newline : string := String (ascii_of_nat 10) EmptyString.

(** [strconv.FormatUint(n, 10)]. *)
Definition FormatUint (n : Z) : string :=
  NilZero.string_of_uint (N.to_uint (Z.to_N n)).

(** Comparisons of [float64] values (on the rational model). *)
Definition float_eqb (a b : Qc) : bool := Qeq_bool a b.
Definition float_gtb (a b : Qc) : bool :=
  match (a ?= b)%Qc with Gt => true | _ => false end.

(** [float64(n)] for an integer [n]. *)
Definition float_of_int (n : Z) : Qc := Q2Qc (inject_Z n).

End Go.

(** ** The common package: problem settings (common/problemsettings.go) *)

Module Common.

Module LimitsSettings.
Record t := mk {
  ExtraWallTime : Z;
  MemoryLimit : Z;
  OutputLimit : Z;
  OverallWallTimeLimit : Z;
  TimeLimit : Z
}.
End LimitsSettings.

Module ValidatorSettings.
Record t := mk {
  Lang : option string;
  Name : string;
  Tolerance : option Qc;
  Limits : option LimitsSettings.t
}.
End ValidatorSettings.

Module MakefileRule.
Record t := mk {
  Targets : list string;
  Requisites : list string;
  Compiler : string;
  Params : string;
  Debug : bool
}.
End MakefileRule.

Module InteractiveInterface.
Record t := mk {
  MakefileRules : list MakefileRule.t;
  Files : list (string * string)
}.
End InteractiveInterface.

(** [Interfaces] is a Go map of maps; it is kept as an association list in
    the order in which a [range] statement visits it (Go leaves that order
    unspecified). *)
Module InteractiveSettings.
Record t := mk {
  Interfaces : list (string * list (string * InteractiveInterface.t));
  Main : string;
  ModuleName : string;
  ParentLang : string;
  LibinteractiveVersion : string
}.
End InteractiveSettings.

Module CaseSettings.
Record t := mk { Name : string; Weight : Qc }.
End CaseSettings.

Module GroupSettings.
Record t := mk {
  Cases : list CaseSettings.t;
  Name : string;
  Weight : Qc
}.
End GroupSettings.

Module ProblemSettings.
Record t := mk {
  Cases : list GroupSettings.t;
  Interactive : option InteractiveSettings.t;
  Limits : LimitsSettings.t;
  Slow : bool;
  Validator : ValidatorSettings.t
}.
End ProblemSettings.

(** The fields of [common.Run] that the grader and the runner read. *)
Module Run.
Record t := mk {
  AttemptID : Z;
  Source : string;
  Language : string;
  InputHash : string;
  MaxScore : Qc;
  Debug : bool
}.
End Run.

(** Lookup in a Go map kept as an association list: [m[k]]. *)
Fixpoint assoc {A} (m : list (string * A)) (k : string) : option A :=
  match m with
  | [] => None
  | (k', v) :: rest => if String.eqb k' k then Some v else assoc rest k
  end.

End Common.

(** ** The runner package *)

Module Runner.

(** *** Verdict algebra *)

Definition verdictList : list string :=
  [ "JE"; "CE"; "MLE"; "RFE"; "RTE"; "TLE"; "OLE"; "WA"; "PA"; "AC"; "OK" ].

Fixpoint sliceIndex_loop (n : nat) (i : Z) (predicate : Z -> bool) : Z :=
  match n with
  | O => -1
  | S n' =>
      if predicate i then i else sliceIndex_loop n' (i + 1) predicate
  end.

(** [for i := 0; i < limit; i++ { if predicate(i) { return i } }; return -1] *)
Definition sliceIndex (limit : Z) (predicate : Z -> bool) : Z :=
  sliceIndex_loop (Z.to_nat limit) 0 predicate.

Definition min (a b : Z) : Z := if a <? b then a else b.

(** The closure [func(i int) bool { return verdictList[i] == a }]. *)
Definition verdictIs (a : string) (i : Z) : bool :=
  match Go.index verdictList i with
  | Some v => String.eqb v a
  | None => false
  end.

(** [worseVerdict]; [None] is the index-out-of-range panic of
    [verdictList[min(idxA, idxB)]]. *)
Definition worseVerdict (a b : string) : option string :=
  let idxA := sliceIndex (Go.len verdictList) (verdictIs a) in
  let idxB := sliceIndex (Go.len verdictList) (verdictIs b) in
  Go.index verdictList (min idxA idxB).

(** *** Results *)

(** Modelled from the spec: the declaration of [RunMetadata] is not under
    src/; section 6 lists its fields ([Verdict], [Time], [WallTime],
    [Memory] and an opaque status integer). *)
Module RunMetadata.
Record t := mk {
  Verdict : string;
  Time : Qc;
  WallTime : Qc;
  Memory : Z;
  Status : Z
}.
(** The composite literal [RunMetadata{Verdict: v}]. *)
Definition ofVerdict (v : string) : t := mk v 0%Qc 0%Qc 0 0.
Definition setTime (x : Qc) (m : t) : t :=
  mk (Verdict m) x (WallTime m) (Memory m) (Status m).
Definition setWallTime (x : Qc) (m : t) : t :=
  mk (Verdict m) (Time m) x (Memory m) (Status m).
Definition setMemory (x : Z) (m : t) : t :=
  mk (Verdict m) (Time m) (WallTime m) x (Status m).
End RunMetadata.

Module CaseResult.
Record t := mk {
  Verdict : string;
  Name : string;
  Score : Qc;
  ContestScore : Qc;
  MaxScore : Qc;
  Meta : gmap string RunMetadata.t
}.
Definition setVerdict (v : string) (c : t) : t :=
  mk v (Name c) (Score c) (ContestScore c) (MaxScore c) (Meta c).
Definition setScore (x : Qc) (c : t) : t :=
  mk (Verdict c) (Name c) x (ContestScore c) (MaxScore c) (Meta c).
Definition setContestScore (x : Qc) (c : t) : t :=
  mk (Verdict c) (Name c) (Score c) x (MaxScore c) (Meta c).
Definition setMeta (m : gmap string RunMetadata.t) (c : t) : t :=
  mk (Verdict c) (Name c) (Score c) (ContestScore c) (MaxScore c) m.
End CaseResult.

Module GroupResult.
Record t := mk {
  Group : string;
  Score : Qc;
  ContestScore : Qc;
  MaxScore : Qc;
  Cases : list CaseResult.t
}.
Definition setScore (x : Qc) (g : t) : t :=
  mk (Group g) x (ContestScore g) (MaxScore g) (Cases g).
Definition setContestScore (x : Qc) (g : t) : t :=
  mk (Group g) (Score g) x (MaxScore g) (Cases g).
Definition setCases (cs : list CaseResult.t) (g : t) : t :=
  mk (Group g) (Score g) (ContestScore g) (MaxScore g) cs.
End GroupResult.

Module RunResult.
Record t := mk {
  Verdict : string;
  CompileError : option string;
  CompileMeta : gmap string RunMetadata.t;
  Score : Qc;
  ContestScore : Qc;
  MaxScore : Qc;
  Time : Qc;
  WallTime : Qc;
  Memory : Z;
  JudgedBy : string;
  Groups : list GroupResult.t
}.
Definition setVerdict (v : string) (r : t) : t :=
  mk v (CompileError r) (CompileMeta r) (Score r) (ContestScore r)
     (MaxScore r) (Time r) (WallTime r) (Memory r) (JudgedBy r) (Groups r).
Definition setCompileError (e : option string) (r : t) : t :=
  mk (Verdict r) e (CompileMeta r) (Score r) (ContestScore r)
     (MaxScore r) (Time r) (WallTime r) (Memory r) (JudgedBy r) (Groups r).
Definition setCompileMeta (m : gmap string RunMetadata.t) (r : t) : t :=
  mk (Verdict r) (CompileError r) m (Score r) (ContestScore r)
     (MaxScore r) (Time r) (WallTime r) (Memory r) (JudgedBy r) (Groups r).
Definition setScore (x : Qc) (r : t) : t :=
  mk (Verdict r) (CompileError r) (CompileMeta r) x (ContestScore r)
     (MaxScore r) (Time r) (WallTime r) (Memory r) (JudgedBy r) (Groups r).
Definition setContestScore (x : Qc) (r : t) : t :=
  mk (Verdict r) (CompileError r) (CompileMeta r) (Score r) x
     (MaxScore r) (Time r) (WallTime r) (Memory r) (JudgedBy r) (Groups r).
Definition setTime (x : Qc) (r : t) : t :=
  mk (Verdict r) (CompileError r) (CompileMeta r) (Score r)
     (ContestScore r) (MaxScore r) x (WallTime r) (Memory r) (JudgedBy r)
     (Groups r).
Definition setWallTime (x : Qc) (r : t) : t :=
  mk (Verdict r) (CompileError r) (CompileMeta r) (Score r)
     (ContestScore r) (MaxScore r) (Time r) x (Memory r) (JudgedBy r)
     (Groups r).
Definition setMemory (x : Z) (r : t) : t :=
  mk (Verdict r) (CompileError r) (CompileMeta r) (Score r)
     (ContestScore r) (MaxScore r) (Time r) (WallTime r) x (JudgedBy r)
     (Groups r).
Definition setGroups (gs : list GroupResult.t) (r : t) : t :=
  mk (Verdict r) (CompileError r) (CompileMeta r) (Score r)
     (ContestScore r) (MaxScore r) (Time r) (WallTime r) (Memory r)
     (JudgedBy r) gs.
Definition setMaxScore (x : Qc) (r : t) : t :=
  mk (Verdict r) (CompileError r) (CompileMeta r) (Score r)
     (ContestScore r) x (Time r) (WallTime r) (Memory r) (JudgedBy r)
     (Groups r).
End RunResult.

Inductive binaryType := binaryProblemsetter | binaryContestant | binaryValidator.

Definition binaryType_eqb (a b : binaryType) : bool :=
  match a, b with
  | binaryProblemsetter, binaryProblemsetter
  | binaryContestant, binaryContestant
  | binaryValidator, binaryValidator => true
  | _, _ => false
  end.

Module binary.
Record t := mk {
  name : string;
  target : string;
  language : string;
  binPath : string;
  outputPathPrefix : string;
  binaryType : binaryType;
  receiveInput : bool;
  sourceFiles : list string;
  extraFlags : list string;
  extraMountPoints : gmap string string
}.
End binary.

Module intermediateRunResult.
Record t := mk {
  runMeta : option RunMetadata.t;
  binaryType : binaryType
}.
End intermediateRunResult.

(** *** The outside world *)

(** Result of reading a file: its contents, or the text of the error. *)
Inductive io_result := IoOk (contents : string) | IoErr (msg : string).

(** An entry of a zip archive: the name and uncompressed size of its header
    and what [f.Open()] followed by [io.Copy] yields. *)
Module ZipFile.
Record t := mk {
  Name : string;
  UncompressedSize64 : Z;
  Data : io_result
}.
End ZipFile.

(** The two decoders used by [parseOutputOnlyFile]:
    [dataurl.DecodeString] ([None] when the text is not a data-URL) and
    [zip.NewReader] (the error text or the entries in archive order). *)
Module Decoders.
Record t := mk {
  dataurl_DecodeString : string -> option string;
  zip_NewReader : string -> string + list ZipFile.t
}.
End Decoders.

(** *** Small helpers *)

Definition extraParentFlags (language : string) : list string :=
  if String.eqb language "c" || String.eqb language "cpp"
     || String.eqb language "cpp11"
  then ["-Wl,-e__entry"] else [].

Definition normalizedLanguage (language : string) : string :=
  if String.eqb language "cpp11" then "cpp" else language.

(** [if idx := strings.LastIndex(fileName, "/"); idx != -1
      { fileName = fileName[idx+1:] }] *)
Definition stripDirectories (fileName : string) : string :=
  let idx := Go.LastIndexByte fileName "/"%char in
  if negb (idx =? -1) then Go.slice_from (Z.to_nat (idx + 1)) fileName
  else fileName.

(** *** parseOutputOnlyFile *)

Definition expectedFileNames (settings : Common.ProblemSettings.t)
  : gset string :=
  fold_left
    (fun acc groupSettings =>
       fold_left
         (fun acc caseSettings =>
            {[ Common.CaseSettings.Name caseSettings +:+ ".out" ]} ∪ acc)
         (Common.GroupSettings.Cases groupSettings) acc)
    (Common.ProblemSettings.Cases settings) ∅.

(** One iteration of [for _, f := range z.File]. *)
Definition parseOutputOnlyEntry (settings : Common.ProblemSettings.t)
    (result : gmap string string) (f : ZipFile.t) : gmap string string :=
  if negb (Go.HasSuffix (ZipFile.Name f) ".out") then result
  else
    let fileName := stripDirectories (ZipFile.Name f) in
    if negb (bool_decide (fileName ∈ expectedFileNames settings)) then result
    else if Go.uint64_of_int64
              (Common.LimitsSettings.OutputLimit
                 (Common.ProblemSettings.Limits settings))
            <? ZipFile.UncompressedSize64 f
    then <[ fileName := "" ]> result
    else
      match ZipFile.Data f with
      | IoErr _ => result
      | IoOk contents => <[ fileName := contents ]> result
      end.

(** Returns the map and the error ([None] is [nil]). *)
Definition parseOutputOnlyFile (dec : Decoders.t) (data : string)
    (settings : Common.ProblemSettings.t)
  : gmap string string * option string :=
  match Decoders.dataurl_DecodeString dec data with
  | None => (<[ "Main.out" := data ]> ∅, None)
  | Some payload =>
      match Decoders.zip_NewReader dec payload with
      | inl err => (∅, Some err)
      | inr files =>
          (fold_left (parseOutputOnlyEntry settings) files ∅, None)
      end
  end.

(** *** The collaborators of Grade *)

(** The sandbox backend.  [Compile] and [Run] take the arguments of the Go
    methods (without the logging context and the input handle) and return
    the metadata pointer ([None] is [nil]) and the error ([None] is
    [nil]). *)
Module Sandbox.
Record t := mk {
  Supported : bool;
  Compile :
    string -> list string -> string -> string -> string -> string ->
    string -> list string -> option RunMetadata.t * option string;
  Run :
    string -> string -> string -> string -> string -> string -> string ->
    option string -> option string -> option string ->
    list string -> gmap string string ->
    option RunMetadata.t * option string
}.
End Sandbox.

Module Input.
Record t := mk { Path : string; Settings : Common.ProblemSettings.t }.
End Input.

(** What Grade observes of its environment besides the sandbox.
    - [stageInteractive], [stageMain], [stageValidator]: the first error, if
      any, that the [os.MkdirAll] / [os.Link] / [ioutil.WriteFile] /
      [syscall.Mkfifo] calls report while the sources of the interactive
      binaries, of [Main], and of the custom validator are laid out (a
      call that reports an error ends Grade, so no panic follows it);
    - [readFile]: [os.Open] followed by [ioutil.ReadAll];
    - [exists_]: [os.Stat] did not report [IsNotExist];
    - [canOpen]: [os.Open] succeeded;
    - [arrival]: the order in which the results of the goroutines started
      for a case reach [metaChan];
    - [CalculateScore]: the score computed from the contestant and expected
      files (the function is declared outside src/; its error is only
      logged);
    - [uploadFiles]: the error, if any, of the final upload. *)
Module World.
Record t := mk {
  RuntimePath : string;
  decoders : Decoders.t;
  stageInteractive : list binary.t -> option string;
  stageMain : option string;
  stageValidator : option string;
  readFile : string -> io_result;
  exists_ : string -> bool;
  canOpen : string -> bool;
  arrival : string -> list binary.t -> list binary.t;
  CalculateScore :
    Common.ValidatorSettings.t -> string -> string -> Qc;
  uploadFiles : option string
}.
End World.

(** How a call of Grade ends: it returns [(runResult, err)], it panics, or
    it waits forever on a channel. *)
Inductive result :=
| Returned (runResult : RunResult.t) (err : option string)
| Panicked
| Blocked.

(** A block of statements either falls through with a value or ends the
    function. *)
Inductive step (A : Type) :=
| Next (a : A)
| Stop (res : result).
Arguments Next {A} a.
Arguments Stop {A} res.

#[global] Instance step_bind : MBind step := fun A B k m =>
  match m with
  | Next a => k a
  | Stop res => Stop res
  end.

Definition finish (m : step result) : result :=
  match m with
  | Next res => res
  | Stop res => res
  end.

(** [if err != nil { return runResult, err }] *)
Definition check (runResult : RunResult.t) (err : option string) : step unit :=
  match err with
  | Some e => Stop (Returned runResult (Some e))
  | None => Next tt
  end.

(** Dereferencing a pointer that may be nil. *)
Definition deref {A} (p : option A) : step A :=
  match p with
  | Some a => Next a
  | None => Stop Panicked
  end.

(** *** The binary plan *)

(** [None] is the panic of [iface.MakefileRules[0]] on an empty slice. *)
Definition normalizedSourceFiles (runRoot lang name : string)
    (iface : Common.InteractiveInterface.t) : option (list string) :=
  let binRoot := Go.path_Join [runRoot; name; "bin"] in
  match Common.InteractiveInterface.MakefileRules iface with
  | [] => None
  | rule :: _ =>
      Some (map (fun requisite =>
                   Go.path_Join [binRoot; Go.path_Base requisite])
                (Common.MakefileRule.Requisites rule))
  end.

Definition generateMountpoint (runRoot name : string) : gmap string string :=
  {[ Go.path_Join [runRoot; name; "pipes"] := "/home/" +:+ name +:+ "_pipes" ]}.

Definition generateParentMountpoints (runRoot : string)
    (interactive : Common.InteractiveSettings.t) : gmap string string :=
  fold_left
    (fun result '(name, _) =>
       if String.eqb name (Common.InteractiveSettings.Main interactive)
       then result
       else
         (* every [result[src] = dst] of the one-entry map *)
         generateMountpoint runRoot name ∪ result)
    (Common.InteractiveSettings.Interfaces interactive) ∅.

(** The driver binary of an interactive problem. *)
Definition parentBinary (runRoot : string)
    (interactive : Common.InteractiveSettings.t) (sources : list string)
  : binary.t :=
  let Main := Common.InteractiveSettings.Main interactive in
  let ParentLang := Common.InteractiveSettings.ParentLang interactive in
  binary.mk Main Main ParentLang (Go.path_Join [runRoot; Main; "bin"]) ""
    binaryProblemsetter true sources (extraParentFlags ParentLang)
    (generateParentMountpoints runRoot interactive).

(** [for name, lang_iface := range interactive.Interfaces]: one contestant
    binary per interface other than the main one. *)
Fixpoint contestantBinaries (runRoot : string) (run : Common.Run.t)
    (Main : string) (runResult : RunResult.t)
    (interfaces : list (string * list (string * Common.InteractiveInterface.t)))
    (binaries : list binary.t) : step (list binary.t) :=
  match interfaces with
  | [] => Next binaries
  | (name, lang_iface) :: rest =>
      if String.eqb name Main
      then contestantBinaries runRoot run Main runResult rest binaries
      else
        let Language := Common.Run.Language run in
        match Common.assoc lang_iface (normalizedLanguage Language) with
        | None =>
            let compileError :=
              "libinteractive does not support language '" +:+ Language
              +:+ "'" in
            Stop (Returned
                    (RunResult.setCompileError (Some compileError)
                       (RunResult.setVerdict "CE" runResult))
                    None)
        | Some iface =>
            let target :=
              if String.eqb Language "py" || String.eqb Language "java"
              then name +:+ "_entry" else name in
            sources ← deref (normalizedSourceFiles runRoot Language name iface);
            contestantBinaries runRoot run Main runResult rest
              (binaries ++
               [binary.mk name target Language
                  (Go.path_Join [runRoot; name; "bin"]) name
                  binaryContestant false sources []
                  (generateMountpoint runRoot name)])
        end
  end.

(** The language under which the files of an interface are looked up
    (lines 324-329): the parent language for the interface named [Main],
    the language of the run for any other, both normalized. *)
Definition stagedLanguage (run : Common.Run.t)
    (interactive : Common.InteractiveSettings.t) (name : string) : string :=
  if String.eqb name "Main"
  then normalizedLanguage (Common.InteractiveSettings.ParentLang interactive)
  else normalizedLanguage (Common.Run.Language run).

(** [lang_iface[lang].Files] for every interface (line 330): a missing
    entry is a nil pointer, whose dereference panics unless a file
    operation has reported an error before. *)
Fixpoint interfaceFiles (run : Common.Run.t)
    (interactive : Common.InteractiveSettings.t)
    (interfaces : list (string * list (string * Common.InteractiveInterface.t)))
  : step unit :=
  match interfaces with
  | [] => Next tt
  | (name, lang_iface) :: rest =>
      _ ← deref (Common.assoc lang_iface (stagedLanguage run interactive name));
      interfaceFiles run interactive rest
  end.

(** Lines 239-429: the binaries to compile, the decoded output-only files
    and the result so far. *)
Definition planBinaries (w : World.t) (runRoot : string)
    (run : Common.Run.t) (input : Input.t) (runResult : RunResult.t)
  : step (list binary.t * gmap string string * RunResult.t) :=
  let settings := Input.Settings input in
  match Common.ProblemSettings.Interactive settings with
  | Some interactive =>
      let Main := Common.InteractiveSettings.Main interactive in
      let ParentLang := Common.InteractiveSettings.ParentLang interactive in
      iface ← deref
        (Common.assoc (Common.InteractiveSettings.Interfaces interactive) Main
           ≫= fun lang_iface => Common.assoc lang_iface ParentLang);
      sources ← deref (normalizedSourceFiles runRoot ParentLang Main iface);
      binaries ← contestantBinaries runRoot run Main runResult
        (Common.InteractiveSettings.Interfaces interactive)
        [parentBinary runRoot interactive sources];
      _ ← check runResult (World.stageInteractive w binaries);
      _ ← interfaceFiles run interactive
            (Common.InteractiveSettings.Interfaces interactive);
      Next (binaries, ∅, runResult)
  | None =>
      let mainBinPath := Go.path_Join [runRoot; "Main"; "bin"] in
      let mainSourcePath :=
        Go.path_Join
          [mainBinPath;
           "Main." +:+ normalizedLanguage (Common.Run.Language run)] in
      _ ← check runResult (World.stageMain w);
      if String.eqb (Common.Run.Language run) "cat"
      then
        match parseOutputOnlyFile (World.decoders w)
                (Common.Run.Source run) settings with
        | (_, Some err) =>
            Stop (Returned
                    (RunResult.setCompileError (Some err)
                       (RunResult.setVerdict "CE" runResult))
                    None)
        | (outputOnlyFiles, None) =>
            Next ([], outputOnlyFiles,
                  RunResult.setCompileMeta
                    (<[ "Main" := RunMetadata.ofVerdict "OK" ]>
                       (RunResult.CompileMeta runResult))
                    runResult)
        end
      else
        Next ([binary.mk "Main" "Main" (Common.Run.Language run) mainBinPath
                 "" binaryContestant true [mainSourcePath] [] ∅],
              ∅, runResult)
  end.

(** Lines 431-459: the custom validator, if the problem has one. *)
Definition planValidator (w : World.t) (runRoot : string) (input : Input.t)
    (runResult : RunResult.t) (binaries : list binary.t)
  : step (list binary.t) :=
  let validatorBinPath := Go.path_Join [runRoot; "validator"; "bin"] in
  let Validator := Common.ProblemSettings.Validator (Input.Settings input) in
  if String.eqb (Common.ValidatorSettings.Name Validator) "custom"
  then
    _ ← check runResult (World.stageValidator w);
    validatorLang ← deref (Common.ValidatorSettings.Lang Validator);
    let validatorFileName := "validator." +:+ validatorLang in
    let validatorSourceFile :=
      Go.path_Join [validatorBinPath; validatorFileName] in
    Next (binaries ++
          [binary.mk "validator" "validator" validatorLang validatorBinPath
             "validator" binaryValidator false [validatorSourceFile] [] ∅])
  else Next binaries.

(** *** The compile phase *)

Definition getCompileError (w : World.t) (errorFile : string) : string :=
  match World.readFile w errorFile with
  | IoErr msg => msg
  | IoOk bytes => bytes
  end.

(** The file the compile error of a binary is read from. *)
Definition compileErrorFile (b : binary.t) : string :=
  if String.eqb (binary.language b) "pas" then "compile.out"
  else "compile.err".

(** The call [sandbox.Compile(...)] for a binary (lines 465-487). *)
Definition compileBinary (sandbox : Sandbox.t) (runRoot : string)
    (b : binary.t) : option RunMetadata.t * option string :=
  let binRoot := Go.path_Join [runRoot; binary.name b] in
  let binPath := Go.path_Join [binRoot; "bin"] in
  let lang :=
    if binaryType_eqb (binary.binaryType b) binaryValidator
       && String.eqb (binary.language b) "cpp"
    then "cpp11" else binary.language b in
  Sandbox.Compile sandbox lang (binary.sourceFiles b) binPath
    (Go.path_Join [binRoot; "compile.out"])
    (Go.path_Join [binRoot; "compile.err"])
    (Go.path_Join [binRoot; "compile.meta"])
    (binary.name b) (binary.extraFlags b).

(** Lines 464-519: [for _, b := range binaries]. *)
Fixpoint compileAll (w : World.t) (sandbox : Sandbox.t) (runRoot : string)
    (binaries : list binary.t) (runResult : RunResult.t)
  : step RunResult.t :=
  match binaries with
  | [] => Next runResult
  | b :: rest =>
      let binRoot := Go.path_Join [runRoot; binary.name b] in
      let '(compileMeta, err) := compileBinary sandbox runRoot b in
      let runResult :=
        match compileMeta with
        | Some m =>
            RunResult.setCompileMeta
              (<[ binary.name b := m ]> (RunResult.CompileMeta runResult))
              runResult
        | None => runResult
        end in
      failed ←
        match err with
        | Some _ => Next true
        | None =>
            m ← deref compileMeta;
            Next (negb (String.eqb (RunMetadata.Verdict m) "OK"))
        end;
      if failed : bool
      then
        let compileError :=
          binary.name b +:+ ":" +:+ Go.newline +:+
          getCompileError w (Go.path_Join [binRoot; compileErrorFile b]) in
        Stop (Returned
                (RunResult.setCompileError (Some compileError)
                   (RunResult.setVerdict "CE" runResult))
                err)
      else compileAll w sandbox runRoot rest runResult
  end.

(** *** The execution phase *)

(** Modelled from the spec: [max64] is declared outside src/; it is the
    larger of its two [int64] arguments (the running maximum of section
    4.4.5). *)
Definition max64 (a b : Z) : Z := if a <? b then b else a.

(** The body of the goroutine started for a binary (lines 588-655). *)
Definition runBinary (sandbox : Sandbox.t) (input : Input.t)
    (runRoot : string) (run : Common.Run.t) (caseName : string)
    (bin : binary.t) : intermediateRunResult.t :=
  let inputPath :=
    if binary.receiveInput bin
    then Go.path_Join [Input.Path input; "in"; caseName +:+ ".in"]
    else "/dev/null" in
  let extraParams :=
    if binaryType_eqb (binary.binaryType bin) binaryProblemsetter
    then [caseName; Common.Run.Language run] else [] in
  let prefix := binary.outputPathPrefix bin in
  let '(runMeta, _) :=
    Sandbox.Run sandbox (binary.language bin) (binary.binPath bin) inputPath
      (Go.path_Join [runRoot; prefix; caseName +:+ ".out"])
      (Go.path_Join [runRoot; prefix; caseName +:+ ".err"])
      (Go.path_Join [runRoot; prefix; caseName +:+ ".meta"])
      (binary.target bin) None None None extraParams
      (binary.extraMountPoints bin) in
  intermediateRunResult.mk runMeta (binary.binaryType bin).

(** The local variables of the aggregation (lines 657-664). *)
Module aggregation.
Record t := mk {
  parentMetadata : option RunMetadata.t;
  chosenMetadata : RunMetadata.t;
  chosenMetadataEmpty : bool;
  totalTime : Qc;
  totalWallTime : Qc;
  totalMemory : Z
}.
Definition init : t :=
  mk None (RunMetadata.ofVerdict "OK") true 0%Qc 0%Qc 0.
End aggregation.

(** The body of [for i := 0; i < regularBinaryCount; i++] for one received
    message (lines 666-679). *)
Definition aggregate (st : aggregation.t)
    (intermediateResult : intermediateRunResult.t) : step aggregation.t :=
  if binaryType_eqb (intermediateRunResult.binaryType intermediateResult)
       binaryProblemsetter
  then
    Next (aggregation.mk
            (intermediateRunResult.runMeta intermediateResult)
            (aggregation.chosenMetadata st)
            (aggregation.chosenMetadataEmpty st)
            (aggregation.totalTime st)
            (aggregation.totalWallTime st)
            (aggregation.totalMemory st))
  else
    m ← deref (intermediateRunResult.runMeta intermediateResult);
    let choose :=
      negb (String.eqb (RunMetadata.Verdict m) "OK")
      && aggregation.chosenMetadataEmpty st in
    Next (aggregation.mk
            (aggregation.parentMetadata st)
            (if choose then m else aggregation.chosenMetadata st)
            (if choose then false else aggregation.chosenMetadataEmpty st)
            (aggregation.totalTime st + RunMetadata.Time m)%Qc
            (aggregation.totalWallTime st + RunMetadata.WallTime m)%Qc
            (Go.wrap64
               (aggregation.totalMemory st
                + max64 (aggregation.totalMemory st) (RunMetadata.Memory m)))).

(** The receive loop: [count] receptions from the channel, whose pending
    and future messages are [metaChan]. *)
Fixpoint aggregateLoop (count : nat)
    (metaChan : list intermediateRunResult.t) (st : aggregation.t)
  : step aggregation.t :=
  match count with
  | O => Next st
  | S count' =>
      match metaChan with
      | [] => Stop Blocked
      | intermediateResult :: rest =>
          st' ← aggregate st intermediateResult;
          aggregateLoop count' rest st'
      end
  end.

(** Lines 583-691: the metadata of a sandboxed case. *)
Definition runSandboxedCase (w : World.t) (sandbox : Sandbox.t)
    (input : Input.t) (runRoot : string) (run : Common.Run.t)
    (binaries : list binary.t) (regularBinaryCount : nat)
    (caseName : string) : step RunMetadata.t :=
  let started :=
    filter (fun bin =>
              negb (binaryType_eqb (binary.binaryType bin) binaryValidator))
           binaries in
  let metaChan :=
    map (runBinary sandbox input runRoot run caseName)
        (World.arrival w caseName started) in
  st ← aggregateLoop regularBinaryCount metaChan aggregation.init;
  Next (RunMetadata.setMemory (aggregation.totalMemory st)
          (RunMetadata.setWallTime (aggregation.totalWallTime st)
             (RunMetadata.setTime (aggregation.totalTime st)
                (aggregation.chosenMetadata st)))).

(** Lines 529-706: one case of a group. *)
Definition runCase (w : World.t) (sandbox : Sandbox.t) (input : Input.t)
    (runRoot : string) (run : Common.Run.t) (binaries : list binary.t)
    (regularBinaryCount : nat) (outputOnlyFiles : gmap string string)
    (wallTimeLimit : Qc) (runResult : RunResult.t)
    (caseData : Common.CaseSettings.t)
  : step (RunResult.t * CaseResult.t) :=
  let Name := Common.CaseSettings.Name caseData in
  runMeta ←
    (if Go.float_gtb (RunResult.WallTime runResult) wallTimeLimit
     then Next (RunMetadata.ofVerdict "TLE")
     else if String.eqb (Common.Run.Language run) "cat"
     then
       match outputOnlyFiles !! (Name +:+ ".out") with
       | Some _ => Next (RunMetadata.ofVerdict "OK")
       | None => Next (RunMetadata.ofVerdict "RTE")
       end
     else
       runSandboxedCase w sandbox input runRoot run binaries
         regularBinaryCount Name);
  verdict ← deref (worseVerdict (RunResult.Verdict runResult)
                     (RunMetadata.Verdict runMeta));
  let runResult :=
    RunResult.setMemory
      (max64 (RunResult.Memory runResult) (RunMetadata.Memory runMeta))
      (RunResult.setWallTime
         (RunResult.WallTime runResult + RunMetadata.WallTime runMeta)%Qc
         (RunResult.setTime
            (RunResult.Time runResult + RunMetadata.Time runMeta)%Qc
            (RunResult.setVerdict verdict runResult))) in
  Next (runResult,
        CaseResult.mk (RunMetadata.Verdict runMeta) Name 0%Qc 0%Qc
          (RunResult.MaxScore runResult * Common.CaseSettings.Weight caseData)%Qc
          (<[ "Main" := runMeta ]> ∅)).

(** [for j, caseData := range group.Cases] of the execution phase. *)
Fixpoint runCases (w : World.t) (sandbox : Sandbox.t) (input : Input.t)
    (runRoot : string) (run : Common.Run.t) (binaries : list binary.t)
    (regularBinaryCount : nat) (outputOnlyFiles : gmap string string)
    (wallTimeLimit : Qc) (cases : list Common.CaseSettings.t)
    (runResult : RunResult.t)
  : step (RunResult.t * list CaseResult.t) :=
  match cases with
  | [] => Next (runResult, [])
  | caseData :: rest =>
      '(runResult, caseResult) ←
        runCase w sandbox input runRoot run binaries regularBinaryCount
          outputOnlyFiles wallTimeLimit runResult caseData;
      '(runResult, caseResults) ←
        runCases w sandbox input runRoot run binaries regularBinaryCount
          outputOnlyFiles wallTimeLimit rest runResult;
      Next (runResult, caseResult :: caseResults)
  end.

(** [for i, group := range input.Settings().Cases] of the execution phase
    (lines 526-714). *)
Fixpoint runGroups (w : World.t) (sandbox : Sandbox.t) (input : Input.t)
    (runRoot : string) (run : Common.Run.t) (binaries : list binary.t)
    (regularBinaryCount : nat) (outputOnlyFiles : gmap string string)
    (wallTimeLimit : Qc) (groups : list Common.GroupSettings.t)
    (runResult : RunResult.t)
  : step (RunResult.t * list GroupResult.t) :=
  match groups with
  | [] => Next (runResult, [])
  | group :: rest =>
      '(runResult, caseResults) ←
        runCases w sandbox input runRoot run binaries regularBinaryCount
          outputOnlyFiles wallTimeLimit (Common.GroupSettings.Cases group)
          runResult;
      let groupResult :=
        GroupResult.mk (Common.GroupSettings.Name group) 0%Qc 0%Qc
          (RunResult.MaxScore runResult * Common.GroupSettings.Weight group)%Qc
          caseResults in
      '(runResult, groupResults) ←
        runGroups w sandbox input runRoot run binaries regularBinaryCount
          outputOnlyFiles wallTimeLimit rest runResult;
      Next (runResult, groupResult :: groupResults)
  end.

(** *** The validation phase *)

(** The variables the validation loop updates: [correct] and [score] of
    the current group, [runResult] and [groupResults]. *)
Module validation.
Record t := mk {
  correct : bool;
  score : Qc;
  runResult : RunResult.t;
  groupResults : list GroupResult.t
}.
End validation.

(** [groupResults[i].Cases[j]]; [None] is an index out of range. *)
Definition loadCase (groupResults : list GroupResult.t) (i j : nat)
  : option CaseResult.t :=
  groupResults !! i ≫= fun g => GroupResult.Cases g !! j.

(** Writing through the pointer [&groupResults[i].Cases[j]]. *)
Definition storeCase (groupResults : list GroupResult.t) (i j : nat)
    (c : CaseResult.t) : list GroupResult.t :=
  match groupResults !! i with
  | Some g =>
      <[ i := GroupResult.setCases (<[ j := c ]> (GroupResult.Cases g)) g ]>
        groupResults
  | None => groupResults
  end.

(** Lines 728-792: running the custom validator; yields the updated case
    and the path of the file to score. *)
Definition runValidator (w : World.t) (sandbox : Sandbox.t)
    (input : Input.t) (runRoot : string) (run : Common.Run.t)
    (caseData : Common.CaseSettings.t) (caseResults : CaseResult.t)
  : step (CaseResult.t * string) :=
  let Name := Common.CaseSettings.Name caseData in
  let Validator := Common.ProblemSettings.Validator (Input.Settings input) in
  let validatorBinPath := Go.path_Join [runRoot; "validator"; "bin"] in
  let contestantPath := Go.path_Join [runRoot; Name +:+ ".out"] in
  if String.eqb (Common.ValidatorSettings.Name Validator) "custom"
  then
    let originalInputFile :=
      Go.path_Join [Input.Path input; "in"; Name +:+ ".in"] in
    let originalOutputFile :=
      Go.path_Join [Input.Path input; "out"; Name +:+ ".out"] in
    let originalOutputFile :=
      if World.exists_ w originalOutputFile then originalOutputFile
      else "/dev/null" in
    let runMetaFile := Go.path_Join [runRoot; Name +:+ ".meta"] in
    lang ← deref (Common.ValidatorSettings.Lang Validator);
    let '(validateMeta, _) :=
      Sandbox.Run sandbox lang validatorBinPath contestantPath
        (Go.path_Join [runRoot; "validator"; Name +:+ ".out"])
        (Go.path_Join [runRoot; "validator"; Name +:+ ".err"])
        (Go.path_Join [runRoot; "validator"; Name +:+ ".meta"])
        "validator" (Some originalInputFile) (Some originalOutputFile)
        (Some runMetaFile) [Name; Common.Run.Language run] ∅ in
    validateMeta ← deref validateMeta;
    let caseResults :=
      CaseResult.setMeta
        (<[ "validator" := validateMeta ]> (CaseResult.Meta caseResults))
        caseResults in
    if negb (String.eqb (RunMetadata.Verdict validateMeta) "OK")
    then Next (caseResults, "/dev/null")
    else Next (caseResults,
               Go.path_Join [runRoot; "validator"; Name +:+ ".out"])
  else Next (caseResults, contestantPath).

(** Lines 722-836: the body of [for j, caseData := range group.Cases]. *)
Definition validateCase (w : World.t) (sandbox : Sandbox.t)
    (input : Input.t) (runRoot : string) (run : Common.Run.t)
    (i j : nat) (caseData : Common.CaseSettings.t) (st : validation.t)
  : step validation.t :=
  let Name := Common.CaseSettings.Name caseData in
  let Weight := Common.CaseSettings.Weight caseData in
  let Validator := Common.ProblemSettings.Validator (Input.Settings input) in
  caseResults ← deref (loadCase (validation.groupResults st) i j);
  if String.eqb (CaseResult.Verdict caseResults) "OK"
  then
    '(caseResults, contestantPath) ←
      runValidator w sandbox input runRoot run caseData caseResults;
    let skipped :=
      validation.mk (validation.correct st) (validation.score st)
        (validation.runResult st)
        (storeCase (validation.groupResults st) i j caseResults) in
    if negb (World.canOpen w contestantPath)
    then Next skipped
    else
      let expectedPath :=
        if String.eqb (Common.ValidatorSettings.Name Validator) "custom"
        then "/dev/null"
        else Go.path_Join [Input.Path input; "out"; Name +:+ ".out"] in
      if negb (World.canOpen w expectedPath)
      then Next skipped
      else
        let runScore :=
          World.CalculateScore w Validator contestantPath expectedPath in
        let runResult := validation.runResult st in
        let caseResults := CaseResult.setScore runScore caseResults in
        let caseResults :=
          CaseResult.setContestScore
            (RunResult.MaxScore runResult * CaseResult.Score caseResults
             * Weight)%Qc
            caseResults in
        let score := (validation.score st + runScore * Weight)%Qc in
        if Go.float_eqb runScore 1%Qc
        then
          Next (validation.mk (validation.correct st) score runResult
                  (storeCase (validation.groupResults st) i j
                     (CaseResult.setVerdict "AC" caseResults)))
        else
          verdict ← deref (worseVerdict (RunResult.Verdict runResult) "PA");
          let runResult := RunResult.setVerdict verdict runResult in
          if Go.float_eqb runScore 0%Qc
          then
            Next (validation.mk false score runResult
                    (storeCase (validation.groupResults st) i j
                       (CaseResult.setVerdict "WA" caseResults)))
          else
            Next (validation.mk (validation.correct st) score runResult
                    (storeCase (validation.groupResults st) i j
                       (CaseResult.setVerdict "PA" caseResults)))
  else Next st.

Fixpoint validateCases (w : World.t) (sandbox : Sandbox.t)
    (input : Input.t) (runRoot : string) (run : Common.Run.t)
    (i j : nat) (cases : list Common.CaseSettings.t) (st : validation.t)
  : step validation.t :=
  match cases with
  | [] => Next st
  | caseData :: rest =>
      st' ← validateCase w sandbox input runRoot run i j caseData st;
      validateCases w sandbox input runRoot run i (S j) rest st'
  end.

(** Lines 837-842: [if correct { ... }] at the end of a group. *)
Definition awardGroup (i : nat) (st : validation.t) : step validation.t :=
  if validation.correct st
  then
    g ← deref (validation.groupResults st !! i);
    let score := validation.score st in
    let runResult := validation.runResult st in
    let g := GroupResult.setScore score g in
    let runResult :=
      RunResult.setScore (RunResult.Score runResult + GroupResult.Score g)%Qc
        runResult in
    let g :=
      GroupResult.setContestScore (RunResult.MaxScore runResult * score)%Qc g in
    let runResult :=
      RunResult.setContestScore
        (RunResult.ContestScore runResult + GroupResult.ContestScore g)%Qc
        runResult in
    Next (validation.mk true score runResult
            (<[ i := g ]> (validation.groupResults st)))
  else Next st.

(** Lines 719-843: [for i, group := range input.Settings().Cases]. *)
Fixpoint validateGroups (w : World.t) (sandbox : Sandbox.t)
    (input : Input.t) (runRoot : string) (run : Common.Run.t)
    (i : nat) (groups : list Common.GroupSettings.t)
    (runResult : RunResult.t) (groupResults : list GroupResult.t)
  : step (RunResult.t * list GroupResult.t) :=
  match groups with
  | [] => Next (runResult, groupResults)
  | group :: rest =>
      st ← validateCases w sandbox input runRoot run i 0
             (Common.GroupSettings.Cases group)
             (validation.mk true 0%Qc runResult groupResults);
      st ← awardGroup i st;
      validateGroups w sandbox input runRoot run (S i) rest
        (validation.runResult st) (validation.groupResults st)
  end.

(** *** The end of Grade *)

(** Lines 848-854. *)
Definition finalVerdict (runResult : RunResult.t) : RunResult.t :=
  if String.eqb (RunResult.Verdict runResult) "PA"
     && Go.float_eqb (RunResult.Score runResult) 0%Qc
  then RunResult.setVerdict "WA" runResult
  else if String.eqb (RunResult.Verdict runResult) "OK"
  then
    RunResult.setContestScore (RunResult.MaxScore runResult)
      (RunResult.setScore 1%Qc (RunResult.setVerdict "AC" runResult))
  else runResult.

(** Lines 522-844: the execution and validation phases. *)
Definition runAndValidate (w : World.t) (sandbox : Sandbox.t)
    (input : Input.t) (runRoot : string) (run : Common.Run.t)
    (binaries : list binary.t) (regularBinaryCount : nat)
    (outputOnlyFiles : gmap string string) (runResult : RunResult.t)
  : step (RunResult.t * list GroupResult.t) :=
  let settings := Input.Settings input in
  let runResult := RunResult.setVerdict "OK" runResult in
  let wallTimeLimit :=
    Go.float_of_int
      (Z.quot (Common.LimitsSettings.OverallWallTimeLimit
                 (Common.ProblemSettings.Limits settings)) 1000) in
  '(runResult, groupResults) ←
    runGroups w sandbox input runRoot run binaries regularBinaryCount
      outputOnlyFiles wallTimeLimit (Common.ProblemSettings.Cases settings)
      runResult;
  validateGroups w sandbox input runRoot run 0
    (Common.ProblemSettings.Cases settings) runResult groupResults.

(** Lines 522-876: everything after a successful compile phase. *)
Definition gradeCases (w : World.t) (sandbox : Sandbox.t) (input : Input.t)
    (runRoot : string) (run : Common.Run.t) (binaries : list binary.t)
    (regularBinaryCount : nat) (outputOnlyFiles : gmap string string)
    (runResult : RunResult.t) : step result :=
  '(runResult, groupResults) ←
    runAndValidate w sandbox input runRoot run binaries regularBinaryCount
      outputOnlyFiles runResult;
  let runResult := finalVerdict (RunResult.setGroups groupResults runResult) in
  Next (Returned runResult (World.uploadFiles w)).

(** [runRoot]: [path.Join(RuntimePath, "grade", FormatUint(AttemptID))]. *)
Definition runRootOf (w : World.t) (run : Common.Run.t) : string :=
  Go.path_Join
    [World.RuntimePath w; "grade"; Go.FormatUint (Common.Run.AttemptID run)].

(** The result Grade starts from (lines 217-220). *)
Definition initialResult (run : Common.Run.t) : RunResult.t :=
  RunResult.mk "JE" None ∅ 0%Qc 0%Qc (Common.Run.MaxScore run) 0%Qc 0%Qc 0
    "" [].

Definition Grade (w : World.t) (run : Common.Run.t) (input : Input.t)
    (sandbox : Sandbox.t) : result :=
  let runResult := initialResult run in
  if negb (Sandbox.Supported sandbox)
  then Returned runResult (Some "Sandbox not supported")
  else
    let runRoot := runRootOf w run in
    finish (
      '(binaries, outputOnlyFiles, runResult) ←
        planBinaries w runRoot run input runResult;
      let regularBinaryCount := List.length binaries in
      binaries ← planValidator w runRoot input runResult binaries;
      runResult ← compileAll w sandbox runRoot binaries runResult;
      gradeCases w sandbox input runRoot run binaries regularBinaryCount
        outputOnlyFiles runResult).

End Runner.

(** ** The grader package (grader/queue.go) *)

Module Grader.

Inductive QueuePriority :=
| QueuePriorityHigh
| QueuePriorityNormal
| QueuePriorityLow.

#[global] Instance QueuePriority_eq_dec : EqDecision QueuePriority.
Proof. solve_decision. Defined.

(** *** Buffered channels *)

(** A buffered channel: the values it holds, oldest first, and its
    capacity. *)
Module chan.
Record t (A : Type) := mk { buf : list A; cap : nat }.
Arguments mk {A} _ _.
Arguments buf {A} _.
Arguments cap {A} _.

Definition make {A} (capacity : nat) : t A := mk [] capacity.
Definition len {A} (c : t A) : nat := List.length (buf c).
Definition full {A} (c : t A) : bool := (cap c <=? len c)%nat.

(** A send that does not wait: [None] when the buffer is full. *)
Definition trySend {A} (c : t A) (a : A) : option (t A) :=
  if full c then None else Some (mk (buf c ++ [a]) (cap c)).

(** A receive that does not wait: [None] when the buffer is empty. *)
Definition tryRecv {A} (c : t A) : option (A * t A) :=
  match buf c with
  | [] => None
  | a :: rest => Some (a, mk rest (cap c))
  end.
End chan.

(** *** Data *)

(** A [*RunContext] is an address in the heap of the state. *)
Definition ptr := nat.

(** [RunInfo] and [RunContext], flattened (the embedded struct promotes its
    fields).  [queue] is the name of the owning queue, [monitor] tells
    whether the pointer to the inflight monitor is set, [input] is the
    handle of the pinned input, [readyClosed] tells whether the channel
    [ready] has been closed.  [Problemset] is the field that the grader
    command fills in.  The logger and tracing fields are left out. *)
Module RunContext.
Record t := mk {
  ID : Z;
  GUID : string;
  Contest : option string;
  Problemset : option Z;
  ProblemName : string;
  Run : Common.Run.t;
  Result : Runner.RunResult.t;
  GradeDir : string;
  Priority : QueuePriority;
  PenaltyType : string;
  closed : Z;
  input : option string;
  tries : Z;
  queue : option string;
  monitor : bool;
  readyClosed : bool
}.
Definition setRun (x : Common.Run.t) (r : t) : t :=
  mk (ID r) (GUID r) (Contest r) (Problemset r) (ProblemName r) x
    (Result r) (GradeDir r) (Priority r) (PenaltyType r) (closed r)
    (input r) (tries r) (queue r) (monitor r) (readyClosed r).
Definition setResult (x : Runner.RunResult.t) (r : t) : t :=
  mk (ID r) (GUID r) (Contest r) (Problemset r) (ProblemName r) (Run r) x
    (GradeDir r) (Priority r) (PenaltyType r) (closed r) (input r)
    (tries r) (queue r) (monitor r) (readyClosed r).
Definition setPriority (x : QueuePriority) (r : t) : t :=
  mk (ID r) (GUID r) (Contest r) (Problemset r) (ProblemName r) (Run r)
    (Result r) (GradeDir r) x (PenaltyType r) (closed r) (input r)
    (tries r) (queue r) (monitor r) (readyClosed r).
Definition setClosed (x : Z) (r : t) : t :=
  mk (ID r) (GUID r) (Contest r) (Problemset r) (ProblemName r) (Run r)
    (Result r) (GradeDir r) (Priority r) (PenaltyType r) x (input r)
    (tries r) (queue r) (monitor r) (readyClosed r).
Definition setInput (x : option string) (r : t) : t :=
  mk (ID r) (GUID r) (Contest r) (Problemset r) (ProblemName r) (Run r)
    (Result r) (GradeDir r) (Priority r) (PenaltyType r) (closed r) x
    (tries r) (queue r) (monitor r) (readyClosed r).
Definition setTries (x : Z) (r : t) : t :=
  mk (ID r) (GUID r) (Contest r) (Problemset r) (ProblemName r) (Run r)
    (Result r) (GradeDir r) (Priority r) (PenaltyType r) (closed r)
    (input r) x (queue r) (monitor r) (readyClosed r).
Definition setQueue (x : option string) (r : t) : t :=
  mk (ID r) (GUID r) (Contest r) (Problemset r) (ProblemName r) (Run r)
    (Result r) (GradeDir r) (Priority r) (PenaltyType r) (closed r)
    (input r) (tries r) x (monitor r) (readyClosed r).
Definition setMonitor (x : bool) (r : t) : t :=
  mk (ID r) (GUID r) (Contest r) (Problemset r) (ProblemName r) (Run r)
    (Result r) (GradeDir r) (Priority r) (PenaltyType r) (closed r)
    (input r) (tries r) (queue r) x (readyClosed r).
Definition setReadyClosed (x : bool) (r : t) : t :=
  mk (ID r) (GUID r) (Contest r) (Problemset r) (ProblemName r) (Run r)
    (Result r) (GradeDir r) (Priority r) (PenaltyType r) (closed r)
    (input r) (tries r) (queue r) (monitor r) x.
End RunContext.

(** A queue: its three FIFOs of run pointers and the readiness channel. *)
Module Queue.
Record t := mk {
  Name : string;
  runsHigh : chan.t ptr;
  runsNormal : chan.t ptr;
  runsLow : chan.t ptr;
  ready : chan.t unit
}.
(** [queue.runs[priority]] *)
Definition runs (q : t) (priority : QueuePriority) : chan.t ptr :=
  match priority with
  | QueuePriorityHigh => runsHigh q
  | QueuePriorityNormal => runsNormal q
  | QueuePriorityLow => runsLow q
  end.
Definition setRuns (priority : QueuePriority) (c : chan.t ptr) (q : t) : t :=
  match priority with
  | QueuePriorityHigh => mk (Name q) c (runsNormal q) (runsLow q) (ready q)
  | QueuePriorityNormal => mk (Name q) (runsHigh q) c (runsLow q) (ready q)
  | QueuePriorityLow => mk (Name q) (runsHigh q) (runsNormal q) c (ready q)
  end.
Definition setReady (c : chan.t unit) (q : t) : t :=
  mk (Name q) (runsHigh q) (runsNormal q) (runsLow q) c.
End Queue.

(** An inflight record; [connected] and [ready] tell whether the one-slot
    channels of those names hold a token.  The supervising goroutine and
    its timers are not part of the model: a deadline is the call of
    [timeout] by the environment. *)
Module InflightRun.
Record t := mk {
  run : ptr;
  runner : string;
  connected : bool;
  ready : bool
}.
End InflightRun.

(** What leaves the grader. *)
Inductive event :=
| CloseWarning (run : ptr)
| InputReleased (handle : string)
| DetailsWritten (gradeDir : string) (result : Runner.RunResult.t)
| ReadyClosed (run : ptr)
| PostProcessed (run : ptr) (result : Runner.RunResult.t)
| TimedOut (run : ptr).

(** The state of the grader: the run contexts, the queues of the queue
    manager, the mapping of the inflight monitor, the next attempt
    identifier, and the events so far (oldest first). *)
Module State.
Record t := mk {
  heap : gmap ptr RunContext.t;
  queues : gmap string Queue.t;
  mapping : gmap Z InflightRun.t;
  nextAttemptID : Z;
  log : list event
}.
Definition setHeap (x : gmap ptr RunContext.t) (s : t) : t :=
  mk x (queues s) (mapping s) (nextAttemptID s) (log s).
Definition setQueues (x : gmap string Queue.t) (s : t) : t :=
  mk (heap s) x (mapping s) (nextAttemptID s) (log s).
Definition setMapping (x : gmap Z InflightRun.t) (s : t) : t :=
  mk (heap s) (queues s) x (nextAttemptID s) (log s).
Definition setNextAttemptID (x : Z) (s : t) : t :=
  mk (heap s) (queues s) (mapping s) x (log s).
Definition emit (e : event) (s : t) : t :=
  mk (heap s) (queues s) (mapping s) (nextAttemptID s) (log s ++ [e]).
End State.

(** The environment of the grader: the configured number of tries and
    whether the files of a grade directory can be written. *)
Module Env.
Record t := mk {
  MaxGradeRetries : Z;
  persist : string -> bool
}.
End Env.

(** *** Operations as state transformers *)

(** An operation completes with a value and a new state, panics, or waits
    on a channel. *)
Inductive outcome (A : Type) :=
| Done (a : A) (s : State.t)
| Panic
| Block.
Arguments Done {A} a s.
Arguments Panic {A}.
Arguments Block {A}.

Definition M (A : Type) : Type := State.t -> outcome A.

Definition ret {A} (a : A) : M A := fun s => Done a s.
Definition bind {A B} (m : M A) (k : A -> M B) : M B := fun s =>
  match m s with
  | Done a s' => k a s'
  | Panic => Panic
  | Block => Block
  end.
Definition panic {A} : M A := fun _ => Panic.
Definition block {A} : M A := fun _ => Block.
Definition get : M State.t := fun s => Done s s.
Definition modify (f : State.t -> State.t) : M unit := fun s => Done tt (f s).

#[global] Instance M_bind : MBind M := fun A B k m => bind m k.
#[global] Instance M_ret : MRet M := fun A a => ret a.

(** Reading and writing through a [*RunContext]; a missing address is a
    nil dereference. *)
Definition load (run : ptr) : M RunContext.t := fun s =>
  match State.heap s !! run with
  | Some rc => Done rc s
  | None => Panic
  end.
Definition update (run : ptr) (f : RunContext.t -> RunContext.t) : M unit :=
  rc ← load run;
  modify (fun s => State.setHeap (<[ run := f rc ]> (State.heap s)) s).

(** Reading and writing through a [*Queue], which is the key of the queue
    in the queue manager. *)
Definition loadQueue (queue : string) : M Queue.t := fun s =>
  match State.queues s !! queue with
  | Some q => Done q s
  | None => Panic
  end.
Definition storeQueue (queue : string) (q : Queue.t) : M unit :=
  modify (fun s => State.setQueues (<[ queue := q ]> (State.queues s)) s).
Definition emit (e : event) : M unit := modify (State.emit e).

(** *** Creation *)

(** [QueueManager.Add]: a queue whose FIFOs hold [channelLength] runs and
    whose readiness channel holds three times as many tokens. *)
Definition newQueue (name : string) (channelLength : nat) : Queue.t :=
  Queue.mk name (chan.make channelLength) (chan.make channelLength)
    (chan.make channelLength) (chan.make (3 * channelLength)).

Definition QueueManager_Add (name : string) (channelLength : nat) : M string :=
  _ ← storeQueue name (newQueue name channelLength);
  mret name.

(** Modelled from the spec: [common.NewAttemptID] and [Run.UpdateAttemptID]
    are declared outside src/; an attempt identifier is fresh on creation
    and re-minted on every retry (section 3). *)
Definition NewAttemptID : M Z :=
  s ← get;
  _ ← modify (State.setNextAttemptID (State.nextAttemptID s + 1));
  mret (State.nextAttemptID s).

Definition UpdateAttemptID (run : ptr) : M unit :=
  attemptID ← NewAttemptID;
  update run (fun rc =>
    let r := RunContext.Run rc in
    RunContext.setRun
      (Common.Run.mk attemptID (Common.Run.Source r) (Common.Run.Language r)
         (Common.Run.InputHash r) (Common.Run.MaxScore r) (Common.Run.Debug r))
      rc).

Definition emptyResult (verdict : string) : Runner.RunResult.t :=
  Runner.RunResult.mk verdict None ∅ 0%Qc 0%Qc 0%Qc 0%Qc 0%Qc 0 "" [].

(** [NewEmptyRunContext]: allocates the context at a fresh address. *)
Definition NewEmptyRunContext (env : Env.t) : M ptr :=
  attemptID ← NewAttemptID;
  s ← get;
  let run := fresh (dom (State.heap s)) in
  let rc :=
    RunContext.mk 0 "" None None ""
      (Common.Run.mk attemptID "" "" "" 1%Qc false)
      (emptyResult "JE") "" QueuePriorityNormal "" 0 None
      (Env.MaxGradeRetries env) None false false in
  _ ← modify (State.setHeap (<[ run := rc ]> (State.heap s)));
  mret run.

(** *** The inflight monitor *)

(** [monitor.Add]: the new inflight record replaces any record of the same
    attempt. *)
Definition Add (run : ptr) (runner : string) : M InflightRun.t :=
  let inflight := InflightRun.mk run runner false false in
  _ ← update run (RunContext.setMonitor true);
  rc ← load run;
  _ ← modify (fun s =>
         State.setMapping
           (<[ Common.Run.AttemptID (RunContext.Run rc) := inflight ]>
              (State.mapping s)) s);
  mret inflight.

(** [monitor.Get]: signals [connected] unless it was signalled before. *)
Definition Get (attemptID : Z) : M (option ptr) :=
  s ← get;
  match State.mapping s !! attemptID with
  | Some inflight =>
      let inflight' :=
        InflightRun.mk (InflightRun.run inflight)
          (InflightRun.runner inflight) true (InflightRun.ready inflight) in
      _ ← modify (State.setMapping
                    (<[ attemptID := inflight' ]> (State.mapping s)));
      mret (Some (InflightRun.run inflight))
  | None => mret None
  end.

(** [monitor.Remove]: clears the monitor pointer of the run of the record
    (the tokens it puts on [connected] and [ready] go away with the
    record) and deletes the record. *)
Definition Remove (attemptID : Z) : M unit :=
  s ← get;
  _ ← match State.mapping s !! attemptID with
      | Some inflight =>
          update (InflightRun.run inflight) (RunContext.setMonitor false)
      | None => mret tt
      end;
  modify (fun s => State.setMapping (delete attemptID (State.mapping s)) s).

(** *** RunContext *)

(** [Close].  [Env.persist] tells whether the grade directory can be
    created and [details.json], the logs and the traces written into it;
    when it cannot, Close returns after releasing the input. *)
Definition Close (env : Env.t) (run : ptr) : M unit :=
  rc ← load run;
  _ ← update run (RunContext.setClosed 1);
  if negb (RunContext.closed rc =? 0)
  then emit (CloseWarning run)
  else
    postProcessor ←
      (if RunContext.monitor rc
       then
         _ ← Remove (Common.Run.AttemptID (RunContext.Run rc));
         mret true
       else mret false);
    _ ← match RunContext.input rc with
        | Some handle =>
            _ ← emit (InputReleased handle);
            update run (RunContext.setInput None)
        | None => mret tt
        end;
    if negb (Env.persist env (RunContext.GradeDir rc))
    then mret tt
    else
      _ ← emit (DetailsWritten (RunContext.GradeDir rc)
                  (RunContext.Result rc));
      _ ← update run (RunContext.setReadyClosed true);
      _ ← emit (ReadyClosed run);
      if postProcessor : bool
      then emit (PostProcessed run (RunContext.Result rc))
      else mret tt.

(** *** Queue *)

(** [enqueue]: the [select] with a [default] sends to the FIFO only when it
    has room; the send of the token that follows waits when the readiness
    channel is full. *)
Definition enqueue (queue : string) (run : ptr) (priority : QueuePriority)
  : M bool :=
  _ ← update run (RunContext.setQueue (Some queue));
  q ← loadQueue queue;
  match chan.trySend (Queue.runs q priority) run with
  | Some runs' =>
      match chan.trySend (Queue.ready q) tt with
      | Some ready' =>
          _ ← storeQueue queue
                (Queue.setReady ready' (Queue.setRuns priority runs' q));
          mret true
      | None => block
      end
  | None => mret false
  end.

(** [enqueueBlocking]: both sends wait. *)
Definition enqueueBlocking (queue : string) (run : ptr) : M unit :=
  _ ← update run (RunContext.setQueue (Some queue));
  rc ← load run;
  q ← loadQueue queue;
  match chan.trySend (Queue.runs q (RunContext.Priority rc)) run with
  | Some runs' =>
      match chan.trySend (Queue.ready q) tt with
      | Some ready' =>
          storeQueue queue
            (Queue.setReady ready'
               (Queue.setRuns (RunContext.Priority rc) runs' q))
      | None => block
      end
  | None => block
  end.

Definition AddRun (queue : string) (run : ptr) : M unit :=
  enqueueBlocking queue run.

(** [for i := range queue.runs { select { case run := <-queue.runs[i]: ...
    default: } }; panic("unreachable")] over the priorities still to
    visit. *)
Fixpoint scanRuns (queue : string) (runner : string)
    (priorities : list QueuePriority) : M ptr :=
  match priorities with
  | [] => panic
  | i :: rest =>
      q ← loadQueue queue;
      match chan.tryRecv (Queue.runs q i) with
      | Some (run, runs') =>
          _ ← storeQueue queue (Queue.setRuns i runs' q);
          _ ← Add run runner;
          mret run
      | None => scanRuns queue runner rest
      end
  end.

(** [GetRun].  [closeNotifier] tells whether the first [select] takes the
    case of the close notifier; otherwise it takes a readiness token,
    waiting for one.  [None] is the result [(nil, nil, false)]. *)
Definition GetRun (queue : string) (runner : string) (closeNotifier : bool)
  : M (option ptr) :=
  if closeNotifier then mret None
  else
    q ← loadQueue queue;
    match chan.tryRecv (Queue.ready q) with
    | None => block
    | Some (_, ready') =>
        _ ← storeQueue queue (Queue.setReady ready' q);
        run ← scanRuns queue runner
                [QueuePriorityHigh; QueuePriorityNormal; QueuePriorityLow];
        mret (Some run)
    end.

(** [Requeue]. *)
Definition Requeue (env : Env.t) (run : ptr) (lastAttempt : bool) : M bool :=
  rc ← load run;
  _ ← (if RunContext.monitor rc
       then Remove (Common.Run.AttemptID (RunContext.Run rc))
       else mret tt);
  _ ← update run (fun rc =>
         RunContext.setTries (Go.wrap64 (RunContext.tries rc - 1)) rc);
  rc ← load run;
  if RunContext.tries rc <=? 0
  then
    _ ← Close env run;
    mret false
  else
    _ ← (if lastAttempt
         then update run (RunContext.setTries 1)
         else mret tt);
    _ ← UpdateAttemptID run;
    queue ← (match RunContext.queue rc with
             | Some queue => mret queue
             | None => panic
             end);
    ok ← enqueue queue run QueuePriorityHigh;
    if ok : bool
    then mret true
    else
      _ ← Close env run;
      mret false.

(** [monitor.timeout]: a deadline of the supervisor of an inflight run. *)
Definition timeout (env : Env.t) (run : ptr) : M unit :=
  _ ← emit (TimedOut run);
  _ ← Requeue env run false;
  mret tt.

End Grader.

(** ** The queue manager and the views of the queues (grader/queue.go) *)

Module QueueManager.
Import Grader.

(** The error of [Get]: [cannot find queue %q] for the name. *)
Inductive error := CannotFindQueue (name : string).

(** [NewQueueManager]: a manager whose only queue is [default]. *)
Definition NewQueueManager (channelLength : nat) : M unit :=
  _ ← modify (State.setQueues ∅);
  _ ← QueueManager_Add "default" channelLength;
  mret tt.

(** [QueueManager.Get]: the queue registered under the name, or the
    error. *)
Definition Get (name : string) : M (error + string) :=
  s ← get;
  match State.queues s !! name with
  | Some _ => mret (inr name)
  | None => mret (inl (CannotFindQueue name))
  end.

(** [QueueInfo]: the lengths of the three FIFOs. *)
Definition QueueInfo (q : Queue.t) : list Z :=
  [ Z.of_nat (chan.len (Queue.runsHigh q));
    Z.of_nat (chan.len (Queue.runsNormal q));
    Z.of_nat (chan.len (Queue.runsLow q)) ].

(** [QueueManager.GetQueueInfo]. *)
Definition GetQueueInfo : M (gmap string (list Z)) :=
  s ← get;
  mret (QueueInfo <$> State.queues s).
End QueueManager.

(** ** The grader command: injection of runs *)

Module Main.
Import Grader.

(** The row selected for a run: [r.run_id], [c.alias], [r.problemset_id],
    [c.penalty_type], [r.language], [p.alias], [pp.points]; a null column
    is [None]. *)
Module RunRow.
Record t := mk {
  run_id : Z;
  contest_alias : option string;
  problemset_id : option Z;
  penalty_type : option string;
  language : string;
  problem_alias : string;
  points : option Qc
}.
End RunRow.

(** The collaborators of the command: its configuration, the database, the
    problem store of the v1compat package, the file system and the input
    manager.  A failing call yields the text of its error on the left. *)
Module World.
Record t := mk {
  RuntimeGradePath : string;
  RuntimePath : string;
  queryRun : string -> string + RunRow.t;
  GetRepositoryPath : string -> string -> string;
  GetProblemInformation :
    string -> string + (string * Common.ProblemSettings.t);
  ReadFile : string -> string + string;
  InputManager_Add : string -> string -> string + string
}.
End World.

(** [guid[:2]] and [guid[2:]]; [None] is a slice bound out of range. *)
Definition splitGUID (guid : string) : option (string * string) :=
  if (String.length guid <? 2)%nat then None
  else Some (substring 0 2 guid, Go.slice_from 2 guid).

Definition splitGUID_or_panic (guid : string) : M (string * string) :=
  match splitGUID guid with
  | Some parts => mret parts
  | None => panic
  end.

(** [v1CompatNewRunContext]: the new context and the settings of its
    problem, or the error. *)
Definition v1CompatNewRunContext (env : Env.t) (w : World.t) (guid : string)
  : M (string + (ptr * Common.ProblemSettings.t)) :=
  runCtx ← NewEmptyRunContext env;
  '(head, tail) ← splitGUID_or_panic guid;
  match World.queryRun w guid with
  | inl err => mret (inl err)
  | inr row =>
      match World.GetProblemInformation w
              (World.GetRepositoryPath w (World.RuntimePath w)
                 (RunRow.problem_alias row)) with
      | inl err => mret (inl err)
      | inr (InputHash, Settings) =>
          match World.ReadFile w
                  (Go.path_Join
                     [World.RuntimePath w; "submissions"; head; tail]) with
          | inl err => mret (inl err)
          | inr contents =>
              let MaxScore :=
                match RunRow.points row with
                | Some contestPoints => contestPoints
                | None => 1%Qc
                end in
              _ ← update runCtx (fun rc =>
                RunContext.mk (RunRow.run_id row) guid
                  (RunRow.contest_alias row) (RunRow.problemset_id row)
                  (RunRow.problem_alias row)
                  (Common.Run.mk
                     (Common.Run.AttemptID (RunContext.Run rc)) contents
                     (RunRow.language row) InputHash MaxScore
                     (Common.Run.Debug (RunContext.Run rc)))
                  (Runner.RunResult.setMaxScore MaxScore
                     (RunContext.Result rc))
                  (Go.path_Join [World.RuntimeGradePath w; head; tail])
                  (RunContext.Priority rc)
                  (match RunRow.penalty_type row with
                   | Some penaltyType => penaltyType
                   | None => RunContext.PenaltyType rc
                   end)
                  (RunContext.closed rc) (RunContext.input rc)
                  (RunContext.tries rc) (RunContext.queue rc)
                  (RunContext.monitor rc) (RunContext.readyClosed rc));
              mret (inr (runCtx, Settings))
          end
      end
  end.

(** [grader.AddRunContext]: pins the input (and sets up the logging
    fields, which are not modelled); never fails. *)
Definition AddRunContext (run : ptr) (input : string) : M (option string) :=
  _ ← update run (RunContext.setInput (Some input));
  mret None.

(** The body of [for _, guid := range guids] in [v1CompatInjectRuns]; the
    result is the error that ends the loop, if any. *)
Definition injectRun (env : Env.t) (w : World.t) (runs : string)
    (priority : QueuePriority) (guid : string) : M (option string) :=
  created ← v1CompatNewRunContext env w guid;
  match created with
  | inl err => mret (Some err)
  | inr (runCtx, settings) =>
      _ ← update runCtx
            (RunContext.setPriority
               (if Common.ProblemSettings.Slow settings
                then QueuePriorityLow else priority));
      rc ← load runCtx;
      match World.InputManager_Add w
              (Common.Run.InputHash (RunContext.Run rc))
              (RunContext.ProblemName rc) with
      | inl err => mret (Some err)
      | inr input =>
          added ← AddRunContext runCtx input;
          match added with
          | Some err => mret (Some err)
          | None =>
              _ ← AddRun runs runCtx;
              mret None
          end
      end
  end.

(** [v1CompatInjectRuns]; the result is the error ([None] is [nil]). *)
Fixpoint v1CompatInjectRuns (env : Env.t) (w : World.t) (runs : string)
    (guids : list string) (priority : QueuePriority) : M (option string) :=
  match guids with
  | [] => mret None
  | guid :: rest =>
      err ← injectRun env w runs priority guid;
      match err with
      | Some err => mret (Some err)
      | None => v1CompatInjectRuns env w runs rest priority
      end
  end.

End Main.

(** ** The request checks of the grader command *)

Module Handlers.
Import Grader Main.

(** A byte of the class [[0-9a-f]]. *)
Definition isLowerHex (c : ascii) : bool :=
  let n := nat_of_ascii c in
  ((48 <=? n) && (n <=? 57) || (97 <=? n) && (n <=? 102))%nat.

(** [guidRegex.MatchString(s)] for [guidRegex = ^[0-9a-f]{32}$]: the text
    is exactly thirty-two bytes of the class. *)
Definition guidRegex_MatchString (s : string) : bool :=
  (String.length s =? 32)%nat && forallb isLowerHex (list_ascii_of_string s).

(** The handlers go on when
    [len(guid) != 32 || !guidRegex.MatchString(guid)] is false. *)
Definition validGUID (guid : string) : bool :=
  negb (negb (String.length guid =? 32)%nat
        || negb (guidRegex_MatchString guid)).

(** [strings.HasPrefix(s, prefix)]. *)
Definition HasPrefix (s prefix : string) : bool := String.prefix prefix s.

(** [strings.Contains(s, "/")] and the like, for a one-byte text. *)
Fixpoint ContainsByte (s : string) (c : ascii) : bool :=
  match s with
  | EmptyString => false
  | String a s' => Ascii.eqb a c || ContainsByte s' c
  end.

(** /run/resource/ goes on when
    [Filename == "" || strings.HasPrefix(Filename, ".") ||
     strings.Contains(Filename, "/")] is false. *)
Definition validFilename (Filename : string) : bool :=
  negb (String.eqb Filename "" || HasPrefix Filename "."
        || ContainsByte Filename "/"%char).

(** [strings.Trim(s, "/")]: without its leading and trailing slashes. *)
Fixpoint TrimLeft (s : string) : string :=
  match s with
  | EmptyString => EmptyString
  | String c s' => if Ascii.eqb c "/"%char then TrimLeft s' else s
  end.
Fixpoint TrimRight (s : string) : string :=
  match s with
  | EmptyString => EmptyString
  | String c s' =>
      match TrimRight s' with
      | EmptyString => if Ascii.eqb c "/"%char then EmptyString else String c EmptyString
      | r => String c r
      end
  end.
Definition Trim (s : string) : string := TrimRight (TrimLeft s).

(** [strings.Split(s, "/")]: the texts between the slashes; one more than
    there are slashes. *)
Fixpoint Split (s : string) : list string :=
  match s with
  | EmptyString => [EmptyString]
  | String c s' =>
      if Ascii.eqb c "/"%char then EmptyString :: Split s'
      else match Split s' with
           | h :: t => String c h :: t
           | [] => [String c EmptyString]
           end
  end.

(** The status codes the handlers answer with. *)
Definition StatusBadRequest : Z := 400.
Definition StatusNotFound : Z := 404.
Definition StatusMethodNotAllowed : Z := 405.

(** The checks of /run/new/ (and, with [GET], of /run/source/) before the
    file of the submission is touched: the status of the rejection, or
    the GUID and the path of the file; [None] is a panic. *)
Definition submissionPath (method : string) (w : World.t)
    (Method Path : string) : option (Z + string * string) :=
  if negb (String.eqb Method method) then Some (inl StatusMethodNotAllowed)
  else
    let tokens := Split (Trim Path) in
    if negb (Go.len tokens =? 3) then Some (inl StatusNotFound)
    else
      guid ← Go.index tokens 2;
      if negb (validGUID guid) then Some (inl StatusBadRequest)
      else
        '(head, tail) ← splitGUID guid;
        Some (inr (guid,
                   Go.path_Join
                     [World.RuntimePath w; "submissions"; head; tail])).

(** The checks of /run/resource/ before the file is opened: the status of
    the rejection, or the path of the file; [None] is a panic. *)
Definition resourcePath (w : World.t) (GUID Filename : string)
  : option (Z + string) :=
  if negb (validGUID GUID) then Some (inl StatusBadRequest)
  else if negb (validFilename Filename) then Some (inl StatusBadRequest)
  else
    '(head, tail) ← splitGUID GUID;
    Some (inr (Go.path_Join [World.RuntimeGradePath w; head; tail; Filename])).

(** The loop of /run/payload/ over [request.GUIDs]: [response[guid]] is
    the run of the context, or [nil] when the context cannot be made. *)
Fixpoint payloadLoop (env : Env.t) (w : World.t) (guids : list string)
    (response : gmap string (option Common.Run.t))
  : M (gmap string (option Common.Run.t)) :=
  match guids with
  | [] => mret response
  | guid :: rest =>
      created ← v1CompatNewRunContext env w guid;
      match created with
      | inl err => payloadLoop env w rest (<[guid := None]> response)
      | inr (runCtx, _) =>
          rc ← load runCtx;
          payloadLoop env w rest
            (<[guid := Some (RunContext.Run rc)]> response)
      end
  end.

Definition runPayload (env : Env.t) (w : World.t) (guids : list string)
  : M (gmap string (option Common.Run.t)) :=
  payloadLoop env w guids ∅.
End Handlers.

(** ** The runner command (cmd/runner/main.go) *)

Module RunnerMain.

(** [time.Second], in nanoseconds. *)
Definition Second : Z := 1000000000.

(** The conversion of a floating-point value to an integer type: the
    fraction is discarded (truncation towards zero). *)
Definition int64_of_float (q : Qc) : Z := Z.quot (Qnum q) (Zpos (Qden q)).

Definition float_ltb (a b : Qc) : bool :=
  match (a ?= b)%Qc with Lt => true | _ => false end.

(** One turn of the loop of [main].  [failed] tells whether [processRun]
    returned an error and [random] is the value of [rand.Float32()]; the
    result is the time slept, if any, and the new [sleepTime].  (The
    values [sleepTime] takes are small powers of two and [random] is a
    multiple of [2^-24], so the [float32] product is exact.) *)
Definition turn (failed : bool) (random : Qc) (sleepTime : Qc)
  : option Z * Qc :=
  if failed then
    (Some (Go.wrap64 (int64_of_float (random * sleepTime)%Qc * Second)),
     if float_ltb sleepTime (Go.float_of_int 64)
     then (sleepTime * Go.float_of_int 2)%Qc else sleepTime)
  else (None, Go.float_of_int 1).

(** The loop of [main] over the outcomes of successive calls of
    [processRun]: the times slept and the last [sleepTime]. *)
Fixpoint mainLoop (outcomes : list (bool * Qc)) (sleepTime : Qc)
  : list Z * Qc :=
  match outcomes with
  | [] => ([], sleepTime)
  | (failed, random) :: rest =>
      let '(slept, sleepTime) := turn failed random sleepTime in
      let '(sleeps, final) := mainLoop rest sleepTime in
      (match slept with Some d => d :: sleeps | None => sleeps end, final)
  end.

(** *** [blockingReader] *)

Inductive error := EOF | ErrUnexpectedEOF.

(** [Read(p)] of a [bytes.Buffer] with the unread bytes [buf],
    for [len(p) = n]: the bytes copied, the error and the bytes left. *)
Definition Buffer_Read (n : nat) (buf : list ascii)
  : list ascii * option error * list ascii :=
  match buf with
  | [] => ([], match n with O => None | _ => Some EOF end, [])
  | _ => (take n buf, None, drop n buf)
  end.

(** The reader is [nil] until it is received from [readerChan]; the
    channel holds the reader that [processRun] has sent, if any. *)
Module blockingReader.
Record t := mk {
  hasRead : bool;
  reader : option (list ascii);
  readerChan : option (list ascii)
}.
End blockingReader.

(** A call of [Read] returns the bytes it stored in [p] and the error,
    panics, or waits on the channel. *)
Inductive result :=
| Returns (bytes : list ascii) (err : option error) (r : blockingReader.t)
| Panics
| Blocks.

(** [Read(p)] of a [blockingReader], for [len(p) = n]. *)
Definition Read (n : nat) (r : blockingReader.t) : result :=
  match blockingReader.reader r with
  | None =>
      if negb (blockingReader.hasRead r) then
        match n with
        | O => Panics
        | S _ =>
            Returns ["{"%char] None
              (blockingReader.mk true None (blockingReader.readerChan r))
        end
      else
        match blockingReader.readerChan r with
        | None => Blocks
        | Some sent =>
            let '(brace, err, buf) := Buffer_Read 1 sent in
            if bool_decide (err <> None)
               || negb (length brace =? 1)%nat
               || negb (bool_decide (brace = ["{"%char]))
            then
              Returns [] (Some ErrUnexpectedEOF)
                (blockingReader.mk true (Some buf) None)
            else
              let '(bytes, err, buf) := Buffer_Read n buf in
              Returns bytes err (blockingReader.mk true (Some buf) None)
        end
  | Some buf =>
      let '(bytes, err, buf) := Buffer_Read n buf in
      Returns bytes err
        (blockingReader.mk (blockingReader.hasRead r) (Some buf)
           (blockingReader.readerChan r))
  end.

(** The request body of [processRun] once the result has been sent. *)
Definition requestBody (resultBytes : list ascii) : blockingReader.t :=
  blockingReader.mk false None (Some resultBytes).
End RunnerMain.

(** ** Vocabulary of the specification

    Notions that the specification uses to state properties, written
    after its words; the properties below relate them to the code. *)

Module Spec.
Import Runner.

(** The position of a verdict string in a list: the index the
    specification calls [index(a)]. *)
Fixpoint position (a : string) (l : list string) : option nat :=
  match l with
  | [] => None
  | v :: rest =>
      if String.eqb v a then Some O else S <$> position a rest
  end.

Definition rank (a : string) : option nat := position a verdictList.

(** One of the eleven verdict strings. *)
Definition known (a : string) : Prop := In a verdictList.

(** [index(a)] with [-1] for a string that is not a verdict. *)
Definition rankZ (a : string) : Z :=
  match rank a with
  | Some i => Z.of_nat i
  | None => -1
  end.

(** Merging a sequence of verdicts from the left, as Grade does with the
    verdicts of the cases. *)
Definition worstOf (v : string) (vs : list string) : option string :=
  fold_left (fun acc x => acc ≫= fun r => worseVerdict r x) vs (Some v).

(** The byte [c] occurs in [s]. *)
Fixpoint occurs (c : ascii) (s : string) : Prop :=
  match s with
  | EmptyString => False
  | String a s' => a = c \/ occurs c s'
  end.

(** [base] is the last /-segment of [name]. *)
Definition lastSegment (name base : string) : Prop :=
  ~ occurs "/"%char base
  /\ (name = base \/ exists dir, name = dir +:+ "/" +:+ base).

(** [k] is [<caseName>.out] for a case declared in the settings. *)
Definition declaredCaseFile (settings : Common.ProblemSettings.t)
    (k : string) : Prop :=
  exists g c,
    In g (Common.ProblemSettings.Cases settings)
    /\ In c (Common.GroupSettings.Cases g)
    /\ k = Common.CaseSettings.Name c +:+ ".out".

(** The entry can be opened and read. *)
Definition readable (f : ZipFile.t) : Prop :=
  exists contents, ZipFile.Data f = IoOk contents.

(** What the decoder stores for an accepted entry: nothing of an entry
    larger than the output limit. *)
Definition storedContents (settings : Common.ProblemSettings.t)
    (f : ZipFile.t) : string :=
  if Common.LimitsSettings.OutputLimit
       (Common.ProblemSettings.Limits settings)
     <? ZipFile.UncompressedSize64 f
  then ""
  else match ZipFile.Data f with
       | IoOk contents => contents
       | IoErr _ => ""
       end.

(** The map the specification describes for the entries of a zip: its
    keys are exactly the last segments of the entries that end in [.out]
    and name the output file of a declared case, and the value of a key is
    what such an entry stores. *)
Definition describedMap (settings : Common.ProblemSettings.t)
    (files : list ZipFile.t) (result : gmap string string) : Prop :=
  forall k,
    (is_Some (result !! k) <->
     exists f, In f files
               /\ lastSegment (ZipFile.Name f) k
               /\ Go.HasSuffix k ".out" = true
               /\ declaredCaseFile settings k)
    /\ forall v,
         result !! k = Some v ->
         exists f, In f files
                   /\ lastSegment (ZipFile.Name f) k
                   /\ v = storedContents settings f.

(** What an accepted entry adds under its key, if anything: the empty
    text when its size exceeds the output limit read as a [uint64] (a
    negative limit is never exceeded), else its contents when it can be
    opened and read, else nothing. *)
Definition stored (settings : Common.ProblemSettings.t) (f : ZipFile.t)
  : option string :=
  if Go.uint64_of_int64
       (Common.LimitsSettings.OutputLimit
          (Common.ProblemSettings.Limits settings))
     <? ZipFile.UncompressedSize64 f
  then Some ""
  else match ZipFile.Data f with
       | IoOk contents => Some contents
       | IoErr _ => None
       end.

(** The compile of a binary failed: the sandbox returned an error or a
    verdict other than [OK]. *)
Definition compileFails (res : option RunMetadata.t * option string) : Prop :=
  snd res <> None
  \/ exists m, fst res = Some m /\ RunMetadata.Verdict m <> "OK".

Definition compileSucceeds (res : option RunMetadata.t * option string) : Prop :=
  snd res = None
  /\ exists m, fst res = Some m /\ RunMetadata.Verdict m = "OK".
(** The file the compile error of [b] is harvested from. *)
Definition compileErrorPath (runRoot : string) (b : binary.t) : string :=
  Go.path_Join [Go.path_Join [runRoot; binary.name b]; compileErrorFile b].

(** The sums of section 4.4.5 over the metadata of the contestant
    binaries. *)
Definition sumTime (ms : list RunMetadata.t) : Qc :=
  fold_left (fun acc m => (acc + RunMetadata.Time m)%Qc) ms 0%Qc.
Definition sumWallTime (ms : list RunMetadata.t) : Qc :=
  fold_left (fun acc m => (acc + RunMetadata.WallTime m)%Qc) ms 0%Qc.
(** The running maximum of section 4.4.5. *)
Definition maxMemory (ms : list RunMetadata.t) : Z :=
  fold_left (fun acc m => Z.max acc (RunMetadata.Memory m)) ms 0.
(** What the aggregation loop computes instead. *)
Definition accumulatedMemory (ms : list RunMetadata.t) : Z :=
  fold_left
    (fun acc m => Go.wrap64 (acc + max64 acc (RunMetadata.Memory m))) ms 0.
(** The message a contestant binary posts. *)
Definition contestantResult (m : RunMetadata.t) : intermediateRunResult.t :=
  intermediateRunResult.mk (Some m) binaryContestant.
End Spec.

(** ** Vocabulary for the grader *)

Module GraderSpec.
Import Grader.

(** The number of runs waiting in the three FIFOs of a queue. *)
Definition depth (q : Queue.t) : nat :=
  (chan.len (Queue.runsHigh q) + chan.len (Queue.runsNormal q)
   + chan.len (Queue.runsLow q))%nat.

(** The invariant of a queue: as many readiness tokens as waiting runs,
    no FIFO over its capacity, a readiness channel with room for the
    three FIFOs (as [QueueManager.Add] makes it), and only allocated runs
    in the FIFOs. *)
Record queue_inv (heap : gmap ptr RunContext.t) (q : Queue.t) : Prop := {
  inv_balanced : chan.len (Queue.ready q) = depth q;
  inv_bounded :
    forall p, (chan.len (Queue.runs q p) <= chan.cap (Queue.runs q p))%nat;
  inv_ready_cap :
    chan.cap (Queue.ready q)
    = (chan.cap (Queue.runsHigh q) + chan.cap (Queue.runsNormal q)
       + chan.cap (Queue.runsLow q))%nat;
  inv_allocated :
    forall p run, In run (chan.buf (Queue.runs q p)) -> is_Some (heap !! run)
}.

Definition state_inv (s : State.t) : Prop :=
  forall name q, State.queues s !! name = Some q -> queue_inv (State.heap s) q.

(** The run a dequeue must return: the oldest run of the first non-empty
    FIFO in the order High, Normal, Low. *)
Definition firstWaiting (q : Queue.t) : option (QueuePriority * ptr) :=
  match chan.buf (Queue.runsHigh q), chan.buf (Queue.runsNormal q),
        chan.buf (Queue.runsLow q) with
  | run :: _, _, _ => Some (QueuePriorityHigh, run)
  | [], run :: _, _ => Some (QueuePriorityNormal, run)
  | [], [], run :: _ => Some (QueuePriorityLow, run)
  | [], [], [] => None
  end.

(** The queue after a run was appended to, or removed from the front of,
    the FIFO of a priority, with the matching change of the readiness
    channel. *)
Definition pushed (p : QueuePriority) (run : ptr) (q : Queue.t) : Queue.t :=
  Queue.setReady
    (chan.mk (chan.buf (Queue.ready q) ++ [tt]) (chan.cap (Queue.ready q)))
    (Queue.setRuns p
       (chan.mk (chan.buf (Queue.runs q p) ++ [run])
                (chan.cap (Queue.runs q p))) q).

Definition popped (p : QueuePriority) (q : Queue.t) : Queue.t :=
  Queue.setRuns p
    (chan.mk (tail (chan.buf (Queue.runs q p))) (chan.cap (Queue.runs q p)))
    (Queue.setReady
       (chan.mk (tail (chan.buf (Queue.ready q))) (chan.cap (Queue.ready q)))
       q).

(** The state after a dequeue of [run] at priority [p]. *)
Definition dequeued (name : string) (runner : string) (p : QueuePriority)
    (run : ptr) (rc : RunContext.t) (q : Queue.t) (s : State.t) : State.t :=
  State.mk
    (<[ run := RunContext.setMonitor true rc ]> (State.heap s))
    (<[ name := popped p q ]> (State.queues s))
    (<[ Common.Run.AttemptID (RunContext.Run rc)
        := InflightRun.mk run runner false false ]> (State.mapping s))
    (State.nextAttemptID s) (State.log s).

(** The events of closing an open context that is not inflight. *)
Definition closeEvents (env : Env.t) (run : ptr) (rc : RunContext.t)
  : list event :=
  match RunContext.input rc with
  | Some handle => [InputReleased handle]
  | None => []
  end ++
  if Env.persist env (RunContext.GradeDir rc)
  then [DetailsWritten (RunContext.GradeDir rc) (RunContext.Result rc);
        ReadyClosed run]
  else [].

(** The context after such a close. *)
Definition closedContext (env : Env.t) (rc : RunContext.t) : RunContext.t :=
  RunContext.setReadyClosed
    (Env.persist env (RunContext.GradeDir rc) || RunContext.readyClosed rc)
    (RunContext.setInput None (RunContext.setClosed 1 rc)).

(** A run is either not dispatched, or the inflight monitor has it under
    its current attempt. *)
Definition inflight_ok (s : State.t) (run : ptr) (rc : RunContext.t) : Prop :=
  RunContext.monitor rc = true ->
  exists inflight,
    State.mapping s !! Common.Run.AttemptID (RunContext.Run rc) = Some inflight
    /\ InflightRun.run inflight = run.

(** The mapping once the run has left the monitor. *)
Definition detachedMapping (s : State.t) (rc : RunContext.t)
  : gmap Z InflightRun.t :=
  if RunContext.monitor rc
  then delete (Common.Run.AttemptID (RunContext.Run rc)) (State.mapping s)
  else State.mapping s.

(** The context after a retry that minted the attempt [attemptID]. *)
Definition requeued (attemptID : Z) (rc : RunContext.t) : RunContext.t :=
  let r := RunContext.Run rc in
  RunContext.setRun
    (Common.Run.mk attemptID (Common.Run.Source r) (Common.Run.Language r)
       (Common.Run.InputHash r) (Common.Run.MaxScore r) (Common.Run.Debug r))
    (RunContext.setTries (RunContext.tries rc - 1)
       (RunContext.setMonitor false rc)).

(** [k] successive calls of [Requeue(false)] on a run, with their
    results. *)
Fixpoint requeueTimes (env : Env.t) (run : ptr) (k : nat) : M (list bool) :=
  match k with
  | O => mret []
  | S k' =>
      b ← Requeue env run false;
      bs ← requeueTimes env run k';
      mret (b :: bs)
  end.
End GraderSpec.

(** ** The queue under interleaving

    The three queue operations at the granularity of their channel
    operations, run by any number of goroutines.  [enqueue] and
    [enqueueBlocking] send the run to a FIFO and then a token to the
    readiness channel; [GetRun] receives a token and then tries the FIFOs in
    order. *)
Module Interleaving.
Import Grader.

(** Where a goroutine is inside a queue operation. *)
Inductive thread :=
| Idle
| SendToken
| Scan (i : nat)
| Unreachable.

(** The FIFOs (each of capacity [channelLength]), the number of tokens in
    the readiness channel (of capacity [3 * channelLength]) and the
    goroutines. *)
Record config := mkConfig {
  runsHigh : list ptr;
  runsNormal : list ptr;
  runsLow : list ptr;
  channelLength : nat;
  tokens : nat;
  threads : list thread
}.

(** [queue.runs[i]] for a Go index [i]. *)
Definition runsAt (c : config) (i : nat) : list ptr :=
  match i with
  | O => runsHigh c
  | 1%nat => runsNormal c
  | 2%nat => runsLow c
  | _ => []
  end.

Definition setRunsAt (i : nat) (l : list ptr) (c : config) : config :=
  match i with
  | O => mkConfig l (runsNormal c) (runsLow c) (channelLength c) (tokens c) (threads c)
  | 1%nat => mkConfig (runsHigh c) l (runsLow c) (channelLength c) (tokens c) (threads c)
  | _ => mkConfig (runsHigh c) (runsNormal c) l (channelLength c) (tokens c) (threads c)
  end.

Definition setTokens (n : nat) (c : config) : config :=
  mkConfig (runsHigh c) (runsNormal c) (runsLow c) (channelLength c) n (threads c).

Definition setThread (k : nat) (t : thread) (c : config) : config :=
  mkConfig (runsHigh c) (runsNormal c) (runsLow c) (channelLength c) (tokens c)
    (<[ k := t ]> (threads c)).

(** One channel operation of the goroutine [k]. *)
Inductive step : config -> config -> Prop :=
| step_send_run c k i run :
    (* [queue.runs[priority] <- run] of enqueue or enqueueBlocking *)
    threads c !! k = Some Idle ->
    (i < 3)%nat ->
    (List.length (runsAt c i) < channelLength c)%nat ->
    step c (setThread k SendToken (setRunsAt i (runsAt c i ++ [run]) c))
| step_send_token c k :
    (* [queue.ready <- struct{}{}] *)
    threads c !! k = Some SendToken ->
    (tokens c < 3 * channelLength c)%nat ->
    step c (setThread k Idle (setTokens (S (tokens c)) c))
| step_receive_token c k n :
    (* [<-queue.ready] of GetRun *)
    threads c !! k = Some Idle ->
    tokens c = S n ->
    step c (setThread k (Scan 0) (setTokens n c))
| step_receive_run c k i run rest :
    (* [case run := <-queue.runs[i]] *)
    threads c !! k = Some (Scan i) ->
    (i < 3)%nat ->
    runsAt c i = run :: rest ->
    step c (setThread k Idle (setRunsAt i rest c))
| step_default c k i :
    (* [default:] of the select on an empty FIFO *)
    threads c !! k = Some (Scan i) ->
    (i < 3)%nat ->
    runsAt c i = [] ->
    step c (setThread k (Scan (S i)) c)
| step_panic c k i :
    (* the statement after the loop *)
    threads c !! k = Some (Scan i) ->
    (3 <= i)%nat ->
    step c (setThread k Unreachable c).

(** A new queue with idle goroutines. *)
Definition initial (channelLength n : nat) : config :=
  mkConfig [] [] [] channelLength 0 (repeat Idle n).

Inductive reachable (channelLength n : nat) : config -> Prop :=
| reachable_initial : reachable channelLength n (initial channelLength n)
| reachable_step c c' :
    reachable channelLength n c -> step c c' -> reachable channelLength n c'.

(** Counting goroutines. *)
Definition isSendToken (t : thread) : bool :=
  match t with SendToken => true | _ => false end.
Definition isScanFrom (j : nat) (t : thread) : bool :=
  match t with Scan i => (j <=? i)%nat | _ => false end.
Definition isUnreachable (t : thread) : bool :=
  match t with Unreachable => true | _ => false end.
Definition count (P : thread -> bool) (ts : list thread) : nat :=
  List.length (List.filter P ts).

(** The runs in the FIFOs from index [j] on. *)
Definition waitingFrom (c : config) (j : nat) : nat :=
  match j with
  | O => (List.length (runsHigh c) + List.length (runsNormal c)
          + List.length (runsLow c))%nat
  | 1%nat => (List.length (runsNormal c) + List.length (runsLow c))%nat
  | 2%nat => List.length (runsLow c)
  | _ => O
  end.

(** The invariant under interleaving: every run in a FIFO is matched by a
    token in the channel, a token about to be sent, or a token held by a
    scanning goroutine; the FIFOs a scanning goroutine has still to visit
    hold a run for it; no goroutine has reached the panic. *)
Record invariant (c : config) : Prop := {
  inv_tokens :
    waitingFrom c 0
    = (tokens c + count isSendToken (threads c)
       + count (isScanFrom 0) (threads c))%nat;
  inv_scan :
    forall j, (1 <= j)%nat ->
      (count (isScanFrom j) (threads c) <= waitingFrom c j)%nat;
  inv_capacity :
    forall i, (List.length (runsAt c i) <= channelLength c)%nat;
  inv_no_panic : count isUnreachable (threads c) = O
}.
End Interleaving.

(** ** Vocabulary for the injection of runs *)

Module MainSpec.
Import Grader Main.

(** The settings of the problem of the run [guid], as the injection reads
    them. *)
Definition problemSettings (w : World.t) (guid : string)
  : option Common.ProblemSettings.t :=
  match World.queryRun w guid with
  | inr row =>
      match World.GetProblemInformation w
              (World.GetRepositoryPath w (World.RuntimePath w)
                 (RunRow.problem_alias row)) with
      | inr (_, settings) => Some settings
      | inl _ => None
      end
  | inl _ => None
  end.

(** A run that the injection has queued: the GUID it was made for, its
    context and the priority of the FIFO it was sent to. *)
Module Injected.
Record t := mk {
  guid : string;
  run : ptr;
  priority : QueuePriority
}.
End Injected.

End MainSpec.

(** ** Vocabulary for the results of Grade *)

Module Results.
Import Runner.

(** The metadata a case result keeps under the key [Main]: what running
    the case reported. *)
Definition mainMeta (c : CaseResult.t) : option RunMetadata.t :=
  CaseResult.Meta c !! "Main".

(** The result the execution phase records for a case that ran with the
    metadata [runMeta] (lines 699-706). *)
Definition caseResultOf (MaxScore : Qc) (caseData : Common.CaseSettings.t)
    (runMeta : RunMetadata.t) : CaseResult.t :=
  CaseResult.mk (RunMetadata.Verdict runMeta)
    (Common.CaseSettings.Name caseData) 0%Qc 0%Qc
    (MaxScore * Common.CaseSettings.Weight caseData)%Qc
    (<[ "Main" := runMeta ]> ∅).

(** The result the execution phase records for a group whose cases ran
    with the metadata [metas] (lines 708-713). *)
Definition groupResultOf (MaxScore : Qc) (group : Common.GroupSettings.t)
    (metas : list RunMetadata.t) : GroupResult.t :=
  GroupResult.mk (Common.GroupSettings.Name group) 0%Qc 0%Qc
    (MaxScore * Common.GroupSettings.Weight group)%Qc
    (zip_with (caseResultOf MaxScore) (Common.GroupSettings.Cases group) metas).

(** The totals of a run over the metadata of its cases, in order. *)
Definition totalTime (metas : list RunMetadata.t) (start : Qc) : Qc :=
  fold_left (fun acc m => (acc + RunMetadata.Time m)%Qc) metas start.
Definition totalWallTime (metas : list RunMetadata.t) (start : Qc) : Qc :=
  fold_left (fun acc m => (acc + RunMetadata.WallTime m)%Qc) metas start.
Definition peakMemory (metas : list RunMetadata.t) (start : Z) : Z :=
  fold_left (fun acc m => max64 acc (RunMetadata.Memory m)) metas start.

(** The run result after the cases with the metadata [metas] were merged
    into it, ending with the verdict [verdict]. *)
Definition merged (metas : list RunMetadata.t) (verdict : string)
    (runResult : RunResult.t) : RunResult.t :=
  RunResult.setMemory (peakMemory metas (RunResult.Memory runResult))
    (RunResult.setWallTime
       (totalWallTime metas (RunResult.WallTime runResult))
       (RunResult.setTime (totalTime metas (RunResult.Time runResult))
          (RunResult.setVerdict verdict runResult))).

(** The verdict of an output-only case: [OK] when the submission holds its
    file. *)
Definition outputOnlyMeta (outputOnlyFiles : gmap string string)
    (caseData : Common.CaseSettings.t) : RunMetadata.t :=
  RunMetadata.ofVerdict
    match outputOnlyFiles !! (Common.CaseSettings.Name caseData +:+ ".out") with
    | Some _ => "OK"
    | None => "RTE"
    end.

(** The metadata of every case of a list of group results, in order. *)
Definition caseMetas (groupResults : list GroupResult.t)
  : list (option RunMetadata.t) :=
  map mainMeta (concat (map GroupResult.Cases groupResults)).

(** The verdict of every case of a list of group results, in order. *)
Definition caseVerdicts (groupResults : list GroupResult.t) : list string :=
  map CaseResult.Verdict (concat (map GroupResult.Cases groupResults)).

(** The group results of an execution phase in which the case [caseData]
    ran with the metadata [f caseData]. *)
Definition groupResultsOf (MaxScore : Qc) (f : Common.CaseSettings.t -> RunMetadata.t)
    (groups : list Common.GroupSettings.t) : list GroupResult.t :=
  map (fun group =>
         groupResultOf MaxScore group (map f (Common.GroupSettings.Cases group)))
      groups.

(** The cases of a list of groups, in order. *)
Definition allCases (groups : list Common.GroupSettings.t)
  : list Common.CaseSettings.t :=
  concat (map Common.GroupSettings.Cases groups).
End Results.

(** ** Vocabulary for the validation phase *)

Module Scoring.
Import Runner Results.

(** [groupResults[i].Cases] (empty when there is no such group). *)
Definition casesAt (groupResults : list GroupResult.t) (i : nat)
  : list CaseResult.t :=
  match groupResults !! i with
  | Some g => GroupResult.Cases g
  | None => []
  end.

(** [groupResults[i].Cases = cases]. *)
Definition setCasesAt (i : nat) (cases : list CaseResult.t)
    (groupResults : list GroupResult.t) : list GroupResult.t :=
  match groupResults !! i with
  | Some g => <[ i := GroupResult.setCases cases g ]> groupResults
  | None => groupResults
  end.

(** The verdict the validation gives a case that scored [runScore]
    (lines 823-834). *)
Definition scoreVerdict (runScore : Qc) : string :=
  if Go.float_eqb runScore 1%Qc then "AC"
  else if Go.float_eqb runScore 0%Qc then "WA"
  else "PA".

(** The variables of the validation of a group that the cases update. *)
Record progress := mkProgress {
  correct : bool;
  score : Qc;
  verdict : string
}.

(** What the validation does to one case: it leaves verdict and scores of
    a case alone (its verdict is not [OK], or a file could not be
    opened), or it scores a case whose verdict is [OK]. *)
Inductive validated_case (MaxScore : Qc) (caseData : Common.CaseSettings.t)
    (c c' : CaseResult.t) : progress -> progress -> Prop :=
| case_left p :
    CaseResult.Name c' = CaseResult.Name c ->
    CaseResult.MaxScore c' = CaseResult.MaxScore c ->
    mainMeta c' = mainMeta c ->
    CaseResult.Verdict c' = CaseResult.Verdict c ->
    CaseResult.Score c' = CaseResult.Score c ->
    CaseResult.ContestScore c' = CaseResult.ContestScore c ->
    validated_case MaxScore caseData c c' p p
| case_scored p v :
    CaseResult.Name c' = CaseResult.Name c ->
    CaseResult.MaxScore c' = CaseResult.MaxScore c ->
    mainMeta c' = mainMeta c ->
    CaseResult.Verdict c = "OK" ->
    CaseResult.Verdict c' = scoreVerdict (CaseResult.Score c') ->
    CaseResult.ContestScore c'
    = (MaxScore * CaseResult.Score c' * Common.CaseSettings.Weight caseData)%Qc ->
    (if Go.float_eqb (CaseResult.Score c') 1%Qc then v = verdict p
     else worseVerdict (verdict p) "PA" = Some v) ->
    validated_case MaxScore caseData c c' p
      (mkProgress
         (correct p && negb (Go.float_eqb (CaseResult.Score c') 0%Qc))
         (score p + CaseResult.Score c' * Common.CaseSettings.Weight caseData)%Qc
         v).

Inductive validated_cases (MaxScore : Qc)
  : list Common.CaseSettings.t -> list CaseResult.t -> list CaseResult.t ->
    progress -> progress -> Prop :=
| cases_nil p : validated_cases MaxScore [] [] [] p p
| cases_cons caseData cases c cs c' cs' p p1 p2 :
    validated_case MaxScore caseData c c' p p1 ->
    validated_cases MaxScore cases cs cs' p1 p2 ->
    validated_cases MaxScore (caseData :: cases) (c :: cs) (c' :: cs') p p2.

(** What the validation does to a group and to the run result: its cases
    are validated from [correct = true] and [score = 0], and the group is
    awarded [score] when [correct] is still set (lines 719-843). *)
Inductive validated_group (group : Common.GroupSettings.t)
    (g g' : GroupResult.t) (rr rr' : RunResult.t) : Prop :=
| group_validated p :
    validated_cases (RunResult.MaxScore rr) (Common.GroupSettings.Cases group)
      (GroupResult.Cases g) (GroupResult.Cases g')
      (mkProgress true 0%Qc (RunResult.Verdict rr)) p ->
    GroupResult.Group g' = GroupResult.Group g ->
    GroupResult.MaxScore g' = GroupResult.MaxScore g ->
    (if correct p
     then GroupResult.Score g' = score p
          /\ GroupResult.ContestScore g' = (RunResult.MaxScore rr * score p)%Qc
          /\ rr' = RunResult.setContestScore
                     (RunResult.ContestScore rr
                      + RunResult.MaxScore rr * score p)%Qc
                     (RunResult.setScore (RunResult.Score rr + score p)%Qc
                        (RunResult.setVerdict (verdict p) rr))
     else GroupResult.Score g' = GroupResult.Score g
          /\ GroupResult.ContestScore g' = GroupResult.ContestScore g
          /\ rr' = RunResult.setVerdict (verdict p) rr) ->
    validated_group group g g' rr rr'.

Inductive validated_groups
  : list Common.GroupSettings.t -> list GroupResult.t -> list GroupResult.t ->
    RunResult.t -> RunResult.t -> Prop :=
| groups_nil rr : validated_groups [] [] [] rr rr
| groups_cons group groups g gs g' gs' rr rr1 rr2 :
    validated_group group g g' rr rr1 ->
    validated_groups groups gs gs' rr1 rr2 ->
    validated_groups (group :: groups) (g :: gs) (g' :: gs') rr rr2.

(** A case result and a group result as the execution phase leaves
    them: no score yet, and the verdict of the case is the one its
    metadata reports. *)
Definition fresh_case (c : CaseResult.t) : Prop :=
  CaseResult.Score c = 0%Qc /\ CaseResult.ContestScore c = 0%Qc
  /\ exists m, mainMeta c = Some m
              /\ RunMetadata.Verdict m = CaseResult.Verdict c.

Definition fresh_group (g : GroupResult.t) : Prop :=
  GroupResult.Score g = 0%Qc /\ GroupResult.ContestScore g = 0%Qc
  /\ Forall fresh_case (GroupResult.Cases g).

(** A case that ran with the verdict [OK] and was scored zero. *)
Definition zeroed (c : CaseResult.t) : bool :=
  String.eqb (CaseResult.Verdict c) "WA"
  && match mainMeta c with
     | Some m => String.eqb (RunMetadata.Verdict m) "OK"
     | None => false
     end.

(** The sum of the weighted scores of the cases of a group, in order. *)
Definition weightedScore (cases : list Common.CaseSettings.t)
    (results : list CaseResult.t) : Qc :=
  fold_left
    (fun acc '(caseData, c) =>
       (acc + CaseResult.Score c * Common.CaseSettings.Weight caseData)%Qc)
    (zip cases results) 0%Qc.

(** The score the validation gives a group with the case results
    [results]: none when one of its cases was scored zero. *)
Definition groupScore (cases : list Common.CaseSettings.t)
    (results : list CaseResult.t) : Qc :=
  if existsb zeroed results then 0%Qc else weightedScore cases results.

(** The verdict and the scores of a case after the validation: a case
    that did not run to [OK] keeps the verdict of its run and scores
    nothing; so does a case that ran to [OK] when a file of its validation
    could not be opened; any other case that ran to [OK] carries the
    verdict of its score and the contest score
    [MaxScore * Score * Weight]. *)
Definition judged (MaxScore : Qc) (caseData : Common.CaseSettings.t)
    (c : CaseResult.t) : Prop :=
  exists m,
    mainMeta c = Some m
    /\ ((CaseResult.Verdict c = RunMetadata.Verdict m
         /\ CaseResult.Score c = 0%Qc
         /\ CaseResult.ContestScore c = 0%Qc)
        \/ (RunMetadata.Verdict m = "OK"
            /\ CaseResult.Verdict c = scoreVerdict (CaseResult.Score c)
            /\ CaseResult.ContestScore c
               = (MaxScore * CaseResult.Score c
                  * Common.CaseSettings.Weight caseData)%Qc)).

(** The file whose contents are scored for a case with the result [c']:
    the output of the contestant, or, with a custom validator, the output
    of the validator when it ended with [OK] and the empty file when it
    did not (lines 723-789). *)
Definition comparedPath (input : Input.t) (runRoot : string)
    (caseData : Common.CaseSettings.t) (c' : CaseResult.t) : option string :=
  let Name := Common.CaseSettings.Name caseData in
  if String.eqb
       (Common.ValidatorSettings.Name
          (Common.ProblemSettings.Validator (Input.Settings input)))
       "custom"
  then
    validateMeta ← CaseResult.Meta c' !! "validator";
    Some (if String.eqb (RunMetadata.Verdict validateMeta) "OK"
          then Go.path_Join [runRoot; "validator"; Name +:+ ".out"]
          else "/dev/null")
  else Some (Go.path_Join [runRoot; Name +:+ ".out"]).

(** The file it is scored against (lines 795-801). *)
Definition expectedPath (input : Input.t)
    (caseData : Common.CaseSettings.t) : string :=
  if String.eqb
       (Common.ValidatorSettings.Name
          (Common.ProblemSettings.Validator (Input.Settings input)))
       "custom"
  then "/dev/null"
  else Go.path_Join
         [Input.Path input; "out"; Common.CaseSettings.Name caseData +:+ ".out"].

(** What the validation makes of the result [c] that the execution of a
    case left: name, maximum score and the metadata under [Main] stay; a
    case whose verdict is not [OK] is left as it is; a case with the
    verdict [OK] whose two files can be opened gets the score that
    [CalculateScore] computes from them, the verdict of that score and the
    contest score [MaxScore * Score * Weight]; when one of the files
    cannot be opened it keeps the verdict [OK] and its scores. *)
Definition validated (w : World.t) (input : Input.t) (runRoot : string)
    (MaxScore : Qc) (caseData : Common.CaseSettings.t)
    (c c' : CaseResult.t) : Prop :=
  CaseResult.Name c' = CaseResult.Name c
  /\ CaseResult.MaxScore c' = CaseResult.MaxScore c
  /\ mainMeta c' = mainMeta c
  /\ if String.eqb (CaseResult.Verdict c) "OK"
     then
       exists path,
         comparedPath input runRoot caseData c' = Some path
         /\ if World.canOpen w path
               && World.canOpen w (expectedPath input caseData)
            then
              CaseResult.Score c'
              = World.CalculateScore w
                  (Common.ProblemSettings.Validator (Input.Settings input))
                  path (expectedPath input caseData)
              /\ CaseResult.Verdict c' = scoreVerdict (CaseResult.Score c')
              /\ CaseResult.ContestScore c'
                 = (MaxScore * CaseResult.Score c'
                    * Common.CaseSettings.Weight caseData)%Qc
            else
              CaseResult.Verdict c' = "OK"
              /\ CaseResult.Score c' = CaseResult.Score c
              /\ CaseResult.ContestScore c' = CaseResult.ContestScore c
     else c' = c.

(** The group results list the groups and the cases of the settings, in
    order and by name. *)
Definition mirrors (groups : list Common.GroupSettings.t)
    (groupResults : list GroupResult.t) : Prop :=
  Forall2
    (fun group g =>
       GroupResult.Group g = Common.GroupSettings.Name group
       /\ map CaseResult.Name (GroupResult.Cases g)
          = map Common.CaseSettings.Name (Common.GroupSettings.Cases group))
    groups groupResults.

(** The sum of the scores of the groups, in order. *)
Definition sumScores (groupResults : list GroupResult.t) (start : Qc) : Qc :=
  fold_left (fun acc g => (acc + GroupResult.Score g)%Qc) groupResults start.
Definition sumContestScores (groupResults : list GroupResult.t) (start : Qc)
  : Qc :=
  fold_left (fun acc g => (acc + GroupResult.ContestScore g)%Qc)
    groupResults start.
End Scoring.

(** ** Vocabulary for retries *)

Module RetrySpec.
Import Grader GraderSpec.

(** The context of a run after a retry that minted the attempt
    [attemptID]: as [requeued], with one try left when the retry was
    marked as the last attempt. *)
Definition retried (lastAttempt : bool) (attemptID : Z) (rc : RunContext.t)
  : RunContext.t :=
  if lastAttempt then RunContext.setTries 1 (requeued attemptID rc)
  else requeued attemptID rc.
End RetrySpec.

(** ** Vocabulary for the queue manager *)

Module QueueManagerSpec.
Import Grader.

(** The calls [enqueue(run, priority)] for the runs of a list, in order,
    with their results. *)
Fixpoint enqueueAll (queue : string) (priority : QueuePriority)
    (runs : list ptr) : M (list bool) :=
  match runs with
  | [] => mret []
  | run :: rest =>
      b ← enqueue queue run priority;
      bs ← enqueueAll queue priority rest;
      mret (b :: bs)
  end.
End QueueManagerSpec.

(** ** Vocabulary for the request checks *)

Module HandlerSpec.
Import Handlers.

(** A text of bytes of the class [[0-9a-f]]. *)
Definition lowerHex (s : string) : Prop :=
  forallb isLowerHex (list_ascii_of_string s) = true.

(** One element of a path that names an entry of its directory: not
    empty, not [.] or [..], and without a slash. *)
Definition plainSegment (s : string) : Prop :=
  s <> "" /\ s <> "." /\ s <> ".." /\ ContainsByte s "/"%char = false.
End HandlerSpec.

(** ** Vocabulary for the runner command *)

Module RunnerMainSpec.
Import RunnerMain.

(** A client that reads a body with buffers of the given sizes until an
    error: what it received and the error, if it got one. *)
Fixpoint received (sizes : list nat) (r : blockingReader.t)
  : option (list ascii * option error) :=
  match sizes with
  | [] => Some ([], None)
  | n :: rest =>
      match Read n r with
      | Returns bytes None r' =>
          '(more, err) ← received rest r'; Some (bytes ++ more, err)
      | Returns bytes (Some err) _ => Some (bytes, Some err)
      | Panics | Blocks => None
      end
  end.

(** [failures] calls of [processRun] that fail, with the given random
    values. *)
Definition failing (randoms : list Qc) : list (bool * Qc) :=
  map (fun random => (true, random)) randoms.
End RunnerMainSpec.

(** ** Concrete inputs used to exercise the properties *)

(** An output-only submission: a zip with a nested entry, an entry over the
    output limit, an entry of another kind and an entry of no case. *)
Module OutputOnlyExample.
Import Runner.
Definition settings : Common.ProblemSettings.t :=
  Common.ProblemSettings.mk
    [Common.GroupSettings.mk
       [Common.CaseSettings.mk "a" (Q2Qc (1#2)); Common.CaseSettings.mk "b" (Q2Qc (1#2))]
       "g" 1%Qc]
    None
    (Common.LimitsSettings.mk 0 33554432 10240 60000 1000)
    false
    (Common.ValidatorSettings.mk None "token" None None).
Definition files : list ZipFile.t :=
  [ ZipFile.mk "dir/a.out" 3 (IoOk "abc");
    ZipFile.mk "b.out" 20000 (IoOk "big");
    ZipFile.mk "notes.txt" 2 (IoOk "hi");
    ZipFile.mk "c.out" 1 (IoOk "c") ].
Definition dec : Decoders.t :=
  Decoders.mk
    (fun s => if String.eqb s "data:application/zip;base64,UEs=" then Some "PK" else None)
    (fun payload => if String.eqb payload "PK" then inr files else inl "zip: not a valid zip file").

(** An archive whose entry [a.out] cannot be read. *)
Definition damaged : list ZipFile.t :=
  [ ZipFile.mk "a.out" 3 (IoErr "zip: checksum error");
    ZipFile.mk "b.out" 2 (IoOk "ok") ].
Definition decDamaged : Decoders.t :=
  Decoders.mk (Decoders.dataurl_DecodeString dec) (fun _ => inr damaged).

(** The same problem with a negative output limit. *)
Definition unlimited : Common.ProblemSettings.t :=
  Common.ProblemSettings.mk (Common.ProblemSettings.Cases settings) None
    (Common.LimitsSettings.mk 0 33554432 (-1) 60000 1000)
    false
    (Common.ValidatorSettings.mk None "token" None None).
End OutputOnlyExample.

(** A two-case problem graded on a C++ submission, under sandboxes that
    differ in what the compiler and the program do. *)
Module GradeExample.
Import Runner.

Definition half : Qc := Q2Qc (1 # 2).

Definition limits : Common.LimitsSettings.t :=
  Common.LimitsSettings.mk 0 33554432 10240 60000 1000.

(** One group with two cases of weight one half each, compared by
    tokens. *)
Definition settings : Common.ProblemSettings.t :=
  Common.ProblemSettings.mk
    [Common.GroupSettings.mk
       [Common.CaseSettings.mk "a" half; Common.CaseSettings.mk "b" half]
       "g" 1%Qc]
    None limits false
    (Common.ValidatorSettings.mk None "token" None None).

Definition input : Input.t := Input.mk "/input" settings.

Definition run : Common.Run.t :=
  Common.Run.mk 7 "int main() { return 0; }" "cpp" "hash" 1%Qc false.

Definition okMeta : RunMetadata.t :=
  RunMetadata.mk "OK" (Q2Qc (1 # 10)) (Q2Qc (1 # 5)) 10 0.

Definition world : World.t :=
  World.mk "/rt"
    (Decoders.mk (fun _ => None) (fun _ => inl "zip: not a valid zip file"))
    (fun _ => None) None None
    (fun _ => IoOk "Main.cpp:1: error: expected ';'")
    (fun _ => true) (fun _ => true)
    (fun _ binaries => binaries)
    (fun _ _ _ => 1%Qc)
    None.

(** Every program compiles and runs cleanly. *)
Definition sandboxOK : Sandbox.t :=
  Sandbox.mk true
    (fun _ _ _ _ _ _ _ _ => (Some (RunMetadata.ofVerdict "OK"), None))
    (fun _ _ _ _ _ _ _ _ _ _ _ _ => (Some okMeta, None)).

(** The program dies on case [b]. *)
Definition sandboxRTE : Sandbox.t :=
  Sandbox.mk true
    (fun _ _ _ _ _ _ _ _ => (Some (RunMetadata.ofVerdict "OK"), None))
    (fun _ _ _ out _ _ _ _ _ _ _ _ =>
       if String.eqb out "/rt/grade/7/b.out"
       then (Some (RunMetadata.mk "RTE" (Q2Qc (1 # 10)) (Q2Qc (1 # 5)) 10 0),
             None)
       else (Some okMeta, None)).

(** The compiler rejects the program. *)
Definition sandboxCE : Sandbox.t :=
  Sandbox.mk true
    (fun _ _ _ _ _ _ _ _ => (Some (RunMetadata.ofVerdict "CE"), None))
    (fun _ _ _ _ _ _ _ _ _ _ _ _ => (Some okMeta, None)).

(** The second case is answered wrongly. *)
Definition worldWA : World.t :=
  World.mk "/rt" (World.decoders world) (fun _ => None) None None
    (World.readFile world) (fun _ => true) (fun _ => true)
    (fun _ binaries => binaries)
    (fun _ contestant _ =>
       if String.eqb contestant "/rt/grade/7/b.out" then 0%Qc else 1%Qc)
    None.

(** The output of the second case cannot be opened. *)
Definition worldUnopened : World.t :=
  World.mk "/rt" (World.decoders world) (fun _ => None) None None
    (World.readFile world) (fun _ => true)
    (fun path => negb (String.eqb path "/rt/grade/7/b.out"))
    (fun _ binaries => binaries)
    (fun _ _ _ => 1%Qc)
    None.

(** An interactive problem with a driver and two contestant interfaces;
    every process reports ten units of memory. *)
Definition iface (source : string) : Common.InteractiveInterface.t :=
  Common.InteractiveInterface.mk
    [Common.MakefileRule.mk [source] [source +:+ ".cpp"] "g++" "-O2" false]
    [].

Definition interactive : Common.InteractiveSettings.t :=
  Common.InteractiveSettings.mk
    [("Main", [("cpp", iface "Main")]);
     ("alice", [("cpp", iface "alice")]);
     ("bob", [("cpp", iface "bob")])]
    "Main" "encoder" "cpp" "2.0".

Definition interactiveSettings : Common.ProblemSettings.t :=
  Common.ProblemSettings.mk
    [Common.GroupSettings.mk [Common.CaseSettings.mk "a" 1%Qc] "g" 1%Qc]
    (Some interactive) limits false
    (Common.ValidatorSettings.mk None "token" None None).

Definition interactiveInput : Input.t := Input.mk "/input" interactiveSettings.

(** The same problem with a driver written for [cpp11]. *)
Definition interactiveCpp11 : Common.InteractiveSettings.t :=
  Common.InteractiveSettings.mk
    [("Main", [("cpp11", iface "Main")]);
     ("alice", [("cpp", iface "alice")]);
     ("bob", [("cpp", iface "bob")])]
    "Main" "encoder" "cpp11" "2.0".

Definition interactiveCpp11Input : Input.t :=
  Input.mk "/input"
    (Common.ProblemSettings.mk
       [Common.GroupSettings.mk [Common.CaseSettings.mk "a" 1%Qc] "g" 1%Qc]
       (Some interactiveCpp11) limits false
       (Common.ValidatorSettings.mk None "token" None None)).

(** The binary planned for the submission. *)
Definition mainBinary : binary.t :=
  binary.mk "Main" "Main" "cpp" "/rt/grade/7/Main/bin" "" binaryContestant
    true ["/rt/grade/7/Main/bin/Main.cpp"] [] ∅.

(** What the examples look at in a result: the verdict, the score, and for
    every group its score and the verdicts of its cases. *)
Definition summary (res : result)
  : option (string * Q * list (Q * list string)) :=
  match res with
  | Returned r _ =>
      Some (RunResult.Verdict r, Qred (RunResult.Score r),
            map (fun g => (Qred (GroupResult.Score g),
                           map CaseResult.Verdict (GroupResult.Cases g)))
                (RunResult.Groups r))
  | _ => None
  end.

(** The memory reported for every case of a result. *)
Definition caseMemory (res : result) : option (list (list (option Z))) :=
  match res with
  | Returned r _ =>
      Some (map (fun g =>
                   map (fun c => RunMetadata.Memory <$> CaseResult.Meta c !! "Main")
                       (GroupResult.Cases g))
                (RunResult.Groups r))
  | _ => None
  end.
End GradeExample.

(** A grader with one queue and one run, as the dispatch of a run leaves
    it. *)
Module GraderExample.
Import Grader.

(** Two tries per run; grade directories can be written. *)
Definition env : Env.t := Env.mk 2 (fun _ => true).

Definition empty : State.t := State.mk ∅ ∅ ∅ 1 [].

(** A grader with the default queue in which one run was created, added
    and handed to a runner. *)
Definition dispatch : M ptr :=
  queue ← QueueManager_Add "default" 4;
  run ← NewEmptyRunContext env;
  _ ← AddRun queue run;
  _ ← GetRun queue "runner-1" false;
  mret run.

(** The context of the dispatched run. *)
Definition inflightContext : RunContext.t :=
  RunContext.mk 0 "" None None ""
    (Common.Run.mk 1 "" "" "" 1%Qc false)
    (emptyResult "JE") "" QueuePriorityNormal "" 0 None 2 (Some "default")
    true false.

(** The state [dispatch] leaves. *)
Definition dispatched : State.t :=
  State.mk {[ 0%nat := inflightContext ]}
    {[ "default" := newQueue "default" 4 ]}
    {[ 1 := InflightRun.mk 0%nat "runner-1" false false ]} 2 [].

(** The same grader with the run waiting in the queue. *)
Definition waiting : State.t :=
  State.mk
    {[ 0%nat := RunContext.setMonitor false inflightContext ]}
    {[ "default"
       := GraderSpec.pushed QueuePriorityNormal 0%nat (newQueue "default" 4) ]}
    ∅ 2 [].

(** A short description of an event. *)
Definition describe (e : event) : string :=
  match e with
  | CloseWarning _ => "warning: already closed"
  | InputReleased _ => "input released"
  | DetailsWritten _ result =>
      "details written: " +:+ Runner.RunResult.Verdict result
  | ReadyClosed _ => "ready closed"
  | PostProcessed _ _ => "post-processed"
  | TimedOut _ => "timed out"
  end.

(** What the examples look at after an operation: its result, and of the
    given run the closed flag and the tries left, then the FIFOs of the
    default queue (High, Normal, Low) and the events. *)
Definition observe {A} (run : ptr) (o : outcome A)
  : option (A * option (Z * Z) * list (list ptr) * list string) :=
  match o with
  | Done a s =>
      Some (a,
            (fun rc => (RunContext.closed rc, RunContext.tries rc))
              <$> State.heap s !! run,
            match State.queues s !! "default" with
            | Some q =>
                [chan.buf (Queue.runsHigh q); chan.buf (Queue.runsNormal q);
                 chan.buf (Queue.runsLow q)]
            | None => []
            end,
            map describe (State.log s))
  | _ => None
  end.
End GraderExample.

(** Two pending runs, the second of a problem marked slow. *)
Module InjectExample.
Import Grader Main.

Definition settingsOf (slow : bool) : Common.ProblemSettings.t :=
  Common.ProblemSettings.mk [] None
    (Common.LimitsSettings.mk 0 33554432 10240 60000 1000) slow
    (Common.ValidatorSettings.mk None "token" None None).

Definition guidA : string := "aaaaaaaaaaaaaaaaaaaaaaaaaaaaaaaa".
Definition guidB : string := "bbbbbbbbbbbbbbbbbbbbbbbbbbbbbbbb".

Definition world : World.t :=
  World.mk "/var/lib/omegaup/grade" "/var/lib/omegaup"
    (fun guid =>
       if String.eqb guid guidA
       then inr (RunRow.mk 1 None None None "cpp" "sumas" None)
       else if String.eqb guid guidB
       then inr (RunRow.mk 2 None None None "py" "lento" None)
       else inl "sql: no rows in result set")
    (fun root problem => root +:+ "/problems.git/" +:+ problem)
    (fun path =>
       if String.eqb path "/var/lib/omegaup/problems.git/sumas"
       then inr ("hash-sumas", settingsOf false)
       else if String.eqb path "/var/lib/omegaup/problems.git/lento"
       then inr ("hash-lento", settingsOf true)
       else inl "repository not found")
    (fun _ => inr "print(1)")
    (fun hash _ => inr hash).

(** A grader with an empty default queue. *)
Definition idle : State.t :=
  State.mk ∅ {[ "default" := newQueue "default" 4 ]} ∅ 1 [].
End InjectExample.

(** * Properties *)

(** ** Verdict algebra *)

Module VerdictFacts.
Import Runner Spec.

Lemma Go_index_app {A} (pre l : list A) (i : nat) :
  Go.index (pre ++ l) (Z.of_nat (List.length pre + i)) = nth_error l i.
Proof.
  unfold Go.index.
  destruct (Z.ltb_spec (Z.of_nat (List.length pre + i)) 0) as [Hneg|_]; [lia|].
  rewrite Nat2Z.id. rewrite nth_error_app2 by lia.
  f_equal. lia.
Qed.

Lemma Go_index_nat {A} (l : list A) (i : nat) :
  Go.index l (Z.of_nat i) = nth_error l i.
Proof. exact (Go_index_app [] l i). Qed.

Lemma sliceIndex_loop_position (L pre l : list string) (a : string) :
  L = pre ++ l ->
  sliceIndex_loop (List.length l) (Z.of_nat (List.length pre))
    (fun i => match Go.index L i with
              | Some v => String.eqb v a
              | None => false
              end)
  = match position a l with
    | Some i => Z.of_nat (List.length pre + i)
    | None => -1
    end.
Proof.
  revert pre. induction l as [|v l IH]; intros pre ->; [reflexivity|].
  cbn [List.length sliceIndex_loop position].
  pose proof (Go_index_app pre (v :: l) 0) as Hhead.
  rewrite Nat.add_0_r in Hhead. rewrite Hhead. cbn [nth_error].
  destruct (String.eqb v a).
  - now rewrite Nat.add_0_r.
  - specialize (IH (pre ++ [v])).
    rewrite <- app_assoc in IH. cbn [app] in IH.
    specialize (IH eq_refl).
    rewrite length_app in IH. cbn [List.length] in IH.
    replace (Z.of_nat (List.length pre) + 1)
      with (Z.of_nat (List.length pre + 1)) by lia.
    rewrite IH.
    destruct (position a l) as [i|]; cbn; [f_equal; lia | reflexivity].
Qed.

Lemma sliceIndex_rank (a : string) :
  sliceIndex (Go.len verdictList) (verdictIs a) = rankZ a.
Proof.
  unfold sliceIndex, Go.len, rankZ, rank. rewrite Nat2Z.id.
  exact (sliceIndex_loop_position verdictList [] verdictList a eq_refl).
Qed.

Lemma position_nth_error (a : string) (l : list string) (i : nat) :
  position a l = Some i -> nth_error l i = Some a.
Proof.
  revert i. induction l as [|v l IH]; intros i; cbn; [discriminate|].
  destruct (String.eqb_spec v a) as [->|Hne].
  - intros [= <-]. reflexivity.
  - destruct (position a l) as [j|]; cbn; [|discriminate].
    intros [= <-]. cbn. auto.
Qed.

Lemma position_In (a : string) (l : list string) :
  In a l <-> is_Some (position a l).
Proof.
  induction l as [|v l IH]; cbn.
  - split; [tauto | intros [? [=]]].
  - destruct (String.eqb_spec v a) as [->|Hne].
    + split; eauto.
    + rewrite IH. split.
      * intros [?|[i Hi]]; [congruence|]. rewrite Hi. cbn. eauto.
      * intros [i Hi]. right. destruct (position a l); [eauto|discriminate].
Qed.

Lemma known_rank (a : string) : known a <-> is_Some (rank a).
Proof. apply position_In. Qed.

Lemma position_lt (a : string) (l : list string) (i : nat) :
  position a l = Some i -> (i < List.length l)%nat.
Proof.
  intros H%position_nth_error. apply nth_error_Some. congruence.
Qed.

(** The function the source defines, in closed form: the argument of
    smaller rank when both are verdicts, a panic otherwise. *)
Lemma worseVerdict_rank (a b : string) :
  worseVerdict a b =
    match rank a, rank b with
    | Some i, Some j => Some (if (i <=? j)%nat then a else b)
    | _, _ => None
    end.
Proof.
  unfold worseVerdict. rewrite !sliceIndex_rank. unfold rankZ, min.
  destruct (rank a) as [i|] eqn:Ha, (rank b) as [j|] eqn:Hb.
  - destruct (Z.ltb_spec (Z.of_nat i) (Z.of_nat j)) as [Hlt|Hge].
    + rewrite Go_index_nat.
      destruct (Nat.leb_spec i j); [|lia].
      now apply position_nth_error.
    + rewrite Go_index_nat.
      destruct (Nat.leb_spec i j) as [Hle|Hgt].
      * assert (i = j) as -> by lia.
        apply position_nth_error in Ha. apply position_nth_error in Hb.
        congruence.
      * now apply position_nth_error.
  - destruct (Z.ltb_spec (Z.of_nat i) (-1)); [lia | reflexivity].
  - destruct (Z.ltb_spec (-1) (Z.of_nat j)); [reflexivity | lia].
  - reflexivity.
Qed.

Lemma rank_inj (a b : string) (i : nat) :
  rank a = Some i -> rank b = Some i -> a = b.
Proof.
  intros Ha%position_nth_error Hb%position_nth_error. congruence.
Qed.

Lemma worseVerdict_known (a b : string) (i j : nat) :
  rank a = Some i -> rank b = Some j ->
  worseVerdict a b = Some (if (i <=? j)%nat then a else b).
Proof. intros Ha Hb. rewrite worseVerdict_rank, Ha, Hb. reflexivity. Qed.

(** Evaluates every [worseVerdict] of two ranked verdicts and splits on
    the comparisons of the ranks. *)
Ltac worse_cases :=
  repeat first
    [ erewrite worseVerdict_known by eassumption
    | progress cbn [mbind option_bind]
    | match goal with
      | |- context [(?i <=? ?j)%nat] => destruct (Nat.leb_spec i j)
      end ];
  try reflexivity; try lia.

Lemma worseVerdict_comm (a b : string) (i j : nat) :
  rank a = Some i -> rank b = Some j ->
  worseVerdict a b = worseVerdict b a.
Proof.
  intros Ha Hb. worse_cases.
  assert (i = j) as -> by lia. f_equal. eauto using rank_inj.
Qed.

Lemma worseVerdict_idem (a : string) (i : nat) :
  rank a = Some i -> worseVerdict a a = Some a.
Proof. intros Ha. worse_cases. Qed.

Lemma worseVerdict_assoc (a b c : string) (i j k : nat) :
  rank a = Some i -> rank b = Some j -> rank c = Some k ->
  worseVerdict b c ≫= worseVerdict a
  = worseVerdict a b ≫= fun ab => worseVerdict ab c.
Proof. intros Ha Hb Hc. worse_cases. Qed.

Lemma worstOf_ranked (vs : list string) (v : string) (i : nat) :
  rank v = Some i -> Forall known vs ->
  exists w k,
    worstOf v vs = Some w /\ rank w = Some k /\ In w (v :: vs)
    /\ (k <= i)%nat
    /\ forall x j, In x vs -> rank x = Some j -> (k <= j)%nat.
Proof.
  revert v i. induction vs as [|x vs IH]; intros v i Hv Hall.
  - exists v, i. cbn. repeat split; auto. intros ? ? [].
  - apply Forall_cons_iff in Hall as [Hx Hall].
    apply known_rank in Hx as [j Hj].
    unfold worstOf. cbn [fold_left mbind option_bind].
    rewrite (worseVerdict_known v x i j Hv Hj).
    destruct (Nat.leb_spec i j) as [Hle|Hgt].
    + destruct (IH v i Hv Hall) as (w & k & Hw & Hk & Hin & Hki & Hmin).
      exists w, k. repeat split; auto.
      * destruct Hin as [<-|Hin]; [left; reflexivity | right; right; exact Hin].
      * intros y jy [<-|Hy] Hjy; [|eauto].
        assert (jy = j) as -> by congruence. lia.
    + destruct (IH x j Hj Hall) as (w & k & Hw & Hk & Hin & Hkj & Hmin).
      exists w, k. repeat split; auto.
      * right. exact Hin.
      * lia.
      * intros y jy [<-|Hy] Hjy; [|eauto].
        assert (jy = j) as -> by congruence. lia.
Qed.

(** Membership of a literal in the verdict list, by evaluation. *)
Ltac solve_known := apply known_rank; eexists; vm_compute; reflexivity.

(** C4 (as stated it fails): [worseVerdict] is not total; with an
    argument that is not one of the eleven verdict strings the index is
    [-1] and [verdictList[-1]] panics instead of yielding a verdict. *)
Lemma worseVerdict_unknown_panics :
  rank "XX" = None
  /\ worseVerdict "XX" "OK" = None
  /\ ~ (forall a b : string, is_Some (worseVerdict a b)).
Proof.
  split; [vm_compute; reflexivity|]. split; [vm_compute; reflexivity|].
  intros Htotal. destruct (Htotal "XX" "OK") as [v Hv].
  vm_compute in Hv. discriminate.
Qed.

(** C4 (amended): [worseVerdict a b] is
    [verdictList[min(index a, index b)]] over the order JE, CE, MLE, RFE,
    RTE, TLE, OLE, WA, PA, AC, OK when both arguments are verdict strings
    of that list, and it returns a verdict exactly in that case: with an
    argument outside the list the indexing is out of bounds. *)
Theorem worseVerdict_min_index (a b : string) :
  verdictList
    = ["JE"; "CE"; "MLE"; "RFE"; "RTE"; "TLE"; "OLE"; "WA"; "PA"; "AC"; "OK"]
  /\ NoDup verdictList
  /\ worseVerdict a b = Go.index verdictList (Z.min (rankZ a) (rankZ b))
  /\ worseVerdict a b
     = (i ← rank a; j ← rank b; nth_error verdictList (Nat.min i j))
  /\ (is_Some (worseVerdict a b) <-> known a /\ known b).
Proof.
  split; [reflexivity|].
  split; [apply (bool_decide_unpack _); vm_compute; exact I|].
  split.
  { unfold worseVerdict. rewrite !sliceIndex_rank. unfold min.
    destruct (Z.ltb_spec (rankZ a) (rankZ b)); f_equal; lia. }
  split.
  - rewrite worseVerdict_rank.
    destruct (rank a) as [i|] eqn:Ha; [|reflexivity].
    destruct (rank b) as [j|] eqn:Hb; [|reflexivity].
    cbn [mbind option_bind].
    destruct (Nat.leb_spec i j).
    + rewrite Nat.min_l by lia. symmetry. now apply position_nth_error.
    + rewrite Nat.min_r by lia. symmetry. now apply position_nth_error.
  - rewrite worseVerdict_rank, !known_rank.
    destruct (rank a) as [i|], (rank b) as [j|].
    + split; intros _; [split|]; eexists; reflexivity.
    + split; [intros [? [=]] | intros [_ [? [=]]]].
    + split; [intros [? [=]] | intros [[? [=]] _]].
    + split; [intros [? [=]] | intros [[? [=]] _]].
Qed.

(** C8: over the eleven verdict strings [worseVerdict] is commutative,
    idempotent and associative, and merging a non-empty sequence of
    verdicts from the left yields a verdict of the sequence whose index is
    the smallest that occurs in it. *)
Theorem worseVerdict_algebra (a b c v : string) (vs : list string) :
  known a -> known b -> known c -> Forall known (v :: vs) ->
  worseVerdict a b = worseVerdict b a
  /\ worseVerdict a a = Some a
  /\ worseVerdict b c ≫= worseVerdict a
     = worseVerdict a b ≫= (fun ab => worseVerdict ab c)
  /\ exists w k,
       worstOf v vs = Some w /\ In w (v :: vs) /\ rank w = Some k
       /\ forall x, In x (v :: vs) ->
            exists j, rank x = Some j /\ (k <= j)%nat.
Proof.
  intros [i Hi]%known_rank [j Hj]%known_rank [k Hk]%known_rank Hall.
  split; [eauto using worseVerdict_comm|].
  split; [eauto using worseVerdict_idem|].
  split; [eauto using worseVerdict_assoc|].
  apply Forall_cons_iff in Hall as [[n Hn]%known_rank Hall].
  destruct (worstOf_ranked vs v n Hn Hall) as (w & m & Hw & Hm & Hin & Hmn & Hmin).
  exists w, m. repeat split; auto.
  intros x [<-|Hx].
  - exists n. split; [assumption | lia].
  - assert (known x) as [jx Hjx]%known_rank.
    { rewrite Forall_forall in Hall. apply Hall. now apply list_elem_of_In. }
    exists jx. split; [assumption | eauto].
Qed.

Lemma worseVerdict_algebra_witness :
  worseVerdict "WA" "RTE" = worseVerdict "RTE" "WA"
  /\ worstOf "OK" ["AC"; "WA"; "PA"; "TLE"; "AC"] = Some "TLE".
Proof.
  destruct (worseVerdict_algebra "WA" "RTE" "AC" "OK"
              ["AC"; "WA"; "PA"; "TLE"; "AC"]) as (Hcomm & _).
  - solve_known.
  - solve_known.
  - solve_known.
  - repeat (apply List.Forall_cons; [solve_known|]); apply List.Forall_nil.
  - split; [exact Hcomm | vm_compute; reflexivity].
Defined.

End VerdictFacts.

(** ** Strings *)

Module StringFacts.
Import Spec.

Lemma append_cons (a : ascii) (s t : string) :
  String a s +:+ t = String a (s +:+ t).
Proof. reflexivity. Qed.

Lemma append_empty_l (t : string) : "" +:+ t = t.
Proof. reflexivity. Qed.

Lemma append_assoc (s t u : string) : (s +:+ t) +:+ u = s +:+ (t +:+ u).
Proof.
  induction s as [|a s IH]; [reflexivity|].
  rewrite !append_cons. now rewrite IH.
Qed.

Lemma length_append (s t : string) :
  String.length (s +:+ t) = (String.length s + String.length t)%nat.
Proof.
  induction s as [|a s IH]; [reflexivity|].
  rewrite append_cons. cbn [String.length]. now rewrite IH.
Qed.

Lemma substring_all (s : string) : substring 0 (String.length s) s = s.
Proof. induction s as [|a s IH]; cbn; [reflexivity | now rewrite IH]. Qed.

Lemma substring_skip (s t : string) (n : nat) :
  substring (String.length s) n (s +:+ t) = substring 0 n t.
Proof.
  induction s as [|a s IH]; [reflexivity|].
  rewrite append_cons. cbn [String.length substring]. exact IH.
Qed.

Lemma HasSuffix_append (s suffix : string) :
  Go.HasSuffix (s +:+ suffix) suffix = true.
Proof.
  unfold Go.HasSuffix. rewrite length_append.
  apply andb_true_intro. split.
  - apply Nat.leb_le. lia.
  - replace (String.length s + String.length suffix - String.length suffix)%nat
      with (String.length s) by lia.
    rewrite substring_skip, substring_all. apply String.eqb_refl.
Qed.

Lemma LastIndexByte_range (s : string) (c : ascii) :
  -1 <= Go.LastIndexByte s c < Z.of_nat (String.length s).
Proof.
  induction s as [|a s IH]; cbn [Go.LastIndexByte String.length]; [lia|].
  destruct (Z.leb_spec 0 (Go.LastIndexByte s c)); [lia|].
  destruct (Ascii.eqb a c); lia.
Qed.

Lemma LastIndexByte_split (s : string) (c : ascii) :
  (Go.LastIndexByte s c = -1 /\ ~ occurs c s)
  \/ exists pre post,
       s = pre +:+ String c post
       /\ Go.LastIndexByte s c = Z.of_nat (String.length pre)
       /\ ~ occurs c post.
Proof.
  induction s as [|a s IH]; cbn [Go.LastIndexByte occurs]; [left; tauto|].
  destruct IH as [[Hm Hno]|(pre & post & -> & Hidx & Hno)].
  - rewrite Hm. cbn [Z.leb Z.compare].
    destruct (Ascii.eqb_spec a c) as [->|Hne].
    + right. exists "", s. repeat split; auto.
    + left. split; [reflexivity | tauto].
  - right. exists (String a pre), post.
    rewrite Hidx.
    destruct (Z.leb_spec 0 (Z.of_nat (String.length pre))); [|lia].
    rewrite append_cons. cbn [String.length]. repeat split; auto. lia.
Qed.

Lemma slice_from_append (pre post : string) :
  Go.slice_from (String.length pre) (pre +:+ post) = post.
Proof.
  induction pre as [|a pre IH]; [now destruct post|].
  rewrite append_cons. cbn [String.length Go.slice_from]. exact IH.
Qed.

Lemma occurs_append (c : ascii) (s t : string) :
  occurs c (s +:+ t) <-> occurs c s \/ occurs c t.
Proof.
  induction s as [|a s IH]; [cbn; tauto|].
  rewrite append_cons. cbn [occurs]. rewrite IH. tauto.
Qed.

Lemma LastIndexByte_append_last (pre post : string) (c : ascii) :
  ~ occurs c post ->
  Go.LastIndexByte (pre +:+ String c post) c = Z.of_nat (String.length pre).
Proof.
  intros Hno. induction pre as [|a pre IH].
  - rewrite append_empty_l. cbn [Go.LastIndexByte String.length].
    destruct (LastIndexByte_split post c) as [[-> _]|(p & q & -> & _ & _)].
    + cbn [Z.leb Z.compare]. now rewrite Ascii.eqb_refl.
    + exfalso. apply Hno. apply occurs_append. right. now left.
  - rewrite append_cons. cbn [Go.LastIndexByte String.length]. rewrite IH.
    destruct (Z.leb_spec 0 (Z.of_nat (String.length pre))); lia.
Qed.

Lemma stripDirectories_lastSegment (name : string) :
  lastSegment name (Runner.stripDirectories name).
Proof.
  unfold lastSegment, Runner.stripDirectories.
  destruct (LastIndexByte_split name "/"%char)
    as [[-> Hno]|(pre & post & -> & -> & Hno)].
  - cbn. auto.
  - destruct (Z.eqb_spec (Z.of_nat (String.length pre)) (-1)); [lia|].
    cbn [negb].
    replace (Z.to_nat (Z.of_nat (String.length pre) + 1))
      with (String.length (pre +:+ "/")) by (rewrite length_append; cbn; lia).
    replace (pre +:+ String "/" post) with ((pre +:+ "/") +:+ post)
      by (now rewrite append_assoc).
    rewrite slice_from_append. split; [assumption|].
    right. exists pre. now rewrite append_assoc.
Qed.

Lemma lastSegment_unique (name base : string) :
  lastSegment name base -> Runner.stripDirectories name = base.
Proof.
  intros [Hno [->|[dir ->]]]; unfold Runner.stripDirectories.
  - destruct (LastIndexByte_split base "/"%char)
      as [[-> _]|(pre & post & -> & _ & _)]; [reflexivity|].
    exfalso. apply Hno. apply occurs_append. right. now left.
  - change (dir +:+ "/" +:+ base) with (dir +:+ String "/" base).
    rewrite (LastIndexByte_append_last dir base "/"%char Hno).
    destruct (Z.eqb_spec (Z.of_nat (String.length dir)) (-1)); [lia|].
    cbn [negb].
    replace (Z.to_nat (Z.of_nat (String.length dir) + 1))
      with (String.length (dir +:+ "/")) by (rewrite length_append; cbn; lia).
    replace (dir +:+ String "/" base) with ((dir +:+ "/") +:+ base)
      by (now rewrite append_assoc).
    apply slice_from_append.
Qed.
End StringFacts.

(** ** The output-only decoder *)

Module OutputOnlyFacts.
Import Runner Spec StringFacts.

Lemma elem_of_expectedFileNames (settings : Common.ProblemSettings.t)
    (k : string) :
  k ∈ expectedFileNames settings <-> declaredCaseFile settings k.
Proof.
  unfold expectedFileNames, declaredCaseFile.
  assert (Hinner : forall cs (acc : gset string),
    k ∈ fold_left
          (fun acc caseSettings =>
             {[ Common.CaseSettings.Name caseSettings +:+ ".out" ]} ∪ acc)
          cs acc
    <-> k ∈ acc
        \/ exists c, In c cs /\ k = Common.CaseSettings.Name c +:+ ".out").
  { induction cs as [|c cs IH]; intros acc; cbn [fold_left].
    - split; [auto | intros [?|(? & [] & _)]; assumption].
    - rewrite IH. rewrite elem_of_union, elem_of_singleton. split.
      + intros [[->|?]|(c' & ? & ?)]; eauto.
        * right. exists c. split; [now left | reflexivity].
        * right. exists c'. split; [now right | assumption].
      + intros [?|(c' & [<-|?] & ->)]; eauto. }
  assert (Houter : forall gs (acc : gset string),
    k ∈ fold_left
          (fun acc groupSettings =>
             fold_left
               (fun acc caseSettings =>
                  {[ Common.CaseSettings.Name caseSettings +:+ ".out" ]} ∪ acc)
               (Common.GroupSettings.Cases groupSettings) acc)
          gs acc
    <-> k ∈ acc
        \/ exists g c, In g gs /\ In c (Common.GroupSettings.Cases g)
                       /\ k = Common.CaseSettings.Name c +:+ ".out").
  { induction gs as [|g gs IH]; intros acc; cbn [fold_left].
    - split; [auto | intros [?|(? & ? & [] & _)]; assumption].
    - rewrite IH, Hinner. split.
      + intros [[?|(c & ? & ?)]|(g' & c & ? & ? & ?)]; eauto.
        * right. exists g, c. split; [now left | auto].
        * right. exists g', c. split; [now right | auto].
      + intros [?|(g' & c & [<-|?] & ? & ?)]; eauto 8. }
  rewrite Houter. split; [intros [H|H]; [|exact H] | auto].
  now apply not_elem_of_empty in H.
Qed.

(** What an entry adds to the map, if anything. *)
Definition contribution (settings : Common.ProblemSettings.t)
    (f : ZipFile.t) : option (string * string) :=
  if negb (Go.HasSuffix (ZipFile.Name f) ".out") then None
  else
    let fileName := stripDirectories (ZipFile.Name f) in
    if negb (bool_decide (fileName ∈ expectedFileNames settings)) then None
    else if Go.uint64_of_int64
              (Common.LimitsSettings.OutputLimit
                 (Common.ProblemSettings.Limits settings))
            <? ZipFile.UncompressedSize64 f
    then Some (fileName, "")
    else
      match ZipFile.Data f with
      | IoErr _ => None
      | IoOk contents => Some (fileName, contents)
      end.

Lemma parseOutputOnlyEntry_contribution settings (m : gmap string string) f :
  parseOutputOnlyEntry settings m f =
    match contribution settings f with
    | Some (k, v) => <[ k := v ]> m
    | None => m
    end.
Proof.
  unfold parseOutputOnlyEntry, contribution.
  repeat match goal with
         | |- context [if ?b then _ else _] => destruct b
         | |- context [match ?d with IoOk _ => _ | IoErr _ => _ end] => destruct d
         end; reflexivity.
Qed.

Lemma fold_lookup_other settings files (m : gmap string string) k :
  (forall f v, In f files -> contribution settings f <> Some (k, v)) ->
  fold_left (parseOutputOnlyEntry settings) files m !! k = m !! k.
Proof.
  revert m. induction files as [|f files IH]; intros m Hno; [reflexivity|].
  cbn [fold_left]. rewrite IH by (intros; apply Hno; now right).
  rewrite parseOutputOnlyEntry_contribution.
  destruct (contribution settings f) as [[k' v]|] eqn:Hc; [|reflexivity].
  apply lookup_insert_ne. intros ->. eapply (Hno f v); [now left | exact Hc].
Qed.

Lemma fold_lookup_last settings pre f post (m : gmap string string) k v :
  contribution settings f = Some (k, v) ->
  (forall g v', In g post -> contribution settings g <> Some (k, v')) ->
  fold_left (parseOutputOnlyEntry settings) (pre ++ f :: post) m !! k = Some v.
Proof.
  intros Hc Hpost. rewrite fold_left_app. cbn [fold_left].
  rewrite fold_lookup_other by assumption.
  rewrite parseOutputOnlyEntry_contribution, Hc. apply lookup_insert_eq.
Qed.

Lemma fold_lookup_Some settings files (m : gmap string string) k v :
  fold_left (parseOutputOnlyEntry settings) files m !! k = Some v ->
  m !! k = Some v
  \/ exists f, In f files /\ contribution settings f = Some (k, v).
Proof.
  revert m. induction files as [|f files IH]; intros m; cbn [fold_left]; [auto|].
  intros [H|(g & Hg & Hc)]%IH.
  - rewrite parseOutputOnlyEntry_contribution in H.
    destruct (contribution settings f) as [[k' v']|] eqn:Hc; [|auto].
    destruct (decide (k' = k)) as [->|Hne].
    + rewrite lookup_insert_eq in H. injection H as ->.
      right. exists f. split; [now left | assumption].
    + rewrite lookup_insert_ne in H by assumption. auto.
  - right. exists g. split; [now right | assumption].
Qed.

Lemma HasSuffix_lastSegment (name c : string) :
  lastSegment name (c +:+ ".out") -> Go.HasSuffix name ".out" = true.
Proof.
  intros [_ [->|[dir ->]]].
  - apply HasSuffix_append.
  - rewrite <- !append_assoc. apply HasSuffix_append.
Qed.

(** An entry adds the pair [(k, v)] exactly when [k] is its last segment,
    [k] is the output file of a declared case, and the entry stores
    [v]. *)
Lemma contribution_spec settings f k v :
  contribution settings f = Some (k, v)
  <-> lastSegment (ZipFile.Name f) k
      /\ declaredCaseFile settings k
      /\ stored settings f = Some v.
Proof.
  unfold contribution, stored.
  pose proof (stripDirectories_lastSegment (ZipFile.Name f)) as Hseg.
  split.
  - destruct (Go.HasSuffix (ZipFile.Name f) ".out"); [|discriminate].
    cbn [negb]. case_bool_decide as Hexp; [|discriminate]. cbn [negb].
    apply elem_of_expectedFileNames in Hexp.
    destruct (_ <? _); [intros [= <- <-]; auto|].
    destruct (ZipFile.Data f); [|discriminate]. intros [= <- <-]; auto.
  - intros (Hk & Hdecl & Hv).
    apply lastSegment_unique in Hk as Hstrip. rewrite Hstrip.
    destruct Hdecl as (g & c & Hg & Hc & ->).
    rewrite (HasSuffix_lastSegment _ _ Hk). cbn [negb].
    rewrite bool_decide_true
      by (apply elem_of_expectedFileNames; exists g, c; auto).
    cbn [negb]. destruct (_ <? _); [now injection Hv as <-|].
    destruct (ZipFile.Data f); [now injection Hv as <- | discriminate].
Qed.

(** With a limit that is a non-negative [int64], an entry that can be
    read stores what the specification says. *)
Lemma stored_readable settings f :
  0 <= Common.LimitsSettings.OutputLimit
         (Common.ProblemSettings.Limits settings) < 2 ^ 63 ->
  readable f ->
  stored settings f = Some (storedContents settings f).
Proof.
  intros Hlimit [contents Hdata].
  unfold stored, storedContents, Go.uint64_of_int64.
  rewrite Z.mod_small by lia. rewrite Hdata.
  now destruct (_ <? _).
Qed.

Lemma last_occurrence {A} (P : A -> Prop) `{forall x, Decision (P x)}
    (l : list A) (x : A) :
  In x l -> P x ->
  exists pre y post,
    l = pre ++ y :: post /\ P y /\ forall z, In z post -> ~ P z.
Proof.
  revert x. induction l as [|a l IH]; intros x Hin HP; [destruct Hin|].
  destruct (decide (Exists P l)) as [Hex|Hnex].
  - apply Exists_exists in Hex as (x' & Hx'%list_elem_of_In & HPx').
    destruct (IH x' Hx' HPx') as (pre & y & post & -> & HPy & Hpost).
    exists (a :: pre), y, post. auto.
  - assert (Hnone : forall z, In z l -> ~ P z).
    { intros z Hz HPz. apply Hnex. apply Exists_exists.
      exists z. split; [now apply list_elem_of_In | assumption]. }
    destruct Hin as [->|Hin]; [|now destruct (Hnone x Hin)].
    exists [], x, l. auto.
Qed.

(** C7 (as stated it fails): an entry that ends in [.out] and names the
    output file of a declared case gets no key when it cannot be read, and
    with a negative output limit an entry larger than the limit keeps its
    contents; in both cases the map is not the one described. *)
Lemma parseOutputOnlyFile_not_as_described :
  (parseOutputOnlyFile OutputOnlyExample.decDamaged
     "data:application/zip;base64,UEs=" OutputOnlyExample.settings
   = ({[ "b.out" := "ok" ]}, None)
   /\ ~ describedMap OutputOnlyExample.settings OutputOnlyExample.damaged
          {[ "b.out" := "ok" ]})
  /\ (parseOutputOnlyFile OutputOnlyExample.dec
        "data:application/zip;base64,UEs=" OutputOnlyExample.unlimited
      = ({[ "a.out" := "abc"; "b.out" := "big" ]}, None)
      /\ ~ describedMap OutputOnlyExample.unlimited OutputOnlyExample.files
             {[ "a.out" := "abc"; "b.out" := "big" ]}).
Proof.
  split; (split; [vm_compute; reflexivity|]); intros Hdescribed.
  - destruct (Hdescribed "a.out") as [[_ Hkey] _].
    destruct Hkey as [v Hv]; [|vm_compute in Hv; discriminate].
    eexists. split; [left; reflexivity|]. split_and!.
    + split; [|now left]. cbn. intuition discriminate.
    + vm_compute. reflexivity.
    + exists (Common.GroupSettings.mk
                [Common.CaseSettings.mk "a" (Q2Qc (1#2));
                 Common.CaseSettings.mk "b" (Q2Qc (1#2))] "g" 1%Qc),
        (Common.CaseSettings.mk "a" (Q2Qc (1#2))).
      split_and!; [now left | now left | vm_compute; reflexivity].
  - destruct (Hdescribed "a.out") as [_ Hvalue].
    destruct (Hvalue "abc") as (f & Hf & _ & Hv); [vm_compute; reflexivity|].
    repeat (destruct Hf as [<-|Hf]; [vm_compute in Hv; discriminate|]).
    destruct Hf.
Qed.

(** C7 (amended): a source that is not a data-URL yields the one-entry
    map from [Main.out] to the source.  A data-URL with a readable zip
    yields a map whose keys are exactly the last segments of the entries
    that end in [.out], name the output file of a declared case and store
    something: the empty text when the uncompressed size exceeds the
    output limit read as a [uint64], the contents when the entry is within
    the limit and can be read, and nothing when it is within the limit
    and cannot be read.  The key of such an entry is mapped to what the
    last entry that stores under that key stores.  With a limit that is a
    non-negative [int64] and entries that can all be read, this is the map
    the specification describes. *)
Theorem parseOutputOnlyFile_map (dec : Decoders.t) (data : string)
    (settings : Common.ProblemSettings.t) (payload : string)
    (files : list ZipFile.t) :
  (Decoders.dataurl_DecodeString dec data = None ->
   parseOutputOnlyFile dec data settings = ({[ "Main.out" := data ]}, None))
  /\ (Decoders.dataurl_DecodeString dec data = Some payload ->
      Decoders.zip_NewReader dec payload = inr files ->
      exists result : gmap string string,
        parseOutputOnlyFile dec data settings = (result, None)
        /\ (forall k,
              is_Some (result !! k) <->
              exists f, In f files
                        /\ lastSegment (ZipFile.Name f) k
                        /\ Go.HasSuffix k ".out" = true
                        /\ declaredCaseFile settings k
                        /\ is_Some (stored settings f))
        /\ (forall pre f post k v,
              files = pre ++ f :: post ->
              lastSegment (ZipFile.Name f) k ->
              declaredCaseFile settings k ->
              stored settings f = Some v ->
              (forall g, In g post -> lastSegment (ZipFile.Name g) k ->
                         stored settings g = None) ->
              result !! k = Some v)
        /\ (0 <= Common.LimitsSettings.OutputLimit
                   (Common.ProblemSettings.Limits settings) < 2 ^ 63 ->
            Forall readable files ->
            describedMap settings files result
            /\ forall pre f post k,
                 files = pre ++ f :: post ->
                 lastSegment (ZipFile.Name f) k ->
                 declaredCaseFile settings k ->
                 (forall g, In g post -> ~ lastSegment (ZipFile.Name g) k) ->
                 result !! k = Some (storedContents settings f))).
Proof.
  assert (Hlast : forall pre f post k v,
            files = pre ++ f :: post ->
            lastSegment (ZipFile.Name f) k ->
            declaredCaseFile settings k ->
            stored settings f = Some v ->
            (forall g, In g post -> lastSegment (ZipFile.Name g) k ->
                       stored settings g = None) ->
            fold_left (parseOutputOnlyEntry settings) files ∅ !! k = Some v).
  { intros pre f post k v -> Hseg Hdecl Hv Hpost.
    apply fold_lookup_last.
    - apply contribution_spec; auto.
    - intros g v' Hg Hc.
      apply contribution_spec in Hc as (Hsegg & _ & Hv').
      rewrite (Hpost g Hg Hsegg) in Hv'. discriminate. }
  assert (Hkeys : forall k,
            is_Some (fold_left (parseOutputOnlyEntry settings) files ∅ !! k) <->
            exists f, In f files
                      /\ lastSegment (ZipFile.Name f) k
                      /\ Go.HasSuffix k ".out" = true
                      /\ declaredCaseFile settings k
                      /\ is_Some (stored settings f)).
  { intros k. split.
    - intros [v [Hv|(f & Hf & Hc)]%fold_lookup_Some].
      { now rewrite lookup_empty in Hv. }
      apply contribution_spec in Hc as (Hseg & Hdecl & Hv).
      exists f. split_and!; eauto.
      destruct Hdecl as (g & c & _ & _ & ->). apply HasSuffix_append.
    - intros (f & Hf & Hseg & _ & Hdecl & Hsome).
      destruct (last_occurrence
                  (fun g => stripDirectories (ZipFile.Name g) = k
                            /\ is_Some (stored settings g)) files f Hf)
        as (pre & y & post & Heq & [Hy [v Hv]] & Hpost).
      { split; [now apply lastSegment_unique | exact Hsome]. }
      rewrite (Hlast pre y post k v Heq); [eauto | | assumption | exact Hv |].
      + rewrite <- Hy. apply stripDirectories_lastSegment.
      + intros g Hg Hsegg.
        destruct (stored settings g) as [v'|] eqn:Hg'; [|reflexivity].
        destruct (Hpost g Hg). split; [now apply lastSegment_unique | eauto]. }
  unfold parseOutputOnlyFile. split.
  - intros ->. now rewrite insert_empty.
  - intros -> ->. eexists. split; [reflexivity|].
    split; [exact Hkeys|]. split; [exact Hlast|].
    intros Hlimit Hread.
    assert (Hreadable : forall f, In f files -> readable f).
    { intros f Hf. rewrite Forall_forall in Hread. apply Hread.
      now apply list_elem_of_In. }
    split.
    + intros k. split.
      * rewrite Hkeys. split.
        -- intros (f & Hf & Hseg & Hsuffix & Hdecl & _). eauto.
        -- intros (f & Hf & Hseg & Hsuffix & Hdecl).
           exists f. split_and!; auto.
           rewrite (stored_readable settings f Hlimit (Hreadable f Hf)). eauto.
      * intros v [Hv|(f & Hf & Hc)]%fold_lookup_Some.
        { now rewrite lookup_empty in Hv. }
        apply contribution_spec in Hc as (Hseg & _ & Hv).
        rewrite (stored_readable settings f Hlimit (Hreadable f Hf)) in Hv.
        exists f. split_and!; auto. congruence.
    + intros pre f post k Heq Hseg Hdecl Hpost.
      apply (Hlast pre f post k _ Heq Hseg Hdecl).
      * apply stored_readable; [exact Hlimit|].
        apply Hreadable. rewrite Heq. apply in_elt.
      * intros g Hg Hsegg. destruct (Hpost g Hg Hsegg).
Qed.

Lemma parseOutputOnlyFile_map_witness :
  exists result : gmap string string,
    parseOutputOnlyFile OutputOnlyExample.dec
      "data:application/zip;base64,UEs=" OutputOnlyExample.settings
    = (result, None)
    /\ describedMap OutputOnlyExample.settings OutputOnlyExample.files result
    /\ result !! "b.out" = Some "".
Proof.
  destruct (proj2 (parseOutputOnlyFile_map OutputOnlyExample.dec
                     "data:application/zip;base64,UEs="
                     OutputOnlyExample.settings "PK" OutputOnlyExample.files))
    as (result & Hrun & _ & Hlast & Hdescribed).
  - vm_compute. reflexivity.
  - vm_compute. reflexivity.
  - exists result. split; [exact Hrun|]. split.
    + apply Hdescribed.
      * vm_compute. split; [discriminate | reflexivity].
      * repeat (apply List.Forall_cons; [eexists; vm_compute; reflexivity|]).
        apply List.Forall_nil.
    + apply (Hlast [ZipFile.mk "dir/a.out" 3 (IoOk "abc")]
               (ZipFile.mk "b.out" 20000 (IoOk "big"))
               [ZipFile.mk "notes.txt" 2 (IoOk "hi");
                ZipFile.mk "c.out" 1 (IoOk "c")] "b.out" "").
      * reflexivity.
      * split; [|now left]. cbn. intuition discriminate.
      * exists (Common.GroupSettings.mk
                  [Common.CaseSettings.mk "a" (Q2Qc (1#2));
                   Common.CaseSettings.mk "b" (Q2Qc (1#2))] "g" 1%Qc),
          (Common.CaseSettings.mk "b" (Q2Qc (1#2))).
        split_and!; [now left | right; now left | vm_compute; reflexivity].
      * vm_compute. reflexivity.
      * intros g [<-|[<-|[]]] Hseg; apply lastSegment_unique in Hseg;
          vm_compute in Hseg; discriminate Hseg.
Defined.

Example parseOutputOnlyFile_example :
  parseOutputOnlyFile OutputOnlyExample.dec
    "data:application/zip;base64,UEs=" OutputOnlyExample.settings
  = ({[ "a.out" := "abc"; "b.out" := "" ]}, None).
Proof. vm_compute. reflexivity. Qed.
End OutputOnlyFacts.

(** ** The grading pipeline *)

Module GradeFacts.
Import Runner Spec.

Lemma float_eqb_eq (a b : Qc) : Go.float_eqb a b = true <-> a = b.
Proof.
  unfold Go.float_eqb. rewrite Qeq_bool_iff. split.
  - apply Qc_is_canon.
  - now intros ->.
Qed.

(** The three outcomes of the last rewrite of Grade. *)
Lemma finalVerdict_cases (r : RunResult.t) :
  (RunResult.Verdict r = "OK" ->
   finalVerdict r
   = RunResult.setContestScore (RunResult.MaxScore r)
       (RunResult.setScore 1%Qc (RunResult.setVerdict "AC" r)))
  /\ (RunResult.Verdict r = "PA" -> RunResult.Score r = 0%Qc ->
      finalVerdict r = RunResult.setVerdict "WA" r)
  /\ (RunResult.Verdict r <> "OK" ->
      ~ (RunResult.Verdict r = "PA" /\ RunResult.Score r = 0%Qc) ->
      finalVerdict r = r).
Proof.
  unfold finalVerdict. repeat split.
  - intros ->. reflexivity.
  - intros -> ->. reflexivity.
  - intros Hok Hpa.
    destruct (String.eqb_spec (RunResult.Verdict r) "PA") as [HPA|_].
    + destruct (Go.float_eqb (RunResult.Score r) 0) eqn:Hz.
      * exfalso. apply Hpa. split; [assumption | now apply float_eqb_eq].
      * cbn [andb]. rewrite HPA. reflexivity.
    + cbn [andb].
      destruct (String.eqb_spec (RunResult.Verdict r) "OK"); [contradiction|].
      reflexivity.
Qed.

(** Grade as the sequence of its phases. *)
Lemma Grade_phases w run input sandbox :
  Sandbox.Supported sandbox = true ->
  Grade w run input sandbox
  = finish (
      '(binaries, outputOnlyFiles, runResult) ←
        planBinaries w (runRootOf w run) run input (initialResult run);
      binaries' ← planValidator w (runRootOf w run) input runResult binaries;
      runResult ← compileAll w sandbox (runRootOf w run) binaries' runResult;
      gradeCases w sandbox input (runRootOf w run) run binaries'
        (List.length binaries) outputOnlyFiles runResult).
Proof. intros Hs. unfold Grade. rewrite Hs. reflexivity. Qed.

(** C5: when the execution and validation phases end with the overall
    verdict [OK], Grade returns the verdict [AC], the score 1 and the
    contest score [MaxScore]; when they end with [PA] and a total score of
    exactly 0, it returns the verdict [WA]; otherwise verdict and scores
    are returned as they are. *)
Theorem Grade_final_verdict w run input sandbox
    binaries outputOnlyFiles planned binaries' compiled r0 groupResults :
  Sandbox.Supported sandbox = true ->
  planBinaries w (runRootOf w run) run input (initialResult run)
    = Next (binaries, outputOnlyFiles, planned) ->
  planValidator w (runRootOf w run) input planned binaries = Next binaries' ->
  compileAll w sandbox (runRootOf w run) binaries' planned = Next compiled ->
  runAndValidate w sandbox input (runRootOf w run) run binaries'
    (List.length binaries) outputOnlyFiles compiled = Next (r0, groupResults) ->
  exists r,
    Grade w run input sandbox = Returned r (World.uploadFiles w)
    /\ RunResult.Groups r = groupResults
    /\ (RunResult.Verdict r0 = "OK" ->
        RunResult.Verdict r = "AC" /\ RunResult.Score r = 1%Qc
        /\ RunResult.ContestScore r = RunResult.MaxScore r)
    /\ (RunResult.Verdict r0 = "PA" -> RunResult.Score r0 = 0%Qc ->
        RunResult.Verdict r = "WA")
    /\ (RunResult.Verdict r0 <> "OK" ->
        ~ (RunResult.Verdict r0 = "PA" /\ RunResult.Score r0 = 0%Qc) ->
        RunResult.Verdict r = RunResult.Verdict r0
        /\ RunResult.Score r = RunResult.Score r0
        /\ RunResult.ContestScore r = RunResult.ContestScore r0).
Proof.
  intros Hs Hplan Hval Hcomp Hrun.
  rewrite (Grade_phases _ _ _ _ Hs), Hplan. cbn [mbind step_bind].
  rewrite Hval. cbn [mbind step_bind]. rewrite Hcomp. cbn [mbind step_bind].
  unfold gradeCases. rewrite Hrun. cbn [mbind step_bind finish].
  eexists. split; [reflexivity|].
  destruct (finalVerdict_cases (RunResult.setGroups groupResults r0))
    as (Hok & Hpa & Hother).
  cbn [RunResult.setGroups RunResult.Verdict RunResult.Score] in Hok, Hpa, Hother.
  split; [|split; [|split]].
  - unfold finalVerdict. cbn.
    repeat match goal with |- context [if ?b then _ else _] => destruct b end;
      reflexivity.
  - intros H. rewrite (Hok H). cbn. auto.
  - intros H1 H2. rewrite (Hpa H1 H2). reflexivity.
  - intros H1 H2. rewrite (Hother H1 H2). cbn. auto.
Qed.

Lemma Grade_final_verdict_witness :
  exists r,
    Grade GradeExample.world GradeExample.run GradeExample.input
      GradeExample.sandboxOK = Returned r None
    /\ RunResult.Verdict r = "AC" /\ RunResult.Score r = 1%Qc.
Proof.
  edestruct (Grade_final_verdict GradeExample.world GradeExample.run
               GradeExample.input GradeExample.sandboxOK)
    as (r & Hr & _ & Hok & _).
  - reflexivity.
  - vm_compute. reflexivity.
  - vm_compute. reflexivity.
  - vm_compute. reflexivity.
  - vm_compute. reflexivity.
  - exists r. split; [exact Hr|].
    destruct Hok as (Hv & Hs & _); [vm_compute; reflexivity|]. auto.
Defined.

(** The plan only records compile metadata in the result. *)
Lemma planBinaries_result w runRoot run input rr binaries oo planned :
  planBinaries w runRoot run input rr = Next (binaries, oo, planned) ->
  exists cm, planned = RunResult.setCompileMeta cm rr.
Proof.
  unfold planBinaries.
  destruct (Common.ProblemSettings.Interactive (Input.Settings input)) as [i|].
  - repeat match goal with
           | |- context [deref ?x] => destruct x; cbn [deref mbind step_bind]
           | |- context [contestantBinaries ?a ?b ?c ?d ?e ?f] =>
               destruct (contestantBinaries a b c d e f); cbn [mbind step_bind]
           | |- context [check ?a ?b] =>
               unfold check; destruct b; cbn [mbind step_bind]
           | |- context [interfaceFiles ?a ?b ?c] =>
               destruct (interfaceFiles a b c) as [[]|];
               cbn [mbind step_bind]
           end; try discriminate.
    intros [= <- <- <-]. exists (RunResult.CompileMeta rr). now destruct rr.
  - unfold check. destruct (World.stageMain w); cbn [mbind step_bind];
      [discriminate|].
    destruct (String.eqb (Common.Run.Language run) "cat").
    + destruct (parseOutputOnlyFile _ _ _) as [m [e|]]; [discriminate|].
      intros [= <- <- <-]. eauto.
    + intros [= <- <- <-]. exists (RunResult.CompileMeta rr). now destruct rr.
Qed.

Lemma compileAll_prefix w sandbox runRoot pre rest rr :
  Forall (fun b => compileSucceeds (compileBinary sandbox runRoot b)) pre ->
  exists cm,
    compileAll w sandbox runRoot (pre ++ rest) rr
    = compileAll w sandbox runRoot rest (RunResult.setCompileMeta cm rr).
Proof.
  revert rr. induction pre as [|b pre IH]; intros rr Hok.
  - exists (RunResult.CompileMeta rr). now destruct rr.
  - apply Forall_cons_iff in Hok as [(Herr & m & Hm & Hv) Hok].
    cbn [app compileAll].
    destruct (compileBinary sandbox runRoot b) as [meta err].
    cbn [fst snd] in Herr, Hm. subst meta err.
    cbn [deref mbind step_bind]. rewrite Hv. cbn [negb].
    destruct (IH (RunResult.setCompileMeta
                    (<[binary.name b:=m]> (RunResult.CompileMeta rr)) rr) Hok)
      as [cm Hcm].
    exists cm. rewrite String.eqb_refl. cbn [negb]. rewrite Hcm. reflexivity.
Qed.

Lemma compileAll_ext w sandbox sandbox' runRoot binaries rr :
  (forall b, compileBinary sandbox runRoot b = compileBinary sandbox' runRoot b) ->
  compileAll w sandbox runRoot binaries rr
  = compileAll w sandbox' runRoot binaries rr.
Proof.
  intros Hsame. revert rr.
  induction binaries as [|b binaries IH]; intros rr; [reflexivity|].
  cbn [compileAll]. rewrite Hsame.
  destruct (compileBinary sandbox' runRoot b) as [meta err].
  destruct err, meta; cbn [deref mbind step_bind]; try reflexivity.
  destruct (negb _); [reflexivity | apply IH].
Qed.

Lemma compileAll_failure w sandbox runRoot b rest rr :
  compileFails (compileBinary sandbox runRoot b) ->
  exists cm,
    compileAll w sandbox runRoot (b :: rest) rr
    = Stop (Returned
              (RunResult.setCompileError
                 (Some (binary.name b +:+ ":" +:+ Go.newline +:+
                        getCompileError w (compileErrorPath runRoot b)))
                 (RunResult.setVerdict "CE" (RunResult.setCompileMeta cm rr)))
              (snd (compileBinary sandbox runRoot b))).
Proof.
  intros Hfail. cbn [compileAll]. unfold compileErrorPath.
  unfold compileFails in Hfail.
  destruct (compileBinary sandbox runRoot b) as [meta err].
  cbn [fst snd] in *.
  destruct err as [e|].
  - cbn [mbind step_bind].
    destruct meta as [m|]; eexists; [reflexivity|].
    instantiate (1 := RunResult.CompileMeta rr). now destruct rr.
  - destruct Hfail as [Hne|(m & -> & Hv)]; [congruence|].
    cbn [deref mbind step_bind].
    destruct (String.eqb_spec (RunMetadata.Verdict m) "OK"); [contradiction|].
    cbn [negb]. eexists. reflexivity.
Qed.

(** C6: when the compile of a binary fails (an error of the sandbox or a
    compile verdict other than [OK]) after the binaries before it
    compiled, Grade returns at once with the verdict [CE] and the compile
    error [<name>:\n<text>], the text being read from [compile.out] of
    that binary when its language is [pas] and from [compile.err]
    otherwise; the result has no group results and does not depend on
    what running a program would do. *)
Theorem Grade_compile_error w run input sandbox
    binaries outputOnlyFiles planned pre b post :
  Sandbox.Supported sandbox = true ->
  planBinaries w (runRootOf w run) run input (initialResult run)
    = Next (binaries, outputOnlyFiles, planned) ->
  planValidator w (runRootOf w run) input planned binaries
    = Next (pre ++ b :: post) ->
  Forall (fun b' => compileSucceeds (compileBinary sandbox (runRootOf w run) b'))
         pre ->
  compileFails (compileBinary sandbox (runRootOf w run) b) ->
  exists r,
    Grade w run input sandbox
      = Returned r (snd (compileBinary sandbox (runRootOf w run) b))
    /\ RunResult.Verdict r = "CE"
    /\ RunResult.CompileError r
       = Some (binary.name b +:+ ":" +:+ Go.newline +:+
               getCompileError w (compileErrorPath (runRootOf w run) b))
    /\ compileErrorFile b
       = (if String.eqb (binary.language b) "pas" then "compile.out"
          else "compile.err")
    /\ (forall contents,
          World.readFile w (compileErrorPath (runRootOf w run) b)
            = IoOk contents ->
          RunResult.CompileError r
          = Some (binary.name b +:+ ":" +:+ Go.newline +:+ contents))
    /\ RunResult.Groups r = []
    /\ (forall Run',
          Grade w run input
            (Sandbox.mk true (Sandbox.Compile sandbox) Run')
          = Returned r (snd (compileBinary sandbox (runRootOf w run) b))).
Proof.
  intros Hs Hplan Hval Hpre Hfail.
  destruct (planBinaries_result _ _ _ _ _ _ _ _ Hplan) as [cm0 ->].
  destruct (compileAll_prefix w sandbox (runRootOf w run) pre (b :: post)
              (RunResult.setCompileMeta cm0 (initialResult run)) Hpre)
    as [cm1 Hprefix].
  destruct (compileAll_failure w sandbox (runRootOf w run) b post
              (RunResult.setCompileMeta cm1
                 (RunResult.setCompileMeta cm0 (initialResult run))) Hfail)
    as [cm2 Hstop].
  rewrite Hstop in Hprefix. clear Hstop.
  assert (Hgrade : forall sandbox',
            Sandbox.Supported sandbox' = true ->
            Sandbox.Compile sandbox' = Sandbox.Compile sandbox ->
            Grade w run input sandbox'
            = Returned
                (RunResult.setCompileError
                   (Some (binary.name b +:+ ":" +:+ Go.newline +:+
                          getCompileError w
                            (compileErrorPath (runRootOf w run) b)))
                   (RunResult.setVerdict "CE"
                      (RunResult.setCompileMeta cm2
                         (RunResult.setCompileMeta cm1
                            (RunResult.setCompileMeta cm0
                               (initialResult run))))))
                (snd (compileBinary sandbox (runRootOf w run) b))).
  { intros sandbox' Hs' Hc'.
    rewrite (Grade_phases _ _ _ _ Hs'), Hplan. cbn [mbind step_bind].
    rewrite Hval. cbn [mbind step_bind].
    rewrite (compileAll_ext w sandbox' sandbox); [|now intros; unfold compileBinary; rewrite Hc'].
    rewrite Hprefix. reflexivity. }
  eexists. split; [exact (Hgrade sandbox Hs eq_refl)|].
  split; [reflexivity|]. split; [reflexivity|]. split; [reflexivity|].
  split.
  { intros contents Hread.
    cbn [RunResult.CompileError RunResult.setCompileError].
    unfold getCompileError. now rewrite Hread. }
  split; [reflexivity|].
  intros Run'. exact (Hgrade (Sandbox.mk true (Sandbox.Compile sandbox) Run')
                        eq_refl eq_refl).
Qed.

Lemma Grade_compile_error_witness :
  exists r,
    Grade GradeExample.world GradeExample.run GradeExample.input
      GradeExample.sandboxCE = Returned r None
    /\ RunResult.Verdict r = "CE"
    /\ RunResult.CompileError r
       = Some ("Main:" +:+ Go.newline +:+ "Main.cpp:1: error: expected ';'")
    /\ RunResult.Groups r = [].
Proof.
  destruct (Grade_compile_error GradeExample.world GradeExample.run
              GradeExample.input GradeExample.sandboxCE
              [GradeExample.mainBinary] ∅ (initialResult GradeExample.run)
              [] GradeExample.mainBinary [])
    as (r & Hr & Hv & _ & _ & Hc & Hg & _).
  - reflexivity.
  - vm_compute. reflexivity.
  - vm_compute. reflexivity.
  - apply List.Forall_nil.
  - right. eexists. split; [vm_compute; reflexivity|].
    vm_compute. discriminate.
  - exists r. split; [exact Hr|]. split; [exact Hv|]. split; [|exact Hg].
    apply Hc. vm_compute. reflexivity.
Defined.

Lemma aggregateLoop_contestants (ms : list RunMetadata.t) :
  forall st,
    exists st',
      aggregateLoop (List.length ms) (map contestantResult ms) st = Next st'
      /\ aggregation.totalTime st'
         = fold_left (fun acc m => (acc + RunMetadata.Time m)%Qc) ms
             (aggregation.totalTime st)
      /\ aggregation.totalWallTime st'
         = fold_left (fun acc m => (acc + RunMetadata.WallTime m)%Qc) ms
             (aggregation.totalWallTime st)
      /\ aggregation.totalMemory st'
         = fold_left
             (fun acc m =>
                Go.wrap64 (acc + max64 acc (RunMetadata.Memory m)))
             ms (aggregation.totalMemory st).
Proof.
  induction ms as [|m ms IH]; intros st.
  - exists st. cbn. auto.
  - cbn [List.length map aggregateLoop fold_left].
    unfold aggregate at 1. cbn [contestantResult intermediateRunResult.binaryType
      intermediateRunResult.runMeta binaryType_eqb deref mbind step_bind].
    match goal with
    | |- context [aggregateLoop _ _ ?st1] =>
        destruct (IH st1) as (st' & Hrun & Ht & Hw & Hm)
    end.
    exists st'. rewrite Hrun. cbn in Ht, Hw, Hm. auto.
Qed.

(** The part of C3 that holds: the time and the wall time of a sandboxed
    case are the sums over the contestant binaries. *)
Lemma aggregateLoop_time (ms : list RunMetadata.t) :
  exists st,
    aggregateLoop (List.length ms) (map contestantResult ms) aggregation.init
      = Next st
    /\ aggregation.totalTime st = sumTime ms
    /\ aggregation.totalWallTime st = sumWallTime ms
    /\ aggregation.totalMemory st = accumulatedMemory ms.
Proof. apply (aggregateLoop_contestants ms aggregation.init). Qed.

(** With two contestant binaries the accumulated memory is the memory of
    the first plus the larger of the two. *)
Lemma accumulatedMemory_two (m1 m2 : RunMetadata.t) :
  0 <= RunMetadata.Memory m1 < 2 ^ 61 ->
  0 <= RunMetadata.Memory m2 < 2 ^ 61 ->
  accumulatedMemory [m1; m2]
  = RunMetadata.Memory m1 + Z.max (RunMetadata.Memory m1) (RunMetadata.Memory m2)
  /\ maxMemory [m1; m2] = Z.max (RunMetadata.Memory m1) (RunMetadata.Memory m2).
Proof.
  intros H1 H2. unfold accumulatedMemory, maxMemory, max64, Go.wrap64.
  cbn [fold_left].
  destruct (Z.ltb_spec 0 (RunMetadata.Memory m1)).
  - rewrite (Z.mod_small (0 + RunMetadata.Memory m1 + 2 ^ 63)) by lia.
    replace (0 + RunMetadata.Memory m1 + 2 ^ 63 - 2 ^ 63)
      with (RunMetadata.Memory m1) by lia.
    destruct (Z.ltb_spec (RunMetadata.Memory m1) (RunMetadata.Memory m2));
      rewrite Z.mod_small by lia; lia.
  - assert (RunMetadata.Memory m1 = 0) as -> by lia.
    cbn [Z.add]. rewrite (Z.mod_small (0 + 2 ^ 63)) by lia.
    replace (0 + 2 ^ 63 - 2 ^ 63) with 0 by lia.
    destruct (Z.ltb_spec 0 (RunMetadata.Memory m2));
      rewrite Z.mod_small by lia; lia.
Qed.

(** C3 (the code departs from it): with two contestant binaries that use
    ten units of memory each, the memory reported for the case is twenty,
    not the maximum ten; the memory of the whole run takes the same
    value. *)
Theorem Grade_case_memory_exceeds_maximum :
  RunMetadata.Memory GradeExample.okMeta = 10
  /\ maxMemory [GradeExample.okMeta; GradeExample.okMeta] = 10
  /\ accumulatedMemory [GradeExample.okMeta; GradeExample.okMeta] = 20
  /\ GradeExample.caseMemory
       (Grade GradeExample.world GradeExample.run
          GradeExample.interactiveInput GradeExample.sandboxOK)
     = Some [[Some 20]].
Proof. split_and!; vm_compute; reflexivity. Qed.

(** C1 (the code departs from it): a group whose second case ends with the
    runtime verdict [RTE] is still awarded the weighted score of its first
    case. *)
Theorem Grade_awards_group_with_failed_case :
  GradeExample.summary
    (Grade GradeExample.world GradeExample.run GradeExample.input
       GradeExample.sandboxRTE)
  = Some ("RTE", 1 # 2, [(1 # 2, ["AC"; "RTE"])]).
Proof. vm_compute. reflexivity. Qed.

(** The scenario the corresponding check is written for: a wrong answer
    zeroes the group. *)
Example Grade_wrong_answer_zeroes_group :
  GradeExample.summary
    (Grade GradeExample.worldWA GradeExample.run GradeExample.input
       GradeExample.sandboxOK)
  = Some ("WA", 0 # 1, [(0 # 1, ["AC"; "WA"])]).
Proof. vm_compute. reflexivity. Qed.
End GradeFacts.

(** ** The queue *)

Module QueueFacts.
Import Grader GraderSpec GraderExample.

Lemma runs_setRuns p c q : Queue.runs (Queue.setRuns p c q) p = c.
Proof. now destruct p. Qed.

Lemma runs_setRuns_ne p p' c q :
  p <> p' -> Queue.runs (Queue.setRuns p c q) p' = Queue.runs q p'.
Proof. destruct p, p'; intros; congruence || reflexivity. Qed.

Lemma depth_pushed p run q : depth (pushed p run q) = S (depth q).
Proof.
  destruct p; unfold depth, pushed, chan.len; cbn;
    rewrite length_app; cbn; lia.
Qed.

Lemma queue_inv_pushed heap p run q :
  queue_inv heap q -> is_Some (heap !! run) ->
  chan.full (Queue.runs q p) = false ->
  queue_inv heap (pushed p run q).
Proof.
  intros [Hbal Hbound Hcap Halloc] Hrun Hfull.
  unfold chan.full in Hfull. apply Nat.leb_gt in Hfull.
  split.
  - rewrite depth_pushed. unfold pushed, chan.len in *.
    destruct p; cbn; rewrite length_app; cbn; lia.
  - intros p'. specialize (Hbound p').
    destruct p, p'; unfold pushed, chan.len in *; cbn in *;
      rewrite ?length_app; cbn; lia.
  - destruct p; exact Hcap.
  - intros p' r Hin.
    destruct p, p'; unfold pushed in Hin; cbn in Hin;
      try (apply in_app_iff in Hin as [Hin|[<-|[]]]; [|assumption]);
      first [ exact (Halloc QueuePriorityHigh r Hin)
            | exact (Halloc QueuePriorityNormal r Hin)
            | exact (Halloc QueuePriorityLow r Hin) ].
Qed.

Lemma state_inv_heap s h' :
  state_inv s ->
  (forall r, is_Some (State.heap s !! r) -> is_Some (h' !! r)) ->
  state_inv (State.setHeap h' s).
Proof.
  intros Hinv Hmono name q Hq. destruct (Hinv name q Hq) as [? ? ? Halloc].
  split; auto. intros p r Hin. apply Hmono. eauto.
Qed.

Lemma state_inv_queue s name q' :
  state_inv s -> queue_inv (State.heap s) q' ->
  state_inv (State.setQueues (<[ name := q' ]> (State.queues s)) s).
Proof.
  intros Hinv Hq' n q. cbn. rewrite lookup_insert.
  case_decide; [intros [= <-]; assumption | apply Hinv].
Qed.

Lemma state_inv_other s s' :
  state_inv s -> State.heap s' = State.heap s ->
  State.queues s' = State.queues s -> state_inv s'.
Proof. intros Hinv Hh Hq name q. rewrite Hh, Hq. apply Hinv. Qed.

Lemma insert_keeps (h : gmap ptr RunContext.t) run rc' r :
  is_Some (h !! run) -> is_Some (h !! r) -> is_Some (<[ run := rc' ]> h !! r).
Proof.
  intros Hrun Hr. rewrite lookup_insert. case_decide; eauto.
Qed.

(** Running the primitive steps of the state monad. *)
Lemma run_load s run rc :
  State.heap s !! run = Some rc -> load run s = Done rc s.
Proof. intros H. unfold load. now rewrite H. Qed.

Lemma run_update s run rc f :
  State.heap s !! run = Some rc ->
  update run f s
  = Done tt (State.setHeap (<[ run := f rc ]> (State.heap s)) s).
Proof.
  intros H. unfold update, mbind, M_bind, bind. rewrite (run_load _ _ _ H).
  reflexivity.
Qed.

Lemma run_loadQueue s name q :
  State.queues s !! name = Some q -> loadQueue name s = Done q s.
Proof. intros H. unfold loadQueue. now rewrite H. Qed.

Lemma ready_not_full heap q p :
  queue_inv heap q -> chan.full (Queue.runs q p) = false ->
  chan.full (Queue.ready q) = false.
Proof.
  intros [Hbal Hbound Hcap _] Hfull.
  unfold chan.full in *. apply Nat.leb_gt in Hfull. apply Nat.leb_gt.
  rewrite Hbal, Hcap. unfold depth.
  pose proof (Hbound QueuePriorityHigh). pose proof (Hbound QueuePriorityNormal).
  pose proof (Hbound QueuePriorityLow). cbn in *.
  destruct p; cbn in Hfull; lia.
Qed.

(** [enqueue] in closed form. *)
Lemma enqueue_run s name q run rc p :
  state_inv s ->
  State.queues s !! name = Some q ->
  State.heap s !! run = Some rc ->
  let s1 :=
    State.setHeap (<[ run := RunContext.setQueue (Some name) rc ]> (State.heap s)) s in
  enqueue name run p s
  = if chan.full (Queue.runs q p) then Done false s1
    else Done true
           (State.setQueues (<[ name := pushed p run q ]> (State.queues s)) s1).
Proof.
  intros Hinv Hq Hrun s1. unfold enqueue, mbind, M_bind, bind.
  rewrite (run_update _ _ _ _ Hrun). fold s1.
  rewrite (run_loadQueue s1 name q Hq).
  unfold chan.trySend.
  destruct (chan.full (Queue.runs q p)) eqn:Hfull; [reflexivity|].
  rewrite (ready_not_full _ _ _ (Hinv name q Hq) Hfull).
  reflexivity.
Qed.

Lemma enqueueBlocking_run s name q run rc :
  state_inv s ->
  State.queues s !! name = Some q ->
  State.heap s !! run = Some rc ->
  let s1 :=
    State.setHeap (<[ run := RunContext.setQueue (Some name) rc ]> (State.heap s)) s in
  enqueueBlocking name run s
  = if chan.full (Queue.runs q (RunContext.Priority rc)) then Block
    else Done tt
           (State.setQueues
              (<[ name := pushed (RunContext.Priority rc) run q ]>
                 (State.queues s)) s1).
Proof.
  intros Hinv Hq Hrun s1. unfold enqueueBlocking, mbind, M_bind, bind.
  rewrite (run_update _ _ _ _ Hrun). fold s1.
  rewrite (run_load s1 run (RunContext.setQueue (Some name) rc))
    by (cbn; apply lookup_insert_eq).
  rewrite (run_loadQueue s1 name q Hq).
  unfold chan.trySend. cbn [RunContext.Priority RunContext.setQueue].
  destruct (chan.full (Queue.runs q (RunContext.Priority rc))) eqn:Hfull;
    [reflexivity|].
  rewrite (ready_not_full _ _ _ (Hinv name q Hq) Hfull).
  reflexivity.
Qed.

Lemma firstWaiting_Some heap q :
  queue_inv heap q -> chan.buf (Queue.ready q) <> [] ->
  exists p run rest rc,
    firstWaiting q = Some (p, run)
    /\ chan.buf (Queue.runs q p) = run :: rest
    /\ heap !! run = Some rc.
Proof.
  intros [Hbal _ _ Halloc] Hready.
  assert (depth q <> 0%nat) as Hdepth.
  { rewrite <- Hbal. unfold chan.len. destruct (chan.buf (Queue.ready q));
      [contradiction | cbn; lia]. }
  unfold depth, chan.len, firstWaiting in *.
  destruct (chan.buf (Queue.runsHigh q)) as [|r1 l1] eqn:H1.
  - destruct (chan.buf (Queue.runsNormal q)) as [|r2 l2] eqn:H2.
    + destruct (chan.buf (Queue.runsLow q)) as [|r3 l3] eqn:H3;
        [cbn in Hdepth; lia|].
      destruct (Halloc QueuePriorityLow r3) as [rc Hrc];
        [cbn; rewrite H3; now left|].
      exists QueuePriorityLow, r3, l3, rc. auto.
    + destruct (Halloc QueuePriorityNormal r2) as [rc Hrc];
        [cbn; rewrite H2; now left|].
      exists QueuePriorityNormal, r2, l2, rc. auto.
  - destruct (Halloc QueuePriorityHigh r1) as [rc Hrc];
      [cbn; rewrite H1; now left|].
    exists QueuePriorityHigh, r1, l1, rc. auto.
Qed.

Lemma scanRuns_miss s name q runner i rest :
  State.queues s !! name = Some q ->
  chan.buf (Queue.runs q i) = [] ->
  scanRuns name runner (i :: rest) s = scanRuns name runner rest s.
Proof.
  intros Hq Hi. cbn [scanRuns]. unfold mbind, M_bind, bind.
  rewrite (run_loadQueue s name q Hq). unfold chan.tryRecv. now rewrite Hi.
Qed.

Lemma scanRuns_hit s name q runner i rest run l rc :
  State.queues s !! name = Some q ->
  chan.buf (Queue.runs q i) = run :: l ->
  State.heap s !! run = Some rc ->
  scanRuns name runner (i :: rest) s
  = Done run
      (State.mk
         (<[ run := RunContext.setMonitor true rc ]> (State.heap s))
         (<[ name := Queue.setRuns i (chan.mk l (chan.cap (Queue.runs q i))) q ]>
            (State.queues s))
         (<[ Common.Run.AttemptID (RunContext.Run rc)
             := InflightRun.mk run runner false false ]> (State.mapping s))
         (State.nextAttemptID s) (State.log s)).
Proof.
  intros Hq Hi Hrc. cbn [scanRuns]. unfold mbind, M_bind, bind.
  rewrite (run_loadQueue s name q Hq). unfold chan.tryRecv. rewrite Hi.
  unfold storeQueue, modify, Add, mbind, M_bind, bind.
  erewrite run_update by exact Hrc.
  erewrite run_load by (cbn; apply lookup_insert_eq).
  unfold modify, mret, M_ret, ret. cbn.
  now destruct rc.
Qed.

Lemma GetRun_run s name q runner :
  state_inv s ->
  State.queues s !! name = Some q ->
  chan.buf (Queue.ready q) <> [] ->
  exists p run rc,
    firstWaiting q = Some (p, run)
    /\ State.heap s !! run = Some rc
    /\ GetRun name runner false s
       = Done (Some run) (dequeued name runner p run rc q s).
Proof.
  intros Hinv Hq Hready.
  destruct (firstWaiting_Some _ _ (Hinv name q Hq) Hready)
    as (p & run & rest & rc & Hfirst & Hbuf & Hrc).
  exists p, run, rc. split; [assumption|]. split; [assumption|].
  unfold GetRun, mbind, M_bind, bind.
  rewrite (run_loadQueue s name q Hq). unfold chan.tryRecv.
  destruct (chan.buf (Queue.ready q)) as [|[] ready'] eqn:Hr; [contradiction|].
  unfold storeQueue, modify.
  set (q1 := Queue.setReady _ q).
  set (s1 := State.setQueues _ s).
  assert (Hq1 : State.queues s1 !! name = Some q1)
    by (cbn; apply lookup_insert_eq).
  assert (Hrc1 : State.heap s1 !! run = Some rc) by exact Hrc.
  assert (Hruns : forall i, Queue.runs q1 i = Queue.runs q i)
    by (now intros []).
  assert (Hfinal : forall i,
            p = i ->
            scanRuns name runner
              (i :: match i with
                    | QueuePriorityHigh => [QueuePriorityNormal; QueuePriorityLow]
                    | QueuePriorityNormal => [QueuePriorityLow]
                    | QueuePriorityLow => []
                    end) s1
            = Done run (dequeued name runner p run rc q s)).
  { intros i <-.
    erewrite scanRuns_hit; [|exact Hq1|rewrite Hruns; exact Hbuf|exact Hrc1].
    unfold dequeued. f_equal. f_equal. cbn.
    rewrite insert_insert_eq. f_equal.
    unfold popped, q1. rewrite Hruns, Hbuf, Hr. reflexivity. }
  unfold firstWaiting in Hfirst.
  destruct (chan.buf (Queue.runsHigh q)) as [|r1 l1] eqn:H1.
  - rewrite (scanRuns_miss s1 name q1 runner QueuePriorityHigh)
      by (auto; rewrite Hruns; exact H1).
    destruct (chan.buf (Queue.runsNormal q)) as [|r2 l2] eqn:H2.
    + rewrite (scanRuns_miss s1 name q1 runner QueuePriorityNormal)
        by (auto; rewrite Hruns; exact H2).
      destruct (chan.buf (Queue.runsLow q)) as [|r3 l3] eqn:H3;
        [discriminate|].
      injection Hfirst as <- <-.
      now rewrite (Hfinal QueuePriorityLow eq_refl).
    + injection Hfirst as <- <-.
      now rewrite (Hfinal QueuePriorityNormal eq_refl).
  - injection Hfirst as <- <-.
    now rewrite (Hfinal QueuePriorityHigh eq_refl).
Qed.

Lemma GetRun_empty s name q runner :
  State.queues s !! name = Some q ->
  chan.buf (Queue.ready q) = [] ->
  GetRun name runner false s = Block.
Proof.
  intros Hq Hr. unfold GetRun, mbind, M_bind, bind.
  rewrite (run_loadQueue s name q Hq). unfold chan.tryRecv. now rewrite Hr.
Qed.

Lemma queue_inv_popped heap p run rest q :
  queue_inv heap q ->
  chan.buf (Queue.runs q p) = run :: rest ->
  queue_inv heap (popped p q).
Proof.
  intros [Hbal Hbound Hcap Halloc] Hbuf.
  assert (Hready : exists t, chan.buf (Queue.ready q) = tt :: t).
  { unfold chan.len, depth in Hbal.
    destruct (chan.buf (Queue.ready q)) as [|[] t]; [|eauto].
    exfalso. destruct p; cbn in Hbuf; unfold chan.len in Hbal;
      rewrite Hbuf in Hbal; cbn in Hbal; lia. }
  destruct Hready as [t Ht].
  split.
  - unfold popped, depth, chan.len in *. rewrite Ht in *.
    destruct p; cbn in *; rewrite Hbuf in *; cbn in *; lia.
  - intros p'. specialize (Hbound p').
    destruct p, p'; unfold popped, chan.len in *; cbn in *;
      rewrite ?Hbuf in *; cbn in *; lia.
  - destruct p; exact Hcap.
  - intros p' r Hin.
    destruct p, p'; unfold popped in Hin; cbn in Hin, Hbuf;
      rewrite ?Hbuf in Hin; cbn in Hin;
      first [ apply (Halloc QueuePriorityHigh r); cbn; rewrite ?Hbuf; cbn; now auto
            | apply (Halloc QueuePriorityNormal r); cbn; rewrite ?Hbuf; cbn; now auto
            | apply (Halloc QueuePriorityLow r); cbn; rewrite ?Hbuf; cbn; now auto ].
Qed.

Lemma state_inv_one_queue heap name q mapping next log :
  queue_inv heap q ->
  state_inv (State.mk heap {[ name := q ]} mapping next log).
Proof.
  intros Hq n q' Hq'. cbn in Hq'.
  apply lookup_singleton_Some in Hq' as [_ <-]. exact Hq.
Qed.

Lemma queue_inv_newQueue heap name channelLength :
  queue_inv heap (newQueue name channelLength).
Proof.
  split.
  - reflexivity.
  - intros []; cbn; lia.
  - cbn. lia.
  - intros [] run [].
Qed.

(** C9: a queue as the queue manager makes it satisfies the invariant that
    the readiness channel holds as many tokens as the three FIFOs hold
    runs, and [enqueue], [enqueueBlocking] and [GetRun] preserve it.
    [enqueue] never waits; it returns false, leaving the queue as it was,
    exactly when the chosen FIFO is full, and otherwise appends the run
    and one token.  [enqueueBlocking] waits when the FIFO is full and
    otherwise does the same.  [GetRun] waits when there is no token; with
    a token it never reaches the panic after the scan and returns the
    oldest run of the first non-empty FIFO in the order High, Normal, Low,
    removing it and one token.  (Each operation is one atomic step of the
    model.) *)
Theorem queue_invariant s name q run rc p runner :
  state_inv s ->
  State.queues s !! name = Some q ->
  State.heap s !! run = Some rc ->
  (exists s',
     enqueue name run p s = Done (negb (chan.full (Queue.runs q p))) s'
     /\ state_inv s'
     /\ State.queues s' !! name
        = Some (if chan.full (Queue.runs q p) then q else pushed p run q))
  /\ (if chan.full (Queue.runs q (RunContext.Priority rc))
      then enqueueBlocking name run s = Block
      else exists s',
             enqueueBlocking name run s = Done tt s'
             /\ state_inv s'
             /\ State.queues s' !! name
                = Some (pushed (RunContext.Priority rc) run q))
  /\ (forall p' run', depth (pushed p' run' q) = S (depth q)
                      /\ chan.len (Queue.ready (pushed p' run' q))
                         = S (chan.len (Queue.ready q)))
  /\ (match chan.buf (Queue.ready q) with
      | [] => GetRun name runner false s = Block
      | _ :: _ =>
          exists p' run' s',
            firstWaiting q = Some (p', run')
            /\ GetRun name runner false s = Done (Some run') s'
            /\ state_inv s'
            /\ State.queues s' !! name = Some (popped p' q)
      end).
Proof.
  intros Hinv Hq Hrun.
  assert (Hs1 : state_inv
            (State.setHeap
               (<[ run := RunContext.setQueue (Some name) rc ]> (State.heap s)) s)).
  { apply state_inv_heap; [assumption|].
    intros r Hr. apply insert_keeps; eauto. }
  assert (Hpush : forall p0,
            chan.full (Queue.runs q p0) = false ->
            queue_inv
              (<[ run := RunContext.setQueue (Some name) rc ]> (State.heap s))
              (pushed p0 run q)).
  { intros p0 Hfull. apply queue_inv_pushed; [|rewrite lookup_insert_eq; eauto|exact Hfull].
    exact (Hs1 name q Hq). }
  split; [|split; [|split]].
  - rewrite (enqueue_run s name q run rc p Hinv Hq Hrun).
    destruct (chan.full (Queue.runs q p)) eqn:Hfull; eexists;
      (split; [reflexivity|]).
    + split; [exact Hs1 | exact Hq].
    + split; [|cbn; apply lookup_insert_eq].
      apply (state_inv_queue _ name _ Hs1). exact (Hpush p Hfull).
  - rewrite (enqueueBlocking_run s name q run rc Hinv Hq Hrun).
    destruct (chan.full (Queue.runs q (RunContext.Priority rc))) eqn:Hfull;
      [reflexivity|].
    eexists. split; [reflexivity|].
    split; [|cbn; apply lookup_insert_eq].
    apply (state_inv_queue _ name _ Hs1). exact (Hpush _ Hfull).
  - intros p' run'. split; [apply depth_pushed|].
    unfold pushed, chan.len. destruct p'; cbn; rewrite length_app; cbn; lia.
  - destruct (chan.buf (Queue.ready q)) as [|t ready'] eqn:Hr.
    + now apply (GetRun_empty s name q).
    + destruct (GetRun_run s name q runner Hinv Hq) as (p' & run' & rc' & Hfirst & Hrc' & Hget).
      { rewrite Hr. discriminate. }
      exists p', run', (dequeued name runner p' run' rc' q s).
      split; [assumption|]. split; [assumption|].
      split; [|cbn; apply lookup_insert_eq].
      destruct (firstWaiting_Some _ _ (Hinv name q Hq))
        as (p2 & run2 & rest & rc2 & Hfirst2 & Hbuf & _).
      { rewrite Hr. discriminate. }
      rewrite Hfirst in Hfirst2. injection Hfirst2 as <- <-.
      intros n q' Hq'. cbn in Hq'. rewrite lookup_insert in Hq'.
      assert (Hmono : forall r, is_Some (State.heap s !! r) ->
                is_Some (<[ run' := RunContext.setMonitor true rc' ]> (State.heap s) !! r)).
      { intros r Hr0. apply insert_keeps; eauto. }
      case_decide.
      * injection Hq' as <-.
        destruct (queue_inv_popped _ _ _ _ _ (Hinv name q Hq) Hbuf) as [? ? ? Ha].
        split; auto. intros p3 r3 Hin. apply Hmono. eauto.
      * destruct (Hinv n q' Hq') as [? ? ? Ha].
        split; auto. intros p3 r3 Hin. apply Hmono. eauto.
Qed.

Lemma queue_invariant_witness :
  (exists s',
     enqueue "default" 0%nat QueuePriorityHigh waiting = Done true s'
     /\ state_inv s')
  /\ exists s',
       GetRun "default" "runner-2" false waiting = Done (Some 0%nat) s'
       /\ state_inv s'
       /\ State.queues s' !! "default" = Some (newQueue "default" 4).
Proof.
  destruct (queue_invariant waiting "default"
              (pushed QueuePriorityNormal 0%nat (newQueue "default" 4))
              0%nat (RunContext.setMonitor false inflightContext)
              QueuePriorityHigh "runner-2")
    as ((s1 & Henq & Hinv1 & _) & _ & _ & Hget).
  - apply state_inv_one_queue, queue_inv_pushed.
    + apply queue_inv_newQueue.
    + vm_compute. eauto.
    + reflexivity.
  - vm_compute. reflexivity.
  - vm_compute. reflexivity.
  - split; [exists s1; split; [exact Henq | exact Hinv1]|].
    change (chan.buf (Queue.ready
              (pushed QueuePriorityNormal 0%nat (newQueue "default" 4))))
      with [tt] in Hget.
    cbv iota in Hget.
    destruct Hget as (p' & run' & s2 & Hfirst & Hget & Hinv2 & Hq2).
    injection Hfirst as <- <-.
    exists s2. split; [exact Hget|]. split; [exact Hinv2 | exact Hq2].
Defined.
End QueueFacts.

(** ** The queue under interleaving: the panic of GetRun is unreachable *)

Module InterleavingFacts.
Import Grader Interleaving.

#[local] Arguments count : simpl never.

Lemma count_insert (P : thread -> bool) ts k t t' :
  ts !! k = Some t ->
  (count P (<[ k := t' ]> ts) + (if P t then 1 else 0)
   = count P ts + (if P t' then 1 else 0))%nat.
Proof.
  revert k. induction ts as [|a ts IH]; intros k Hk; [discriminate|].
  destruct k as [|k]; cbn in Hk.
  - injection Hk as ->.
    change (<[ 0%nat := t' ]> (t :: ts)) with (t' :: ts).
    unfold count. cbn [List.filter].
    destruct (P t), (P t'); cbn [List.length]; lia.
  - specialize (IH k Hk).
    change (<[ S k := t' ]> (a :: ts)) with (a :: <[ k := t' ]> ts).
    unfold count in *. cbn [List.filter].
    destruct (P a); cbn [List.length]; lia.
Qed.

Lemma count_repeat_Idle P n : P Idle = false -> count P (repeat Idle n) = O.
Proof.
  intros HP. unfold count. induction n as [|n IH]; cbn; [reflexivity|].
  now rewrite HP.
Qed.

Lemma count_lt (P Q : thread -> bool) ts k t :
  ts !! k = Some t -> P t = false -> Q t = true ->
  (forall t', P t' = true -> Q t' = true) ->
  (count P ts < count Q ts)%nat.
Proof.
  intros Hk HP HQ Himp. revert k Hk.
  assert (Hle : forall l, (count P l <= count Q l)%nat).
  { induction l as [|a l IH]; unfold count in *; cbn [List.filter]; [lia|].
    destruct (P a) eqn:Ha.
    - rewrite (Himp a Ha). cbn [List.length]. lia.
    - destruct (Q a); cbn [List.length]; lia. }
  induction ts as [|a ts IH]; intros k Hk; [discriminate|].
  destruct k as [|k]; cbn in Hk.
  - injection Hk as ->. specialize (Hle ts). unfold count in *.
    cbn [List.filter]. rewrite HP, HQ. cbn [List.length]. lia.
  - specialize (IH k Hk). unfold count in *. cbn [List.filter].
    destruct (P a) eqn:Ha.
    + rewrite (Himp a Ha). cbn [List.length]. lia.
    + destruct (Q a); cbn [List.length]; lia.
Qed.

Lemma isScanFrom_mono i j t :
  (i <= j)%nat -> isScanFrom j t = true -> isScanFrom i t = true.
Proof.
  destruct t; cbn; try discriminate.
  intros Hij H%Nat.leb_le. apply Nat.leb_le. lia.
Qed.

Lemma invariant_initial len n : invariant (initial len n).
Proof.
  split; unfold initial;
    cbn [threads tokens runsHigh runsNormal runsLow channelLength waitingFrom
         List.length].
  - now rewrite !count_repeat_Idle.
  - intros j Hj. rewrite count_repeat_Idle by reflexivity. lia.
  - intros [|[|[|i]]]; cbn; lia.
  - now apply count_repeat_Idle.
Qed.

(** One step keeps the invariant. *)
Lemma step_invariant c c' : invariant c -> step c c' -> invariant c'.
Proof.
  intros [Htok Hscan Hcap Hpanic] Hstep.
  pose proof (Hcap 0%nat) as Hc0. pose proof (Hcap 1%nat) as Hc1.
  pose proof (Hcap 2%nat) as Hc2.
  inversion Hstep as [c0 k i run Hk Hi Hroom
                     |c0 k Hk Hroom
                     |c0 k n Hk Hn
                     |c0 k i run rest Hk Hi Hrun
                     |c0 k i Hk Hi Hrun
                     |c0 k i Hk Hi]; subst; clear Hstep.
  - (* the run is sent *)
    pose proof (count_insert isSendToken _ _ _ SendToken Hk) as Es.
    pose proof (count_insert (isScanFrom 0) _ _ _ SendToken Hk) as E0.
    pose proof (count_insert isUnreachable _ _ _ SendToken Hk) as Ep.
    split.
    + destruct i as [|[|[|i]]]; try lia;
        cbn in *; rewrite ?length_app; cbn in *; lia.
    + intros j Hj. pose proof (Hscan j Hj) as Hs.
      pose proof (count_insert (isScanFrom j) _ _ _ SendToken Hk) as Ej.
      destruct i as [|[|[|i]]]; try lia;
        destruct j as [|[|[|j]]]; cbn in *; rewrite ?length_app; cbn in *; lia.
    + intros i'. pose proof (Hcap i') as Hci.
      destruct i as [|[|[|i]]]; try lia;
        destruct i' as [|[|[|i']]]; cbn in *; rewrite ?length_app; cbn in *; lia.
    + destruct i as [|[|[|i]]]; try lia; cbn in *; lia.
  - (* the token is sent *)
    pose proof (count_insert isSendToken _ _ _ Idle Hk) as Es.
    pose proof (count_insert (isScanFrom 0) _ _ _ Idle Hk) as E0.
    pose proof (count_insert isUnreachable _ _ _ Idle Hk) as Ep.
    split.
    + cbn in *. lia.
    + intros j Hj. pose proof (Hscan j Hj) as Hs.
      pose proof (count_insert (isScanFrom j) _ _ _ Idle Hk) as Ej.
      destruct j as [|[|[|j]]]; cbn in *; lia.
    + intros i'. apply (Hcap i').
    + cbn in *. lia.
  - (* a token is received *)
    pose proof (count_insert isSendToken _ _ _ (Scan 0) Hk) as Es.
    pose proof (count_insert (isScanFrom 0) _ _ _ (Scan 0) Hk) as E0.
    pose proof (count_insert isUnreachable _ _ _ (Scan 0) Hk) as Ep.
    split.
    + cbn in *. lia.
    + intros j Hj. pose proof (Hscan j Hj) as Hs.
      pose proof (count_insert (isScanFrom j) _ _ _ (Scan 0) Hk) as Ej.
      destruct j as [|[|[|j]]]; cbn in *; lia.
    + intros i'. apply (Hcap i').
    + cbn in *. lia.
  - (* a run is received *)
    pose proof (count_insert isSendToken _ _ _ Idle Hk) as Es.
    pose proof (count_insert (isScanFrom 0) _ _ _ Idle Hk) as E0.
    pose proof (count_insert isUnreachable _ _ _ Idle Hk) as Ep.
    split.
    + destruct i as [|[|[|i]]]; try lia; cbn in *; rewrite Hrun in *;
        cbn in *; lia.
    + intros j Hj. pose proof (Hscan j Hj) as Hs.
      pose proof (count_insert (isScanFrom j) _ _ _ Idle Hk) as Ej.
      destruct i as [|[|[|i]]]; try lia;
        destruct j as [|[|[|j]]]; cbn in *; rewrite ?Hrun in *; cbn in *; lia.
    + intros i'. pose proof (Hcap i') as Hci.
      destruct i as [|[|[|i]]]; try lia;
        destruct i' as [|[|[|i']]]; cbn in *; rewrite ?Hrun in *; cbn in *; lia.
    + destruct i as [|[|[|i]]]; try lia; cbn in *; lia.
  - (* the FIFO is empty *)
    pose proof (count_insert isSendToken _ _ _ (Scan (S i)) Hk) as Es.
    pose proof (count_insert (isScanFrom 0) _ _ _ (Scan (S i)) Hk) as E0.
    pose proof (count_insert isUnreachable _ _ _ (Scan (S i)) Hk) as Ep.
    split.
    + cbn in *. lia.
    + intros j Hj. pose proof (Hscan j Hj) as Hs.
      pose proof (count_insert (isScanFrom j) _ _ _ (Scan (S i)) Hk) as Ej.
      assert (Hlt : (count (isScanFrom (S i)) (threads c)
                     < count (isScanFrom i) (threads c))%nat).
      { apply (count_lt _ _ _ k (Scan i) Hk).
        - unfold isScanFrom. apply Nat.leb_gt. lia.
        - unfold isScanFrom. apply Nat.leb_le. lia.
        - intros t'. apply isScanFrom_mono. lia. }
      pose proof (Hscan 1%nat ltac:(lia)) as Hs1.
      pose proof (Hscan 2%nat ltac:(lia)) as Hs2.
      pose proof (Hscan 3%nat ltac:(lia)) as Hs3.
      destruct i as [|[|[|i]]]; try lia;
        destruct j as [|[|[|j]]]; cbn in *; rewrite ?Hrun in *; cbn in *; lia.
    + intros i'. apply (Hcap i').
    + cbn in *. lia.
  - (* the panic: no goroutine is there *)
    exfalso.
    pose proof (Hscan 3%nat ltac:(lia)) as Hs3.
    assert (Hlt : (count (fun _ => false) (threads c)
                   < count (isScanFrom 3) (threads c))%nat).
    { apply (count_lt _ _ _ k (Scan i) Hk); [reflexivity| |discriminate].
      unfold isScanFrom. apply Nat.leb_le. lia. }
    cbn in Hs3. lia.
Qed.

(** Under any interleaving of the channel operations of the three queue
    operations, the invariant holds, no goroutine reaches the panic of
    [GetRun], and a goroutine that has sent its run can always send its
    token. *)
Lemma reachable_invariant len n c : reachable len n c -> invariant c.
Proof.
  induction 1 as [|c c' _ IH Hstep];
    [apply invariant_initial | exact (step_invariant c c' IH Hstep)].
Qed.

Lemma reachable_channelLength len n c :
  reachable len n c -> channelLength c = len.
Proof.
  induction 1 as [|c c' _ IH Hstep]; [reflexivity|].
  rewrite <- IH. inversion Hstep; subst; try reflexivity;
    match goal with
    | |- context [setRunsAt ?i _ _] => destruct i as [|[|[|?]]]; reflexivity
    end.
Qed.

(** X19: under any interleaving of the channel operations of [enqueue],
    [enqueueBlocking] and [GetRun] by any number of goroutines on a new
    queue, no goroutine is at the panic after the scan of [GetRun], a
    scanning goroutine is at one of the three FIFOs, and a goroutine that
    has sent its run finds room for its token in the readiness channel
    (it does not wait). *)
Lemma GetRun_never_panics len n c k :
  reachable len n c ->
  threads c !! k <> Some Unreachable
  /\ (forall i, threads c !! k = Some (Scan i) -> (i < 3)%nat)
  /\ (threads c !! k = Some SendToken -> (tokens c < 3 * channelLength c)%nat).
Proof.
  intros Hreach. pose proof (reachable_invariant len n c Hreach)
    as [Htok Hscan Hcap Hpanic].
  split_and!.
  - intros Hk.
    pose proof (count_lt (fun _ => false) isUnreachable _ k _ Hk
                  eq_refl eq_refl ltac:(discriminate)). lia.
  - intros i Hk. destruct (Nat.lt_ge_cases i 3) as [|Hge]; [assumption|].
    pose proof (Hscan 3%nat ltac:(lia)) as Hs3.
    pose proof (count_lt (fun _ => false) (isScanFrom 3) _ k _ Hk eq_refl
                  ltac:(unfold isScanFrom; apply Nat.leb_le; lia) ltac:(discriminate)).
    cbn in Hs3. lia.
  - intros Hk.
    pose proof (count_lt (fun _ => false) isSendToken _ k _ Hk
                  eq_refl eq_refl ltac:(discriminate)) as Hlt.
    pose proof (Hcap 0%nat). pose proof (Hcap 1%nat). pose proof (Hcap 2%nat).
    cbn in *. lia.
Qed.

Lemma GetRun_never_panics_witness :
  let c := setThread 0 SendToken
             (setRunsAt 0 (runsAt (initial 1 2) 0 ++ [7%nat]) (initial 1 2)) in
  reachable 1 2 c
  /\ threads c !! 0%nat <> Some Unreachable
  /\ (forall i, threads c !! 0%nat = Some (Scan i) -> (i < 3)%nat)
  /\ (threads c !! 0%nat = Some SendToken
      -> (tokens c < 3 * channelLength c)%nat).
Proof.
  intros c.
  assert (Hreach : reachable 1 2 c).
  { eapply reachable_step; [apply reachable_initial|].
    apply step_send_run; [reflexivity | lia | cbn; lia]. }
  split; [exact Hreach|].
  exact (GetRun_never_panics 1 2 c 0 Hreach).
Defined.
End InterleavingFacts.

(** ** Requeue and Close *)

Module RequeueFacts.
Import Grader GraderSpec GraderExample QueueFacts.

Lemma wrap64_small z : - 2 ^ 63 <= z < 2 ^ 63 -> Go.wrap64 z = z.
Proof. intros H. unfold Go.wrap64. rewrite Z.mod_small by lia. lia. Qed.

(** Projections of a state built by the setters. *)
Ltac state_simpl :=
  unfold State.emit, State.setHeap, State.setQueues, State.setMapping,
    State.setNextAttemptID;
  cbn [State.heap State.queues State.mapping State.nextAttemptID State.log].

(** Runs the next [load] or [update] of a monadic computation. *)
Ltac run_heap :=
  first
    [ erewrite run_update
        by (state_simpl; first [eassumption | apply lookup_insert_eq])
    | erewrite run_load
        by (state_simpl; first [eassumption | apply lookup_insert_eq]) ].

Ltac run_monad :=
  repeat (unfold mbind, M_bind, bind, mret, M_ret, ret, emit, modify;
          try run_heap).

Lemma Close_open env s run rc :
  State.heap s !! run = Some rc ->
  RunContext.closed rc = 0 ->
  RunContext.monitor rc = false ->
  Close env run s
  = Done tt
      (State.mk (<[ run := closedContext env rc ]> (State.heap s))
         (State.queues s) (State.mapping s) (State.nextAttemptID s)
         (State.log s ++ closeEvents env run rc)).
Proof.
  intros Hrc Hclosed Hmon.
  unfold Close, closeEvents, closedContext. run_monad.
  rewrite Hclosed, Hmon. cbn [Z.eqb negb].
  destruct (RunContext.input rc) as [handle|] eqn:Hin;
    destruct (Env.persist env (RunContext.GradeDir rc)) eqn:Hp;
    cbn [negb]; run_monad; state_simpl;
    rewrite ?insert_insert_eq, <- ?app_assoc, ?app_nil_r;
    destruct rc; cbn in *; subst; reflexivity.
Qed.

Lemma Close_closed env s run rc :
  State.heap s !! run = Some rc ->
  RunContext.closed rc <> 0 ->
  Close env run s
  = Done tt
      (State.mk (<[ run := RunContext.setClosed 1 rc ]> (State.heap s))
         (State.queues s) (State.mapping s) (State.nextAttemptID s)
         (State.log s ++ [CloseWarning run])).
Proof.
  intros Hrc Hclosed. unfold Close. run_monad.
  destruct (Z.eqb_spec (RunContext.closed rc) 0); [contradiction|].
  cbn [negb]. reflexivity.
Qed.

Lemma Remove_inflight s run rc :
  State.heap s !! run = Some rc ->
  RunContext.monitor rc = true ->
  inflight_ok s run rc ->
  Remove (Common.Run.AttemptID (RunContext.Run rc)) s
  = Done tt
      (State.mk (<[ run := RunContext.setMonitor false rc ]> (State.heap s))
         (State.queues s) (detachedMapping s rc) (State.nextAttemptID s)
         (State.log s)).
Proof.
  intros Hrc Hmon Hok. destruct (Hok Hmon) as (inflight & Hmap & Hrun).
  unfold Remove, detachedMapping. rewrite Hmon.
  unfold mbind, M_bind, bind, get. rewrite Hmap, Hrun.
  run_monad. reflexivity.
Qed.

(** The first statement of [Requeue] and the decrement of [tries]. *)
Lemma Requeue_prologue env s run rc lastAttempt :
  State.heap s !! run = Some rc ->
  inflight_ok s run rc ->
  - 2 ^ 63 < RunContext.tries rc < 2 ^ 63 ->
  let rc1 :=
    RunContext.setTries (RunContext.tries rc - 1)
      (RunContext.setMonitor false rc) in
  let s1 :=
    State.mk (<[ run := rc1 ]> (State.heap s)) (State.queues s)
      (detachedMapping s rc) (State.nextAttemptID s) (State.log s) in
  Requeue env run lastAttempt s
  = (if RunContext.tries rc1 <=? 0
     then _ ← Close env run; mret false
     else
       _ ← (if lastAttempt
            then update run (RunContext.setTries 1)
            else mret tt);
       _ ← UpdateAttemptID run;
       queue ← (match RunContext.queue rc1 with
                | Some queue => mret queue
                | None => panic
                end);
       ok ← enqueue queue run QueuePriorityHigh;
       if ok : bool then mret true
       else _ ← Close env run; mret false) s1.
Proof.
  intros Hrc Hok Hrange rc1 s1.
  unfold Requeue. unfold mbind at 1, M_bind at 1, bind at 1.
  rewrite (run_load _ _ _ Hrc).
  destruct (RunContext.monitor rc) eqn:Hmon.
  - unfold mbind at 1, M_bind at 1, bind at 1.
    rewrite (Remove_inflight s run rc Hrc Hmon Hok).
    unfold mbind at 1, M_bind at 1, bind at 1.
    erewrite run_update by (cbn; apply lookup_insert_eq).
    unfold mbind at 1, M_bind at 1, bind at 1.
    erewrite run_load by (cbn; apply lookup_insert_eq).
    state_simpl. rewrite insert_insert_eq.
    rewrite !wrap64_small by (cbn; lia).
    reflexivity.
  - unfold mbind at 1, M_bind at 1, bind at 1.
    unfold mret at 1, M_ret at 1, ret at 1.
    unfold mbind at 1, M_bind at 1, bind at 1.
    erewrite run_update by exact Hrc.
    unfold mbind at 1, M_bind at 1, bind at 1.
    erewrite run_load by (cbn; apply lookup_insert_eq).
    state_simpl. rewrite !wrap64_small by lia.
    assert (RunContext.setTries (RunContext.tries rc - 1) rc = rc1) as ->.
    { unfold rc1. destruct rc; cbn in *; now subst. }
    subst s1. unfold detachedMapping. rewrite Hmon. reflexivity.
Qed.

(** A retry: the budget is not exhausted and the High FIFO has room. *)
Lemma Requeue_retry env s name q run rc :
  state_inv s ->
  State.heap s !! run = Some rc ->
  inflight_ok s run rc ->
  1 < RunContext.tries rc < 2 ^ 63 ->
  RunContext.queue rc = Some name ->
  State.queues s !! name = Some q ->
  chan.full (Queue.runs q QueuePriorityHigh) = false ->
  Requeue env run false s
  = Done true
      (State.mk
         (<[ run := requeued (State.nextAttemptID s) rc ]> (State.heap s))
         (<[ name := pushed QueuePriorityHigh run q ]> (State.queues s))
         (detachedMapping s rc) (State.nextAttemptID s + 1) (State.log s)).
Proof.
  intros Hinv Hrc Hok Htries Hqueue Hq Hfull.
  rewrite (Requeue_prologue env s run rc false Hrc Hok) by lia.
  cbn [RunContext.tries RunContext.setTries RunContext.queue
       RunContext.setMonitor].
  destruct (Z.leb_spec (RunContext.tries rc - 1) 0); [lia|].
  rewrite Hqueue.
  set (rc1 := RunContext.setTries _ _).
  set (s1 := State.mk _ _ _ _ _).
  unfold mbind at 1, M_bind at 1, bind at 1.
  unfold mret at 1, M_ret at 1, ret at 1.
  unfold mbind at 1, M_bind at 1, bind at 1.
  unfold UpdateAttemptID, NewAttemptID.
  unfold mbind at 1, M_bind at 1, bind at 1.
  unfold mbind at 1, M_bind at 1, bind at 1.
  unfold mbind at 1, M_bind at 1, bind at 1.
  unfold get, modify. unfold mret at 1, M_ret at 1, ret at 1.
  erewrite run_update by (cbn; apply lookup_insert_eq).
  unfold mbind at 1, M_bind at 1, bind at 1.
  unfold mret at 1, M_ret at 1, ret at 1.
  unfold mbind at 1, M_bind at 1, bind at 1.
  set (rc2 := RunContext.setRun _ rc1).
  set (s2 := State.setHeap _ _).
  assert (Hinv2 : state_inv s2).
  { intros n q' Hq'. destruct (Hinv n q' Hq') as [? ? ? Ha].
    split; auto. intros p r Hin. subst s2 s1. cbn.
    do 2 (apply insert_keeps; [rewrite ?lookup_insert_eq; eauto|]). eauto. }
  assert (Hrc2 : State.heap s2 !! run = Some rc2)
    by (cbn; apply lookup_insert_eq).
  rewrite (enqueue_run s2 name q run rc2 QueuePriorityHigh Hinv2 Hq Hrc2).
  rewrite Hfull. unfold mret, M_ret, ret.
  f_equal. subst s2 s1. unfold State.setQueues, State.setHeap. cbn.
  rewrite !insert_insert_eq. f_equal. f_equal.
  subst rc2 rc1. unfold requeued. destruct rc; cbn in *. now subst.
Qed.

(** The budget is exhausted: the context is closed. *)
Lemma Requeue_exhausted env s run rc lastAttempt :
  State.heap s !! run = Some rc ->
  inflight_ok s run rc ->
  - 2 ^ 63 < RunContext.tries rc <= 1 ->
  RunContext.closed rc = 0 ->
  let rc1 :=
    RunContext.setTries (RunContext.tries rc - 1)
      (RunContext.setMonitor false rc) in
  Requeue env run lastAttempt s
  = Done false
      (State.mk (<[ run := closedContext env rc1 ]> (State.heap s))
         (State.queues s) (detachedMapping s rc) (State.nextAttemptID s)
         (State.log s ++ closeEvents env run rc)).
Proof.
  intros Hrc Hok Htries Hclosed rc1.
  rewrite (Requeue_prologue env s run rc lastAttempt Hrc Hok) by lia.
  fold rc1.
  assert (RunContext.tries rc1 = RunContext.tries rc - 1) as -> by reflexivity.
  destruct (Z.leb_spec (RunContext.tries rc - 1) 0); [|lia].
  unfold mbind at 1, M_bind at 1, bind at 1.
  erewrite Close_open; [| cbn; apply lookup_insert_eq | exact Hclosed | reflexivity].
  unfold mret, M_ret, ret. cbn. rewrite insert_insert_eq. reflexivity.
Qed.

(** A call on a closed context whose budget is exhausted only warns. *)
Lemma Requeue_closed env s run rc lastAttempt :
  State.heap s !! run = Some rc ->
  inflight_ok s run rc ->
  - 2 ^ 63 < RunContext.tries rc <= 1 ->
  RunContext.closed rc <> 0 ->
  let rc1 :=
    RunContext.setTries (RunContext.tries rc - 1)
      (RunContext.setMonitor false rc) in
  Requeue env run lastAttempt s
  = Done false
      (State.mk (<[ run := RunContext.setClosed 1 rc1 ]> (State.heap s))
         (State.queues s) (detachedMapping s rc) (State.nextAttemptID s)
         (State.log s ++ [CloseWarning run])).
Proof.
  intros Hrc Hok Htries Hclosed rc1.
  rewrite (Requeue_prologue env s run rc lastAttempt Hrc Hok) by lia.
  fold rc1.
  assert (RunContext.tries rc1 = RunContext.tries rc - 1) as -> by reflexivity.
  destruct (Z.leb_spec (RunContext.tries rc - 1) 0); [|lia].
  unfold mbind at 1, M_bind at 1, bind at 1.
  erewrite Close_closed; [| cbn; apply lookup_insert_eq | exact Hclosed].
  unfold mret, M_ret, ret. cbn. rewrite insert_insert_eq. reflexivity.
Qed.


Lemma state_inv_requeued s name q run rc :
  state_inv s ->
  State.heap s !! run = Some rc ->
  State.queues s !! name = Some q ->
  chan.full (Queue.runs q QueuePriorityHigh) = false ->
  state_inv
    (State.mk
       (<[ run := requeued (State.nextAttemptID s) rc ]> (State.heap s))
       (<[ name := pushed QueuePriorityHigh run q ]> (State.queues s))
       (detachedMapping s rc) (State.nextAttemptID s + 1) (State.log s)).
Proof.
  intros Hinv Hrc Hq Hfull n q'. cbn. rewrite lookup_insert.
  assert (Hmono : forall r, is_Some (State.heap s !! r) ->
            is_Some (<[ run := requeued (State.nextAttemptID s) rc ]>
                       (State.heap s) !! r)).
  { intros r Hr. apply insert_keeps; eauto. }
  case_decide.
  - intros [= <-]. apply queue_inv_pushed; [|apply Hmono; eauto|assumption].
    destruct (Hinv name q Hq) as [? ? ? Ha]. split; auto.
    intros p r Hin. apply Hmono. eauto.
  - intros Hq'. destruct (Hinv n q' Hq') as [? ? ? Ha]. split; auto.
    intros p r Hin. apply Hmono. eauto.
Qed.

Lemma runs_pushed p run q :
  Queue.runs (pushed p run q) p
  = chan.mk (chan.buf (Queue.runs q p) ++ [run]) (chan.cap (Queue.runs q p)).
Proof. now destruct p. Qed.

(** [k] retries within the budget and the room of the High FIFO. *)
Lemma requeueTimes_retries env name run (k : nat) :
  forall s q rc,
    state_inv s ->
    State.heap s !! run = Some rc ->
    inflight_ok s run rc ->
    RunContext.queue rc = Some name ->
    State.queues s !! name = Some q ->
    Z.of_nat k < RunContext.tries rc < 2 ^ 63 ->
    (chan.len (Queue.runs q QueuePriorityHigh) + k
     <= chan.cap (Queue.runs q QueuePriorityHigh))%nat ->
    exists s' q' rc',
      requeueTimes env run k s = Done (repeat true k) s'
      /\ state_inv s'
      /\ State.heap s' !! run = Some rc'
      /\ inflight_ok s' run rc'
      /\ RunContext.queue rc' = Some name
      /\ RunContext.closed rc' = RunContext.closed rc
      /\ RunContext.tries rc' = RunContext.tries rc - Z.of_nat k
      /\ RunContext.Result rc' = RunContext.Result rc
      /\ RunContext.GradeDir rc' = RunContext.GradeDir rc
      /\ RunContext.input rc' = RunContext.input rc
      /\ State.queues s' !! name = Some q'
      /\ chan.buf (Queue.runs q' QueuePriorityHigh)
         = chan.buf (Queue.runs q QueuePriorityHigh) ++ repeat run k
      /\ chan.cap (Queue.runs q' QueuePriorityHigh)
         = chan.cap (Queue.runs q QueuePriorityHigh)
      /\ State.log s' = State.log s.
Proof.
  induction k as [|k IH]; intros s q rc Hinv Hrc Hok Hqueue Hq Htries Hroom.
  - exists s, q, rc. cbn [requeueTimes repeat]. rewrite app_nil_r.
    split_and!; auto. lia.
  - assert (Hfull : chan.full (Queue.runs q QueuePriorityHigh) = false).
    { unfold chan.full. apply Nat.leb_gt. lia. }
    cbn [requeueTimes]. unfold mbind at 1, M_bind at 1, bind at 1.
    assert (Htries1 : 1 < RunContext.tries rc < 2 ^ 63) by lia.
    rewrite (Requeue_retry env s name q run rc Hinv Hrc Hok Htries1 Hqueue Hq Hfull).
    set (s1 := State.mk _ _ _ _ _).
    destruct (IH s1 (pushed QueuePriorityHigh run q)
                (requeued (State.nextAttemptID s) rc))
      as (s' & q' & rc' & Hrun & Hinv' & Hrc' & Hok' & Hqueue' & Hclosed'
          & Htries' & Hres' & Hdir' & Hin' & Hq' & Hbuf' & Hcap' & Hlog').
    + apply state_inv_requeued; auto.
    + cbn. apply lookup_insert_eq.
    + intros Hmon. discriminate Hmon.
    + exact Hqueue.
    + cbn. apply lookup_insert_eq.
    + cbn. lia.
    + rewrite runs_pushed. unfold chan.len in *. cbn [chan.buf chan.cap].
      rewrite length_app. cbn [List.length]. lia.
    + exists s', q', rc'.
      unfold mbind, M_bind, bind. rewrite Hrun.
      unfold mret, M_ret, ret. cbn [repeat].
      split_and!; auto.
      * rewrite Htries'. cbn. lia.
      * rewrite Hbuf'. cbn. rewrite <- app_assoc. cbn. reflexivity.
Qed.

Lemma requeueTimes_S env run k s :
  requeueTimes env run (S k) s
  = match Requeue env run false s with
    | Done b s0 =>
        match requeueTimes env run k s0 with
        | Done bs s1 => Done (b :: bs) s1
        | Panic => Panic
        | Block => Block
        end
    | Panic => Panic
    | Block => Block
    end.
Proof. reflexivity. Qed.

Lemma requeueTimes_snoc env run k s bs s1 b s2 :
  requeueTimes env run k s = Done bs s1 ->
  Requeue env run false s1 = Done b s2 ->
  requeueTimes env run (S k) s = Done (bs ++ [b]) s2.
Proof.
  revert s bs. induction k as [|k IH]; intros s bs.
  - rewrite requeueTimes_S. cbn [requeueTimes].
    unfold mret, M_ret, ret. intros [= <- <-] ->. reflexivity.
  - rewrite (requeueTimes_S env run (S k)), (requeueTimes_S env run k).
    destruct (Requeue env run false s) as [b0 s0| |]; try discriminate.
    destruct (requeueTimes env run k s0) as [bs0 s0'| |] eqn:Hk;
      try discriminate.
    intros [= <- <-] Hb. now rewrite (IH s0 bs0 Hk Hb).
Qed.

(** C2 (amended): for a run context with [tries = MaxGradeRetries = N],
    [1 <= N], that is not closed and whose High FIFO has room for [N - 1]
    more runs, each of the first [k <= N - 1] calls of [Requeue(false)]
    returns true and appends the run to the High FIFO without closing it
    or writing anything; the [N]-th call closes the context, once, with
    the result it holds at that time, and returns false; a further call
    returns false and only warns that the context is already closed. *)
Theorem Requeue_budget env s name q run rc :
  let N := Env.MaxGradeRetries env in
  state_inv s ->
  State.heap s !! run = Some rc ->
  inflight_ok s run rc ->
  RunContext.queue rc = Some name ->
  State.queues s !! name = Some q ->
  RunContext.closed rc = 0 ->
  RunContext.tries rc = N ->
  1 <= N < 2 ^ 63 ->
  (chan.len (Queue.runs q QueuePriorityHigh) + Z.to_nat (N - 1)
   <= chan.cap (Queue.runs q QueuePriorityHigh))%nat ->
  (forall k : nat,
     Z.of_nat k < N ->
     exists s' q' rc',
       requeueTimes env run k s = Done (repeat true k) s'
       /\ State.heap s' !! run = Some rc'
       /\ RunContext.closed rc' = 0
       /\ RunContext.tries rc' = N - Z.of_nat k
       /\ State.queues s' !! name = Some q'
       /\ chan.buf (Queue.runs q' QueuePriorityHigh)
          = chan.buf (Queue.runs q QueuePriorityHigh) ++ repeat run k
       /\ State.log s' = State.log s)
  /\ exists s' rc' s'',
       requeueTimes env run (Z.to_nat N) s
         = Done (repeat true (Z.to_nat (N - 1)) ++ [false]) s'
       /\ State.heap s' !! run = Some rc'
       /\ RunContext.closed rc' = 1
       /\ State.log s' = State.log s ++ closeEvents env run rc
       /\ Requeue env run false s' = Done false s''
       /\ State.log s'' = State.log s' ++ [CloseWarning run].
Proof.
  intros N Hinv Hrc Hok Hqueue Hq Hclosed Htries HN Hroom.
  split.
  - intros k Hk.
    destruct (requeueTimes_retries env name run k s q rc)
      as (s' & q' & rc' & Hrun & _ & Hrc' & _ & _ & Hclosed' & Htries'
          & _ & _ & _ & Hq' & Hbuf' & _ & Hlog'); auto; try lia.
    exists s', q', rc'. split_and!; auto; congruence.
  - destruct (requeueTimes_retries env name run (Z.to_nat (N - 1)) s q rc)
      as (s1 & q1 & rc1 & Hrun & _ & Hrc1 & Hok1 & _ & Hclosed1 & Htries1
          & Hres1 & Hdir1 & Hin1 & _ & _ & _ & Hlog1); auto; try lia.
    assert (Hone : RunContext.tries rc1 = 1) by lia.
    pose proof (Requeue_exhausted env s1 run rc1 false Hrc1 Hok1) as Hlast.
    cbn zeta in Hlast.
    specialize (Hlast ltac:(lia) ltac:(congruence)).
    set (s2 := State.mk _ _ _ _ _) in Hlast.
    set (rc2 := closedContext env _) in *.
    assert (Hrc2 : State.heap s2 !! run = Some rc2)
      by (cbn; apply lookup_insert_eq).
    pose proof (Requeue_closed env s2 run rc2 false Hrc2) as Hagain.
    cbn zeta in Hagain.
    specialize (Hagain ltac:(intros Hm; discriminate Hm)
                       ltac:(subst rc2; cbn; lia)
                       ltac:(subst rc2; cbn; lia)).
    eexists s2, rc2, _. split_and!.
    + replace (Z.to_nat N) with (S (Z.to_nat (N - 1))) by lia.
      exact (requeueTimes_snoc _ _ _ _ _ _ _ _ Hrun Hlast).
    + exact Hrc2.
    + reflexivity.
    + subst s2. cbn. rewrite Hlog1. f_equal.
      unfold closeEvents. now rewrite Hres1, Hdir1, Hin1.
    + exact Hagain.
    + reflexivity.
Qed.

Example dispatch_dispatched : dispatch empty = Done 0%nat dispatched.
Proof. vm_compute. reflexivity. Qed.

(** C2 (as stated it fails): with [MaxGradeRetries = 2] the second call of
    [Requeue(false)], which the claim counts among the calls that re-enqueue
    the run, closes the context and returns false; the third call finds it
    closed. *)
Lemma Requeue_closes_at_MaxGradeRetries :
  Env.MaxGradeRetries env = 2
  /\ observe 0%nat (requeueTimes env 0%nat 3 dispatched)
     = Some ([true; false; false], Some (1, -1), [[0%nat]; []; []],
             ["details written: JE"; "ready closed";
              "warning: already closed"])
  /\ observe 0%nat (requeueTimes env 0%nat 2 dispatched)
     = Some ([true; false], Some (1, 0), [[0%nat]; []; []],
             ["details written: JE"; "ready closed"]).
Proof. split; [reflexivity|]. split; vm_compute; reflexivity. Qed.

Lemma Requeue_budget_witness :
  exists s' rc' s'',
    requeueTimes env 0%nat 2 dispatched = Done [true; false] s'
    /\ State.heap s' !! 0%nat = Some rc'
    /\ RunContext.closed rc' = 1
    /\ State.log s'
       = [DetailsWritten "" (emptyResult "JE"); ReadyClosed 0%nat]
    /\ Requeue env 0%nat false s' = Done false s''
    /\ State.log s'' = State.log s' ++ [CloseWarning 0%nat].
Proof.
  destruct (Requeue_budget env dispatched "default" (newQueue "default" 4)
              0%nat inflightContext) as [_ H].
  - apply state_inv_one_queue, queue_inv_newQueue.
  - vm_compute. reflexivity.
  - intros _. eexists. split; [vm_compute; reflexivity | reflexivity].
  - reflexivity.
  - vm_compute. reflexivity.
  - reflexivity.
  - reflexivity.
  - vm_compute. split; [discriminate | reflexivity].
  - vm_compute. lia.
  - exact H.
Defined.
End RequeueFacts.

(** ** Injection of runs *)

Module InjectFacts.
Import Grader GraderSpec GraderExample QueueFacts RequeueFacts Main MainSpec.

Lemma NewEmptyRunContext_run env s :
  exists rc0,
    NewEmptyRunContext env s
    = Done (fresh (dom (State.heap s)))
        (State.mk (<[ fresh (dom (State.heap s)) := rc0 ]> (State.heap s))
           (State.queues s) (State.mapping s) (State.nextAttemptID s + 1)
           (State.log s))
    /\ RunContext.queue rc0 = None.
Proof.
  unfold NewEmptyRunContext, NewAttemptID, mbind, M_bind, bind, get, modify,
    mret, M_ret, ret.
  cbn. eexists. split; reflexivity.
Qed.

Lemma fresh_heap (s : State.t) : State.heap s !! fresh (dom (State.heap s)) = None.
Proof. apply not_elem_of_dom. apply is_fresh. Qed.

(** What creating a context does to the state: it allocates one fresh
    address and changes nothing else but the attempt counter. *)
Lemma v1CompatNewRunContext_run env w guid s created s' :
  v1CompatNewRunContext env w guid s = Done created s' ->
  let run := fresh (dom (State.heap s)) in
  State.queues s' = State.queues s
  /\ (forall r, r <> run -> State.heap s' !! r = State.heap s !! r)
  /\ is_Some (State.heap s' !! run)
  /\ forall runCtx settings,
       created = inr (runCtx, settings) ->
       runCtx = run
       /\ problemSettings w guid = Some settings
       /\ exists rc, State.heap s' !! run = Some rc
                     /\ RunContext.GUID rc = guid.
Proof.
  intros Hrun run.
  unfold v1CompatNewRunContext in Hrun.
  unfold mbind at 1, M_bind at 1, bind at 1 in Hrun.
  destruct (NewEmptyRunContext_run env s) as (rc0 & Hnew & _).
  rewrite Hnew in Hrun. clear Hnew.
  fold run in Hrun.
  unfold mbind at 1, M_bind at 1, bind at 1 in Hrun.
  unfold splitGUID_or_panic, problemSettings in *.
  destruct (splitGUID guid) as [[head tail]|]; [|discriminate].
  unfold mret at 1, M_ret at 1, ret at 1 in Hrun.
  destruct (World.queryRun w guid) as [e|row].
  { injection Hrun as <- <-. cbn. split_and!; auto.
    - intros r Hr. now rewrite lookup_insert_ne.
    - rewrite lookup_insert_eq. eauto.
    - discriminate. }
  destruct (World.GetProblemInformation w _) as [e|[InputHash Settings]].
  { injection Hrun as <- <-. cbn. split_and!; auto.
    - intros r Hr. now rewrite lookup_insert_ne.
    - rewrite lookup_insert_eq. eauto.
    - discriminate. }
  destruct (World.ReadFile w _) as [e|contents].
  { injection Hrun as <- <-. cbn. split_and!; auto.
    - intros r Hr. now rewrite lookup_insert_ne.
    - rewrite lookup_insert_eq. eauto.
    - discriminate. }
  unfold mbind at 1, M_bind at 1, bind at 1 in Hrun.
  erewrite run_update in Hrun by (cbn; apply lookup_insert_eq).
  injection Hrun as <- <-. cbn. rewrite insert_insert_eq. split_and!; auto.
  - intros r Hr. now rewrite lookup_insert_ne.
  - rewrite lookup_insert_eq. eauto.
  - intros ? ? [= <- <-]. split_and!; auto.
    eexists. split; [apply lookup_insert_eq | reflexivity].
Qed.




Example inject_example :
  observe 1%nat
    (v1CompatInjectRuns env InjectExample.world "default"
       [InjectExample.guidA; InjectExample.guidB] QueuePriorityHigh
       InjectExample.idle)
  = Some (None, Some (0, 2), [[0%nat]; []; [1%nat]], []).
Proof. vm_compute. reflexivity. Qed.

End InjectFacts.

(** ** sliceIndex and the ends of the verdict order *)

Module SliceFacts.
Import Runner Spec VerdictFacts.

Lemma sliceIndex_loop_first (n : nat) (i : Z) (predicate : Z -> bool) :
  let r := sliceIndex_loop n i predicate in
  (r = -1 /\ forall j, i <= j < i + Z.of_nat n -> predicate j = false)
  \/ (i <= r < i + Z.of_nat n /\ predicate r = true
      /\ forall j, i <= j < r -> predicate j = false).
Proof.
  revert i. induction n as [|n IH]; intros i; cbn zeta.
  - left. split; [reflexivity|]. intros j Hj. lia.
  - cbn [sliceIndex_loop]. destruct (predicate i) eqn:Hi.
    + right. split; [lia|]. split; [assumption|]. intros j Hj. lia.
    + destruct (IH (i + 1)) as [[Hr Hnone]|(Hr & Hp & Hbefore)].
      * left. split; [assumption|]. intros j Hj.
        destruct (Z.eq_dec j i) as [->|]; [assumption | apply Hnone; lia].
      * right. split; [lia|]. split; [assumption|]. intros j Hj.
        destruct (Z.eq_dec j i) as [->|]; [assumption | apply Hbefore; lia].
Qed.

(** X1: [sliceIndex limit predicate] is the least index in [0, limit) at
    which the predicate holds, and [-1] exactly when it holds at none (in
    particular for a limit that is zero or negative). *)
Theorem sliceIndex_first (limit : Z) (predicate : Z -> bool) :
  (sliceIndex limit predicate = -1
   /\ forall j, 0 <= j < limit -> predicate j = false)
  \/ (0 <= sliceIndex limit predicate < limit
      /\ predicate (sliceIndex limit predicate) = true
      /\ forall j, 0 <= j < sliceIndex limit predicate -> predicate j = false).
Proof.
  unfold sliceIndex.
  destruct (sliceIndex_loop_first (Z.to_nat limit) 0 predicate)
    as [[Hr Hnone]|(Hr & Hp & Hbefore)].
  - left. split; [assumption|]. intros j Hj. apply Hnone. lia.
  - right. split; [lia|]. split; assumption.
Qed.

(** X2: [OK] is the unit and [JE] the zero of [worseVerdict] on the verdict
    strings: merging with [OK] keeps the other verdict, merging with [JE]
    gives [JE]. *)
Theorem worseVerdict_unit_zero (v : string) :
  known v ->
  worseVerdict "OK" v = Some v /\ worseVerdict v "OK" = Some v
  /\ worseVerdict "JE" v = Some "JE" /\ worseVerdict v "JE" = Some "JE".
Proof.
  intros [i Hi]%known_rank.
  assert (Hlt : (i < 11)%nat) by (apply position_lt in Hi; exact Hi).
  assert (Hok : rank "OK" = Some 10%nat) by (vm_compute; reflexivity).
  assert (Hje : rank "JE" = Some 0%nat) by (vm_compute; reflexivity).
  rewrite (worseVerdict_known "OK" v 10 i Hok Hi).
  rewrite (worseVerdict_known v "OK" i 10 Hi Hok).
  rewrite (worseVerdict_known "JE" v 0 i Hje Hi).
  rewrite (worseVerdict_known v "JE" i 0 Hi Hje).
  split_and!; f_equal.
  - destruct (Nat.leb_spec 10 i); [|reflexivity].
    apply (rank_inj _ _ 10%nat); [assumption|]. rewrite Hi. f_equal. lia.
  - destruct (Nat.leb_spec i 10); [reflexivity | lia].
  - destruct (Nat.leb_spec i 0); [|reflexivity].
    apply (rank_inj _ _ 0%nat); [|assumption]. rewrite Hi. f_equal. lia.
Qed.

Lemma worseVerdict_unit_zero_witness :
  worseVerdict "OK" "TLE" = Some "TLE" /\ worseVerdict "TLE" "JE" = Some "JE".
Proof.
  destruct (worseVerdict_unit_zero "TLE") as (H1 & _ & _ & H4).
  - solve_known.
  - split; [exact H1 | exact H4].
Defined.
End SliceFacts.

(** ** The execution phase *)

Module RunPhaseFacts.
Import Runner Spec Results VerdictFacts GradeFacts.

Lemma merged_nil (rr : RunResult.t) : merged [] (RunResult.Verdict rr) rr = rr.
Proof. now destruct rr. Qed.

Lemma merged_cons m metas v v' rr :
  merged metas v'
    (RunResult.setMemory (max64 (RunResult.Memory rr) (RunMetadata.Memory m))
       (RunResult.setWallTime (RunResult.WallTime rr + RunMetadata.WallTime m)%Qc
          (RunResult.setTime (RunResult.Time rr + RunMetadata.Time m)%Qc
             (RunResult.setVerdict v rr))))
  = merged (m :: metas) v' rr.
Proof. now destruct rr. Qed.

Lemma merged_app ms1 ms2 v v' rr :
  merged ms2 v' (merged ms1 v rr) = merged (ms1 ++ ms2) v' rr.
Proof.
  unfold merged, peakMemory, totalWallTime, totalTime.
  rewrite !fold_left_app. now destruct rr.
Qed.

Lemma worstOf_cons v x vs :
  worstOf v (x :: vs) = worseVerdict v x ≫= fun r => worstOf r vs.
Proof.
  unfold worstOf. cbn [fold_left mbind option_bind].
  destruct (worseVerdict v x) as [r|]; cbn; [reflexivity|].
  induction vs as [|y vs IH]; [reflexivity | exact IH].
Qed.

Lemma worstOf_app v vs1 vs2 :
  worstOf v (vs1 ++ vs2) = worstOf v vs1 ≫= fun r => worstOf r vs2.
Proof.
  revert v. induction vs1 as [|x vs1 IH]; intros v; [reflexivity|].
  cbn [app]. rewrite !worstOf_cons.
  destruct (worseVerdict v x) as [r|]; cbn; [apply IH | reflexivity].
Qed.

(** What a case does to the run result. *)
Lemma runCase_Next w sandbox input runRoot run binaries n files limit rr
    caseData rr' c :
  runCase w sandbox input runRoot run binaries n files limit rr caseData
    = Next (rr', c) ->
  exists runMeta verdict,
    worseVerdict (RunResult.Verdict rr) (RunMetadata.Verdict runMeta)
      = Some verdict
    /\ rr' = merged [runMeta] verdict rr
    /\ c = caseResultOf (RunResult.MaxScore rr) caseData runMeta
    /\ (Go.float_gtb (RunResult.WallTime rr) limit = true ->
        runMeta = RunMetadata.ofVerdict "TLE")
    /\ (Go.float_gtb (RunResult.WallTime rr) limit = false ->
        Common.Run.Language run = "cat" ->
        runMeta = outputOnlyMeta files caseData).
Proof.
  unfold runCase.
  match goal with
  | |- context [mbind _ ?m] => destruct m as [runMeta|res] eqn:Hmeta
  end; cbn [mbind step_bind]; [|discriminate].
  destruct (worseVerdict _ _) as [verdict|] eqn:Hworse;
    cbn [deref mbind step_bind]; [|discriminate].
  intros [= <- <-]. exists runMeta, verdict.
  split; [exact Hworse|]. split; [now destruct rr|]. split; [now destruct rr|].
  split.
  - intros Hgt. rewrite Hgt in Hmeta. now injection Hmeta as <-.
  - intros Hle Hcat. rewrite Hle, Hcat in Hmeta.
    change (String.eqb "cat" "cat") with true in Hmeta. cbv iota in Hmeta.
    unfold outputOnlyMeta.
    destruct (files !! _); now injection Hmeta as <-.
Qed.

(** The execution phase over the cases of a group. *)
Lemma runCases_Next w sandbox input runRoot run binaries n files limit cases :
  forall rr rr' cs,
    runCases w sandbox input runRoot run binaries n files limit cases rr
      = Next (rr', cs) ->
    exists metas verdict,
      List.length metas = List.length cases
      /\ worstOf (RunResult.Verdict rr) (map RunMetadata.Verdict metas)
         = Some verdict
      /\ rr' = merged metas verdict rr
      /\ cs = zip_with (caseResultOf (RunResult.MaxScore rr)) cases metas.
Proof.
  induction cases as [|caseData cases IH]; intros rr rr' cs.
  - cbn [runCases]. intros [= <- <-]. exists [], (RunResult.Verdict rr).
    split; [reflexivity|]. split; [reflexivity|].
    split; [now rewrite merged_nil | reflexivity].
  - cbn [runCases].
    destruct (runCase _ _ _ _ _ _ _ _ _ rr caseData) as [[rr1 c]|res] eqn:Hcase;
      cbn [mbind step_bind]; [|discriminate].
    destruct (runCases _ _ _ _ _ _ _ _ _ cases rr1) as [[rr2 cs2]|res] eqn:Hrest;
      cbn [mbind step_bind]; [|discriminate].
    intros [= <- <-].
    apply runCase_Next in Hcase as (m & v & Hv & -> & -> & _).
    apply IH in Hrest as (metas & v' & Hlen & Hworst & -> & ->).
    exists (m :: metas), v'.
    split; [cbn; lia|]. split.
    { cbn [map]. rewrite worstOf_cons, Hv. exact Hworst. }
    split; [apply (merged_app [m])|].
    cbn [zip_with]. now destruct rr.
Qed.

(** The execution phase over the groups. *)
Lemma runGroups_Next w sandbox input runRoot run binaries n files limit groups :
  forall rr rr' gs,
    runGroups w sandbox input runRoot run binaries n files limit groups rr
      = Next (rr', gs) ->
    exists metass verdict,
      Forall2 (fun group metas =>
                 List.length metas
                 = List.length (Common.GroupSettings.Cases group))
              groups metass
      /\ worstOf (RunResult.Verdict rr)
           (map RunMetadata.Verdict (concat metass)) = Some verdict
      /\ rr' = merged (concat metass) verdict rr
      /\ gs = zip_with (groupResultOf (RunResult.MaxScore rr)) groups metass.
Proof.
  induction groups as [|group groups IH]; intros rr rr' gs.
  - cbn [runGroups]. intros [= <- <-]. exists [], (RunResult.Verdict rr).
    split; [constructor|]. split; [reflexivity|].
    split; [now rewrite merged_nil | reflexivity].
  - cbn [runGroups].
    destruct (runCases _ _ _ _ _ _ _ _ _ _ rr) as [[rr1 cs]|res] eqn:Hcases;
      cbn [mbind step_bind]; [|discriminate].
    destruct (runGroups _ _ _ _ _ _ _ _ _ groups rr1) as [[rr2 gs2]|res] eqn:Hrest;
      cbn [mbind step_bind]; [|discriminate].
    intros [= <- <-].
    apply runCases_Next in Hcases as (metas & v & Hlen & Hv & -> & ->).
    apply IH in Hrest as (metass & v' & Hlens & Hworst & -> & ->).
    exists (metas :: metass), v'.
    split; [constructor; assumption|]. split.
    { cbn [concat]. rewrite map_app, worstOf_app, Hv. exact Hworst. }
    split; [apply merged_app|].
    cbn [zip_with]. unfold groupResultOf. now destruct rr.
Qed.

Lemma mainMeta_caseResultOf M caseData m :
  mainMeta (caseResultOf M caseData m) = Some m.
Proof. unfold mainMeta, caseResultOf. cbn. apply lookup_insert_eq. Qed.

Lemma cases_groupResultOf M groups metass :
  Forall2 (fun group metas =>
             List.length metas = List.length (Common.GroupSettings.Cases group))
          groups metass ->
  caseMetas (zip_with (groupResultOf M) groups metass)
    = map Some (concat metass)
  /\ caseVerdicts (zip_with (groupResultOf M) groups metass)
     = map RunMetadata.Verdict (concat metass).
Proof.
  unfold caseMetas, caseVerdicts.
  induction 1 as [|group metas groups metass Hlen _ IH]; [split; reflexivity|].
  cbn [zip_with map concat]. rewrite !map_app.
  destruct IH as [-> ->]. split; f_equal.
  - cbn [groupResultOf GroupResult.Cases].
    revert metas Hlen.
    induction (Common.GroupSettings.Cases group) as [|c cs IHc];
      intros [|m ms] Hlen; try discriminate; [reflexivity|].
    cbn [zip_with map]. rewrite mainMeta_caseResultOf. f_equal.
    apply IHc. now injection Hlen.
  - cbn [groupResultOf GroupResult.Cases].
    revert metas Hlen.
    induction (Common.GroupSettings.Cases group) as [|c cs IHc];
      intros [|m ms] Hlen; try discriminate; [reflexivity|].
    cbn [zip_with map caseResultOf CaseResult.Verdict]. f_equal.
    apply IHc. now injection Hlen.
Qed.

Lemma max64_max a b : max64 a b = Z.max a b.
Proof. unfold max64. destruct (Z.ltb_spec a b); lia. Qed.

Lemma peakMemory_bounds metas start :
  start <= peakMemory metas start
  /\ Forall (fun m => RunMetadata.Memory m <= peakMemory metas start) metas
  /\ (peakMemory metas start = start
      \/ Exists (fun m => RunMetadata.Memory m = peakMemory metas start) metas).
Proof.
  unfold peakMemory. revert start.
  induction metas as [|m metas IH]; intros start; cbn [fold_left].
  - split; [lia|]. split; [constructor | now left].
  - destruct (IH (max64 start (RunMetadata.Memory m))) as (Hle & Hall & Hex).
    rewrite max64_max in *. split; [lia|]. split.
    + constructor; [lia | exact Hall].
    + destruct Hex as [Heq|Hex].
      * destruct (Z.max_spec start (RunMetadata.Memory m)) as [[_ Hm]|[_ Hm]].
        -- right. apply Exists_cons_hd. lia.
        -- left. lia.
      * right. now apply Exists_cons_tl.
Qed.

(** X3: after the execution phase the verdict of the run is the worst of
    its verdict before and the verdicts of the cases, its time and wall
    time are those before plus the times of the cases (added in order),
    and its memory is the maximum of the memory before and the memories
    of the cases. *)
Theorem runGroups_totals w sandbox input runRoot run binaries n files limit
    groups rr rr' gs :
  runGroups w sandbox input runRoot run binaries n files limit groups rr
    = Next (rr', gs) ->
  exists metas,
    caseMetas gs = map Some metas
    /\ caseVerdicts gs = map RunMetadata.Verdict metas
    /\ worstOf (RunResult.Verdict rr) (caseVerdicts gs)
       = Some (RunResult.Verdict rr')
    /\ RunResult.Time rr' = totalTime metas (RunResult.Time rr)
    /\ RunResult.WallTime rr' = totalWallTime metas (RunResult.WallTime rr)
    /\ RunResult.Memory rr' = peakMemory metas (RunResult.Memory rr)
    /\ RunResult.Memory rr <= RunResult.Memory rr'
    /\ Forall (fun m => RunMetadata.Memory m <= RunResult.Memory rr') metas
    /\ (RunResult.Memory rr' = RunResult.Memory rr
        \/ Exists (fun m => RunMetadata.Memory m = RunResult.Memory rr') metas).
Proof.
  intros Hrun.
  apply runGroups_Next in Hrun as (metass & v & Hlens & Hworst & -> & ->).
  destruct (cases_groupResultOf (RunResult.MaxScore rr) groups metass Hlens)
    as [Hmetas Hverdicts].
  exists (concat metass). rewrite Hverdicts.
  split; [exact Hmetas|]. split; [reflexivity|].
  split; [exact Hworst|].
  split; [reflexivity|]. split; [reflexivity|]. split; [reflexivity|].
  exact (peakMemory_bounds (concat metass) (RunResult.Memory rr)).
Qed.

Lemma runGroups_totals_witness :
  exists rr' gs,
    runGroups GradeExample.world GradeExample.sandboxRTE GradeExample.input
      "/rt/grade/7" GradeExample.run [GradeExample.mainBinary] 1 ∅
      (Go.float_of_int 60) (Common.ProblemSettings.Cases GradeExample.settings)
      (RunResult.setVerdict "OK" (initialResult GradeExample.run))
    = Next (rr', gs)
    /\ RunResult.Verdict rr' = "RTE" /\ RunResult.Memory rr' = 10.
Proof.
  assert (Hrun : exists rr' gs,
    runGroups GradeExample.world GradeExample.sandboxRTE GradeExample.input
      "/rt/grade/7" GradeExample.run [GradeExample.mainBinary] 1 ∅
      (Go.float_of_int 60) (Common.ProblemSettings.Cases GradeExample.settings)
      (RunResult.setVerdict "OK" (initialResult GradeExample.run))
    = Next (rr', gs)
    /\ caseVerdicts gs = ["OK"; "RTE"]
    /\ caseMetas gs
       = [Some GradeExample.okMeta;
          Some (RunMetadata.mk "RTE" (Q2Qc (1 # 10)) (Q2Qc (1 # 5)) 10 0)]).
  { eexists _, _. split; [vm_compute; reflexivity|].
    split; vm_compute; reflexivity. }
  destruct Hrun as (rr' & gs & Hrun & Hvs & Hms).
  exists rr', gs. split; [exact Hrun|].
  destruct (runGroups_totals _ _ _ _ _ _ _ _ _ _ _ _ _ Hrun)
    as (metas & Hmetas & _ & Hworst & _ & _ & Hmem & _).
  rewrite Hvs in Hworst. rewrite Hms in Hmetas.
  destruct metas as [|m1 [|m2 [|]]]; try discriminate.
  injection Hmetas as <- <-.
  split.
  - vm_compute in Hworst. now injection Hworst.
  - rewrite Hmem. vm_compute. reflexivity.
Defined.

Lemma worseVerdict_total (a b : string) :
  known a -> known b -> exists v, worseVerdict a b = Some v /\ known v.
Proof.
  intros Ha Hb.
  destruct (proj1 (known_rank a) Ha) as [i Hi].
  destruct (proj1 (known_rank b) Hb) as [j Hj].
  rewrite (worseVerdict_known a b i j Hi Hj).
  destruct (i <=? j)%nat; eauto.
Qed.

Lemma totalWallTime_zero metas start :
  Forall (fun m => RunMetadata.WallTime m = 0%Qc) metas ->
  totalWallTime metas start = start.
Proof.
  unfold totalWallTime. revert start.
  induction metas as [|m metas IH]; intros start Hall; [reflexivity|].
  apply Forall_cons_iff in Hall as [Hm Hall]. cbn [fold_left].
  rewrite Hm, Qcplus_0_r. now apply IH.
Qed.

Lemma totalTime_zero metas start :
  Forall (fun m => RunMetadata.Time m = 0%Qc) metas ->
  totalTime metas start = start.
Proof.
  unfold totalTime. revert start.
  induction metas as [|m metas IH]; intros start Hall; [reflexivity|].
  apply Forall_cons_iff in Hall as [Hm Hall]. cbn [fold_left].
  rewrite Hm, Qcplus_0_r. now apply IH.
Qed.

(** An execution phase in which every case gets a metadata that is a
    function of the case and takes no wall time. *)
Section Fixed.
Variables (w : World.t) (sandbox : Sandbox.t) (input : Input.t)
  (runRoot : string) (run : Common.Run.t) (binaries : list binary.t)
  (n : nat) (files : gmap string string) (limit : Qc).
Variables (f : Common.CaseSettings.t -> RunMetadata.t) (W : Qc).
Hypothesis f_wall : forall c, RunMetadata.WallTime (f c) = 0%Qc.
Hypothesis f_known : forall c, known (RunMetadata.Verdict (f c)).
Hypothesis f_case : forall rr caseData v,
  RunResult.WallTime rr = W ->
  worseVerdict (RunResult.Verdict rr) (RunMetadata.Verdict (f caseData))
    = Some v ->
  runCase w sandbox input runRoot run binaries n files limit rr caseData
  = Next (merged [f caseData] v rr,
          caseResultOf (RunResult.MaxScore rr) caseData (f caseData)).

Lemma runCases_fixed cases :
  forall rr,
    RunResult.WallTime rr = W -> known (RunResult.Verdict rr) ->
    exists v,
      worstOf (RunResult.Verdict rr)
        (map (fun c => RunMetadata.Verdict (f c)) cases) = Some v
      /\ known v
      /\ runCases w sandbox input runRoot run binaries n files limit cases rr
         = Next (merged (map f cases) v rr,
                 zip_with (caseResultOf (RunResult.MaxScore rr)) cases
                   (map f cases)).
Proof.
  induction cases as [|c cases IH]; intros rr HW Hk.
  - exists (RunResult.Verdict rr). split; [reflexivity|]. split; [exact Hk|].
    cbn [runCases map]. now rewrite merged_nil.
  - destruct (worseVerdict_total _ _ Hk (f_known c)) as (v1 & Hv1 & Hk1).
    destruct (IH (merged [f c] v1 rr)) as (v & Hv & Hkv & Hrun).
    { unfold merged, totalWallTime.
      cbn [RunResult.WallTime RunResult.setMemory RunResult.setWallTime
           fold_left].
      now rewrite f_wall, Qcplus_0_r. }
    { exact Hk1. }
    exists v. split.
    { cbn [map]. rewrite worstOf_cons, Hv1. exact Hv. }
    split; [exact Hkv|].
    cbn [runCases]. rewrite (f_case rr c v1 HW Hv1). cbn [mbind step_bind].
    rewrite Hrun. cbn [mbind step_bind map zip_with].
    rewrite (merged_app [f c]). now destruct rr.
Qed.

Lemma runGroups_fixed groups :
  forall rr,
    RunResult.WallTime rr = W -> known (RunResult.Verdict rr) ->
    exists v,
      worstOf (RunResult.Verdict rr)
        (map (fun c => RunMetadata.Verdict (f c)) (allCases groups)) = Some v
      /\ known v
      /\ runGroups w sandbox input runRoot run binaries n files limit groups rr
         = Next (merged (map f (allCases groups)) v rr,
                 groupResultsOf (RunResult.MaxScore rr) f groups).
Proof.
  induction groups as [|g groups IH]; intros rr HW Hk.
  - exists (RunResult.Verdict rr). split; [reflexivity|]. split; [exact Hk|].
    cbn [runGroups allCases map concat]. now rewrite merged_nil.
  - destruct (runCases_fixed (Common.GroupSettings.Cases g) rr HW Hk)
      as (v1 & Hv1 & Hk1 & Hcases).
    destruct (IH (merged (map f (Common.GroupSettings.Cases g)) v1 rr))
      as (v & Hv & Hkv & Hrun).
    { unfold merged.
      cbn [RunResult.WallTime RunResult.setMemory RunResult.setWallTime].
      rewrite totalWallTime_zero; [exact HW|].
      apply Forall_map, Forall_forall. intros c _. apply f_wall. }
    { exact Hk1. }
    exists v. split.
    { unfold allCases. cbn [map concat]. rewrite map_app, worstOf_app, Hv1.
      exact Hv. }
    split; [exact Hkv|].
    cbn [runGroups]. rewrite Hcases. cbn [mbind step_bind].
    rewrite Hrun. cbn [mbind step_bind].
    rewrite merged_app. unfold allCases, groupResultsOf, groupResultOf.
    cbn [map concat]. rewrite map_app. now destruct rr.
Qed.
End Fixed.

Lemma worstOf_repeat v x (k : nat) :
  known v -> known x ->
  worstOf v (repeat x k)
  = match k with O => Some v | S _ => worseVerdict v x end.
Proof.
  intros Hv Hx. destruct k as [|k]; [reflexivity|].
  cbn [repeat]. rewrite worstOf_cons.
  destruct (proj1 (known_rank v) Hv) as [i Hi].
  destruct (proj1 (known_rank x) Hx) as [j Hj].
  rewrite (worseVerdict_known v x i j Hi Hj). cbn [mbind option_bind].
  induction k as [|k IH]; [reflexivity|].
  cbn [repeat]. rewrite worstOf_cons.
  destruct (Nat.leb_spec i j) as [Hle|Hgt].
  - rewrite (worseVerdict_known v x i j Hi Hj).
    destruct (Nat.leb_spec i j); [|lia]. exact IH.
  - rewrite (worseVerdict_known x x j j Hj Hj). rewrite Nat.leb_refl.
    exact IH.
Qed.

Lemma map_const_repeat {A B} (x : B) (l : list A) :
  map (fun _ => x) l = repeat x (List.length l).
Proof. induction l as [|a l IH]; [reflexivity|]. cbn. now rewrite IH. Qed.

(** X4: once the wall time of the run exceeds the overall wall-time limit,
    no further case is run: every remaining case is given the verdict
    [TLE] with zero time and memory, whatever the sandbox would do, the
    times of the run stay as they are, and its verdict becomes the worse
    of its verdict and [TLE] (when a case remains). *)
Theorem runGroups_wall_time_exceeded w sandbox input runRoot run binaries n
    files limit groups rr :
  Go.float_gtb (RunResult.WallTime rr) limit = true ->
  known (RunResult.Verdict rr) ->
  exists rr',
    runGroups w sandbox input runRoot run binaries n files limit groups rr
    = Next (rr',
            groupResultsOf (RunResult.MaxScore rr)
              (fun _ => RunMetadata.ofVerdict "TLE") groups)
    /\ Forall (fun v => v = "TLE")
         (caseVerdicts
            (groupResultsOf (RunResult.MaxScore rr)
               (fun _ => RunMetadata.ofVerdict "TLE") groups))
    /\ RunResult.Time rr' = RunResult.Time rr
    /\ RunResult.WallTime rr' = RunResult.WallTime rr
    /\ Some (RunResult.Verdict rr')
       = match allCases groups with
         | [] => Some (RunResult.Verdict rr)
         | _ :: _ => worseVerdict (RunResult.Verdict rr) "TLE"
         end.
Proof.
  intros Hgt Hk.
  destruct (runGroups_fixed w sandbox input runRoot run binaries n files limit
              (fun _ => RunMetadata.ofVerdict "TLE") (RunResult.WallTime rr))
    with (groups := groups) (rr := rr) as (v & Hv & _ & Hrun).
  - reflexivity.
  - intros _. solve_known.
  - intros rr0 caseData v HW Hworse. unfold runCase.
    rewrite <- HW in Hgt. rewrite Hgt. cbn [mbind step_bind].
    cbn [RunMetadata.ofVerdict RunMetadata.Verdict] in Hworse |- *.
    rewrite Hworse. cbn [deref mbind step_bind]. now destruct rr0.
  - reflexivity.
  - exact Hk.
  - eexists. split; [exact Hrun|]. split.
    { unfold caseVerdicts, groupResultsOf. rewrite map_map.
      apply Forall_map, Forall_forall. intros c Hc.
      apply list_elem_of_In, in_concat in Hc as (cs & Hcs & Hin).
      apply in_map_iff in Hcs as (g & <- & _).
      cbn [groupResultOf GroupResult.Cases] in Hin.
      revert Hin. generalize (Common.GroupSettings.Cases g).
      intros l. induction l as [|c0 l IH]; cbn; [tauto|].
      intros [<-|Hin]; [reflexivity | now apply IH]. }
    split.
    { unfold merged.
      cbn [RunResult.Time RunResult.setMemory RunResult.setWallTime
           RunResult.setTime].
      apply totalTime_zero, Forall_map, Forall_forall. reflexivity. }
    split.
    { unfold merged.
      cbn [RunResult.WallTime RunResult.setMemory RunResult.setWallTime].
      apply totalWallTime_zero, Forall_map, Forall_forall. reflexivity. }
    cbn [merged RunResult.Verdict RunResult.setMemory RunResult.setWallTime
         RunResult.setTime RunResult.setVerdict].
    rewrite <- Hv.
    replace (map (fun _ : Common.CaseSettings.t =>
                    RunMetadata.Verdict (RunMetadata.ofVerdict "TLE"))
                 (allCases groups))
      with (repeat "TLE" (List.length (allCases groups))).
    + rewrite worstOf_repeat by (first [exact Hk | solve_known]).
      destruct (allCases groups); reflexivity.
    + symmetry. apply map_const_repeat.
Qed.

Lemma runGroups_wall_time_exceeded_witness :
  exists rr',
    runGroups GradeExample.world GradeExample.sandboxOK GradeExample.input
      "/rt/grade/7" GradeExample.run [GradeExample.mainBinary] 1 ∅
      (Go.float_of_int 60) (Common.ProblemSettings.Cases GradeExample.settings)
      (RunResult.setWallTime (Go.float_of_int 61)
         (RunResult.setVerdict "OK" (initialResult GradeExample.run)))
    = Next (rr',
            groupResultsOf 1%Qc (fun _ => RunMetadata.ofVerdict "TLE")
              (Common.ProblemSettings.Cases GradeExample.settings))
    /\ RunResult.Verdict rr' = "TLE".
Proof.
  destruct (runGroups_wall_time_exceeded GradeExample.world
              GradeExample.sandboxOK GradeExample.input "/rt/grade/7"
              GradeExample.run [GradeExample.mainBinary] 1 ∅
              (Go.float_of_int 60)
              (Common.ProblemSettings.Cases GradeExample.settings)
              (RunResult.setWallTime (Go.float_of_int 61)
                 (RunResult.setVerdict "OK" (initialResult GradeExample.run))))
    as (rr' & Hrun & _ & _ & _ & Hv).
  - vm_compute. reflexivity.
  - solve_known.
  - exists rr'. split; [exact Hrun|].
    vm_compute in Hv. now injection Hv.
Defined.

Lemma outputOnlyMeta_cases files c :
  (outputOnlyMeta files c = RunMetadata.ofVerdict "OK"
   /\ is_Some (files !! (Common.CaseSettings.Name c +:+ ".out")))
  \/ (outputOnlyMeta files c = RunMetadata.ofVerdict "RTE"
      /\ files !! (Common.CaseSettings.Name c +:+ ".out") = None).
Proof.
  unfold outputOnlyMeta.
  destruct (files !! (Common.CaseSettings.Name c +:+ ".out")); eauto.
Qed.

(** The verdict of an output-only run started from [OK]. *)
Lemma worstOf_outputOnly files cases :
  worstOf "OK"
    (map (fun c => RunMetadata.Verdict (outputOnlyMeta files c)) cases)
  = Some (if forallb (fun c =>
                        bool_decide
                          (is_Some (files !! (Common.CaseSettings.Name c +:+ ".out"))))
                     cases
          then "OK" else "RTE").
Proof.
  assert (Hrte : forall cases,
            worstOf "RTE"
              (map (fun c => RunMetadata.Verdict (outputOnlyMeta files c)) cases)
            = Some "RTE").
  { intros l. induction l as [|c l IH]; [reflexivity|].
    cbn [map]. rewrite worstOf_cons.
    destruct (outputOnlyMeta_cases files c) as [[-> _]|[-> _]];
      cbn [RunMetadata.ofVerdict RunMetadata.Verdict].
    - replace (worseVerdict "RTE" "OK") with (Some "RTE")
        by (vm_compute; reflexivity). exact IH.
    - replace (worseVerdict "RTE" "RTE") with (Some "RTE")
        by (vm_compute; reflexivity). exact IH. }
  induction cases as [|c cases IH]; [reflexivity|].
  cbn [map forallb]. rewrite worstOf_cons.
  destruct (outputOnlyMeta_cases files c) as [[-> Hfile]|[-> Hfile]];
    cbn [RunMetadata.ofVerdict RunMetadata.Verdict].
  - replace (worseVerdict "OK" "OK") with (Some "OK")
      by (vm_compute; reflexivity).
    rewrite bool_decide_eq_true_2 by exact Hfile. exact IH.
  - replace (worseVerdict "OK" "RTE") with (Some "RTE")
      by (vm_compute; reflexivity).
    rewrite bool_decide_eq_false_2 by (rewrite Hfile; intros [? [=]]).
    cbn [andb mbind option_bind]. apply Hrte.
Qed.

(** X5: an output-only submission (language [cat]) is not run: within the
    wall-time limit every case gets the verdict [OK] when the submission
    holds the file [<case>.out] and [RTE] when it does not, with zero time
    and memory and whatever the sandbox would do; started from [OK], the
    verdict of the run is [RTE] as soon as one file is missing. *)
Theorem runGroups_output_only w sandbox input runRoot run binaries n files
    limit groups rr :
  Common.Run.Language run = "cat" ->
  Go.float_gtb (RunResult.WallTime rr) limit = false ->
  known (RunResult.Verdict rr) ->
  exists rr',
    runGroups w sandbox input runRoot run binaries n files limit groups rr
    = Next (rr', groupResultsOf (RunResult.MaxScore rr) (outputOnlyMeta files)
                   groups)
    /\ RunResult.Time rr' = RunResult.Time rr
    /\ RunResult.WallTime rr' = RunResult.WallTime rr
    /\ worstOf (RunResult.Verdict rr)
         (map (fun c => RunMetadata.Verdict (outputOnlyMeta files c))
              (allCases groups))
       = Some (RunResult.Verdict rr')
    /\ (RunResult.Verdict rr = "OK" ->
        RunResult.Verdict rr'
        = if forallb (fun c =>
                        bool_decide
                          (is_Some (files !! (Common.CaseSettings.Name c +:+ ".out"))))
                     (allCases groups)
          then "OK" else "RTE").
Proof.
  intros Hcat Hle Hk.
  destruct (runGroups_fixed w sandbox input runRoot run binaries n files limit
              (outputOnlyMeta files) (RunResult.WallTime rr))
    with (groups := groups) (rr := rr) as (v & Hv & _ & Hrun).
  - intros c. now destruct (outputOnlyMeta_cases files c) as [[-> _]|[-> _]].
  - intros c. destruct (outputOnlyMeta_cases files c) as [[-> _]|[-> _]];
      solve_known.
  - intros rr0 caseData v HW Hworse. unfold runCase.
    rewrite <- HW in Hle. rewrite Hle, Hcat.
    change (String.eqb "cat" "cat") with true. cbv iota.
    unfold outputOnlyMeta in Hworse |- *.
    destruct (files !! (Common.CaseSettings.Name caseData +:+ ".out"));
      cbn [mbind step_bind]; rewrite Hworse;
      cbn [deref mbind step_bind]; now destruct rr0.
  - reflexivity.
  - exact Hk.
  - eexists. split; [exact Hrun|]. split.
    { unfold merged.
      cbn [RunResult.Time RunResult.setMemory RunResult.setWallTime
           RunResult.setTime].
      apply totalTime_zero, Forall_map, Forall_forall. intros c _.
      now destruct (outputOnlyMeta_cases files c) as [[-> _]|[-> _]]. }
    split.
    { unfold merged.
      cbn [RunResult.WallTime RunResult.setMemory RunResult.setWallTime].
      apply totalWallTime_zero, Forall_map, Forall_forall. intros c _.
      now destruct (outputOnlyMeta_cases files c) as [[-> _]|[-> _]]. }
    split; [exact Hv|].
    intros Hok. rewrite Hok, worstOf_outputOnly in Hv.
    now injection Hv as <-.
Qed.

Lemma runGroups_output_only_witness :
  exists rr',
    runGroups GradeExample.world GradeExample.sandboxOK GradeExample.input
      "/rt/grade/7"
      (Common.Run.mk 7 "42" "cat" "hash" 1%Qc false) [] 0
      (<[ "a.out" := "42" ]> ∅)
      (Go.float_of_int 60) (Common.ProblemSettings.Cases GradeExample.settings)
      (RunResult.setVerdict "OK" (initialResult GradeExample.run))
    = Next (rr',
            groupResultsOf 1%Qc (outputOnlyMeta (<[ "a.out" := "42" ]> ∅))
              (Common.ProblemSettings.Cases GradeExample.settings))
    /\ RunResult.Verdict rr' = "RTE".
Proof.
  destruct (runGroups_output_only GradeExample.world
              GradeExample.sandboxOK GradeExample.input "/rt/grade/7"
              (Common.Run.mk 7 "42" "cat" "hash" 1%Qc false) [] 0
              (<[ "a.out" := "42" ]> ∅)
              (Go.float_of_int 60)
              (Common.ProblemSettings.Cases GradeExample.settings)
              (RunResult.setVerdict "OK" (initialResult GradeExample.run)))
    as (rr' & Hrun & _ & _ & _ & Hv).
  - reflexivity.
  - vm_compute. reflexivity.
  - solve_known.
  - exists rr'. split; [exact Hrun|].
    rewrite Hv by reflexivity. vm_compute. reflexivity.
Defined.
End RunPhaseFacts.

(** ** The validation phase *)

Module ValidationFacts.
Import Runner Spec Results Scoring VerdictFacts GradeFacts RunPhaseFacts.

Lemma casesAt_setCasesAt i cs grs :
  is_Some (grs !! i) -> casesAt (setCasesAt i cs grs) i = cs.
Proof.
  intros [g Hg]. unfold casesAt, setCasesAt. rewrite Hg.
  rewrite list_lookup_insert_eq by (now apply lookup_lt_Some in Hg).
  reflexivity.
Qed.

Lemma setCasesAt_twice i cs cs' grs :
  setCasesAt i cs' (setCasesAt i cs grs) = setCasesAt i cs' grs.
Proof.
  unfold setCasesAt. destruct (grs !! i) as [g|] eqn:Hg.
  - rewrite list_lookup_insert_eq by (now apply lookup_lt_Some in Hg).
    rewrite list_insert_insert_eq. now destruct g.
  - now rewrite Hg.
Qed.

Lemma storeCase_setCasesAt grs i j c :
  storeCase grs i j c = setCasesAt i (<[ j := c ]> (casesAt grs i)) grs.
Proof. unfold storeCase, setCasesAt, casesAt. now destruct (grs !! i). Qed.

Lemma loadCase_casesAt grs i j : loadCase grs i j = casesAt grs i !! j.
Proof. unfold loadCase, casesAt. now destruct (grs !! i). Qed.

Lemma setCasesAt_same grs i : setCasesAt i (casesAt grs i) grs = grs.
Proof.
  unfold setCasesAt, casesAt. destruct (grs !! i) as [g|] eqn:Hg; [|reflexivity].
  replace (GroupResult.setCases (GroupResult.Cases g) g) with g by now destruct g.
  now apply list_insert_id.
Qed.

(** The custom validator only adds its metadata to the case. *)
Lemma runValidator_Next w sandbox input runRoot run caseData c c1 path :
  runValidator w sandbox input runRoot run caseData c = Next (c1, path) ->
  CaseResult.Name c1 = CaseResult.Name c
  /\ CaseResult.MaxScore c1 = CaseResult.MaxScore c
  /\ mainMeta c1 = mainMeta c
  /\ CaseResult.Verdict c1 = CaseResult.Verdict c
  /\ CaseResult.Score c1 = CaseResult.Score c
  /\ CaseResult.ContestScore c1 = CaseResult.ContestScore c.
Proof.
  unfold runValidator.
  destruct (String.eqb _ "custom").
  - destruct (Common.ValidatorSettings.Lang _) as [lang|];
      cbn [deref mbind step_bind]; [|discriminate].
    destruct (Sandbox.Run _ _ _ _ _ _ _ _ _ _ _ _ _) as [[m|] err];
      cbn [deref mbind step_bind]; [|discriminate].
    assert (Hmain : mainMeta
              (CaseResult.setMeta (<["validator":=m]> (CaseResult.Meta c)) c)
              = mainMeta c).
    { unfold mainMeta. cbn. apply lookup_insert_ne. discriminate. }
    destruct (negb _); intros [= <- _]; auto 10.
  - intros [= <- _]. auto 10.
Qed.

Lemma float_eqb_refl q : Go.float_eqb q q = true.
Proof. now apply float_eqb_eq. Qed.

(** The validation of one case. *)
Lemma validateCase_Next w sandbox input runRoot run i j caseData st st' c :
  loadCase (validation.groupResults st) i j = Some c ->
  validateCase w sandbox input runRoot run i j caseData st = Next st' ->
  exists c',
    validation.groupResults st'
      = storeCase (validation.groupResults st) i j c'
    /\ validated_case (RunResult.MaxScore (validation.runResult st)) caseData
         c c'
         (mkProgress (validation.correct st) (validation.score st)
            (RunResult.Verdict (validation.runResult st)))
         (mkProgress (validation.correct st') (validation.score st')
            (RunResult.Verdict (validation.runResult st')))
    /\ validation.runResult st'
       = RunResult.setVerdict (RunResult.Verdict (validation.runResult st'))
           (validation.runResult st).
Proof.
  intros Hload. unfold validateCase. rewrite Hload. cbn [deref mbind step_bind].
  assert (Hsame : forall rr : RunResult.t,
            rr = RunResult.setVerdict (RunResult.Verdict rr) rr)
    by (now intros []).
  destruct (String.eqb (CaseResult.Verdict c) "OK") eqn:Hok.
  2:{ intros [= <-]. exists c. split.
      - rewrite storeCase_setCasesAt.
        rewrite loadCase_casesAt in Hload.
        rewrite list_insert_id by exact Hload. now rewrite setCasesAt_same.
      - split; [now apply case_left | apply Hsame]. }
  apply String.eqb_eq in Hok.
  destruct (runValidator _ _ _ _ _ _ _) as [[c1 path]|res] eqn:Hval;
    cbn [mbind step_bind]; [|discriminate].
  apply runValidator_Next in Hval as (Hn & Hm & Hmeta & Hv & Hs & Hcs).
  destruct (negb (World.canOpen w path)).
  { intros [= <-]. cbn. exists c1.
    split; [reflexivity|]. split; [now apply case_left | apply Hsame]. }
  destruct (negb (World.canOpen w _)).
  { intros [= <-]. cbn. exists c1.
    split; [reflexivity|]. split; [now apply case_left | apply Hsame]. }
  set (runScore := World.CalculateScore w _ _ _).
  destruct (Go.float_eqb runScore 1) eqn:H1.
  { intros [= <-]. cbn [validation.groupResults validation.runResult
                        validation.correct validation.score].
    eexists. split; [reflexivity|]. split; [|apply Hsame].
    assert (H0 : Go.float_eqb runScore 0 = false).
    { apply float_eqb_eq in H1. rewrite H1. reflexivity. }
    pose proof (case_scored (RunResult.MaxScore (validation.runResult st))
                  caseData c
                  (CaseResult.setVerdict "AC"
                     (CaseResult.setContestScore
                        (RunResult.MaxScore (validation.runResult st)
                         * runScore * Common.CaseSettings.Weight caseData)%Qc
                        (CaseResult.setScore runScore c1)))
                  (mkProgress (validation.correct st) (validation.score st)
                     (RunResult.Verdict (validation.runResult st)))
                  (RunResult.Verdict (validation.runResult st))) as Hstep.
    cbn [CaseResult.setVerdict CaseResult.setContestScore CaseResult.setScore
         CaseResult.Name CaseResult.MaxScore CaseResult.Verdict
         CaseResult.Score CaseResult.ContestScore correct score verdict]
      in Hstep.
    rewrite H0, andb_true_r in Hstep. apply Hstep; auto.
    - unfold scoreVerdict. now rewrite H1.
    - now rewrite H1. }
  destruct (worseVerdict _ "PA") as [v|] eqn:Hworse;
    cbn [deref mbind step_bind]; [|discriminate].
  destruct (Go.float_eqb runScore 0) eqn:H0.
  - intros [= <-]. cbn [validation.groupResults validation.runResult
                        validation.correct validation.score].
    eexists. split; [reflexivity|]. split; [|now destruct (validation.runResult st)].
    pose proof (case_scored (RunResult.MaxScore (validation.runResult st))
                  caseData c
                  (CaseResult.setVerdict "WA"
                     (CaseResult.setContestScore
                        (RunResult.MaxScore (validation.runResult st)
                         * runScore * Common.CaseSettings.Weight caseData)%Qc
                        (CaseResult.setScore runScore c1)))
                  (mkProgress (validation.correct st) (validation.score st)
                     (RunResult.Verdict (validation.runResult st)))
                  v) as Hstep.
    cbn [CaseResult.setVerdict CaseResult.setContestScore CaseResult.setScore
         CaseResult.Name CaseResult.MaxScore CaseResult.Verdict
         CaseResult.Score CaseResult.ContestScore correct score verdict]
      in Hstep.
    rewrite H0, andb_false_r in Hstep.
    replace (RunResult.Verdict
               (RunResult.setVerdict v (validation.runResult st)))
      with v by now destruct (validation.runResult st).
    apply Hstep; auto.
    + unfold scoreVerdict. now rewrite H1, H0.
    + now rewrite H1.
  - intros [= <-]. cbn [validation.groupResults validation.runResult
                        validation.correct validation.score].
    eexists. split; [reflexivity|]. split; [|now destruct (validation.runResult st)].
    pose proof (case_scored (RunResult.MaxScore (validation.runResult st))
                  caseData c
                  (CaseResult.setVerdict "PA"
                     (CaseResult.setContestScore
                        (RunResult.MaxScore (validation.runResult st)
                         * runScore * Common.CaseSettings.Weight caseData)%Qc
                        (CaseResult.setScore runScore c1)))
                  (mkProgress (validation.correct st) (validation.score st)
                     (RunResult.Verdict (validation.runResult st)))
                  v) as Hstep.
    cbn [CaseResult.setVerdict CaseResult.setContestScore CaseResult.setScore
         CaseResult.Name CaseResult.MaxScore CaseResult.Verdict
         CaseResult.Score CaseResult.ContestScore correct score verdict]
      in Hstep.
    rewrite H0, andb_true_r in Hstep.
    replace (RunResult.Verdict
               (RunResult.setVerdict v (validation.runResult st)))
      with v by now destruct (validation.runResult st).
    apply Hstep; auto.
    + unfold scoreVerdict. now rewrite H1, H0.
    + now rewrite H1.
Qed.

Lemma casesAt_is_Some grs i c cs :
  casesAt grs i = c :: cs -> is_Some (grs !! i).
Proof. unfold casesAt. destruct (grs !! i); [eauto | discriminate]. Qed.

Lemma setVerdict_twice v v' rr :
  RunResult.setVerdict v' (RunResult.setVerdict v rr) = RunResult.setVerdict v' rr.
Proof. now destruct rr. Qed.

(** The validation of the cases of a group. *)
Lemma validateCases_Next w sandbox input runRoot run i cases :
  forall j st st' pre cur,
    casesAt (validation.groupResults st) i = pre ++ cur ->
    List.length pre = j -> List.length cur = List.length cases ->
    validateCases w sandbox input runRoot run i j cases st = Next st' ->
    exists cur',
      validation.groupResults st'
        = setCasesAt i (pre ++ cur') (validation.groupResults st)
      /\ validated_cases (RunResult.MaxScore (validation.runResult st))
           cases cur cur'
           (mkProgress (validation.correct st) (validation.score st)
              (RunResult.Verdict (validation.runResult st)))
           (mkProgress (validation.correct st') (validation.score st')
              (RunResult.Verdict (validation.runResult st')))
      /\ validation.runResult st'
         = RunResult.setVerdict (RunResult.Verdict (validation.runResult st'))
             (validation.runResult st).
Proof.
  induction cases as [|caseData cases IH]; intros j st st' pre cur Hat Hj Hlen.
  - destruct cur; [|discriminate]. cbn [validateCases]. intros [= <-].
    exists []. split.
    { rewrite <- Hat. now rewrite setCasesAt_same. }
    split; [constructor | now destruct (validation.runResult st)].
  - destruct cur as [|c cur]; [discriminate|]. injection Hlen as Hlen.
    cbn [validateCases].
    assert (Hload : loadCase (validation.groupResults st) i j = Some c).
    { rewrite loadCase_casesAt, Hat, <- Hj. apply list_lookup_middle.
      reflexivity. }
    destruct (validateCase _ _ _ _ _ _ _ _ st) as [st1|res] eqn:Hcase;
      cbn [mbind step_bind]; [|discriminate].
    intros Hrest.
    destruct (validateCase_Next _ _ _ _ _ _ _ _ _ _ _ Hload Hcase)
      as (c' & Hgrs1 & Hstep & Hrr1).
    assert (Hsome : is_Some (validation.groupResults st !! i))
      by (destruct pre; eapply casesAt_is_Some; exact Hat).
    assert (Hgrs1' : validation.groupResults st1
                     = setCasesAt i (pre ++ c' :: cur)
                         (validation.groupResults st)).
    { rewrite Hgrs1, storeCase_setCasesAt, Hat. f_equal.
      rewrite insert_app_r_alt by lia.
      replace (j - List.length pre)%nat with 0%nat by lia. reflexivity. }
    destruct (IH (S j) st1 st' (pre ++ [c']) cur) as (cur' & Hgrs' & Hsteps & Hrr').
    { rewrite Hgrs1', casesAt_setCasesAt by exact Hsome.
      now rewrite <- app_assoc. }
    { rewrite length_app. cbn. lia. }
    { exact Hlen. }
    { exact Hrest. }
    exists (c' :: cur'). split.
    { rewrite Hgrs', Hgrs1', setCasesAt_twice. now rewrite <- app_assoc. }
    split.
    + econstructor; [exact Hstep|].
      rewrite Hrr1 in Hsteps. exact Hsteps.
    + rewrite Hrr', Hrr1. now rewrite setVerdict_twice.
Qed.

(** The validation of the groups. *)
Lemma validateGroups_Next w sandbox input runRoot run groups :
  forall i rr grs rr' grs' pre olds,
    grs = pre ++ olds -> List.length pre = i ->
    Forall2 (fun group g =>
               List.length (GroupResult.Cases g)
               = List.length (Common.GroupSettings.Cases group))
            groups olds ->
    validateGroups w sandbox input runRoot run i groups rr grs
      = Next (rr', grs') ->
    exists news,
      grs' = pre ++ news /\ validated_groups groups olds news rr rr'.
Proof.
  induction groups as [|group groups IH];
    intros i rr grs rr' grs' pre olds -> Hi Hshape.
  - apply Forall2_nil_inv_l in Hshape as ->. cbn [validateGroups].
    intros [= <- <-]. exists []. split; [reflexivity | constructor].
  - apply Forall2_cons_inv_l in Hshape as (g & olds0 & Hlen & Hshape & ->).
    cbn [validateGroups].
    assert (Hg : (pre ++ g :: olds0) !! i = Some g)
      by (rewrite <- Hi; now apply list_lookup_middle).
    destruct (validateCases _ _ _ _ _ _ _ _ _) as [st1|res] eqn:Hcases;
      cbn [mbind step_bind]; [|discriminate].
    assert (Hat : casesAt
                    (validation.groupResults
                       (validation.mk true 0%Qc rr (pre ++ g :: olds0))) i
                  = [] ++ GroupResult.Cases g).
    { cbn [validation.groupResults]. unfold casesAt. now rewrite Hg. }
    destruct (validateCases_Next _ _ _ _ _ _ _ _ _ _ [] (GroupResult.Cases g)
                Hat eq_refl Hlen Hcases)
      as (cur' & Hgrs1 & Hsteps & Hrr1).
    cbn [validation.groupResults validation.runResult validation.correct
         validation.score app] in Hgrs1, Hsteps, Hrr1.
    assert (Hgrs1' : validation.groupResults st1
                     = pre ++ GroupResult.setCases cur' g :: olds0).
    { rewrite Hgrs1. unfold setCasesAt. rewrite Hg.
      rewrite insert_app_r_alt by lia.
      replace (i - List.length pre)%nat with 0%nat by lia. reflexivity. }
    unfold awardGroup.
    destruct (validation.correct st1) eqn:Hcorrect.
    + assert (Hg1 : validation.groupResults st1 !! i
                    = Some (GroupResult.setCases cur' g)).
      { rewrite Hgrs1', <- Hi. now apply list_lookup_middle. }
      rewrite Hg1. cbn [deref mbind step_bind validation.runResult
                        validation.groupResults].
      intros Hrest.
      match type of Hrest with
      | validateGroups _ _ _ _ _ _ _ ?rr1 (<[ ?k := ?g1 ]> ?l) = _ =>
          destruct (IH (S i) rr1 (<[ k := g1 ]> l) rr' grs' (pre ++ [g1]) olds0)
            as (news & -> & Hgroups);
            [ rewrite Hgrs1', insert_app_r_alt by lia;
              replace (i - List.length pre)%nat with 0%nat by lia;
              cbn; now rewrite <- app_assoc
            | rewrite length_app; cbn; lia
            | exact Hshape
            | exact Hrest
            | exists (g1 :: news) ]
      end.
      split; [now rewrite <- app_assoc|].
      econstructor; [|exact Hgroups].
      econstructor; [exact Hsteps | reflexivity | reflexivity |].
      cbn [correct score verdict]. rewrite ?Hcorrect.
      split; [reflexivity|]. split.
      { rewrite Hrr1. now destruct rr. }
      rewrite Hrr1. now destruct rr.
    + cbn [mbind step_bind]. intros Hrest.
      destruct (IH (S i) (validation.runResult st1)
                  (validation.groupResults st1) rr' grs'
                  (pre ++ [GroupResult.setCases cur' g]) olds0)
        as (news & -> & Hgroups).
      { rewrite Hgrs1'. now rewrite <- app_assoc. }
      { rewrite length_app. cbn. lia. }
      { exact Hshape. }
      { exact Hrest. }
      exists (GroupResult.setCases cur' g :: news).
      split; [now rewrite <- app_assoc|].
      econstructor; [|exact Hgroups].
      econstructor; [exact Hsteps | reflexivity | reflexivity |].
      cbn [correct score verdict]. rewrite ?Hcorrect.
      split; [reflexivity|]. split; [reflexivity|]. exact Hrr1.
Qed.

(** The path the custom validator yields is the one read off the case. *)
Lemma runValidator_comparedPath w sandbox input runRoot run caseData c c1 path :
  runValidator w sandbox input runRoot run caseData c = Next (c1, path) ->
  comparedPath input runRoot caseData c1 = Some path.
Proof.
  unfold runValidator, comparedPath.
  destruct (String.eqb _ "custom").
  - destruct (Common.ValidatorSettings.Lang _) as [lang|];
      cbn [deref mbind step_bind]; [|discriminate].
    destruct (Sandbox.Run _ _ _ _ _ _ _ _ _ _ _ _ _) as [[m|] err];
      cbn [deref mbind step_bind]; [|discriminate].
    destruct (String.eqb (RunMetadata.Verdict m) "OK") eqn:Hok;
      cbn [negb]; intros [= <- <-]; cbn [CaseResult.setMeta CaseResult.Meta];
      rewrite lookup_insert_eq; cbn [mbind option_bind]; now rewrite Hok.
  - now intros [= <- <-].
Qed.

(** The validation of one case, with the files it looked at. *)
Lemma validateCase_validated w sandbox input runRoot run i j caseData st st' c :
  loadCase (validation.groupResults st) i j = Some c ->
  validateCase w sandbox input runRoot run i j caseData st = Next st' ->
  exists c',
    validation.groupResults st'
      = storeCase (validation.groupResults st) i j c'
    /\ validated w input runRoot
         (RunResult.MaxScore (validation.runResult st)) caseData c c'
    /\ RunResult.MaxScore (validation.runResult st')
       = RunResult.MaxScore (validation.runResult st).
Proof.
  intros Hload. unfold validateCase. rewrite Hload. cbn [deref mbind step_bind].
  destruct (String.eqb (CaseResult.Verdict c) "OK") eqn:Hok.
  2:{ intros [= <-]. exists c. split_and!; auto.
      - rewrite storeCase_setCasesAt.
        rewrite loadCase_casesAt in Hload.
        rewrite list_insert_id by exact Hload. now rewrite setCasesAt_same.
      - unfold validated. rewrite Hok. auto. }
  destruct (runValidator _ _ _ _ _ _ _) as [[c1 path]|res] eqn:Hval;
    cbn [mbind step_bind]; [|discriminate].
  pose proof (runValidator_comparedPath _ _ _ _ _ _ _ _ _ Hval) as Hpath.
  apply runValidator_Next in Hval as (Hn & Hm & Hmeta & Hv & Hs & Hcs).
  cbv zeta.
  change (if String.eqb
               (Common.ValidatorSettings.Name
                  (Common.ProblemSettings.Validator (Input.Settings input)))
               "custom"
          then "/dev/null"
          else Go.path_Join
                 [Input.Path input; "out";
                  Common.CaseSettings.Name caseData +:+ ".out"])
    with (expectedPath input caseData).
  assert (Hleft : World.canOpen w path
                  && World.canOpen w (expectedPath input caseData) = false ->
                  validated w input runRoot
                    (RunResult.MaxScore (validation.runResult st)) caseData
                    c c1).
  { intros Hclosed. unfold validated. rewrite Hok. split_and!; auto.
    exists path. rewrite Hclosed. split_and!; auto.
    rewrite Hv. now apply String.eqb_eq. }
  assert (Hscored : World.canOpen w path
                    && World.canOpen w (expectedPath input caseData) = true ->
            forall v,
              v = scoreVerdict
                    (World.CalculateScore w
                       (Common.ProblemSettings.Validator (Input.Settings input))
                       path (expectedPath input caseData)) ->
              validated w input runRoot
                (RunResult.MaxScore (validation.runResult st)) caseData c
                (CaseResult.setVerdict v
                   (CaseResult.setContestScore
                      (RunResult.MaxScore (validation.runResult st)
                       * World.CalculateScore w
                           (Common.ProblemSettings.Validator
                              (Input.Settings input))
                           path (expectedPath input caseData)
                       * Common.CaseSettings.Weight caseData)%Qc
                      (CaseResult.setScore
                         (World.CalculateScore w
                            (Common.ProblemSettings.Validator
                               (Input.Settings input))
                            path (expectedPath input caseData))
                         c1)))).
  { intros Hopen v ->. unfold validated. rewrite Hok.
    cbn [CaseResult.setVerdict CaseResult.setContestScore CaseResult.setScore
         CaseResult.Name CaseResult.MaxScore CaseResult.Verdict
         CaseResult.Score CaseResult.ContestScore].
    split_and!; auto.
    exists path. split; [exact Hpath|]. rewrite Hopen. auto. }
  destruct (World.canOpen w path); cbn [negb].
  2:{ intros [= <-].
      cbn [validation.groupResults validation.runResult].
      exists c1. split_and!; auto. }
  destruct (World.canOpen w (expectedPath input caseData)); cbn [negb].
  2:{ intros [= <-].
      cbn [validation.groupResults validation.runResult].
      exists c1. split_and!; auto. }
  specialize (Hscored eq_refl). clear Hleft.
  set (runScore := World.CalculateScore w _ _ _) in *.
  destruct (Go.float_eqb runScore 1) eqn:H1.
  { intros [= <-]. cbn [validation.groupResults validation.runResult].
    eexists. split; [reflexivity|]. split; [|reflexivity].
    apply Hscored. unfold scoreVerdict. now rewrite H1. }
  destruct (worseVerdict _ "PA") as [v|] eqn:Hworse;
    cbn [deref mbind step_bind]; [|discriminate].
  destruct (Go.float_eqb runScore 0) eqn:H0.
  - intros [= <-]. cbn [validation.groupResults validation.runResult].
    eexists. split; [reflexivity|].
    split; [|now destruct (validation.runResult st)].
    apply Hscored. unfold scoreVerdict. now rewrite H1, H0.
  - intros [= <-]. cbn [validation.groupResults validation.runResult].
    eexists. split; [reflexivity|].
    split; [|now destruct (validation.runResult st)].
    apply Hscored. unfold scoreVerdict. now rewrite H1, H0.
Qed.

Lemma validateCases_validated w sandbox input runRoot run i cases :
  forall j st st' pre cur,
    casesAt (validation.groupResults st) i = pre ++ cur ->
    List.length pre = j -> List.length cur = List.length cases ->
    validateCases w sandbox input runRoot run i j cases st = Next st' ->
    exists cur',
      validation.groupResults st'
        = setCasesAt i (pre ++ cur') (validation.groupResults st)
      /\ Forall3
           (validated w input runRoot
              (RunResult.MaxScore (validation.runResult st)))
           cases cur cur'
      /\ RunResult.MaxScore (validation.runResult st')
         = RunResult.MaxScore (validation.runResult st).
Proof.
  induction cases as [|caseData cases IH]; intros j st st' pre cur Hat Hj Hlen.
  - destruct cur; [|discriminate]. cbn [validateCases]. intros [= <-].
    exists []. split.
    { rewrite <- Hat. now rewrite setCasesAt_same. }
    split; [constructor | reflexivity].
  - destruct cur as [|c cur]; [discriminate|]. injection Hlen as Hlen.
    cbn [validateCases].
    assert (Hload : loadCase (validation.groupResults st) i j = Some c).
    { rewrite loadCase_casesAt, Hat, <- Hj. apply list_lookup_middle.
      reflexivity. }
    destruct (validateCase _ _ _ _ _ _ _ _ st) as [st1|res] eqn:Hcase;
      cbn [mbind step_bind]; [|discriminate].
    intros Hrest.
    destruct (validateCase_validated _ _ _ _ _ _ _ _ _ _ _ Hload Hcase)
      as (c' & Hgrs1 & Hstep & Hmax1).
    assert (Hsome : is_Some (validation.groupResults st !! i))
      by (destruct pre; eapply casesAt_is_Some; exact Hat).
    assert (Hgrs1' : validation.groupResults st1
                     = setCasesAt i (pre ++ c' :: cur)
                         (validation.groupResults st)).
    { rewrite Hgrs1, storeCase_setCasesAt, Hat. f_equal.
      rewrite insert_app_r_alt by lia.
      replace (j - List.length pre)%nat with 0%nat by lia. reflexivity. }
    destruct (IH (S j) st1 st' (pre ++ [c']) cur)
      as (cur' & Hgrs' & Hsteps & Hmax').
    { rewrite Hgrs1', casesAt_setCasesAt by exact Hsome.
      now rewrite <- app_assoc. }
    { rewrite length_app. cbn. lia. }
    { exact Hlen. }
    { exact Hrest. }
    exists (c' :: cur'). split.
    { rewrite Hgrs', Hgrs1', setCasesAt_twice. now rewrite <- app_assoc. }
    split.
    + constructor; [exact Hstep|]. now rewrite Hmax1 in Hsteps.
    + now rewrite Hmax', Hmax1.
Qed.

Lemma validateGroups_validated w sandbox input runRoot run groups :
  forall i rr grs rr' grs' pre olds,
    grs = pre ++ olds -> List.length pre = i ->
    Forall2 (fun group g =>
               List.length (GroupResult.Cases g)
               = List.length (Common.GroupSettings.Cases group))
            groups olds ->
    validateGroups w sandbox input runRoot run i groups rr grs
      = Next (rr', grs') ->
    exists news,
      grs' = pre ++ news
      /\ Forall3
           (fun group g g' =>
              Forall3 (validated w input runRoot (RunResult.MaxScore rr))
                (Common.GroupSettings.Cases group) (GroupResult.Cases g)
                (GroupResult.Cases g'))
           groups olds news.
Proof.
  induction groups as [|group groups IH];
    intros i rr grs rr' grs' pre olds -> Hi Hshape.
  - apply Forall2_nil_inv_l in Hshape as ->. cbn [validateGroups].
    intros [= <- <-]. exists []. split; [reflexivity | constructor].
  - apply Forall2_cons_inv_l in Hshape as (g & olds0 & Hlen & Hshape & ->).
    cbn [validateGroups].
    assert (Hg : (pre ++ g :: olds0) !! i = Some g)
      by (rewrite <- Hi; now apply list_lookup_middle).
    destruct (validateCases _ _ _ _ _ _ _ _ _) as [st1|res] eqn:Hcases;
      cbn [mbind step_bind]; [|discriminate].
    assert (Hat : casesAt
                    (validation.groupResults
                       (validation.mk true 0%Qc rr (pre ++ g :: olds0))) i
                  = [] ++ GroupResult.Cases g).
    { cbn [validation.groupResults]. unfold casesAt. now rewrite Hg. }
    destruct (validateCases_validated _ _ _ _ _ _ _ _ _ _ []
                (GroupResult.Cases g) Hat eq_refl Hlen Hcases)
      as (cur' & Hgrs1 & Hsteps & Hmax1).
    cbn [validation.groupResults validation.runResult app]
      in Hgrs1, Hsteps, Hmax1.
    assert (Hgrs1' : validation.groupResults st1
                     = pre ++ GroupResult.setCases cur' g :: olds0).
    { rewrite Hgrs1. unfold setCasesAt. rewrite Hg.
      rewrite insert_app_r_alt by lia.
      replace (i - List.length pre)%nat with 0%nat by lia. reflexivity. }
    unfold awardGroup.
    destruct (validation.correct st1) eqn:Hcorrect.
    + assert (Hg1 : validation.groupResults st1 !! i
                    = Some (GroupResult.setCases cur' g)).
      { rewrite Hgrs1', <- Hi. now apply list_lookup_middle. }
      rewrite Hg1. cbn [deref mbind step_bind validation.runResult
                        validation.groupResults].
      intros Hrest.
      match type of Hrest with
      | validateGroups _ _ _ _ _ _ _ ?rr1 (<[ ?k := ?g1 ]> ?l) = _ =>
          destruct (IH (S i) rr1 (<[ k := g1 ]> l) rr' grs' (pre ++ [g1]) olds0)
            as (news & -> & Hgroups);
            [ rewrite Hgrs1', insert_app_r_alt by lia;
              replace (i - List.length pre)%nat with 0%nat by lia;
              cbn; now rewrite <- app_assoc
            | rewrite length_app; cbn; lia
            | exact Hshape
            | exact Hrest
            | exists (g1 :: news) ]
      end.
      split; [now rewrite <- app_assoc|].
      constructor; [exact Hsteps|].
      cbn [RunResult.setContestScore RunResult.setScore RunResult.MaxScore]
        in Hgroups.
      now rewrite Hmax1 in Hgroups.
    + cbn [mbind step_bind]. intros Hrest.
      destruct (IH (S i) (validation.runResult st1)
                  (validation.groupResults st1) rr' grs'
                  (pre ++ [GroupResult.setCases cur' g]) olds0)
        as (news & -> & Hgroups).
      { rewrite Hgrs1'. now rewrite <- app_assoc. }
      { rewrite length_app. cbn. lia. }
      { exact Hshape. }
      { exact Hrest. }
      exists (GroupResult.setCases cur' g :: news).
      split; [now rewrite <- app_assoc|].
      constructor; [exact Hsteps|]. now rewrite Hmax1 in Hgroups.
Qed.

(** X9: the validation loop of Grade, run on group results that have one
    case result for every case of the settings, judges every case on its
    own: the name, the maximum score and the metadata under [Main] of a
    case stay as the execution left them; a case whose verdict is not
    [OK] is not touched; a case with the verdict [OK] whose contestant
    (or validator) output and expected output can both be opened gets the
    score [CalculateScore] computes from them, the verdict [AC], [WA] or
    [PA] of that score and the contest score [MaxScore * Score * Weight];
    when one of the two files cannot be opened it keeps the verdict [OK]
    and its scores. *)
Theorem validateGroups_case_verdicts w sandbox input runRoot run groups rr grs
    rr' grs' :
  Forall2 (fun group g =>
             List.length (GroupResult.Cases g)
             = List.length (Common.GroupSettings.Cases group))
          groups grs ->
  validateGroups w sandbox input runRoot run 0 groups rr grs
    = Next (rr', grs') ->
  Forall3
    (fun group g g' =>
       Forall3 (validated w input runRoot (RunResult.MaxScore rr))
         (Common.GroupSettings.Cases group) (GroupResult.Cases g)
         (GroupResult.Cases g'))
    groups grs grs'.
Proof.
  intros Hshape Hrun.
  destruct (validateGroups_validated w sandbox input runRoot run groups 0 rr
              grs rr' grs' [] grs eq_refl eq_refl Hshape Hrun)
    as (news & -> & Hall).
  exact Hall.
Qed.

Lemma validateGroups_case_verdicts_witness :
  exists rr' grs',
    validateGroups GradeExample.worldUnopened GradeExample.sandboxOK
      GradeExample.input "/rt/grade/7" GradeExample.run 0
      (Common.ProblemSettings.Cases GradeExample.settings)
      (RunResult.setVerdict "OK" (initialResult GradeExample.run))
      (groupResultsOf 1%Qc (fun _ => GradeExample.okMeta)
         (Common.ProblemSettings.Cases GradeExample.settings))
    = Next (rr', grs')
    /\ caseVerdicts grs' = ["AC"; "OK"]
    /\ Forall3
         (fun group g g' =>
            Forall3
              (validated GradeExample.worldUnopened GradeExample.input
                 "/rt/grade/7" 1%Qc)
              (Common.GroupSettings.Cases group) (GroupResult.Cases g)
              (GroupResult.Cases g'))
         (Common.ProblemSettings.Cases GradeExample.settings)
         (groupResultsOf 1%Qc (fun _ => GradeExample.okMeta)
            (Common.ProblemSettings.Cases GradeExample.settings))
         grs'.
Proof.
  assert (Hrun : exists rr' grs',
    validateGroups GradeExample.worldUnopened GradeExample.sandboxOK
      GradeExample.input "/rt/grade/7" GradeExample.run 0
      (Common.ProblemSettings.Cases GradeExample.settings)
      (RunResult.setVerdict "OK" (initialResult GradeExample.run))
      (groupResultsOf 1%Qc (fun _ => GradeExample.okMeta)
         (Common.ProblemSettings.Cases GradeExample.settings))
    = Next (rr', grs')
    /\ caseVerdicts grs' = ["AC"; "OK"]).
  { eexists _, _. split; vm_compute; reflexivity. }
  destruct Hrun as (rr' & grs' & Hrun & Hverdicts).
  exists rr', grs'. split; [exact Hrun|]. split; [exact Hverdicts|].
  refine (validateGroups_case_verdicts _ _ _ _ _ _ _ _ _ _ _ Hrun).
  repeat constructor.
Defined.

Lemma scoreVerdict_WA (runScore : Qc) :
  String.eqb (scoreVerdict runScore) "WA" = Go.float_eqb runScore 0%Qc.
Proof.
  unfold scoreVerdict.
  destruct (Go.float_eqb runScore 1) eqn:H1.
  - apply float_eqb_eq in H1. subst runScore. reflexivity.
  - now destruct (Go.float_eqb runScore 0).
Qed.

(** What the validation of its cases keeps of a group. *)
Lemma validated_cases_names M cases cur cur' p p' :
  validated_cases M cases cur cur' p p' ->
  map CaseResult.Name cur' = map CaseResult.Name cur
  /\ map CaseResult.MaxScore cur' = map CaseResult.MaxScore cur
  /\ map mainMeta cur' = map mainMeta cur.
Proof.
  induction 1 as [|caseData cases c cs c' cs' p p1 p2 Hstep _ (IH1 & IH2 & IH3)];
    [auto|].
  cbn [map]. rewrite IH1, IH2, IH3.
  destruct Hstep as [? Hn Hm Hmeta|? ? Hn Hm Hmeta]; now rewrite Hn, Hm, Hmeta.
Qed.

(** The score a group accumulates is the sum of the weighted scores of
    its cases. *)
Lemma validated_cases_score M cases cur cur' p p' :
  validated_cases M cases cur cur' p p' ->
  Forall fresh_case cur ->
  score p'
  = fold_left
      (fun acc '(caseData, c) =>
         (acc + CaseResult.Score c * Common.CaseSettings.Weight caseData)%Qc)
      (zip cases cur') (score p).
Proof.
  induction 1 as [|caseData cases c cs c' cs' p p1 p2 Hstep _ IH];
    intros Hfresh; [reflexivity|].
  apply Forall_cons_iff in Hfresh as [(Hs & _) Hfresh].
  cbn [zip zip_with fold_left]. rewrite (IH Hfresh). f_equal.
  destruct Hstep as [? _ _ _ _ Hs' _|]; [|reflexivity].
  rewrite Hs', Hs. ring.
Qed.

(** A group stays correct exactly when none of its cases is scored
    zero. *)
Lemma validated_cases_correct M cases cur cur' p p' :
  validated_cases M cases cur cur' p p' ->
  Forall fresh_case cur ->
  correct p' = correct p && negb (existsb zeroed cur').
Proof.
  induction 1 as [|caseData cases c cs c' cs' p p1 p2 Hstep _ IH];
    intros Hfresh; [now rewrite andb_true_r|].
  apply Forall_cons_iff in Hfresh as [(_ & _ & m & Hm & Hv) Hfresh].
  cbn [existsb]. rewrite (IH Hfresh).
  destruct Hstep as [? _ _ Hmeta Hv' _ _|? ? _ _ Hmeta Hok Hv' _ _].
  - assert (zeroed c' = false) as ->.
    { unfold zeroed. rewrite Hmeta, Hm, Hv', <- Hv.
      destruct (String.eqb_spec (RunMetadata.Verdict m) "WA") as [->|];
        reflexivity. }
    reflexivity.
  - assert (zeroed c' = Go.float_eqb (CaseResult.Score c') 0) as ->.
    { unfold zeroed. rewrite Hmeta, Hm, Hv', Hv, Hok, scoreVerdict_WA.
      apply andb_true_r. }
    cbn [correct]. rewrite negb_orb. now rewrite andb_assoc.
Qed.

(** The verdict and the score of every case after the validation: a case
    that did not run to [OK] keeps its verdict and scores nothing; a case
    that did is [AC], [WA] or [PA] by its score, unless a file could not
    be opened, which leaves it at [OK] without a score. *)
Lemma validated_cases_verdicts M cases cur cur' p p' :
  validated_cases M cases cur cur' p p' ->
  Forall fresh_case cur ->
  Forall2 (judged M) cases cur'.
Proof.
  induction 1 as [|caseData cases c cs c' cs' p p1 p2 Hstep _ IH];
    intros Hfresh; [constructor|].
  apply Forall_cons_iff in Hfresh as [(Hs & Hcs & m & Hm & Hv) Hfresh].
  constructor; [|exact (IH Hfresh)].
  exists m.
  destruct Hstep as [? _ _ Hmeta Hv' Hs' Hcs'|? ? _ _ Hmeta Hok Hv' Hcs' _].
  - split; [congruence|]. left. split; [congruence|]. split; congruence.
  - split; [congruence|]. right. split; [congruence|]. split; assumption.
Qed.

(** The validation of a group of fresh results. *)
Lemma validated_group_fresh group g g' rr rr' :
  validated_group group g g' rr rr' ->
  fresh_group g ->
  GroupResult.Group g' = GroupResult.Group g
  /\ GroupResult.MaxScore g' = GroupResult.MaxScore g
  /\ map CaseResult.Name (GroupResult.Cases g')
     = map CaseResult.Name (GroupResult.Cases g)
  /\ GroupResult.Score g'
     = groupScore (Common.GroupSettings.Cases group) (GroupResult.Cases g')
  /\ GroupResult.ContestScore g'
     = (RunResult.MaxScore rr * GroupResult.Score g')%Qc
  /\ RunResult.Score rr' = (RunResult.Score rr + GroupResult.Score g')%Qc
  /\ RunResult.ContestScore rr'
     = (RunResult.ContestScore rr + GroupResult.ContestScore g')%Qc
  /\ RunResult.MaxScore rr' = RunResult.MaxScore rr
  /\ RunResult.Groups rr' = RunResult.Groups rr.
Proof.
  intros [p Hcases Hgroup Hmax Haward] (Hs & Hcs & Hfresh).
  pose proof (validated_cases_names _ _ _ _ _ _ Hcases) as (Hnames & _ & _).
  pose proof (validated_cases_score _ _ _ _ _ _ Hcases Hfresh) as Hscore.
  pose proof (validated_cases_correct _ _ _ _ _ _ Hcases Hfresh) as Hcorrect.
  cbn [score correct andb] in Hscore, Hcorrect.
  split; [exact Hgroup|]. split; [exact Hmax|]. split; [exact Hnames|].
  unfold groupScore. fold (weightedScore (Common.GroupSettings.Cases group)
                             (GroupResult.Cases g')) in Hscore.
  destruct (correct p).
  - destruct Haward as (Hs' & Hcs' & ->).
    destruct (existsb zeroed (GroupResult.Cases g')); [discriminate|].
    rewrite Hs', Hcs', Hscore. now destruct rr.
  - destruct Haward as (Hs' & Hcs' & ->).
    destruct (existsb zeroed (GroupResult.Cases g')); [|discriminate].
    rewrite Hs', Hcs', Hs, Hcs.
    split; [reflexivity|]. split; [ring|].
    destruct rr; cbn. split; [ring|]. split; [ring|]. auto.
Qed.

Lemma validated_groups_judged groups olds news rr rr' :
  validated_groups groups olds news rr rr' ->
  Forall fresh_group olds ->
  Forall2 (fun group g' =>
             Forall2 (judged (RunResult.MaxScore rr))
               (Common.GroupSettings.Cases group) (GroupResult.Cases g'))
          groups news.
Proof.
  induction 1 as [|group groups g gs g' gs' rr rr1 rr2 Hgroup _ IH];
    intros Hfresh; [constructor|].
  apply Forall_cons_iff in Hfresh as [Hg Hfresh].
  destruct (validated_group_fresh _ _ _ _ _ Hgroup Hg)
    as (_ & _ & _ & _ & _ & _ & _ & Hmax & _).
  constructor.
  - destruct Hgroup as [p Hcases _ _ _]. destruct Hg as (_ & _ & Hg).
    exact (validated_cases_verdicts _ _ _ _ _ _ Hcases Hg).
  - rewrite <- Hmax. exact (IH Hfresh).
Qed.

Lemma validated_groups_fresh groups olds news rr rr' :
  validated_groups groups olds news rr rr' ->
  Forall fresh_group olds ->
  Forall2 (fun g g' =>
             GroupResult.Group g' = GroupResult.Group g
             /\ GroupResult.MaxScore g' = GroupResult.MaxScore g
             /\ map CaseResult.Name (GroupResult.Cases g')
                = map CaseResult.Name (GroupResult.Cases g))
          olds news
  /\ Forall2 (fun group g' =>
                GroupResult.Score g'
                = groupScore (Common.GroupSettings.Cases group)
                    (GroupResult.Cases g')
                /\ GroupResult.ContestScore g'
                   = (RunResult.MaxScore rr * GroupResult.Score g')%Qc)
             groups news
  /\ RunResult.Score rr' = sumScores news (RunResult.Score rr)
  /\ RunResult.ContestScore rr'
     = sumContestScores news (RunResult.ContestScore rr)
  /\ RunResult.MaxScore rr' = RunResult.MaxScore rr
  /\ RunResult.Groups rr' = RunResult.Groups rr.
Proof.
  induction 1 as [|group groups g gs g' gs' rr rr1 rr2 Hgroup _ IH];
    intros Hfresh.
  - repeat split; constructor.
  - apply Forall_cons_iff in Hfresh as [Hg Hfresh].
    destruct (validated_group_fresh _ _ _ _ _ Hgroup Hg)
      as (H1 & H2 & H3 & H4 & H5 & H6 & H7 & H8 & H9).
    destruct (IH Hfresh) as (I1 & I2 & I3 & I4 & I5 & I6).
    split; [constructor; auto|]. split.
    { constructor; [auto|]. rewrite H8 in I2. exact I2. }
    unfold sumScores, sumContestScores in *. cbn [fold_left].
    rewrite I3, I4, I5, I6, H6, H7. auto.
Qed.

Lemma fresh_caseResultOf M caseData m : fresh_case (caseResultOf M caseData m).
Proof.
  split; [reflexivity|]. split; [reflexivity|].
  exists m. split; [apply mainMeta_caseResultOf | reflexivity].
Qed.

Lemma fresh_groupResultOf M group metas : fresh_group (groupResultOf M group metas).
Proof.
  split; [reflexivity|]. split; [reflexivity|].
  cbn [groupResultOf GroupResult.Cases].
  revert metas. induction (Common.GroupSettings.Cases group) as [|c cs IH];
    intros [|m ms]; cbn [zip_with]; try constructor.
  - apply fresh_caseResultOf.
  - apply IH.
Qed.

Lemma names_groupResultOf M group metas :
  List.length metas = List.length (Common.GroupSettings.Cases group) ->
  map CaseResult.Name (GroupResult.Cases (groupResultOf M group metas))
  = map Common.CaseSettings.Name (Common.GroupSettings.Cases group)
  /\ List.length (GroupResult.Cases (groupResultOf M group metas))
     = List.length (Common.GroupSettings.Cases group).
Proof.
  cbn [groupResultOf GroupResult.Cases].
  revert metas. induction (Common.GroupSettings.Cases group) as [|c cs IH];
    intros [|m ms] Hlen; try discriminate; [split; reflexivity|].
  cbn [zip_with map List.length]. injection Hlen as Hlen.
  destruct (IH ms Hlen) as [-> ->]. split; reflexivity.
Qed.

(** The execution and validation phases together. *)
Lemma runAndValidate_Next w sandbox input runRoot run binaries n files rr
    rr' grs :
  runAndValidate w sandbox input runRoot run binaries n files rr
    = Next (rr', grs) ->
  mirrors (Common.ProblemSettings.Cases (Input.Settings input)) grs
  /\ Forall2
       (fun group g =>
          GroupResult.MaxScore g
          = (RunResult.MaxScore rr * Common.GroupSettings.Weight group)%Qc
          /\ GroupResult.Score g
             = groupScore (Common.GroupSettings.Cases group)
                 (GroupResult.Cases g)
          /\ GroupResult.ContestScore g
             = (RunResult.MaxScore rr * GroupResult.Score g)%Qc)
       (Common.ProblemSettings.Cases (Input.Settings input)) grs
  /\ Forall2
       (fun group g =>
          Forall2 (judged (RunResult.MaxScore rr))
            (Common.GroupSettings.Cases group) (GroupResult.Cases g))
       (Common.ProblemSettings.Cases (Input.Settings input)) grs
  /\ RunResult.Score rr' = sumScores grs (RunResult.Score rr)
  /\ RunResult.ContestScore rr' = sumContestScores grs (RunResult.ContestScore rr)
  /\ RunResult.MaxScore rr' = RunResult.MaxScore rr
  /\ RunResult.Groups rr' = RunResult.Groups rr.
Proof.
  unfold runAndValidate.
  destruct (runGroups _ _ _ _ _ _ _ _ _ _ _) as [[rr1 gs]|res] eqn:Hrun;
    cbn [mbind step_bind]; [|discriminate].
  intros Hval.
  apply runGroups_Next in Hrun as (metass & v & Hlens & _ & -> & ->).
  set (groups := Common.ProblemSettings.Cases (Input.Settings input)) in *.
  set (M := RunResult.MaxScore (RunResult.setVerdict "OK" rr)) in *.
  assert (HM : M = RunResult.MaxScore rr) by now destruct rr.
  assert (Hshape : Forall2 (fun group g =>
                      List.length (GroupResult.Cases g)
                      = List.length (Common.GroupSettings.Cases group))
                     groups (zip_with (groupResultOf M) groups metass)).
  { clear Hval. induction Hlens as [|group metas groups' metass' Hlen _ IH];
      [constructor|].
    cbn [zip_with]. constructor; [|exact IH].
    now apply names_groupResultOf. }
  assert (Hfresh : Forall fresh_group (zip_with (groupResultOf M) groups metass)).
  { clear. revert metass. induction groups as [|g gs IH]; intros [|m ms];
      cbn [zip_with]; try constructor.
    - apply fresh_groupResultOf.
    - apply IH. }
  assert (Hinit : Forall2 (fun group g =>
                     GroupResult.Group g = Common.GroupSettings.Name group
                     /\ GroupResult.MaxScore g
                        = (M * Common.GroupSettings.Weight group)%Qc
                     /\ map CaseResult.Name (GroupResult.Cases g)
                        = map Common.CaseSettings.Name
                            (Common.GroupSettings.Cases group))
                    groups (zip_with (groupResultOf M) groups metass)).
  { clear Hval Hshape Hfresh.
    induction Hlens as [|group metas groups' metass' Hlen _ IH]; [constructor|].
    cbn [zip_with]. constructor; [|exact IH].
    split; [reflexivity|]. split; [reflexivity|].
    now apply names_groupResultOf. }
  destruct (validateGroups_Next _ _ _ _ _ _ _ _ _ _ _ [] _ eq_refl eq_refl
              Hshape Hval) as (news & -> & Hgroups).
  cbn [app].
  destruct (validated_groups_fresh _ _ _ _ _ Hgroups Hfresh)
    as (Hkeep & Hscores & Hsum & Hcsum & Hmax & Hgr).
  cbn [merged RunResult.Score RunResult.ContestScore RunResult.MaxScore
       RunResult.Groups RunResult.setMemory RunResult.setWallTime
       RunResult.setTime RunResult.setVerdict] in Hsum, Hcsum, Hmax, Hgr, Hscores.
  split.
  { unfold mirrors. clear - Hinit Hkeep.
    revert news Hkeep.
    induction Hinit as [|group g groups' gs (H1 & H2 & H3) _ IH];
      intros news Hkeep.
    - apply Forall2_nil_inv_l in Hkeep as ->. constructor.
    - apply Forall2_cons_inv_l in Hkeep as (g' & news' & (K1 & K2 & K3) & Hkeep & ->).
      constructor; [|now apply IH]. split; congruence. }
  split.
  { clear - Hinit Hkeep Hscores HM.
    revert news Hkeep Hscores.
    induction Hinit as [|group g groups' gs (H1 & H2 & H3) _ IH];
      intros news Hkeep Hscores.
    - apply Forall2_nil_inv_l in Hkeep as ->. constructor.
    - apply Forall2_cons_inv_l in Hkeep as (g' & news' & (K1 & K2 & K3) & Hkeep & ->).
      apply Forall2_cons_1 in Hscores as [(S1 & S2) Hscores].
      constructor; [|now apply IH].
      split; [congruence|]. split; [exact S1|]. now destruct rr. }
  split.
  { pose proof (validated_groups_judged _ _ _ _ _ Hgroups Hfresh) as Hj.
    now destruct rr. }
  destruct rr; cbn in *. auto.
Qed.
End ValidationFacts.

(** ** The result of Grade *)

Module GradeResultFacts.
Import Runner Spec Results Scoring VerdictFacts GradeFacts RunPhaseFacts
  ValidationFacts.

(** A block that never ends Grade with a result: it falls through, panics
    or waits. *)
Definition falls_through {A} (m : step A) : Prop :=
  forall r err, m <> Stop (Returned r err).

Lemma falls_through_Next {A} (a : A) : falls_through (Next a).
Proof. intros r err. discriminate. Qed.

Lemma falls_through_deref {A} (p : option A) : falls_through (deref p).
Proof. intros r err. destruct p; discriminate. Qed.

Lemma falls_through_bind {A B} (m : step A) (k : A -> step B) :
  falls_through m -> (forall a, falls_through (k a)) ->
  falls_through (m ≫= k).
Proof.
  intros Hm Hk r err. destruct m as [a|res]; cbn [mbind step_bind].
  - apply Hk.
  - intros [= ->]. now apply (Hm r err).
Qed.

Ltac falls :=
  repeat first
    [ apply falls_through_Next
    | apply falls_through_deref
    | apply falls_through_bind; [|intros ?]
    | match goal with
      | |- falls_through (if ?b then _ else _) => destruct b
      | |- falls_through (match ?x with _ => _ end) => destruct x
      | |- falls_through (let '(_, _) := ?x in _) => destruct x
      end
    | assumption ].

Lemma falls_through_aggregateLoop count :
  forall metaChan st, falls_through (aggregateLoop count metaChan st).
Proof.
  induction count as [|count IH]; intros metaChan st; cbn [aggregateLoop].
  - falls.
  - destruct metaChan as [|m rest]; [intros r err; discriminate|].
    apply falls_through_bind; [|intros st'; apply IH].
    unfold aggregate. falls.
Qed.

Lemma falls_through_runCase w sandbox input runRoot run binaries n files limit
    rr caseData :
  falls_through
    (runCase w sandbox input runRoot run binaries n files limit rr caseData).
Proof.
  unfold runCase. apply falls_through_bind; [|intros m; falls].
  destruct (Go.float_gtb _ _); [falls|].
  destruct (String.eqb _ "cat"); [falls|].
  unfold runSandboxedCase.
  apply falls_through_bind; [apply falls_through_aggregateLoop | intros; falls].
Qed.

Lemma falls_through_runCases w sandbox input runRoot run binaries n files limit
    cases :
  forall rr,
    falls_through
      (runCases w sandbox input runRoot run binaries n files limit cases rr).
Proof.
  induction cases as [|c cases IH]; intros rr; cbn [runCases]; [falls|].
  apply falls_through_bind; [apply falls_through_runCase|].
  intros [rr1 c1]. apply falls_through_bind; [apply IH|].
  intros [rr2 cs]. falls.
Qed.

Lemma falls_through_runGroups w sandbox input runRoot run binaries n files limit
    groups :
  forall rr,
    falls_through
      (runGroups w sandbox input runRoot run binaries n files limit groups rr).
Proof.
  induction groups as [|g groups IH]; intros rr; cbn [runGroups]; [falls|].
  apply falls_through_bind; [apply falls_through_runCases|].
  intros [rr1 cs]. apply falls_through_bind; [apply IH|].
  intros [rr2 gs]. falls.
Qed.

Lemma falls_through_validateCase w sandbox input runRoot run i j caseData st :
  falls_through (validateCase w sandbox input runRoot run i j caseData st).
Proof.
  unfold validateCase. apply falls_through_bind; [falls|]. intros c.
  destruct (String.eqb _ "OK"); [|falls].
  apply falls_through_bind.
  - unfold runValidator. destruct (String.eqb _ "custom"); [|falls].
    apply falls_through_bind; [falls|]. intros lang.
    destruct (Sandbox.Run _ _ _ _ _ _ _ _ _ _ _ _ _) as [meta err]. falls.
  - intros [c1 path]. falls.
Qed.

Lemma falls_through_validateCases w sandbox input runRoot run i cases :
  forall j st,
    falls_through (validateCases w sandbox input runRoot run i j cases st).
Proof.
  induction cases as [|c cases IH]; intros j st; cbn [validateCases]; [falls|].
  apply falls_through_bind; [apply falls_through_validateCase|].
  intros st1. apply IH.
Qed.

Lemma falls_through_validateGroups w sandbox input runRoot run groups :
  forall i rr grs,
    falls_through (validateGroups w sandbox input runRoot run i groups rr grs).
Proof.
  induction groups as [|g groups IH]; intros i rr grs; cbn [validateGroups];
    [falls|].
  apply falls_through_bind; [apply falls_through_validateCases|].
  intros st. apply falls_through_bind; [unfold awardGroup; falls|].
  intros st1. apply IH.
Qed.

Lemma falls_through_runAndValidate w sandbox input runRoot run binaries n files
    rr :
  falls_through
    (runAndValidate w sandbox input runRoot run binaries n files rr).
Proof.
  unfold runAndValidate.
  apply falls_through_bind; [apply falls_through_runGroups|].
  intros [rr1 gs]. apply falls_through_validateGroups.
Qed.

(** A result returned before the execution phase: the initial result with
    a verdict, a compile error and compile metadata. *)
Lemma falls_through_interfaceFiles run interactive interfaces :
  falls_through (interfaceFiles run interactive interfaces).
Proof.
  induction interfaces as [|[name lang_iface] rest IH]; cbn [interfaceFiles].
  - apply falls_through_Next.
  - apply falls_through_bind; [apply falls_through_deref | intros; exact IH].
Qed.

Definition early (run : Common.Run.t) (r : RunResult.t) : Prop :=
  exists v ce cm,
    r = RunResult.setCompileError ce
          (RunResult.setVerdict v
             (RunResult.setCompileMeta cm (initialResult run))).

Lemma early_initial run : early run (initialResult run).
Proof. exists "JE", None, ∅. reflexivity. Qed.

Lemma contestantBinaries_Stop runRoot run Main rr interfaces :
  forall binaries r err,
    contestantBinaries runRoot run Main rr interfaces binaries
      = Stop (Returned r err) ->
    exists ce, r = RunResult.setCompileError ce (RunResult.setVerdict "CE" rr).
Proof.
  induction interfaces as [|[name lang_iface] rest IH]; intros binaries r err;
    cbn [contestantBinaries]; [discriminate|].
  destruct (String.eqb name Main); [apply IH|].
  destruct (Common.assoc _ _) as [iface|]; [|cbv zeta; intros [= <- _]; eauto].
  destruct (normalizedSourceFiles _ _ _ _); cbn [deref mbind step_bind];
    [apply IH | discriminate].
Qed.

Lemma planBinaries_Stop w runRoot run input rr r err :
  planBinaries w runRoot run input rr = Stop (Returned r err) ->
  r = rr
  \/ exists ce, r = RunResult.setCompileError ce (RunResult.setVerdict "CE" rr).
Proof.
  unfold planBinaries.
  destruct (Common.ProblemSettings.Interactive _) as [interactive|].
  - match goal with |- context [deref ?x] => destruct x as [iface|] end;
      cbn [deref mbind step_bind]; [|discriminate].
    destruct (normalizedSourceFiles _ _ _ _); cbn [deref mbind step_bind];
      [|discriminate].
    destruct (contestantBinaries _ _ _ _ _ _) as [bs|res] eqn:Hbin;
      cbn [mbind step_bind].
    + unfold check. destruct (World.stageInteractive w bs);
        cbn [mbind step_bind]; [intros [= <- _]; now left|].
      intros Hfiles. exfalso. revert Hfiles.
      apply falls_through_bind; [|intros; apply falls_through_Next].
      apply falls_through_interfaceFiles.
    + intros [= ->]. right. eapply contestantBinaries_Stop. exact Hbin.
  - unfold check. destruct (World.stageMain w); cbn [mbind step_bind].
    + intros [= <- _]. now left.
    + destruct (String.eqb _ "cat"); [|discriminate].
      destruct (parseOutputOnlyFile _ _ _) as [m [e|]]; [|discriminate].
      intros [= <- _]. right. eauto.
Qed.

Lemma planValidator_Stop w runRoot input rr binaries r err :
  planValidator w runRoot input rr binaries = Stop (Returned r err) -> r = rr.
Proof.
  unfold planValidator. destruct (String.eqb _ "custom"); [|discriminate].
  unfold check. destruct (World.stageValidator w); cbn [mbind step_bind];
    [now intros [= <- _]|].
  destruct (Common.ValidatorSettings.Lang _); cbn [deref mbind step_bind];
    discriminate.
Qed.

Lemma compileAll_result w sandbox runRoot binaries :
  forall rr,
    match compileAll w sandbox runRoot binaries rr with
    | Next r => exists cm, r = RunResult.setCompileMeta cm rr
    | Stop (Returned r _) =>
        exists cm ce,
          r = RunResult.setCompileError ce
                (RunResult.setVerdict "CE" (RunResult.setCompileMeta cm rr))
    | Stop _ => True
    end.
Proof.
  induction binaries as [|b binaries IH]; intros rr; cbn [compileAll].
  - exists (RunResult.CompileMeta rr). now destruct rr.
  - destruct (compileBinary sandbox runRoot b) as [meta err].
    set (rr1 := match meta with Some m => _ | None => rr end).
    assert (Hrr1 : exists cm, rr1 = RunResult.setCompileMeta cm rr).
    { subst rr1. destruct meta; [eauto|].
      exists (RunResult.CompileMeta rr). now destruct rr. }
    destruct Hrr1 as [cm1 Hrr1].
    assert (Hfail : exists cm ce,
              RunResult.setCompileError ce (RunResult.setVerdict "CE" rr1)
              = RunResult.setCompileError ce
                  (RunResult.setVerdict "CE" (RunResult.setCompileMeta cm rr)))
      by (exists cm1, None; now rewrite Hrr1).
    assert (Hnext : match compileAll w sandbox runRoot binaries rr1 with
                    | Next r => exists cm, r = RunResult.setCompileMeta cm rr
                    | Stop (Returned r _) =>
                        exists cm ce,
                          r = RunResult.setCompileError ce
                                (RunResult.setVerdict "CE"
                                   (RunResult.setCompileMeta cm rr))
                    | Stop _ => True
                    end).
    { specialize (IH rr1). rewrite Hrr1 in IH |- *.
      destruct (compileAll _ _ _ _ _) as [r|[r e| |]]; auto. }
    destruct err as [e|]; cbn [mbind step_bind].
    + rewrite Hrr1. eexists _, _. reflexivity.
    + destruct meta as [m|]; cbn [deref mbind step_bind]; [|exact I].
      destruct (negb _); [|exact Hnext].
      rewrite Hrr1. eexists _, _. reflexivity.
Qed.

(** How Grade returns: before the execution phase, with the initial
    result marked by a verdict and a compile error; or after the
    validation, with the last rewrite applied to the result of the two
    phases. *)
Lemma Grade_returns w run input sandbox r err :
  Grade w run input sandbox = Returned r err ->
  early run r
  \/ exists binaries n files compiled r0 grs,
       early run compiled
       /\ runAndValidate w sandbox input (runRootOf w run) run binaries n files
            compiled = Next (r0, grs)
       /\ r = finalVerdict (RunResult.setGroups grs r0)
       /\ err = World.uploadFiles w.
Proof.
  unfold Grade. destruct (negb (Sandbox.Supported sandbox)).
  { intros [= <- _]. left. apply early_initial. }
  destruct (planBinaries _ _ _ _ _) as [[[binaries files] planned]|res] eqn:Hplan;
    cbn [mbind step_bind finish].
  2:{ intros ->. left.
      apply planBinaries_Stop in Hplan as [->|[ce ->]].
      - apply early_initial.
      - exists "CE", ce, ∅. reflexivity. }
  apply planBinaries_result in Hplan as [cm0 ->].
  assert (Hplanned : early run (RunResult.setCompileMeta cm0 (initialResult run)))
    by (exists "JE", None, cm0; reflexivity).
  destruct (planValidator _ _ _ _ _) as [binaries'|res] eqn:Hval;
    cbn [mbind step_bind finish].
  2:{ intros ->. left. apply planValidator_Stop in Hval as ->. exact Hplanned. }
  pose proof (compileAll_result w sandbox (runRootOf w run) binaries'
                (RunResult.setCompileMeta cm0 (initialResult run))) as Hcomp.
  destruct (compileAll _ _ _ _ _) as [compiled|res]; cbn [mbind step_bind finish].
  2:{ intros ->. left. destruct Hcomp as (cm & ce & ->).
      exists "CE", ce, cm. reflexivity. }
  destruct Hcomp as [cm ->].
  unfold gradeCases.
  destruct (runAndValidate _ _ _ _ _ _ _ _ _) as [[r0 grs]|res] eqn:Hrun;
    cbn [mbind step_bind finish].
  - intros [= <- <-]. right.
    eexists binaries', (List.length binaries), files, _, r0, grs.
    split; [|split; [exact Hrun | split; reflexivity]].
    exists "JE", None, cm. reflexivity.
  - intros ->. exfalso.
    exact (falls_through_runAndValidate _ _ _ _ _ _ _ _ _ _ _ Hrun).
Qed.

Lemma early_fields run r :
  early run r ->
  RunResult.Groups r = [] /\ RunResult.Score r = 0%Qc
  /\ RunResult.ContestScore r = 0%Qc
  /\ RunResult.MaxScore r = Common.Run.MaxScore run.
Proof. intros (v & ce & cm & ->). repeat split. Qed.

Lemma finalVerdict_fields r :
  RunResult.Groups (finalVerdict r) = RunResult.Groups r
  /\ RunResult.MaxScore (finalVerdict r) = RunResult.MaxScore r
  /\ ((RunResult.Verdict (finalVerdict r) = "AC"
       /\ RunResult.Score (finalVerdict r) = 1%Qc
       /\ RunResult.ContestScore (finalVerdict r) = RunResult.MaxScore r)
      \/ (RunResult.Score (finalVerdict r) = RunResult.Score r
          /\ RunResult.ContestScore (finalVerdict r) = RunResult.ContestScore r)).
Proof.
  unfold finalVerdict.
  destruct (_ && _); [cbn; auto 10|].
  destruct (String.eqb _ "OK"); cbn; auto 10.
Qed.

(** The run of the examples in which the second case is answered
    wrongly. *)
Lemma wrong_answer_returns :
  exists r,
    Grade GradeExample.worldWA GradeExample.run GradeExample.input
      GradeExample.sandboxOK = Returned r None
    /\ RunResult.Groups r <> [] /\ RunResult.Verdict r = "WA".
Proof.
  eexists. split; [vm_compute; reflexivity|].
  split; [vm_compute; discriminate | vm_compute; reflexivity].
Qed.

(** X6: whenever Grade returns a result, its maximum score is the one of
    the run, and its groups are either none (a return before the execution
    phase) or exactly the groups of the problem settings, in order and by
    name, each with exactly the cases of the settings, in order and by
    name, and with the maximum score [MaxScore * Weight]. *)
Theorem Grade_result_mirrors_settings w run input sandbox r err :
  Grade w run input sandbox = Returned r err ->
  RunResult.MaxScore r = Common.Run.MaxScore run
  /\ (RunResult.Groups r = []
      \/ (mirrors (Common.ProblemSettings.Cases (Input.Settings input))
            (RunResult.Groups r)
          /\ Forall2
               (fun group g =>
                  GroupResult.MaxScore g
                  = (Common.Run.MaxScore run
                     * Common.GroupSettings.Weight group)%Qc)
               (Common.ProblemSettings.Cases (Input.Settings input))
               (RunResult.Groups r))).
Proof.
  intros [Hearly|(bs & n & files & compiled & r0 & grs & Hc & Hrun & -> & _)]
    %Grade_returns.
  - apply early_fields in Hearly as (Hg & _ & _ & Hm). auto.
  - apply early_fields in Hc as (_ & _ & _ & Hm).
    apply runAndValidate_Next in Hrun as (Hmirror & Hgroups & _ & _ & _ & Hmax & _).
    destruct (finalVerdict_fields (RunResult.setGroups grs r0)) as (-> & -> & _).
    cbn [RunResult.setGroups RunResult.Groups RunResult.MaxScore].
    split; [congruence|]. right. split; [exact Hmirror|].
    rewrite Hm in Hgroups.
    eapply Forall2_impl; [exact Hgroups|]. cbn. tauto.
Qed.

Lemma Grade_result_mirrors_settings_witness :
  exists r,
    Grade GradeExample.worldWA GradeExample.run GradeExample.input
      GradeExample.sandboxOK = Returned r None
    /\ mirrors (Common.ProblemSettings.Cases GradeExample.settings)
         (RunResult.Groups r).
Proof.
  destruct wrong_answer_returns as (r & Hr & Hne & _).
  exists r. split; [exact Hr|].
  destruct (Grade_result_mirrors_settings _ _ _ _ _ _ Hr)
    as (_ & [Hnil|[Hm _]]); [contradiction | exact Hm].
Defined.

(** X7: whenever Grade returns a result with groups, the score of every
    group is zero when one of its cases ran to [OK] and was then scored
    zero by the validation, and otherwise the sum over its cases of
    [Score * Weight] (a case that did not run to [OK] adds nothing and
    does not void the group); its contest score is [MaxScore] times its
    score. *)
Theorem Grade_group_scores w run input sandbox r err :
  Grade w run input sandbox = Returned r err ->
  RunResult.Groups r = []
  \/ Forall2
       (fun group g =>
          GroupResult.Score g
          = groupScore (Common.GroupSettings.Cases group) (GroupResult.Cases g)
          /\ GroupResult.ContestScore g
             = (Common.Run.MaxScore run * GroupResult.Score g)%Qc)
       (Common.ProblemSettings.Cases (Input.Settings input))
       (RunResult.Groups r).
Proof.
  intros [Hearly|(bs & n & files & compiled & r0 & grs & Hc & Hrun & -> & _)]
    %Grade_returns.
  - apply early_fields in Hearly as (Hg & _). auto.
  - apply early_fields in Hc as (_ & _ & _ & Hm).
    apply runAndValidate_Next in Hrun as (_ & Hgroups & _).
    destruct (finalVerdict_fields (RunResult.setGroups grs r0)) as (-> & _).
    cbn [RunResult.setGroups RunResult.Groups]. right.
    rewrite Hm in Hgroups.
    eapply Forall2_impl; [exact Hgroups|]. cbn. tauto.
Qed.

Lemma Grade_group_scores_witness :
  exists r,
    Grade GradeExample.worldWA GradeExample.run GradeExample.input
      GradeExample.sandboxOK = Returned r None
    /\ Forall2
         (fun group g =>
            GroupResult.Score g
            = groupScore (Common.GroupSettings.Cases group)
                (GroupResult.Cases g)
            /\ GroupResult.ContestScore g
               = (Common.Run.MaxScore GradeExample.run * GroupResult.Score g)%Qc)
         (Common.ProblemSettings.Cases GradeExample.settings)
         (RunResult.Groups r).
Proof.
  destruct wrong_answer_returns as (r & Hr & Hne & _).
  exists r. split; [exact Hr|].
  destruct (Grade_group_scores _ _ _ _ _ _ Hr) as [Hnil|Hs];
    [contradiction | exact Hs].
Defined.

(** X8: whenever Grade returns a result, either its verdict is [AC] with
    the score 1 and the contest score [MaxScore], or its score and its
    contest score are the sums of those of its groups, added in order
    from zero. *)
Theorem Grade_total_score w run input sandbox r err :
  Grade w run input sandbox = Returned r err ->
  (RunResult.Verdict r = "AC" /\ RunResult.Score r = 1%Qc
   /\ RunResult.ContestScore r = RunResult.MaxScore r)
  \/ (RunResult.Score r = sumScores (RunResult.Groups r) 0%Qc
      /\ RunResult.ContestScore r = sumContestScores (RunResult.Groups r) 0%Qc).
Proof.
  intros [Hearly|(bs & n & files & compiled & r0 & grs & Hc & Hrun & -> & _)]
    %Grade_returns.
  - apply early_fields in Hearly as (-> & -> & -> & _). right. split; reflexivity.
  - apply early_fields in Hc as (_ & Hs & Hcs & _).
    apply runAndValidate_Next in Hrun as (_ & _ & _ & Hsum & Hcsum & _).
    rewrite Hs in Hsum. rewrite Hcs in Hcsum.
    destruct (finalVerdict_fields (RunResult.setGroups grs r0))
      as (Hg & Hm & [(Hv & H1 & HM)|(Hscore & Hcscore)]).
    + left. rewrite Hm. auto.
    + right. rewrite Hg, Hscore, Hcscore. cbn. auto.
Qed.

Lemma Grade_total_score_witness :
  exists r,
    Grade GradeExample.worldWA GradeExample.run GradeExample.input
      GradeExample.sandboxOK = Returned r None
    /\ RunResult.Score r = sumScores (RunResult.Groups r) 0%Qc.
Proof.
  destruct wrong_answer_returns as (r & Hr & _ & Hv).
  exists r. split; [exact Hr|].
  destruct (Grade_total_score _ _ _ _ _ _ Hr) as [(Hac & _)|(Hs & _)];
    [|exact Hs].
  rewrite Hv in Hac. discriminate.
Defined.
End GradeResultFacts.

(** ** The binary plan and the compile phase *)

Module PlanFacts.
Import Runner Spec Results Scoring VerdictFacts GradeFacts RunPhaseFacts
  ValidationFacts GradeResultFacts.

(** *** Output-only submissions *)

Section OutputOnly.
Variables (w : World.t) (sandbox sandbox' : Sandbox.t) (input : Input.t)
  (runRoot : string) (run : Common.Run.t).
Hypothesis Hcat : Common.Run.Language run = "cat".
Hypothesis Hvalidator :
  Common.ValidatorSettings.Name
    (Common.ProblemSettings.Validator (Input.Settings input)) <> "custom".

Lemma runCase_output_only binaries n files limit rr caseData :
  runCase w sandbox input runRoot run binaries n files limit rr caseData
  = runCase w sandbox' input runRoot run binaries n files limit rr caseData.
Proof.
  unfold runCase. rewrite Hcat.
  change (String.eqb "cat" "cat") with true. reflexivity.
Qed.

Lemma runCases_output_only binaries n files limit cases :
  forall rr,
    runCases w sandbox input runRoot run binaries n files limit cases rr
    = runCases w sandbox' input runRoot run binaries n files limit cases rr.
Proof.
  induction cases as [|c cases IH]; intros rr; [reflexivity|].
  cbn [runCases]. rewrite runCase_output_only.
  destruct (runCase _ _ _ _ _ _ _ _ _ _ _) as [[rr1 c1]|res];
    cbn [mbind step_bind]; [|reflexivity].
  now rewrite IH.
Qed.

Lemma runGroups_output_only_ext binaries n files limit groups :
  forall rr,
    runGroups w sandbox input runRoot run binaries n files limit groups rr
    = runGroups w sandbox' input runRoot run binaries n files limit groups rr.
Proof.
  induction groups as [|g groups IH]; intros rr; [reflexivity|].
  cbn [runGroups]. rewrite runCases_output_only.
  destruct (runCases _ _ _ _ _ _ _ _ _ _ _) as [[rr1 cs]|res];
    cbn [mbind step_bind]; [|reflexivity].
  now rewrite IH.
Qed.

Lemma validateCase_builtin i j caseData st :
  validateCase w sandbox input runRoot run i j caseData st
  = validateCase w sandbox' input runRoot run i j caseData st.
Proof.
  unfold validateCase, runValidator.
  destruct (String.eqb_spec
              (Common.ValidatorSettings.Name
                 (Common.ProblemSettings.Validator (Input.Settings input)))
              "custom"); [contradiction | reflexivity].
Qed.

Lemma validateCases_builtin i cases :
  forall j st,
    validateCases w sandbox input runRoot run i j cases st
    = validateCases w sandbox' input runRoot run i j cases st.
Proof.
  induction cases as [|c cases IH]; intros j st; [reflexivity|].
  cbn [validateCases]. rewrite validateCase_builtin.
  destruct (validateCase _ _ _ _ _ _ _ _ _) as [st1|res];
    cbn [mbind step_bind]; [apply IH | reflexivity].
Qed.

Lemma validateGroups_builtin groups :
  forall i rr grs,
    validateGroups w sandbox input runRoot run i groups rr grs
    = validateGroups w sandbox' input runRoot run i groups rr grs.
Proof.
  induction groups as [|g groups IH]; intros i rr grs; [reflexivity|].
  cbn [validateGroups]. rewrite validateCases_builtin.
  destruct (validateCases _ _ _ _ _ _ _ _ _) as [st|res];
    cbn [mbind step_bind]; [|reflexivity].
  destruct (awardGroup i st) as [st1|res]; cbn [mbind step_bind];
    [apply IH | reflexivity].
Qed.

Lemma gradeCases_output_only binaries n files rr :
  gradeCases w sandbox input runRoot run binaries n files rr
  = gradeCases w sandbox' input runRoot run binaries n files rr.
Proof.
  unfold gradeCases, runAndValidate. rewrite runGroups_output_only_ext.
  destruct (runGroups _ _ _ _ _ _ _ _ _ _ _) as [[rr1 gs]|res];
    cbn [mbind step_bind]; [|reflexivity].
  now rewrite validateGroups_builtin.
Qed.
End OutputOnly.

(** X10: an output-only submission (language [cat]) to a problem that is
    not interactive and has no custom validator is graded without the
    sandbox: nothing is compiled or run, and the outcome of Grade is the
    same with any sandbox that is supported. *)
Theorem Grade_output_only_ignores_sandbox w run input sandbox sandbox' :
  Common.Run.Language run = "cat" ->
  Common.ProblemSettings.Interactive (Input.Settings input) = None ->
  Common.ValidatorSettings.Name
    (Common.ProblemSettings.Validator (Input.Settings input)) <> "custom" ->
  Sandbox.Supported sandbox = true ->
  Sandbox.Supported sandbox' = true ->
  Grade w run input sandbox = Grade w run input sandbox'.
Proof.
  intros Hcat Hni Hval Hs Hs'.
  rewrite !Grade_phases by assumption.
  destruct (planBinaries _ _ _ _ _) as [[[binaries files] planned]|res] eqn:Hplan;
    cbn [mbind step_bind]; [|reflexivity].
  assert (binaries = []) as ->.
  { revert Hplan. unfold planBinaries. rewrite Hni, Hcat.
    change (String.eqb "cat" "cat") with true. cbv iota.
    unfold check. destruct (World.stageMain w); cbn [mbind step_bind];
      [discriminate|].
    destruct (parseOutputOnlyFile _ _ _) as [m [e|]]; [discriminate|].
    now intros [= <- _ _]. }
  unfold planValidator.
  destruct (String.eqb_spec
              (Common.ValidatorSettings.Name
                 (Common.ProblemSettings.Validator (Input.Settings input)))
              "custom"); [contradiction|].
  cbn [mbind step_bind compileAll].
  f_equal. now apply gradeCases_output_only.
Qed.

Lemma Grade_output_only_ignores_sandbox_witness :
  Grade GradeExample.world (Common.Run.mk 7 "42" "cat" "hash" 1%Qc false)
    GradeExample.input GradeExample.sandboxOK
  = Grade GradeExample.world (Common.Run.mk 7 "42" "cat" "hash" 1%Qc false)
      GradeExample.input GradeExample.sandboxCE.
Proof.
  apply (Grade_output_only_ignores_sandbox GradeExample.world
           (Common.Run.mk 7 "42" "cat" "hash" 1%Qc false) GradeExample.input
           GradeExample.sandboxOK GradeExample.sandboxCE).
  - reflexivity.
  - reflexivity.
  - vm_compute. discriminate.
  - reflexivity.
  - reflexivity.
Defined.

(** *** Interactive problems *)

(** The interfaces of the contestant: those other than the main one. *)
Lemma contestantBinaries_unsupported runRoot run Main rr interfaces :
  Exists (fun '(name, lang_iface) =>
            name <> Main
            /\ Common.assoc lang_iface
                 (normalizedLanguage (Common.Run.Language run)) = None)
         interfaces ->
  Forall (fun '(name, lang_iface) =>
            forall iface,
              Common.assoc lang_iface
                (normalizedLanguage (Common.Run.Language run)) = Some iface ->
              Common.InteractiveInterface.MakefileRules iface <> [])
         interfaces ->
  forall binaries,
    contestantBinaries runRoot run Main rr interfaces binaries
    = Stop (Returned
              (RunResult.setCompileError
                 (Some ("libinteractive does not support language '"
                        +:+ Common.Run.Language run +:+ "'"))
                 (RunResult.setVerdict "CE" rr))
              None).
Proof.
  induction interfaces as [|[name lang_iface] rest IH]; intros Hex Hall binaries.
  - now apply Exists_nil in Hex.
  - apply Forall_cons_iff in Hall as [Hrules Hall].
    cbn [contestantBinaries].
    destruct (String.eqb_spec name Main) as [->|Hne].
    + apply IH; [|exact Hall].
      apply Exists_cons in Hex as [[Hne _]|Hex]; [contradiction | exact Hex].
    + destruct (Common.assoc lang_iface _) as [iface|] eqn:Hiface;
        [|reflexivity].
      unfold normalizedSourceFiles.
      specialize (Hrules iface eq_refl).
      destruct (Common.InteractiveInterface.MakefileRules iface) as [|rule rules];
        [contradiction|].
      cbn [deref mbind step_bind]. apply IH; [|exact Hall].
      apply Exists_cons in Hex as [[_ Hnone]|Hex]; [congruence | exact Hex].
Qed.

(** X11: for an interactive problem, when an interface of the contestant
    has no entry for the (normalized) language of the run, Grade returns
    the verdict [CE] with the compile error [libinteractive does not
    support language '<language>'] and no error, before anything is
    staged, compiled or run, in whatever order the interfaces are
    visited.  (The main interface has an entry for the parent language,
    and the entries that are used have a makefile rule.) *)
Theorem Grade_libinteractive_unsupported_language w run input sandbox
    interactive iface :
  Sandbox.Supported sandbox = true ->
  Common.ProblemSettings.Interactive (Input.Settings input) = Some interactive ->
  Common.assoc (Common.InteractiveSettings.Interfaces interactive)
    (Common.InteractiveSettings.Main interactive)
    ≫= (fun lang_iface =>
          Common.assoc lang_iface
            (Common.InteractiveSettings.ParentLang interactive))
  = Some iface ->
  Common.InteractiveInterface.MakefileRules iface <> [] ->
  Exists (fun '(name, lang_iface) =>
            name <> Common.InteractiveSettings.Main interactive
            /\ Common.assoc lang_iface
                 (normalizedLanguage (Common.Run.Language run)) = None)
         (Common.InteractiveSettings.Interfaces interactive) ->
  Forall (fun '(name, lang_iface) =>
            forall iface',
              Common.assoc lang_iface
                (normalizedLanguage (Common.Run.Language run)) = Some iface' ->
              Common.InteractiveInterface.MakefileRules iface' <> [])
         (Common.InteractiveSettings.Interfaces interactive) ->
  Grade w run input sandbox
  = Returned
      (RunResult.setCompileError
         (Some ("libinteractive does not support language '"
                +:+ Common.Run.Language run +:+ "'"))
         (RunResult.setVerdict "CE" (initialResult run)))
      None.
Proof.
  intros Hs Hi Hmain Hrules Hex Hall.
  rewrite (Grade_phases _ _ _ _ Hs). unfold planBinaries. rewrite Hi, Hmain.
  cbn [deref mbind step_bind]. unfold normalizedSourceFiles at 1.
  destruct (Common.InteractiveInterface.MakefileRules iface) as [|rule rules];
    [contradiction|].
  cbn [deref mbind step_bind].
  rewrite (contestantBinaries_unsupported _ _ _ _ _ Hex Hall).
  reflexivity.
Qed.

Lemma Grade_libinteractive_unsupported_language_witness :
  Grade GradeExample.world
    (Common.Run.mk 7 "print(1)" "py" "hash" 1%Qc false)
    GradeExample.interactiveInput GradeExample.sandboxOK
  = Returned
      (RunResult.setCompileError
         (Some "libinteractive does not support language 'py'")
         (RunResult.setVerdict "CE"
            (initialResult (Common.Run.mk 7 "print(1)" "py" "hash" 1%Qc false))))
      None.
Proof.
  apply (Grade_libinteractive_unsupported_language GradeExample.world
           (Common.Run.mk 7 "print(1)" "py" "hash" 1%Qc false)
           GradeExample.interactiveInput GradeExample.sandboxOK
           GradeExample.interactive (GradeExample.iface "Main")).
  - reflexivity.
  - reflexivity.
  - vm_compute. reflexivity.
  - vm_compute. discriminate.
  - apply Exists_cons_tl, Exists_cons_hd. split; vm_compute;
      [discriminate | reflexivity].
  - repeat (apply List.Forall_cons;
            [intros iface'; vm_compute; intros [= <-]; discriminate|]).
    apply List.Forall_nil.
Defined.

(** *** The compile phase *)

Lemma contestantBinaries_stops runRoot run Main rr interfaces :
  forall binaries res,
    contestantBinaries runRoot run Main rr interfaces binaries = Stop res ->
    res = Panicked
    \/ exists ce,
         res = Returned
                 (RunResult.setCompileError ce (RunResult.setVerdict "CE" rr))
                 None.
Proof.
  induction interfaces as [|[name lang_iface] rest IH]; intros binaries res;
    cbn [contestantBinaries]; [discriminate|].
  destruct (String.eqb name Main); [apply IH|].
  destruct (Common.assoc _ _) as [iface|]; [|cbv zeta; intros [= <-]; eauto].
  destruct (normalizedSourceFiles _ _ _ _); cbn [deref mbind step_bind];
    [apply IH | intros [= <-]; now left].
Qed.

Lemma interfaceFiles_missing run interactive interfaces :
  Exists (fun '(name, lang_iface) =>
            Common.assoc lang_iface (stagedLanguage run interactive name)
            = None)
         interfaces ->
  interfaceFiles run interactive interfaces = Stop Panicked.
Proof.
  induction interfaces as [|[name lang_iface] rest IH]; intros Hex.
  - now apply Exists_nil in Hex.
  - cbn [interfaceFiles].
    destruct (Common.assoc lang_iface _) as [iface|] eqn:Hiface;
      cbn [deref mbind step_bind]; [|reflexivity].
    apply IH. apply Exists_cons in Hex as [Hnone|Hex];
      [congruence | exact Hex].
Qed.

(** X29: for an interactive problem in which an interface has no entry
    for the language its files are looked up under (the normalized parent
    language for the interface named [Main], the normalized language of
    the run for any other), Grade never gets to compile anything: it
    panics, unless a file operation reports an error first (Grade returns
    that error with the result it started from) or an interface of the
    contestant rejects the language of the run (Grade returns [CE]). *)
Theorem Grade_interface_without_staged_language w run input sandbox
    interactive :
  Sandbox.Supported sandbox = true ->
  Common.ProblemSettings.Interactive (Input.Settings input) = Some interactive ->
  Exists (fun '(name, lang_iface) =>
            Common.assoc lang_iface (stagedLanguage run interactive name)
            = None)
         (Common.InteractiveSettings.Interfaces interactive) ->
  Grade w run input sandbox = Panicked
  \/ (exists err,
        Grade w run input sandbox = Returned (initialResult run) (Some err))
  \/ exists ce,
       Grade w run input sandbox
       = Returned
           (RunResult.setCompileError ce
              (RunResult.setVerdict "CE" (initialResult run)))
           None.
Proof.
  intros Hs Hi Hex.
  rewrite (Grade_phases _ _ _ _ Hs). unfold planBinaries. rewrite Hi.
  match goal with |- context [deref ?x] => destruct x as [iface|] end;
    cbn [deref mbind step_bind finish]; [|now left].
  destruct (normalizedSourceFiles _ _ _ _) as [sources|];
    cbn [deref mbind step_bind finish]; [|now left].
  destruct (contestantBinaries _ _ _ _ _ _) as [binaries|res] eqn:Hbin;
    cbn [mbind step_bind finish].
  - unfold check. destruct (World.stageInteractive w binaries) as [err|];
      cbn [mbind step_bind finish]; [right; left; eauto|].
    rewrite (interfaceFiles_missing _ _ _ Hex). now left.
  - apply contestantBinaries_stops in Hbin as [->|[ce ->]];
      [now left | right; right; eauto].
Qed.

Lemma Grade_interface_without_staged_language_witness :
  Grade GradeExample.world GradeExample.run GradeExample.interactiveCpp11Input
    GradeExample.sandboxOK
  = Panicked.
Proof.
  destruct (Grade_interface_without_staged_language GradeExample.world
              GradeExample.run GradeExample.interactiveCpp11Input
              GradeExample.sandboxOK GradeExample.interactiveCpp11)
    as [Hpanic|[[err Herr]|[ce Hce]]].
  - reflexivity.
  - reflexivity.
  - apply Exists_cons_hd. vm_compute. reflexivity.
  - exact Hpanic.
  - vm_compute in Herr. discriminate.
  - vm_compute in Hce. discriminate.
Defined.

(** X12: when the compile phase goes through, the result is the one
    before it with new compile metadata only: every binary has an entry
    under its name, with the verdict [OK], and the entries under other
    names are as before. *)
Theorem compileAll_success w sandbox runRoot binaries :
  forall rr rr',
    compileAll w sandbox runRoot binaries rr = Next rr' ->
    rr' = RunResult.setCompileMeta (RunResult.CompileMeta rr') rr
    /\ (forall b, In b binaries ->
          exists m, RunResult.CompileMeta rr' !! binary.name b = Some m
                    /\ RunMetadata.Verdict m = "OK")
    /\ (forall k, (forall b, In b binaries -> binary.name b <> k) ->
          RunResult.CompileMeta rr' !! k = RunResult.CompileMeta rr !! k).
Proof.
  induction binaries as [|b binaries IH]; intros rr rr'.
  - cbn [compileAll]. intros [= <-]. split; [now destruct rr|].
    split; [intros b [] | reflexivity].
  - cbn [compileAll].
    destruct (compileBinary sandbox runRoot b) as [meta err].
    destruct err as [e|]; cbn [mbind step_bind]; [discriminate|].
    destruct meta as [m|]; cbn [deref mbind step_bind]; [|discriminate].
    destruct (String.eqb_spec (RunMetadata.Verdict m) "OK") as [Hok|];
      cbn [negb]; [|discriminate].
    intros Hrest. apply IH in Hrest as (Hrr' & Hall & Hother).
    cbn [RunResult.CompileMeta RunResult.setCompileMeta] in Hother.
    split; [rewrite Hrr' at 1; now destruct rr|]. split.
    + intros b' [<-|Hin]; [|now apply Hall].
      destruct (decide (Exists (fun b' => binary.name b' = binary.name b)
                               binaries)) as [Hex|Hnex].
      * apply Exists_exists in Hex as (b' & Hin & Hname).
        rewrite <- Hname. apply Hall. now apply list_elem_of_In.
      * exists m. split; [|exact Hok].
        rewrite Hother; [apply lookup_insert_eq|].
        intros b' Hin Hname. apply Hnex, Exists_exists.
        exists b'. split; [now apply list_elem_of_In | exact Hname].
    + intros k Hk. rewrite Hother.
      * apply lookup_insert_ne. apply Hk. now left.
      * intros b' Hin. apply Hk. now right.
Qed.

Lemma compileAll_success_witness :
  exists rr' m,
    compileAll GradeExample.world GradeExample.sandboxOK "/rt/grade/7"
      [GradeExample.mainBinary] (initialResult GradeExample.run) = Next rr'
    /\ RunResult.CompileMeta rr' !! "Main" = Some m
    /\ RunMetadata.Verdict m = "OK".
Proof.
  assert (Hrun : exists rr',
            compileAll GradeExample.world GradeExample.sandboxOK "/rt/grade/7"
              [GradeExample.mainBinary] (initialResult GradeExample.run)
            = Next rr')
    by (eexists; vm_compute; reflexivity).
  destruct Hrun as [rr' Hrun].
  destruct (compileAll_success _ _ _ _ _ _ Hrun) as (_ & Hall & _).
  destruct (Hall GradeExample.mainBinary (or_introl eq_refl)) as (m & Hm & Hv).
  exists rr', m. split; [exact Hrun|]. split; [exact Hm | exact Hv].
Defined.
End PlanFacts.

(** ** Retries *)

Module RetryFacts.
Import Grader GraderSpec GraderExample QueueFacts RequeueFacts RetrySpec.

Lemma UpdateAttemptID_run s run rc :
  State.heap s !! run = Some rc ->
  UpdateAttemptID run s
  = Done tt
      (State.mk
         (<[ run :=
               let r := RunContext.Run rc in
               RunContext.setRun
                 (Common.Run.mk (State.nextAttemptID s) (Common.Run.Source r)
                    (Common.Run.Language r) (Common.Run.InputHash r)
                    (Common.Run.MaxScore r) (Common.Run.Debug r)) rc ]>
            (State.heap s))
         (State.queues s) (State.mapping s) (State.nextAttemptID s + 1)
         (State.log s)).
Proof.
  intros Hrc. unfold UpdateAttemptID, NewAttemptID.
  unfold mbind, M_bind, bind, get, modify, mret, M_ret, ret.
  erewrite run_update by (cbn; exact Hrc). reflexivity.
Qed.

(** [Requeue] of a run with tries to spare, in closed form: the run is
    appended to the High FIFO of its queue, or closed when that FIFO is
    full. *)
Lemma Requeue_attempt env s name q run rc lastAttempt :
  state_inv s ->
  State.heap s !! run = Some rc ->
  inflight_ok s run rc ->
  1 < RunContext.tries rc < 2 ^ 63 ->
  RunContext.queue rc = Some name ->
  State.queues s !! name = Some q ->
  let s1 :=
    State.mk
      (<[ run := retried lastAttempt (State.nextAttemptID s) rc ]>
         (State.heap s))
      (State.queues s) (detachedMapping s rc) (State.nextAttemptID s + 1)
      (State.log s) in
  Requeue env run lastAttempt s
  = if chan.full (Queue.runs q QueuePriorityHigh)
    then (_ ← Close env run; mret false) s1
    else Done true
           (State.setQueues
              (<[ name := pushed QueuePriorityHigh run q ]> (State.queues s))
              s1).
Proof.
  intros Hinv Hrc Hok Htries Hqueue Hq s1.
  rewrite (Requeue_prologue env s run rc lastAttempt Hrc Hok) by lia.
  cbn [RunContext.tries RunContext.setTries RunContext.queue
       RunContext.setMonitor].
  destruct (Z.leb_spec (RunContext.tries rc - 1) 0); [lia|].
  rewrite Hqueue.
  set (rc1 := RunContext.setTries _ _).
  set (s0 := State.mk _ _ _ _ _).
  assert (Hrc1 : State.heap s0 !! run = Some rc1)
    by (cbn; apply lookup_insert_eq).
  unfold mbind at 1, M_bind at 1, bind at 1.
  assert (Hflag :
            (if lastAttempt then update run (RunContext.setTries 1)
             else mret tt) s0
            = Done tt
                (State.setHeap
                   (<[ run := if lastAttempt
                              then RunContext.setTries 1 rc1 else rc1 ]>
                      (State.heap s0)) s0)).
  { destruct lastAttempt.
    - now rewrite (run_update _ _ _ _ Hrc1).
    - unfold mret, M_ret, ret. f_equal. subst s0.
      unfold State.setHeap. cbn. now rewrite insert_insert_eq. }
  rewrite Hflag. clear Hflag.
  set (rc2 := if lastAttempt then _ else _).
  set (s2 := State.setHeap _ s0).
  assert (Hrc2 : State.heap s2 !! run = Some rc2)
    by (cbn; apply lookup_insert_eq).
  unfold mbind at 1, M_bind at 1, bind at 1.
  rewrite (UpdateAttemptID_run s2 run rc2 Hrc2).
  unfold mbind at 1, M_bind at 1, bind at 1.
  unfold mret at 1, M_ret at 1, ret at 1.
  unfold mbind at 1, M_bind at 1, bind at 1.
  set (rc3 := RunContext.setRun _ rc2).
  set (s3 := State.mk _ _ _ _ _).
  assert (Hrc3 : State.heap s3 !! run = Some rc3)
    by (cbn; apply lookup_insert_eq).
  assert (Hinv3 : state_inv s3).
  { intros n q' Hq'. destruct (Hinv n q' Hq') as [? ? ? Ha].
    split; auto. intros p r Hin. subst s3 s2 s0. cbn.
    do 3 (apply insert_keeps; [rewrite ?lookup_insert_eq; eauto|]). eauto. }
  assert (Hq3 : State.queues s3 !! name = Some q) by exact Hq.
  rewrite (enqueue_run s3 name q run rc3 QueuePriorityHigh Hinv3 Hq3 Hrc3).
  assert (Hfinal : RunContext.setQueue (Some name) rc3
                   = retried lastAttempt (State.nextAttemptID s) rc).
  { subst rc3 rc2 rc1. unfold retried, requeued.
    destruct lastAttempt, rc; cbn in *; now subst. }
  rewrite Hfinal.
  assert (Hs1 : State.setHeap
                  (<[ run := retried lastAttempt (State.nextAttemptID s) rc ]>
                     (State.heap s3)) s3 = s1).
  { subst s1 s3 s2 s0. unfold State.setHeap. cbn.
    now rewrite !insert_insert_eq. }
  rewrite Hs1.
  destruct (chan.full _); reflexivity.
Qed.

(** X13: a retry marked as the last attempt ([Requeue(true)] on a run with
    tries to spare and room in the High FIFO of its queue) returns true,
    appends the run to that FIFO under a new attempt identifier and leaves
    it exactly one try: the next [Requeue], whatever its flag, closes the
    run and returns false. *)
Theorem Requeue_last_attempt env s name q run rc lastAttempt :
  state_inv s ->
  State.heap s !! run = Some rc ->
  inflight_ok s run rc ->
  1 < RunContext.tries rc < 2 ^ 63 ->
  RunContext.queue rc = Some name ->
  State.queues s !! name = Some q ->
  chan.full (Queue.runs q QueuePriorityHigh) = false ->
  RunContext.closed rc = 0 ->
  exists s1 rc1,
    Requeue env run true s = Done true s1
    /\ State.heap s1 !! run = Some rc1
    /\ RunContext.tries rc1 = 1
    /\ Common.Run.AttemptID (RunContext.Run rc1) = State.nextAttemptID s
    /\ State.queues s1 !! name = Some (pushed QueuePriorityHigh run q)
    /\ State.log s1 = State.log s
    /\ exists s2 rc2,
         Requeue env run lastAttempt s1 = Done false s2
         /\ State.heap s2 !! run = Some rc2
         /\ RunContext.closed rc2 = 1
         /\ RunContext.tries rc2 = 0
         /\ State.log s2 = State.log s ++ closeEvents env run rc.
Proof.
  intros Hinv Hrc Hok Htries Hqueue Hq Hfull Hclosed.
  rewrite (Requeue_attempt env s name q run rc true Hinv Hrc Hok Htries Hqueue Hq).
  rewrite Hfull.
  set (rc1 := retried true (State.nextAttemptID s) rc).
  set (s1 := State.setQueues _ _).
  assert (Hrc1 : State.heap s1 !! run = Some rc1)
    by (cbn; apply lookup_insert_eq).
  exists s1, rc1. split; [reflexivity|]. split; [exact Hrc1|].
  split; [reflexivity|]. split; [reflexivity|].
  split; [cbn; apply lookup_insert_eq|]. split; [reflexivity|].
  pose proof (Requeue_exhausted env s1 run rc1 lastAttempt Hrc1) as Hlast.
  cbn zeta in Hlast.
  specialize (Hlast ltac:(intros Hm; discriminate Hm)
                    ltac:(subst rc1; cbn; lia)
                    ltac:(subst rc1; cbn; exact Hclosed)).
  eexists _, _. split; [exact Hlast|].
  split; [cbn; apply lookup_insert_eq|].
  split; [reflexivity|]. split; [reflexivity|].
  cbn. f_equal.
Qed.

Lemma Requeue_last_attempt_witness :
  exists s1 s2 rc2,
    Requeue (Env.mk 3 (fun _ => true)) 0%nat true
      (State.mk {[ 0%nat := RunContext.setTries 3 inflightContext ]}
         (State.queues dispatched) (State.mapping dispatched) 2 [])
    = Done true s1
    /\ Requeue (Env.mk 3 (fun _ => true)) 0%nat false s1 = Done false s2
    /\ State.heap s2 !! 0%nat = Some rc2
    /\ RunContext.closed rc2 = 1.
Proof.
  destruct (Requeue_last_attempt (Env.mk 3 (fun _ => true))
              (State.mk {[ 0%nat := RunContext.setTries 3 inflightContext ]}
                 (State.queues dispatched) (State.mapping dispatched) 2 [])
              "default" (newQueue "default" 4) 0%nat
              (RunContext.setTries 3 inflightContext) false)
    as (s1 & rc1 & H1 & _ & _ & _ & _ & _ & s2 & rc2 & H2 & Hrc2 & Hc & _).
  - apply state_inv_one_queue, queue_inv_newQueue.
  - vm_compute. reflexivity.
  - intros _. eexists. split; [vm_compute; reflexivity | reflexivity].
  - vm_compute. split; reflexivity.
  - reflexivity.
  - vm_compute. reflexivity.
  - reflexivity.
  - reflexivity.
  - exists s1, s2, rc2. auto.
Defined.

(** X14: when the High FIFO of its queue is full, [Requeue] of a run with
    tries to spare gives the run up: it returns false and closes the run
    (releasing its input and writing its result as it stands), and the
    queue is left as it was. *)
Theorem Requeue_full_queue env s name q run rc lastAttempt :
  state_inv s ->
  State.heap s !! run = Some rc ->
  inflight_ok s run rc ->
  1 < RunContext.tries rc < 2 ^ 63 ->
  RunContext.queue rc = Some name ->
  State.queues s !! name = Some q ->
  chan.full (Queue.runs q QueuePriorityHigh) = true ->
  RunContext.closed rc = 0 ->
  exists s' rc',
    Requeue env run lastAttempt s = Done false s'
    /\ State.queues s' = State.queues s
    /\ State.mapping s' = detachedMapping s rc
    /\ State.heap s' !! run = Some rc'
    /\ RunContext.closed rc' = 1
    /\ RunContext.input rc' = None
    /\ State.log s' = State.log s ++ closeEvents env run rc.
Proof.
  intros Hinv Hrc Hok Htries Hqueue Hq Hfull Hclosed.
  rewrite (Requeue_attempt env s name q run rc lastAttempt
             Hinv Hrc Hok Htries Hqueue Hq).
  rewrite Hfull.
  set (rc1 := retried lastAttempt (State.nextAttemptID s) rc).
  set (s1 := State.mk _ _ _ _ _).
  unfold mbind at 1, M_bind at 1, bind at 1.
  erewrite (Close_open env s1 run rc1);
    [ | cbn; apply lookup_insert_eq
      | subst rc1; destruct lastAttempt; cbn; exact Hclosed
      | subst rc1; destruct lastAttempt; reflexivity ].
  unfold mret, M_ret, ret.
  eexists _, _. split; [reflexivity|]. cbn.
  split; [reflexivity|]. split; [reflexivity|].
  split; [apply lookup_insert_eq|].
  split; [reflexivity|]. split; [reflexivity|].
  f_equal. subst rc1. unfold closeEvents. now destruct lastAttempt.
Qed.

Lemma Requeue_full_queue_witness :
  exists s' rc',
    Requeue env 0%nat false
      (State.mk
         {[ 0%nat := RunContext.setTries 3 inflightContext;
            1%nat := RunContext.setMonitor false inflightContext ]}
         {[ "default"
            := pushed QueuePriorityHigh 1%nat (newQueue "default" 1) ]}
         (State.mapping dispatched) 2 [])
    = Done false s'
    /\ State.heap s' !! 0%nat = Some rc'
    /\ RunContext.closed rc' = 1.
Proof.
  destruct (Requeue_full_queue env
              (State.mk
                 {[ 0%nat := RunContext.setTries 3 inflightContext;
                    1%nat := RunContext.setMonitor false inflightContext ]}
                 {[ "default"
                    := pushed QueuePriorityHigh 1%nat
                         (newQueue "default" 1) ]}
                 (State.mapping dispatched) 2 [])
              "default"
              (pushed QueuePriorityHigh 1%nat (newQueue "default" 1))
              0%nat (RunContext.setTries 3 inflightContext) false)
    as (s' & rc' & Hrun & _ & _ & Hrc & Hclosed & _).
  - apply state_inv_one_queue, queue_inv_pushed.
    + apply queue_inv_newQueue.
    + vm_compute. eauto.
    + cbn. lia.
  - vm_compute. reflexivity.
  - intros _. eexists. split; [vm_compute; reflexivity | reflexivity].
  - vm_compute. split; reflexivity.
  - reflexivity.
  - vm_compute. reflexivity.
  - reflexivity.
  - reflexivity.
  - exists s', rc'. auto.
Defined.
End RetryFacts.

(** ** Closing twice *)

Module CloseFacts.
Import Grader GraderSpec GraderExample QueueFacts RequeueFacts.

Section Closed.
Variable run : ptr.

(** The run has been closed. *)
Definition closed_at (s : State.t) : Prop :=
  exists rc, State.heap s !! run = Some rc /\ RunContext.closed rc = 1.

(** An operation that does not reopen the run. *)
Definition keeps {A} (m : M A) : Prop :=
  forall s a s', closed_at s -> m s = Done a s' -> closed_at s'.

Lemma keeps_ret {A} (a : A) : keeps (mret a).
Proof. intros s a' s' H [= _ <-]. exact H. Qed.

Lemma keeps_bind {A B} (m : M A) (k : A -> M B) :
  keeps m -> (forall a, keeps (k a)) -> keeps (m ≫= k).
Proof.
  intros Hm Hk s b s' Hs. unfold mbind, M_bind, bind.
  destruct (m s) as [a s0| |] eqn:Hrun; try discriminate.
  intros Hrest. exact (Hk a s0 b s' (Hm s a s0 Hs Hrun) Hrest).
Qed.

Lemma keeps_emit e : keeps (emit e).
Proof. intros s a s' H [= _ <-]. exact H. Qed.

Lemma keeps_update p f :
  (forall rc, RunContext.closed (f rc) = RunContext.closed rc) ->
  keeps (update p f).
Proof.
  intros Hf s a s' (rc & Hrc & Hclosed). unfold update, mbind, M_bind, bind, load.
  destruct (State.heap s !! p) as [rcp|] eqn:Hp; [|discriminate].
  intros [= _ <-]. unfold closed_at. cbn.
  destruct (decide (p = run)) as [->|Hne].
  - exists (f rcp). rewrite lookup_insert_eq. split; [reflexivity|].
    rewrite Hf. congruence.
  - exists rc. now rewrite lookup_insert_ne.
Qed.

Lemma keeps_Remove attemptID : keeps (Remove attemptID).
Proof.
  unfold Remove. apply keeps_bind.
  - intros s a s' H [= _ <-]. exact H.
  - intros s0. apply keeps_bind.
    + destruct (State.mapping s0 !! attemptID);
        [now apply keeps_update | apply keeps_ret].
    + intros _ s a s' H [= _ <-]. exact H.
Qed.
End Closed.

(** X15: closing is idempotent: after a [Close] of a run that ran to its
    end, another [Close] of the run only logs the warning that the run
    was already closed; the run contexts, the queues and the inflight
    monitor stay as they are, and nothing is released, written or
    post-processed again. *)
Theorem Close_twice env run s s1 :
  Close env run s = Done tt s1 ->
  Close env run s1 = Done tt (State.emit (CloseWarning run) s1).
Proof.
  intros Hfirst.
  assert (Hclosed : closed_at run s1).
  { revert Hfirst. unfold Close.
    unfold mbind at 1, M_bind at 1, bind at 1. unfold load.
    destruct (State.heap s !! run) as [rc|] eqn:Hrc; [|discriminate].
    unfold mbind at 1, M_bind at 1, bind at 1.
    rewrite (run_update _ _ _ _ Hrc).
    match goal with
    | |- ?m ?s0 = _ -> _ =>
        assert (Hkeeps : keeps run m); [|apply (Hkeeps s0 tt s1)]
    end.
    - destruct (negb _); [apply keeps_emit|].
      apply keeps_bind.
      { destruct (RunContext.monitor rc); [|apply keeps_ret].
        apply keeps_bind; [apply keeps_Remove | intros; apply keeps_ret]. }
      intros postProcessor. apply keeps_bind.
      { destruct (RunContext.input rc); [|apply keeps_ret].
        apply keeps_bind; [apply keeps_emit|].
        intros _. now apply keeps_update. }
      intros _. destruct (negb _); [apply keeps_ret|].
      apply keeps_bind; [apply keeps_emit|]. intros _.
      apply keeps_bind; [now apply keeps_update|]. intros _.
      apply keeps_bind; [apply keeps_emit|]. intros _.
      destruct postProcessor; [apply keeps_emit | apply keeps_ret].
    - exists (RunContext.setClosed 1 rc). cbn.
      split; [apply lookup_insert_eq | reflexivity]. }
  destruct Hclosed as (rc1 & Hrc1 & Hone).
  rewrite (Close_closed env s1 run rc1 Hrc1) by lia.
  f_equal. unfold State.emit. f_equal.
  replace (RunContext.setClosed 1 rc1) with rc1
    by (destruct rc1; cbn in *; now subst).
  now apply insert_id.
Qed.

Lemma Close_twice_witness :
  exists s1,
    Close env 0%nat dispatched = Done tt s1
    /\ Close env 0%nat s1 = Done tt (State.emit (CloseWarning 0%nat) s1).
Proof.
  assert (Hfirst : exists s1, Close env 0%nat dispatched = Done tt s1)
    by (eexists; vm_compute; reflexivity).
  destruct Hfirst as [s1 Hfirst].
  exists s1. split; [exact Hfirst|].
  exact (Close_twice env 0%nat dispatched s1 Hfirst).
Defined.
End CloseFacts.

(** ** The inflight monitor *)

Module MonitorFacts.
Import Grader GraderSpec GraderExample QueueFacts RequeueFacts.

(** X16: the inflight monitor is a map from attempt identifiers to runs:
    after [Add] of a run, [Get] of its attempt identifier finds the run
    (and marks the runner as connected); after [Remove] of the
    identifier, [Get] finds nothing, the run no longer points to the
    monitor, and the records of the other attempts are as before the
    [Add].  [Get] of an identifier that is not registered finds nothing
    and changes nothing. *)
Theorem monitor_round_trip s run rc runner :
  State.heap s !! run = Some rc ->
  let attemptID := Common.Run.AttemptID (RunContext.Run rc) in
  exists s1 s2 s3,
    Add run runner s = Done (InflightRun.mk run runner false false) s1
    /\ Get attemptID s1 = Done (Some run) s2
    /\ State.mapping s2 !! attemptID
       = Some (InflightRun.mk run runner true false)
    /\ State.heap s2 !! run = Some (RunContext.setMonitor true rc)
    /\ Remove attemptID s2 = Done tt s3
    /\ Get attemptID s3 = Done None s3
    /\ State.heap s3 !! run = Some (RunContext.setMonitor false rc)
    /\ State.mapping s3 = delete attemptID (State.mapping s)
    /\ forall other s',
         State.mapping s' !! other = None -> Get other s' = Done None s'.
Proof.
  intros Hrc attemptID. subst attemptID.
  set (id := Common.Run.AttemptID (RunContext.Run rc)).
  set (inflight := InflightRun.mk run runner false false).
  set (s1 := State.mk (<[ run := RunContext.setMonitor true rc ]> (State.heap s))
               (State.queues s) (<[ id := inflight ]> (State.mapping s))
               (State.nextAttemptID s) (State.log s)).
  set (s2 := State.setMapping
               (<[ id := InflightRun.mk run runner true false ]>
                  (State.mapping s1)) s1).
  set (s3 := State.mk (<[ run := RunContext.setMonitor false rc ]> (State.heap s))
               (State.queues s) (delete id (State.mapping s))
               (State.nextAttemptID s) (State.log s)).
  assert (H1 : Add run runner s = Done inflight s1).
  { unfold Add. run_monad. reflexivity. }
  assert (H2 : Get id s1 = Done (Some run) s2).
  { unfold Get, mbind, M_bind, bind, get.
    replace (State.mapping s1 !! id) with (Some inflight)
      by (symmetry; apply lookup_insert_eq).
    reflexivity. }
  assert (H3 : Remove id s2 = Done tt s3).
  { unfold Remove, mbind, M_bind, bind, get.
    replace (State.mapping s2 !! id)
      with (Some (InflightRun.mk run runner true false))
      by (symmetry; apply lookup_insert_eq).
    cbn [InflightRun.run].
    erewrite run_update by (apply lookup_insert_eq).
    unfold modify. f_equal. subst s3 s2 s1. unfold State.setMapping, State.setHeap.
    cbn [State.heap State.queues State.mapping State.nextAttemptID State.log].
    f_equal.
    - rewrite insert_insert_eq. now destruct rc.
    - now rewrite delete_insert_eq, delete_insert_eq. }
  exists s1, s2, s3.
  split; [exact H1|]. split; [exact H2|].
  split; [apply lookup_insert_eq|]. split; [apply lookup_insert_eq|].
  split; [exact H3|]. split.
  { unfold Get, mbind, M_bind, bind, get.
    replace (State.mapping s3 !! id) with (@None InflightRun.t)
      by (symmetry; apply lookup_delete_eq).
    reflexivity. }
  split; [apply lookup_insert_eq|]. split; [reflexivity|].
  intros other s' Hnone. unfold Get, mbind, M_bind, bind, get.
  now rewrite Hnone.
Qed.

Lemma monitor_round_trip_witness :
  exists s1 s2 s3,
    Add 0%nat "runner-1" waiting
      = Done (InflightRun.mk 0%nat "runner-1" false false) s1
    /\ Get 1 s1 = Done (Some 0%nat) s2
    /\ Remove 1 s2 = Done tt s3
    /\ Get 1 s3 = Done None s3.
Proof.
  destruct (monitor_round_trip waiting 0%nat
              (RunContext.setMonitor false inflightContext) "runner-1")
    as (s1 & s2 & s3 & H1 & H2 & _ & _ & H3 & H4 & _).
  - vm_compute. reflexivity.
  - exists s1, s2, s3. auto.
Defined.
End MonitorFacts.

(** ** The queue manager *)

Module QueueManagerFacts.
Import Grader GraderSpec GraderExample QueueFacts RequeueFacts QueueManager
  QueueManagerSpec.

(** X17: the queue manager is a map from names to queues: after
    [Add(name)], [Get(name)] finds the queue, which is empty
    ([GetQueueInfo] reports the lengths 0, 0, 0 and [GetRun] would wait),
    while [Get] and [GetQueueInfo] answer for any other name as before
    the [Add]; [Get] of a name that is not registered returns the error
    and changes nothing; a new manager knows the queue [default] only. *)
Theorem QueueManager_round_trip s name channelLength :
  exists s1 info,
    QueueManager_Add name channelLength s = Done name s1
    /\ Get name s1 = Done (inr name) s1
    /\ GetQueueInfo s1 = Done info s1
    /\ info !! name = Some [0; 0; 0]
    /\ GetRun name "runner" false s1 = Block
    /\ (forall other,
          other <> name ->
          Get other s1
          = match Get other s with
            | Done r _ => Done r s1
            | Panic => Panic
            | Block => Block
            end
          /\ info !! other = QueueInfo <$> State.queues s !! other)
    /\ (forall other s',
          State.queues s' !! other = None ->
          Get other s' = Done (inl (CannotFindQueue other)) s')
    /\ (state_inv s -> state_inv s1)
    /\ exists s0,
         NewQueueManager channelLength s = Done tt s0
         /\ forall other,
              Get other s0
              = Done (if String.eqb other "default" then inr other
                      else inl (CannotFindQueue other)) s0.
Proof.
  set (s1 := State.setQueues
               (<[ name := newQueue name channelLength ]> (State.queues s)) s).
  assert (Hq1 : State.queues s1 !! name = Some (newQueue name channelLength))
    by apply lookup_insert_eq.
  exists s1, (QueueInfo <$> State.queues s1).
  split; [reflexivity|]. split.
  { unfold Get, mbind, M_bind, bind, get. now rewrite Hq1. }
  split; [reflexivity|]. split.
  { rewrite lookup_fmap, Hq1. reflexivity. }
  split.
  { apply (GetRun_empty s1 name (newQueue name channelLength)); auto. }
  split.
  { intros other Hne. split.
    - unfold Get, mbind, M_bind, bind, get.
      replace (State.queues s1 !! other) with (State.queues s !! other)
        by (symmetry; apply lookup_insert_ne; congruence).
      destruct (State.queues s !! other); reflexivity.
    - rewrite lookup_fmap. f_equal. apply lookup_insert_ne. congruence. }
  split.
  { intros other s' Hnone. unfold Get, mbind, M_bind, bind, get.
    now rewrite Hnone. }
  split.
  { intros Hinv. apply (state_inv_queue s name), queue_inv_newQueue. exact Hinv. }
  eexists. split; [reflexivity|].
  intros other. unfold Get, mbind, M_bind, bind, get.
  cbn [State.queues State.setQueues].
  destruct (String.eqb_spec other "default") as [->|Hne].
  - now rewrite lookup_insert_eq.
  - rewrite lookup_insert_ne by congruence. now rewrite lookup_empty.
Qed.

Lemma queue_inv_same_domain (h h' : gmap ptr RunContext.t) q :
  (forall r, is_Some (h !! r) -> is_Some (h' !! r)) ->
  queue_inv h q -> queue_inv h' q.
Proof. intros Hmono [? ? ? Ha]. split; auto. intros p r Hin. eauto. Qed.

(** The runs a FIFO with [room] free slots accepts. *)
Lemma enqueueAll_run name p runs :
  forall s q,
    state_inv s ->
    State.queues s !! name = Some q ->
    Forall (fun run => is_Some (State.heap s !! run)) runs ->
    let room :=
      (chan.cap (Queue.runs q p) - chan.len (Queue.runs q p))%nat in
    exists s' q',
      enqueueAll name p runs s
      = Done (repeat true (Nat.min room (List.length runs))
              ++ repeat false (List.length runs - room)) s'
      /\ state_inv s'
      /\ State.queues s' !! name = Some q'
      /\ chan.buf (Queue.runs q' p)
         = chan.buf (Queue.runs q p) ++ take room runs
      /\ chan.cap (Queue.runs q' p) = chan.cap (Queue.runs q p)
      /\ (forall p', p' <> p -> Queue.runs q' p' = Queue.runs q p')
      /\ (forall other, other <> name ->
            State.queues s' !! other = State.queues s !! other).
Proof.
  induction runs as [|run runs IH]; intros s q Hinv Hq Hall room.
  - exists s, q. cbn [enqueueAll List.length repeat].
    rewrite Nat.min_0_r, take_nil, app_nil_r. cbn. split_and!; auto.
    now rewrite app_nil_r.
  - apply Forall_cons_iff in Hall as [[rc Hrc] Hall].
    cbn [enqueueAll]. unfold mbind at 1, M_bind at 1, bind at 1.
    rewrite (enqueue_run s name q run rc p Hinv Hq Hrc).
    set (s1 := State.setHeap _ s).
    assert (Hmono : forall r, is_Some (State.heap s !! r) ->
                              is_Some (State.heap s1 !! r)).
    { intros r Hr. cbn. apply insert_keeps; eauto. }
    assert (Hinv1 : state_inv s1) by (now apply state_inv_heap).
    assert (Hall1 : Forall (fun r => is_Some (State.heap s1 !! r)) runs).
    { eapply Forall_impl; [exact Hall|]. exact Hmono. }
    destruct (chan.full (Queue.runs q p)) eqn:Hfull.
    + assert (Hroom : room = 0%nat).
      { unfold chan.full in Hfull. apply Nat.leb_le in Hfull.
        subst room. lia. }
      destruct (IH s1 q Hinv1 Hq Hall1)
        as (s' & q' & Hrun & Hinv' & Hq' & Hbuf & Hcap & Hother & Hnames).
      fold room in Hrun, Hbuf. rewrite Hroom in *.
      exists s', q'. unfold mbind, M_bind, bind. rewrite Hrun.
      unfold mret, M_ret, ret. cbn [List.length Nat.min repeat app].
      rewrite Nat.sub_0_r in *. cbn [take] in *.
      split_and!; auto.
    + assert (Hroom : (0 < room)%nat).
      { unfold chan.full in Hfull. apply Nat.leb_gt in Hfull.
        subst room. lia. }
      set (s2 := State.setQueues _ s1).
      assert (Hq2 : State.queues s2 !! name = Some (pushed p run q))
        by apply lookup_insert_eq.
      assert (Hinv2 : state_inv s2).
      { apply (state_inv_queue s1 name); [exact Hinv1|].
        apply queue_inv_pushed; [|apply Hmono; eauto|exact Hfull].
        apply (queue_inv_same_domain (State.heap s)); [exact Hmono|].
        exact (Hinv name q Hq). }
      destruct (IH s2 (pushed p run q) Hinv2 Hq2 Hall1)
        as (s' & q' & Hrun & Hinv' & Hq' & Hbuf & Hcap & Hother & Hnames).
      rewrite runs_pushed in Hrun, Hbuf, Hcap.
      unfold chan.len in *. cbn [chan.buf chan.cap] in Hrun, Hbuf, Hcap.
      rewrite length_app in Hrun, Hbuf. cbn [List.length] in Hrun, Hbuf.
      exists s', q'. unfold mbind, M_bind, bind. rewrite Hrun.
      unfold mret, M_ret, ret.
      replace (chan.cap (Queue.runs q p)
               - (List.length (chan.buf (Queue.runs q p)) + 1))%nat
        with (room - 1)%nat in * by (subst room; unfold chan.len; lia).
      split_and!; auto.
      * f_equal. cbn [List.length].
        destruct room as [|room']; [lia|].
        replace (S room' - 1)%nat with room' by lia.
        cbn [Nat.min repeat app Nat.sub]. reflexivity.
      * rewrite Hbuf, <- app_assoc.
        destruct room as [|room']; [lia|].
        replace (S room' - 1)%nat with room' by lia. reflexivity.
      * intros p' Hp'. rewrite (Hother p' Hp').
        unfold pushed. destruct p, p'; congruence || reflexivity.
      * intros other Hne. rewrite (Hnames other Hne).
        apply lookup_insert_ne. congruence.
Qed.

(** X18: a queue holds at most [channelLength] runs at each priority:
    of the calls [enqueue(run, priority)] for a list of runs on a queue
    that [Add] has just made, the first [channelLength] return true and
    append their run to the FIFO of the priority, in order, and all later
    ones return false and leave the queue alone; [GetQueueInfo] then
    reports the number of runs accepted. *)
Theorem new_queue_capacity s name channelLength p runs :
  state_inv s ->
  Forall (fun run => is_Some (State.heap s !! run)) runs ->
  exists s1 s2 q info,
    QueueManager_Add name channelLength s = Done name s1
    /\ enqueueAll name p runs s1
       = Done (repeat true (Nat.min channelLength (List.length runs))
               ++ repeat false (List.length runs - channelLength)) s2
    /\ State.queues s2 !! name = Some q
    /\ chan.buf (Queue.runs q p) = take channelLength runs
    /\ (forall p', p' <> p -> chan.buf (Queue.runs q p') = [])
    /\ state_inv s2
    /\ GetQueueInfo s2 = Done info s2
    /\ exists lengths,
         info !! name = Some lengths
         /\ fold_right Z.add 0 lengths
            = Z.of_nat (Nat.min channelLength (List.length runs)).
Proof.
  intros Hinv Hall.
  set (s1 := State.setQueues
               (<[ name := newQueue name channelLength ]> (State.queues s)) s).
  assert (Hq1 : State.queues s1 !! name = Some (newQueue name channelLength))
    by apply lookup_insert_eq.
  assert (Hinv1 : state_inv s1)
    by (apply (state_inv_queue s name), queue_inv_newQueue; exact Hinv).
  destruct (enqueueAll_run name p runs s1 (newQueue name channelLength)
              Hinv1 Hq1 Hall)
    as (s2 & q & Hrun & Hinv2 & Hq2 & Hbuf & Hcap & Hother & _).
  assert (Hroom : (chan.cap (Queue.runs (newQueue name channelLength) p)
                   - chan.len (Queue.runs (newQueue name channelLength) p))%nat
                  = channelLength)
    by (destruct p; cbn; lia).
  rewrite Hroom in Hrun, Hbuf.
  assert (Hempty : chan.buf (Queue.runs (newQueue name channelLength) p) = [])
    by now destruct p.
  rewrite Hempty in Hbuf. cbn [app] in Hbuf.
  exists s1, s2, q, (QueueInfo <$> State.queues s2).
  split; [reflexivity|]. split; [exact Hrun|]. split; [exact Hq2|].
  split; [exact Hbuf|]. split.
  { intros p' Hp'. rewrite (Hother p' Hp'). now destruct p'. }
  split; [exact Hinv2|]. split; [reflexivity|].
  exists (QueueInfo q). split; [now rewrite lookup_fmap, Hq2|].
  unfold QueueInfo, chan.len. cbn [fold_right].
  assert (Hlen : List.length (chan.buf (Queue.runs q p))
                 = Nat.min channelLength (List.length runs))
    by (rewrite Hbuf; apply length_take).
  destruct p; cbn [Queue.runs] in Hlen; rewrite Hlen.
  - pose proof (Hother QueuePriorityNormal ltac:(discriminate)) as HN.
    pose proof (Hother QueuePriorityLow ltac:(discriminate)) as HL.
    cbn [Queue.runs] in HN, HL. rewrite HN, HL. cbn. lia.
  - pose proof (Hother QueuePriorityHigh ltac:(discriminate)) as HH.
    pose proof (Hother QueuePriorityLow ltac:(discriminate)) as HL.
    cbn [Queue.runs] in HH, HL. rewrite HH, HL. cbn. lia.
  - pose proof (Hother QueuePriorityHigh ltac:(discriminate)) as HH.
    pose proof (Hother QueuePriorityNormal ltac:(discriminate)) as HN.
    cbn [Queue.runs] in HH, HN. rewrite HH, HN. cbn. lia.
Qed.

Lemma new_queue_capacity_witness :
  exists s1 s2 q,
    QueueManager_Add "tiny" 1 waiting = Done "tiny" s1
    /\ enqueueAll "tiny" QueuePriorityLow [0%nat; 0%nat] s1
       = Done [true; false] s2
    /\ State.queues s2 !! "tiny" = Some q
    /\ chan.buf (Queue.runs q QueuePriorityLow) = [0%nat].
Proof.
  destruct (new_queue_capacity waiting "tiny" 1 QueuePriorityLow
              [0%nat; 0%nat])
    as (s1 & s2 & q & info & H1 & H2 & H3 & H4 & _).
  - apply state_inv_one_queue.
    apply queue_inv_pushed; [apply queue_inv_newQueue | | reflexivity].
    eexists. vm_compute. reflexivity.
  - repeat (apply List.Forall_cons; [eexists; vm_compute; reflexivity|]).
    apply List.Forall_nil.
  - exists s1, s2, q. auto.
Defined.
End QueueManagerFacts.

(** ** The request checks of the grader command *)

Module HandlerFacts.
Import Grader GraderSpec GraderExample QueueFacts RequeueFacts Main MainSpec.
Import InjectExample InjectFacts StringFacts Handlers HandlerSpec.

Lemma isLowerHex_not_slash (c : ascii) :
  isLowerHex c = true -> Ascii.eqb c "/"%char = false.
Proof.
  intros H. destruct (Ascii.eqb_spec c "/"%char) as [->|]; [|reflexivity].
  discriminate H.
Qed.

Lemma lowerHex_no_slash (s : string) :
  lowerHex s -> ContainsByte s "/"%char = false.
Proof.
  unfold lowerHex. induction s as [|c s IH]; cbn; [reflexivity|].
  intros [Hc Hs]%andb_prop. now rewrite isLowerHex_not_slash, IH.
Qed.

Lemma validGUID_spec (guid : string) :
  validGUID guid = true <-> String.length guid = 32%nat /\ lowerHex guid.
Proof.
  unfold validGUID, guidRegex_MatchString, lowerHex.
  destruct (Nat.eqb_spec (String.length guid) 32) as [->|Hne]; cbn.
  - destruct (forallb _ _); cbn; intuition congruence.
  - intuition congruence.
Qed.

(** [guid[:n]] and [guid[n:]] put together are [guid]. *)
Lemma substring_slice_from (n : nat) (s : string) :
  (n <= String.length s)%nat ->
  substring 0 n s +:+ Go.slice_from n s = s
  /\ String.length (substring 0 n s) = n.
Proof.
  revert s. induction n as [|n IH]; intros s Hn.
  - destruct s; cbn; auto.
  - destruct s as [|c s]; cbn in Hn; [lia|].
    cbn [substring Go.slice_from]. rewrite append_cons.
    destruct (IH s) as [Heq Hlen]; [lia|].
    rewrite Heq. cbn [String.length]. now rewrite Hlen.
Qed.

Lemma splitGUID_valid (guid : string) :
  (2 <= String.length guid)%nat ->
  exists head tail,
    splitGUID guid = Some (head, tail)
    /\ guid = head +:+ tail
    /\ String.length head = 2%nat
    /\ String.length tail = (String.length guid - 2)%nat.
Proof.
  intros Hlen. unfold splitGUID.
  destruct (Nat.ltb_spec (String.length guid) 2); [lia|].
  destruct (substring_slice_from 2 guid Hlen) as [Heq Hhead].
  eexists _, _. split; [reflexivity|]. split_and!; auto.
  apply (f_equal String.length) in Heq. rewrite length_append in Heq. lia.
Qed.

Lemma Split_plain (s : string) :
  ContainsByte s "/"%char = false -> Split s = [s].
Proof.
  induction s as [|c s IH]; cbn; [reflexivity|].
  intros [Hc Hs]%orb_false_elim. rewrite Hc, IH; auto.
Qed.

Lemma Split_append (s t : string) :
  ContainsByte s "/"%char = false ->
  Split (s +:+ String "/"%char t) = s :: Split t.
Proof.
  induction s as [|c s IH]; intros Hs.
  - reflexivity.
  - cbn in Hs. apply orb_false_elim in Hs as [Hc Hs].
    rewrite append_cons. cbn [Split]. rewrite Hc, IH; auto.
Qed.

Lemma TrimRight_plain (t : string) :
  ContainsByte t "/"%char = false -> TrimRight t = t.
Proof.
  induction t as [|c t IH]; cbn; [reflexivity|].
  intros [Hc Ht]%orb_false_elim. rewrite IH by assumption.
  destruct t; [now rewrite Hc | reflexivity].
Qed.

Lemma TrimRight_append (s t : string) :
  t <> "" -> ContainsByte t "/"%char = false ->
  TrimRight (s +:+ t) = s +:+ t.
Proof.
  intros Hne Ht. induction s as [|a s IH].
  - now apply TrimRight_plain.
  - rewrite append_cons. cbn [TrimRight]. rewrite IH.
    destruct (s +:+ t) eqn:E; [|reflexivity].
    destruct s; [|discriminate]. now destruct t.
Qed.

Lemma TrimRight_slash (u : string) :
  TrimRight (u +:+ "/") = TrimRight u.
Proof.
  induction u as [|a u IH]; [reflexivity|].
  rewrite append_cons. cbn [TrimRight]. now rewrite IH.
Qed.

Lemma ContainsByte_append (s t : string) (c : ascii) :
  ContainsByte (s +:+ t) c = ContainsByte s c || ContainsByte t c.
Proof.
  induction s as [|a s IH]; [reflexivity|].
  rewrite append_cons. cbn. now rewrite IH, orb_assoc.
Qed.

Lemma append_empty_r (s : string) : s +:+ "" = s.
Proof.
  induction s as [|c s IH]; [reflexivity|]. now rewrite append_cons, IH.
Qed.

(** The tokens of a path of three plain elements, with or without the
    slash at its end. *)
Lemma tokens_of_path (a b g : string) (trailing : bool) :
  plainSegment a -> plainSegment b ->
  g <> "" -> ContainsByte g "/"%char = false ->
  Split (Trim ("/" +:+ a +:+ "/" +:+ b +:+ "/" +:+ g
               +:+ (if trailing then "/" else "")))
  = [a; b; g].
Proof.
  intros (Ha & _ & _ & Hsa) (Hb & _ & _ & Hsb) Hg Hsg.
  unfold Trim.
  assert (Hleft : forall rest,
             TrimLeft ("/" +:+ a +:+ rest) = a +:+ rest).
  { intros rest. destruct a as [|c a]; [congruence|].
    cbn in Hsa. apply orb_false_elim in Hsa as [Hc _].
    change ("/" +:+ String c a +:+ rest)
      with (String "/"%char (String c (a +:+ rest))).
    cbn [TrimLeft]. now rewrite Ascii.eqb_refl, Hc. }
  rewrite Hleft.
  assert (Hright :
            TrimRight (a +:+ "/" +:+ b +:+ "/" +:+ g
                       +:+ (if trailing then "/" else ""))
            = a +:+ "/" +:+ b +:+ "/" +:+ g).
  { destruct trailing.
    - rewrite <- !append_assoc. rewrite TrimRight_slash.
      rewrite !append_assoc.
      rewrite <- (append_assoc a), <- (append_assoc (a +:+ "/")),
        <- (append_assoc ((a +:+ "/") +:+ b)).
      rewrite TrimRight_append by assumption.
      now rewrite !append_assoc.
    - rewrite append_empty_r.
      rewrite <- (append_assoc a), <- (append_assoc (a +:+ "/")),
        <- (append_assoc ((a +:+ "/") +:+ b)).
      rewrite TrimRight_append by assumption.
      now rewrite !append_assoc. }
  rewrite Hright.
  change ("/" +:+ b +:+ "/" +:+ g) with (String "/"%char (b +:+ "/" +:+ g)).
  rewrite Split_append by assumption.
  change ("/" +:+ g) with (String "/"%char g).
  rewrite Split_append by assumption.
  now rewrite Split_plain.
Qed.

Lemma lowerHex_plainSegment (s : string) :
  s <> "" -> lowerHex s -> plainSegment s.
Proof.
  intros Hne Hhex. split_and!; auto.
  - intros ->. discriminate Hhex.
  - intros ->. discriminate Hhex.
  - now apply lowerHex_no_slash.
Qed.

Lemma lowerHex_append (s t : string) :
  lowerHex (s +:+ t) <-> lowerHex s /\ lowerHex t.
Proof.
  unfold lowerHex. induction s as [|c s IH].
  - cbn. tauto.
  - rewrite append_cons. cbn [list_ascii_of_string forallb].
    rewrite !andb_true_iff, IH. tauto.
Qed.

(** X20: /run/new/ and /run/source/ never panic on any method and path,
    and they reach the file of a submission only for the expected method
    and a path of exactly three elements whose last one is a GUID of
    thirty-two bytes of [0-9a-f]; the file is then named by the first
    two bytes and the other thirty, both plain path elements. *)
Theorem submissionPath_checked (method : string) (w : World.t)
    (Method Path : string) :
  submissionPath method w Method Path <> None
  /\ forall guid filePath,
       submissionPath method w Method Path = Some (inr (guid, filePath)) ->
       Method = method
       /\ (exists a b, Split (Trim Path) = [a; b; guid])
       /\ String.length guid = 32%nat
       /\ lowerHex guid
       /\ exists head tail,
            guid = head +:+ tail
            /\ String.length head = 2%nat
            /\ String.length tail = 30%nat
            /\ plainSegment head /\ plainSegment tail
            /\ filePath
               = Go.path_Join [World.RuntimePath w; "submissions"; head; tail].
Proof.
  unfold submissionPath.
  destruct (String.eqb_spec Method method) as [->|Hm]; cbn [negb];
    [|split; [discriminate | intros ? ? [=]]].
  destruct (Z.eqb_spec (Go.len (Split (Trim Path))) 3) as [Hthree|Hne];
    cbn [negb]; [|split; [discriminate | intros ? ? [=]]].
  destruct (Split (Trim Path)) as [|a [|b [|guid [|? ?]]]] eqn:Htokens;
    unfold Go.len in Hthree; cbn [length] in Hthree; try lia.
  change (Go.index [a; b; guid] 2) with (Some guid).
  cbn [mbind option_bind].
  destruct (validGUID guid) eqn:Hvalid; cbn [negb];
    [|split; [discriminate | intros ? ? [=]]].
  apply validGUID_spec in Hvalid as [Hlen Hhex].
  destruct (splitGUID_valid guid) as (head & tail & -> & Heq & Hh & Ht);
    [lia|].
  cbn [mbind option_bind]. split; [discriminate|].
  intros ? ? [= <- <-]. split_and!; eauto.
  exists head, tail.
  assert (Hparts : lowerHex head /\ lowerHex tail)
    by (apply lowerHex_append; now rewrite <- Heq).
  destruct Hparts as [Hhh Hht].
  split_and!; auto; try lia.
  - apply lowerHex_plainSegment; [|assumption]. now destruct head.
  - apply lowerHex_plainSegment; [|assumption].
    destruct tail; [cbn in Ht; lia | discriminate].
Qed.

Lemma submissionPath_checked_witness :
  exists filePath,
    submissionPath "POST" InjectExample.world "POST"
      ("/run/new/" +:+ guidA) = Some (inr (guidA, filePath))
    /\ lowerHex guidA.
Proof.
  destruct (submissionPath_checked "POST" InjectExample.world "POST"
              ("/run/new/" +:+ guidA)) as [_ H].
  eexists. split; [vm_compute; reflexivity|].
  eapply H. vm_compute. reflexivity.
Defined.

(** X21: a request for /<a>/<b>/<guid>, with or without a slash at its
    end, where <a> and <b> are plain path elements and <guid> is
    thirty-two bytes of [0-9a-f], passes the checks of /run/new/ and
    /run/source/ under the expected method, with that GUID. *)
Theorem submissionPath_accepts (method : string) (w : World.t)
    (a b guid : string) (trailing : bool) :
  plainSegment a -> plainSegment b ->
  validGUID guid = true ->
  submissionPath method w method
    ("/" +:+ a +:+ "/" +:+ b +:+ "/" +:+ guid
     +:+ (if trailing then "/" else ""))
  = Some (inr (guid,
               Go.path_Join
                 [World.RuntimePath w; "submissions";
                  substring 0 2 guid; Go.slice_from 2 guid])).
Proof.
  intros Ha Hb Hvalid. unfold submissionPath.
  rewrite String.eqb_refl. cbn [negb].
  pose proof Hvalid as [Hlen Hhex]%validGUID_spec.
  rewrite tokens_of_path; auto.
  - change (negb (Go.len [a; b; guid] =? 3)) with false. cbn iota.
    change (Go.index [a; b; guid] 2) with (Some guid).
    cbn [mbind option_bind]. rewrite Hvalid. cbn [negb].
    unfold splitGUID. rewrite Hlen. reflexivity.
  - intros ->. discriminate Hlen.
  - now apply lowerHex_no_slash.
Qed.

Lemma submissionPath_accepts_witness :
  submissionPath "GET" InjectExample.world "GET"
    ("/" +:+ "run" +:+ "/" +:+ "source" +:+ "/" +:+ guidB +:+ "/")
  = Some (inr (guidB,
               Go.path_Join
                 [World.RuntimePath InjectExample.world; "submissions";
                  substring 0 2 guidB; Go.slice_from 2 guidB])).
Proof.
  apply (submissionPath_accepts "GET" InjectExample.world "run" "source"
           guidB true).
  - unfold plainSegment. split_and!; [discriminate..|reflexivity].
  - unfold plainSegment. split_and!; [discriminate..|reflexivity].
  - vm_compute. reflexivity.
Defined.

(** X22: /run/resource/ never panics, and it opens a file exactly for a
    GUID of thirty-two bytes of [0-9a-f] and a file name that is not
    empty, does not start with a dot and holds no slash (any other request
    is answered with [StatusBadRequest]); the three elements it appends
    to the grade directory are then plain, so none of them is [.] or [..]
    or holds a slash. *)
Theorem resourcePath_checked (w : World.t) (GUID Filename : string) :
  resourcePath w GUID Filename <> None
  /\ (forall filePath,
        resourcePath w GUID Filename = Some (inr filePath) ->
        String.length GUID = 32%nat
        /\ lowerHex GUID
        /\ Filename <> ""
        /\ HasPrefix Filename "." = false
        /\ ContainsByte Filename "/"%char = false
        /\ exists head tail,
             GUID = head +:+ tail
             /\ String.length head = 2%nat
             /\ String.length tail = 30%nat
             /\ plainSegment head /\ plainSegment tail
             /\ plainSegment Filename
             /\ filePath
                = Go.path_Join
                    [World.RuntimeGradePath w; head; tail; Filename])
  /\ (String.length GUID = 32%nat ->
      lowerHex GUID ->
      Filename <> "" ->
      HasPrefix Filename "." = false ->
      ContainsByte Filename "/"%char = false ->
      exists filePath, resourcePath w GUID Filename = Some (inr filePath))
  /\ forall status,
       resourcePath w GUID Filename = Some (inl status) ->
       status = StatusBadRequest.
Proof.
  unfold resourcePath.
  destruct (validGUID GUID) eqn:Hvalid; cbn [negb].
  2:{ split; [discriminate|]. split; [intros ? [=]|].
      split; [|now intros ? [= <-]].
      intros Hlen Hhex _ _ _.
      rewrite (proj2 (validGUID_spec GUID)) in Hvalid by auto.
      discriminate. }
  destruct (validFilename Filename) eqn:Hname; cbn [negb].
  2:{ split; [discriminate|]. split; [intros ? [=]|].
      split; [|now intros ? [= <-]].
      intros _ _ Hempty Hdot Hslash. unfold validFilename in Hname.
      rewrite Hdot, Hslash in Hname.
      destruct (String.eqb_spec Filename ""); [congruence | discriminate]. }
  apply validGUID_spec in Hvalid as [Hlen Hhex].
  destruct (splitGUID_valid GUID) as (head & tail & -> & Heq & Hh & Ht);
    [lia|].
  cbn [mbind option_bind]. split; [discriminate|].
  unfold validFilename in Hname.
  apply negb_true_iff in Hname.
  apply orb_false_elim in Hname as [Hname Hslash].
  apply orb_false_elim in Hname as [Hempty Hdot].
  assert (Hnonempty : Filename <> "") by (intros ->; discriminate Hempty).
  split; [|split; [eauto | intros ? [=]]].
  intros ? [= <-]. split_and!; auto.
  exists head, tail.
  assert (Hparts : lowerHex head /\ lowerHex tail)
    by (apply lowerHex_append; now rewrite <- Heq).
  destruct Hparts as [Hhh Hht].
  split_and!; auto; try lia.
  - apply lowerHex_plainSegment; [|assumption]. now destruct head.
  - apply lowerHex_plainSegment; [|assumption].
    destruct tail; [cbn in Ht; lia | discriminate].
  - unfold plainSegment. split_and!; auto.
    + intros ->. discriminate Hdot.
    + intros ->. discriminate Hdot.
Qed.

Lemma resourcePath_checked_witness :
  (exists filePath,
     resourcePath InjectExample.world guidA "details.json"
     = Some (inr filePath)
     /\ lowerHex guidA
     /\ plainSegment "details.json")
  /\ resourcePath InjectExample.world guidA ".ssh" = Some (inl StatusBadRequest).
Proof.
  split.
  - destruct (resourcePath_checked InjectExample.world guidA "details.json")
      as (_ & H & _).
    eexists. split; [vm_compute; reflexivity|].
    destruct (H _ ltac:(vm_compute; reflexivity))
      as (_ & Hhex & _ & _ & _ & ? & ? & _ & _ & _ & _ & _ & Hplain & _).
    split; assumption.
  - destruct (resourcePath_checked InjectExample.world guidA ".ssh")
      as (_ & _ & _ & H).
    destruct (resourcePath InjectExample.world guidA ".ssh")
      as [[status|filePath]|] eqn:Hrun.
    + now rewrite (H status eq_refl).
    + vm_compute in Hrun. discriminate.
    + vm_compute in Hrun. discriminate.
Defined.

(** X23: injecting [guids ++ more] is injecting [guids] and then, when
    that ended without an error, [more] from the state it left; an error
    or a panic among [guids] leaves [more] untouched. *)
Theorem v1CompatInjectRuns_append env w runs (guids more : list string)
    priority (s : State.t) :
  v1CompatInjectRuns env w runs (guids ++ more) priority s
  = match v1CompatInjectRuns env w runs guids priority s with
    | Done None s1 => v1CompatInjectRuns env w runs more priority s1
    | stopped => stopped
    end.
Proof.
  revert s. induction guids as [|guid guids IH]; intros s.
  - cbn. now destruct (v1CompatInjectRuns env w runs more priority s).
  - cbn [app v1CompatInjectRuns].
    unfold mbind, M_bind, bind.
    destruct (injectRun env w runs priority guid s) as [[err|] s1| |];
      [reflexivity | apply IH | reflexivity | reflexivity].
Qed.

(** X24: a GUID shorter than two bytes makes [v1CompatNewRunContext]
    panic on [guid[:2]], before anything is read, and with it the
    injection of a list that starts with such a GUID. *)
Theorem v1CompatNewRunContext_short_guid env w runs (guid : string)
    (rest : list string) priority (s : State.t) :
  (String.length guid < 2)%nat ->
  v1CompatNewRunContext env w guid s = Panic
  /\ v1CompatInjectRuns env w runs (guid :: rest) priority s = Panic.
Proof.
  intros Hshort.
  assert (Hnew : v1CompatNewRunContext env w guid s = Panic).
  { unfold v1CompatNewRunContext.
    unfold mbind at 1, M_bind at 1, bind at 1.
    destruct (NewEmptyRunContext_run env s) as (rc0 & -> & _).
    unfold mbind at 1, M_bind at 1, bind at 1.
    unfold splitGUID_or_panic, splitGUID.
    destruct (Nat.ltb_spec (String.length guid) 2); [reflexivity | lia]. }
  split; [exact Hnew|].
  cbn [v1CompatInjectRuns]. unfold injectRun.
  unfold mbind, M_bind, bind. now rewrite Hnew.
Qed.

Lemma v1CompatNewRunContext_short_guid_witness :
  v1CompatNewRunContext env InjectExample.world "a" idle = Panic
  /\ v1CompatInjectRuns env InjectExample.world "default" ["a"; guidA]
       QueuePriorityNormal idle = Panic.
Proof.
  apply (v1CompatNewRunContext_short_guid env InjectExample.world "default"
           "a" [guidA] QueuePriorityNormal idle).
  cbn. lia.
Defined.

Lemma payloadLoop_run env w guids :
  forall response s response' s',
    payloadLoop env w guids response s = Done response' s' ->
    dom response' = dom response ∪ list_to_set guids
    /\ State.queues s' = State.queues s
    /\ (forall r rc, State.heap s !! r = Some rc ->
                     State.heap s' !! r = Some rc)
    /\ forall guid run,
         response' !! guid = Some (Some run) ->
         response !! guid = Some (Some run)
         \/ (In guid guids /\ is_Some (problemSettings w guid)).
Proof.
  induction guids as [|guid guids IH]; intros response s response' s' Hrun.
  - injection Hrun as <- <-. split_and!; auto.
    cbn [list_to_set foldr]. now rewrite (right_id_L ∅ (∪)).
  - cbn [payloadLoop] in Hrun.
    unfold mbind at 1, M_bind at 1, bind at 1 in Hrun.
    destruct (v1CompatNewRunContext env w guid s) as [created s1| |] eqn:Hnew;
      try discriminate.
    destruct (v1CompatNewRunContext_run _ _ _ _ _ _ Hnew)
      as (Hqueues & Hheap & Hfresh & Hcreated).
    assert (Hold : forall r rc, State.heap s !! r = Some rc ->
                                State.heap s1 !! r = Some rc).
    { intros r rc Hr. rewrite Hheap; [exact Hr|].
      intros ->. rewrite fresh_heap in Hr. discriminate. }
    destruct created as [err|[runCtx settings]].
    + apply IH in Hrun as (Hdom & Hq & Hh & Hres).
      split_and!.
      * rewrite Hdom, dom_insert_L. cbn [list_to_set foldr].
        rewrite (assoc_L (∪)). f_equal. apply (comm_L (∪)).
      * congruence.
      * auto.
      * intros g run Hg. destruct (Hres g run Hg) as [Hin|[Hin Hset]].
        -- destruct (decide (g = guid)) as [->|Hne].
           ++ rewrite lookup_insert_eq in Hin. discriminate.
           ++ rewrite lookup_insert_ne in Hin by congruence. now left.
        -- right. split; [now right | exact Hset].
    + destruct (Hcreated runCtx settings eq_refl)
        as (-> & Hsettings & rc & Hrc & _).
      unfold mbind at 1, M_bind at 1, bind at 1 in Hrun.
      rewrite (run_load _ _ _ Hrc) in Hrun.
      apply IH in Hrun as (Hdom & Hq & Hh & Hres).
      split_and!.
      * rewrite Hdom, dom_insert_L. cbn [list_to_set foldr].
        rewrite (assoc_L (∪)). f_equal. apply (comm_L (∪)).
      * congruence.
      * auto.
      * intros g run Hg. destruct (Hres g run Hg) as [Hin|[Hin Hset]].
        -- destruct (decide (g = guid)) as [->|Hne].
           ++ right. split; [now left | now rewrite Hsettings].
           ++ rewrite lookup_insert_ne in Hin by congruence. now left.
        -- right. split; [now right | exact Hset].
Qed.

(** X25: when /run/payload/ answers, its response has one entry for each
    requested GUID and no other, an entry holds a run only for a GUID
    whose problem could be read, no queue has changed (nothing is queued
    for grading) and every context that existed is as it was. *)
Theorem runPayload_response env w guids (s : State.t) response s' :
  runPayload env w guids s = Done response s' ->
  dom response = list_to_set guids
  /\ State.queues s' = State.queues s
  /\ (forall r rc, State.heap s !! r = Some rc ->
                   State.heap s' !! r = Some rc)
  /\ forall guid run,
       response !! guid = Some (Some run) ->
       In guid guids /\ is_Some (problemSettings w guid).
Proof.
  intros Hrun. unfold runPayload in Hrun.
  apply payloadLoop_run in Hrun as (Hdom & Hq & Hh & Hres).
  split_and!; auto.
  - rewrite Hdom, dom_empty_L. apply (left_id_L ∅ (∪)).
  - intros guid run Hg. destruct (Hres guid run Hg) as [Hin|H]; [|exact H].
    rewrite lookup_empty in Hin. discriminate.
Qed.

Lemma runPayload_response_witness :
  exists response s',
    runPayload env InjectExample.world [guidA; guidB; guidA] idle
    = Done response s'
    /\ dom response = list_to_set [guidA; guidB; guidA]
    /\ State.queues s' = State.queues idle.
Proof.
  assert (H : exists response s',
             runPayload env InjectExample.world [guidA; guidB; guidA] idle
             = Done response s')
    by (eexists _, _; vm_compute; reflexivity).
  destruct H as (response & s' & Hrun).
  exists response, s'. split; [exact Hrun|].
  destruct (runPayload_response env InjectExample.world _ idle response s'
              Hrun) as (Hdom & Hq & _).
  split; assumption.
Defined.

End HandlerFacts.

(** ** The runner command *)

Module RunnerMainFacts.
Import RequeueFacts RunnerMain RunnerMainSpec.

Lemma float_of_int_lt (a b : Z) :
  float_ltb (Go.float_of_int a) (Go.float_of_int b) = (a <? b).
Proof.
  unfold float_ltb, Go.float_of_int, Qccompare. cbn [this Q2Qc].
  rewrite <- Qred_compare. unfold Qcompare. cbn.
  rewrite !Z.mul_1_r. unfold Z.ltb. reflexivity.
Qed.

Lemma float_of_int_mul (a b : Z) :
  (Go.float_of_int a * Go.float_of_int b)%Qc = Go.float_of_int (a * b).
Proof.
  unfold Go.float_of_int. apply Qc_is_canon. cbn [this Q2Qc Qcmult].
  rewrite !Qred_correct. unfold Qeq. cbn. lia.
Qed.

(** What is left of [random * 2^j] without its fraction. *)
Lemma int64_of_float_bound (random : Qc) (n : Z) :
  (0 <= random)%Qc -> (random < 1)%Qc -> 0 < n ->
  0 <= int64_of_float (random * Go.float_of_int n)%Qc < n.
Proof.
  intros H0 H1 Hn. unfold int64_of_float.
  set (q := (random * Go.float_of_int n)%Qc).
  assert (Heq : (this q == this random * inject_Z n)%Q).
  { subst q. unfold Qcmult, Go.float_of_int. cbn [this Q2Qc].
    now rewrite !Qred_correct. }
  clearbody q.
  unfold Qcle in H0. unfold Qclt in H1.
  change (this 0%Qc) with 0%Q in H0. change (this 1%Qc) with 1%Q in H1.
  assert (Hz : (0 < inject_Z n)%Q) by (unfold Qlt; cbn; lia).
  assert (Hq0 : (0 <= this q)%Q).
  { rewrite Heq. apply Qmult_le_0_compat; [exact H0|].
    now apply Qlt_le_weak. }
  assert (Hqn : (this q < inject_Z n)%Q).
  { rewrite Heq.
    apply Qlt_le_trans with (1 * inject_Z n)%Q;
      [apply Qmult_lt_compat_r; assumption|].
    rewrite Qmult_1_l. apply Qle_refl. }
  unfold Qle in Hq0. unfold Qlt in Hqn. cbn in Hq0, Hqn.
  rewrite Z.mul_1_r in *.
  assert (Hnum : 0 <= Qnum q) by lia.
  rewrite Z.quot_div_nonneg by lia.
  split.
  - apply Z.div_pos; lia.
  - apply Z.div_lt_upper_bound; lia.
Qed.

Lemma mainLoop_failing (randoms : list Qc) :
  Forall (fun random => (0 <= random)%Qc /\ (random < 1)%Qc) randoms ->
  forall j : nat,
    (j <= 6)%nat ->
    exists sleeps,
      mainLoop (failing randoms) (Go.float_of_int (2 ^ Z.of_nat j))
      = (sleeps,
         Go.float_of_int (2 ^ Z.of_nat (Nat.min (j + length randoms) 6)))
      /\ length sleeps = length randoms
      /\ forall (i : nat) d,
           sleeps !! i = Some d ->
           exists seconds,
             d = seconds * Second
             /\ 0 <= seconds < 2 ^ Z.of_nat (Nat.min (j + i) 6).
Proof.
  induction 1 as [|random randoms [H0 H1] _ IH]; intros j Hj.
  - exists []. cbn. rewrite Nat.add_0_r, Nat.min_l by lia.
    split_and!; auto. intros i d Hd. destruct i; discriminate.
  - cbn [failing map mainLoop turn]. fold (failing randoms).
    rewrite float_of_int_lt.
    assert (Hpow : 0 < 2 ^ Z.of_nat j) by (apply Z.pow_pos_nonneg; lia).
    pose proof (int64_of_float_bound random _ H0 H1 Hpow) as Hbound.
    assert (H64 : 2 ^ Z.of_nat j <= 64).
    { change 64 with (2 ^ Z.of_nat 6). apply Z.pow_le_mono_r; lia. }
    set (next := if 2 ^ Z.of_nat j <? 64
                 then (Go.float_of_int (2 ^ Z.of_nat j) * Go.float_of_int 2)%Qc
                 else Go.float_of_int (2 ^ Z.of_nat j)).
    assert (Hnext : next
                    = Go.float_of_int (2 ^ Z.of_nat (Nat.min (j + 1) 6))).
    { subst next. destruct (Z.ltb_spec (2 ^ Z.of_nat j) 64) as [Hlt|Hge].
      - assert (j < 6)%nat.
        { destruct (Nat.lt_ge_cases j 6) as [|Hge]; [assumption|].
          assert (j = 6%nat) as -> by lia. cbn in Hlt. lia. }
        rewrite float_of_int_mul, Nat.min_l by lia.
        f_equal. rewrite Nat2Z.inj_add, Z.pow_add_r by lia. reflexivity.
      - assert (j = 6%nat) as ->.
        { destruct (Nat.lt_ge_cases j 6) as [Hlt|]; [|lia].
          assert (2 ^ Z.of_nat j < 2 ^ Z.of_nat 6)
            by (apply Z.pow_lt_mono_r; lia).
          change (2 ^ Z.of_nat 6) with 64 in *. lia. }
        reflexivity. }
    rewrite Hnext.
    destruct (IH (Nat.min (j + 1) 6)) as (sleeps & -> & Hlen & Hsleeps);
      [lia|].
    eexists. split; [|split].
    + f_equal. f_equal. f_equal. cbn [length]. lia.
    + cbn [length]. now rewrite Hlen.
    + intros [|i] d Hd.
      * injection Hd as <-. rewrite Nat.add_0_r, Nat.min_l by lia.
        exists (int64_of_float (random * Go.float_of_int (2 ^ Z.of_nat j))%Qc).
        split; [|exact Hbound].
        apply wrap64_small. unfold Second. lia.
      * cbn in Hd. destruct (Hsleeps i d Hd) as (seconds & -> & Hsec).
        exists seconds. split; [reflexivity|].
        replace (Nat.min (j + S i) 6) with (Nat.min (Nat.min (j + 1) 6 + i) 6)
          by lia.
        exact Hsec.
Qed.

(** X26: from [sleepTime = 1] (the value at the start and after every
    success), a run of failures of [processRun] leaves [sleepTime] at
    [2^k] for [k] failures, and at 64 from the sixth on; the sleep after
    the [i]-th failure (counting from 0) is a whole number of seconds
    below [2^i], and below 64 from the sixth on.  The first failure is
    followed by no sleep at all. *)
Theorem main_backoff (randoms : list Qc) :
  Forall (fun random => (0 <= random)%Qc /\ (random < 1)%Qc) randoms ->
  exists sleeps,
    mainLoop (failing randoms) (Go.float_of_int 1)
    = (sleeps, Go.float_of_int (2 ^ Z.of_nat (Nat.min (length randoms) 6)))
    /\ length sleeps = length randoms
    /\ (forall (i : nat) d,
          sleeps !! i = Some d ->
          exists seconds,
            d = seconds * Second
            /\ 0 <= seconds < 2 ^ Z.of_nat (Nat.min i 6))
    /\ forall d, sleeps !! 0%nat = Some d -> d = 0.
Proof.
  intros Hrandoms.
  destruct (mainLoop_failing randoms Hrandoms 0 ltac:(lia))
    as (sleeps & Hrun & Hlen & Hsleeps).
  exists sleeps. split_and!; auto.
  intros d Hd. destruct (Hsleeps 0%nat d Hd) as (seconds & -> & Hsec).
  cbn in Hsec. assert (seconds = 0) as -> by lia. reflexivity.
Qed.

Lemma main_backoff_witness :
  exists sleeps,
    mainLoop
      (failing [Q2Qc (9 # 10); Q2Qc (9 # 10); Q2Qc (9 # 10)])
      (Go.float_of_int 1)
    = (sleeps, Go.float_of_int 8)
    /\ sleeps !! 0%nat = Some 0.
Proof.
  destruct (main_backoff [Q2Qc (9 # 10); Q2Qc (9 # 10); Q2Qc (9 # 10)])
    as (sleeps & Hrun & _ & _ & Hfirst).
  - repeat constructor; vm_compute; congruence.
  - exists sleeps. split; [exact Hrun|].
    assert (Hsome : exists d, sleeps !! 0%nat = Some d).
    { vm_compute in Hrun. injection Hrun as <-. eexists. reflexivity. }
    destruct Hsome as [d Hd]. rewrite Hd. f_equal. exact (Hfirst d Hd).
Defined.

Lemma received_reader (sizes : list nat) :
  Forall (fun n => (0 < n)%nat) sizes ->
  forall hasRead buf readerChan,
    exists bytes err,
      received sizes (blockingReader.mk hasRead (Some buf) readerChan)
      = Some (bytes, err)
      /\ bytes `prefix_of` buf
      /\ (err = None \/ err = Some EOF /\ bytes = buf)
      /\ ((length buf < length sizes)%nat -> err = Some EOF).
Proof.
  induction 1 as [|n sizes Hn _ IH]; intros hasRead buf readerChan.
  - exists [], None. cbn. split_and!; auto.
    + apply prefix_nil.
    + lia.
  - cbn [received]. unfold Read. cbn [blockingReader.reader].
    destruct buf as [|b buf].
    + cbn [Buffer_Read]. destruct n as [|n]; [lia|].
      exists [], (Some EOF). split_and!; auto.
    + unfold Buffer_Read.
      cbn [blockingReader.hasRead blockingReader.readerChan].
      destruct (IH hasRead (drop n (b :: buf)) readerChan)
        as (more & err & -> & Hprefix & Herr & Hlen).
      cbn [mbind option_bind].
      exists (take n (b :: buf) ++ more), err. split_and!; auto.
      * rewrite <- (take_drop n (b :: buf)) at 2.
        now apply prefix_app.
      * destruct Herr as [->|[-> ->]]; [now left|].
        right. split; [reflexivity | apply take_drop].
      * intros Hshort. apply Hlen. rewrite length_drop.
        cbn [length] in *. lia.
Qed.

(** The read that takes the reader from the channel goes on as a read
    of the result after its brace. *)
Lemma received_second (m : nat) (sizes : list nat) (rest : list ascii) :
  received (m :: sizes)
    (blockingReader.mk true None (Some ("{"%char :: rest)))
  = received (m :: sizes) (blockingReader.mk true (Some rest) None).
Proof. reflexivity. Qed.

(** X27: once [processRun] has sent a result that starts with a brace,
    a client that reads the request body with buffers of any non-zero
    sizes receives the bytes of the result in order, the brace once; it
    never gets [ErrUnexpectedEOF], it has the whole result when it gets
    [EOF], and it gets [EOF] when it reads more often than the result
    has bytes. *)
Theorem requestBody_round_trip (rest : list ascii) (sizes : list nat) :
  Forall (fun n => (0 < n)%nat) sizes ->
  exists bytes err,
    received sizes (requestBody ("{"%char :: rest)) = Some (bytes, err)
    /\ bytes `prefix_of` ("{"%char :: rest)
    /\ (err = None \/ err = Some EOF /\ bytes = "{"%char :: rest)
    /\ ((length rest + 1 < length sizes)%nat -> err = Some EOF).
Proof.
  intros Hsizes. destruct Hsizes as [|n sizes Hn Hsizes].
  { exists [], None. cbn. split_and!; auto; [apply prefix_nil | lia]. }
  cbn [received]. unfold Read at 1, requestBody.
  cbn [blockingReader.reader blockingReader.hasRead negb
       blockingReader.readerChan].
  destruct n as [|n]; [lia|].
  destruct Hsizes as [|m sizes Hm Hsizes].
  { exists ["{"%char], None. cbn. split_and!; auto; [|lia].
    now apply (prefix_app ["{"%char] [] rest), prefix_nil. }
  rewrite received_second.
  destruct (received_reader (m :: sizes) (Forall_cons_2 _ _ _ Hm Hsizes)
              true rest None)
    as (more & err & -> & Hprefix & Herr & Hlen).
  cbn [mbind option_bind].
  exists ("{"%char :: more), err. split_and!; auto.
  - now apply (prefix_app ["{"%char]).
  - destruct Herr as [->|[-> ->]]; [now left | now right].
  - intros Hshort. apply Hlen. cbn [length] in *. lia.
Qed.

Lemma requestBody_round_trip_witness :
  received [1; 2; 4; 4]%nat
    (requestBody (list_ascii_of_string "{}"%string ++ [ascii_of_nat 10]))
  = Some (list_ascii_of_string "{}"%string ++ [ascii_of_nat 10], Some EOF).
Proof.
  destruct (requestBody_round_trip
              (list_ascii_of_string "}"%string ++ [ascii_of_nat 10])
              [1; 2; 4; 4]%nat)
    as (bytes & err & Hrun & _ & [->|[-> ->]] & Heof).
  - repeat constructor.
  - discriminate Heof. cbn. lia.
  - exact Hrun.
Defined.

(** X28: when the result that [processRun] sent does not start with a
    brace (or is empty), the client still receives the brace sent ahead
    and then [ErrUnexpectedEOF]; the first byte of the result is consumed
    by the check. *)
Theorem requestBody_without_brace (resultBytes : list ascii)
    (n m : nat) (sizes : list nat) :
  head resultBytes <> Some "{"%char ->
  (0 < n)%nat -> (0 < m)%nat ->
  received (n :: m :: sizes) (requestBody resultBytes)
  = Some (["{"%char], Some ErrUnexpectedEOF)
  /\ exists r1 r2,
       Read n (requestBody resultBytes) = Returns ["{"%char] None r1
       /\ Read m r1 = Returns [] (Some ErrUnexpectedEOF) r2
       /\ blockingReader.reader r2 = Some (drop 1 resultBytes).
Proof.
  intros Hbrace Hn Hm.
  destruct n as [|n]; [lia|]. destruct m as [|m]; [lia|].
  assert (Hsecond :
            Read (S m)
              (blockingReader.mk true None (Some resultBytes))
            = Returns [] (Some ErrUnexpectedEOF)
                (blockingReader.mk true (Some (drop 1 resultBytes)) None)).
  { unfold Read.
    cbn [blockingReader.reader blockingReader.hasRead negb
         blockingReader.readerChan].
    destruct resultBytes as [|b bytes]; [reflexivity|].
    cbn [Buffer_Read take drop length].
    rewrite (bool_decide_eq_false_2 ([b] = ["{"%char])).
    - now rewrite orb_true_r.
    - intros [= ->]. now apply Hbrace. }
  split.
  - cbn [received]. unfold Read at 1, requestBody.
    cbn [blockingReader.reader blockingReader.hasRead negb
         blockingReader.readerChan].
    now rewrite Hsecond.
  - eexists _, _. split; [reflexivity|]. split; [exact Hsecond|reflexivity].
Qed.

Lemma requestBody_without_brace_witness :
  received [8; 8; 8]%nat (requestBody (list_ascii_of_string "null"%string))
  = Some (["{"%char], Some ErrUnexpectedEOF).
Proof.
  apply (requestBody_without_brace (list_ascii_of_string "null"%string)
           8 8 [8%nat]).
  - cbn. discriminate.
  - lia.
  - lia.
Defined.

End RunnerMainFacts.
